(* ===== verification/_CoqProject ===== *)
-Q . S2P
Prelude.v
Bytes.v
Memory.v
Pci.v
Layout.v
Ahci.v
Fsso.v
Mkfsso.v
TestFsso.v
Storage.v
Console.v
Keyboard.v
Shell.v
Kernel.v
Boot.v
Digest.v
Md5.v
Sha1.v
Crc.v
Hashfn.v
Hashtab.v
Hashset.v
Ctype.v
Argv.v
Libbfd.v
Sort.v
DynString.v
Sha1hw.v
SplayTree.v
Partition.v
Fibheap.v
Obstack.v
