(* ===== verification/Prelude.v ===== *)
(** * A verification library for SimplrOS

    SimplrOS is an x86-64 operating system: a UEFI boot loader, a kernel with
    an AHCI disk driver, a small read-only file system (FSSO), a text console, a
    keyboard and a command shell, and a host tool that builds FSSO images. The
    repository carries the GNU binutils it is built with; the self-contained
    routines of its support library [libiberty] and the integer codecs of
    [bfd/libbfd.c] are modelled as well. Paths below are relative to [src/].

    ** How the parts interact

    [bootloader/bootloader.c] reads [kernel.elf], copies its segments and calls
    [kernel_main] (kernel/kernel.c) with a description of the frame buffer.
    [kernel_main] sets up the heap (memory.c), finds the disk controller on the
    PCI bus (pci.c) and starts it (ahci.c), mounts the file system through
    [ahci_read] (fsso.c) and enters the shell (shell.c), which reads scan codes
    ([read_key] of kernel.c), draws text ([draw_char] of kernel.c over font.h)
    and looks up and reads files through fsso.c. The image those files are in
    was written by tools/mkfsso.c, which shares no code with the reader; that
    they agree on the images [Mkfsso.Repr] describes, and disagree on inodes
    from 13 on, are theorems here.

    ** The library

    Code is translated to functions in the state monad [St W A] of this file,
    with three outcomes: [Done], [Undef] (an access outside an object, signed
    overflow, a wild pointer) and [Hang] (fuel used up). [abort] and [exit] are
    [None] under the notation [x <-? m ;; k]. Machine integers are [Z] with
    their wrap-around written out ([u8], [u32], [i32], ...). Memory is a map
    from addresses to bytes. [wp m Q w] says that [m] returns from [w], with
    neither [Undef] nor [Hang], in [Q]; theorems stated with it or with an
    equation to [Done] are total. Hardware, firmware and callbacks are classes
    of operations ([Hba], [BlockDev], [PortIn], the UEFI services, [Cl] of the
    hash tables, [Malloc], [Chunks] of the obstacks, the SHA instructions
    [Sse]), a second class states their documented behaviour, and each second
    class has a concrete instance that witnesses use.

    - [Prelude]: outcomes, the monad, loops ([cfor], [cloop]) with their rules,
      clients of an abstract data type ([client], [safe], [client_refines]),
      bit fields, lists. [Bytes]: little-endian words, byte memories, their
      extensional equality and automation. [Layout]: packed structures.
    - [Memory]: kernel/memory.c. [kmalloc], [kfree], [memory_init] over an
      offset into the static array.
    - [Pci]: kernel/pci.c, pci.h over port input and output.
    - [Ahci]: kernel/ahci.c, ahci.h, ahci_structs.h over a controller that
      shares memory ([Hba]). [HbaModel] says what a command does on a disk of
      [cap] sectors: within [lat] polls it is complete, or fails if it reaches
      beyond the end; it promises nothing for a malformed command, such as one
      with an odd buffer address. [HbaIdent] says what the registers tell during
      start-up: a port stops within [cmd_lat] reads of its status once the
      driver has cleared ST and FRE, and not otherwise.
    - [Fsso]: kernel/fsso.c, fsso.h over a sector device ([BlockDev]), ideal
      ([BlockDevOk]) or good only for the reads in a given set ([BlockDevOn]).
    - [Storage]: the AHCI driver as the latter.
    - [Mkfsso]: tools/mkfsso.c; [TestFsso]: tools/test_fsso.c.
    - [Console]: kernel/font.h, the drawing functions of kernel.c and shell.c.
      [Keyboard]: the scan code functions of kernel.c. [Shell]: kernel/shell.c,
      shell.h. [Kernel]: [kernel_main].
    - [Boot]: bootloader/bootloader.c and the copy of it in
      SimplrOsPkg/Bootloader/Bootloader.c.
    - binutils-2.42/libiberty with include/: [Digest] (what md5.c and sha1.c
      share), [Md5], [Sha1], [Sha1hw] (the SHA instructions), [Crc] (crc32.c),
      [Hashfn] and [Hashtab] (hashtab.c, hashtab.h, [xcalloc]), [Hashset] (the
      theory of [Hashtab]), [Ctype] (safe-ctype.c, safe-ctype.h), [Argv]
      (argv.c), [Sort] (sort.c), [DynString] (dyn-string.c, dyn-string.h),
      [SplayTree] (splay-tree.c, splay-tree.h), [Partition] (partition.c,
      partition.h), [Fibheap] (fibheap.c, fibheap.h), [Obstack] (obstack.c,
      obstack.h).
    - [Libbfd]: the byte order and LEB128 routines of binutils-2.42/bfd/libbfd.c.

    Definitions bear the names of the C functions; a loop body or a statement
    group that is a definition of its own is named after what it does.

    ** What is proved

    - Storage, end to end: an image represents a list of files ([Mkfsso]);
      [fsso_add_file] appends to the list or fails for exactly the documented
      reasons; every file of an image is found and read back by the kernel's
      reader, directly and through the AHCI driver. The reader refines lookup,
      path walking and copying on the abstract image, with its error codes.
      The driver reads exactly the requested sectors, or returns -1 for those
      beyond the end of the disk, and changes no memory but the buffer and the
      port's own structures, which it keeps in the kernel image; it returns on
      every controller. Its start-up selects a port and makes exactly the
      register accesses that stop, rebase and start it.
    - The machine: the console paints the glyph pixels of the laid-out text;
      the line editor, the parser and each command do what their list-level
      specifications say, and one pass of the command loop composes them; the
      editor paints what is typed, blacks what is erased and draws nothing else;
      [kernel_main] reaches that loop exactly over a mounted file system. The
      boot loader leaves memory as the ELF file prescribes or rejects it.
    - The heap: blocks are aligned, in bounds and pairwise disjoint.
    - Digests and hashes: the streaming interfaces give the RFC 1321 and FIPS
      180 digests of what was fed in, in pieces of any size, SHA-1 also through
      the processor's instructions, whichever path the query of the processor
      selects; the unrolled rounds equal the specifications' loops; the CRC table is the generated one;
      [iterative_hash] is lookup2, its mixer is invertible, and the reduction by
      multiplication is exact.
    - Containers: a session on a hash table answers like a finite set, and
      terminates below the largest size, where a search may hang; a client of
      the dynamic strings sees lists of characters; [sort_pointers] sorts. A
      session on a splay tree, a heap of linked nodes, is one on an ordered
      association list, and the tree disposes of every key and value it was
      given exactly once and leaves no node behind. A session on a partition
      tells the equivalence its unions generate, over circular lists that stay
      well formed. A client of the Fibonacci heaps sees priority queues: after
      any calls the lists, the parents and the marks form a forest in key order
      whose degrees are below the Fibonacci bound, so that the array of the
      consolidation is never overrun and no deletion reaches its [abort]. A
      client of the obstacks sees a stack of byte arrays: objects keep their
      place and content until they are freed, although chunks are replaced
      under the growing one; a chunk is given back when its last object moves
      on, and freeing NULL gives back every chunk.
    - Codecs: the byte order pairs and unsigned LEB128 are round trips, the
      signed LEB128 readers give the two's complement reading of what was
      written, and [writeargv] against the expansion of a response file is a
      round trip for arguments that name no response file themselves.
    - Defects are theorems about the code as it is (overruns, wrapped
      arithmetic, disagreeing tables), never assumptions that remove them.

    ** Bounds and fuel

    - Loops of C with a bound in the code are [cfor] or structural and have no
      fuel; [ahci_read] polls at most [POLL_LIMIT] times as the code does.
    - Spinning on hardware takes fuel above the latency in the device's class
      ([spin_cmd], [wait_key], [kbd_wait]); the line editor takes one turn for
      each scan code; the outer loop of the shell never ends, so its theorem is
      about one pass and [kernel_main] is related to [shell_run] for any fuel.
    - [resolve_loop] takes at most one turn for each byte of the 256-byte copy;
      [copy_loop] and [zero_loop] of the boot loader one for each byte of the
      segment ([elf_fuel]); the stream readers of the digests one for each read
      the file needs.
    - Hash tables: with at most 2147483647 entries and as many turns a probe
      sequence visits every slot. [prime_search] halves 30 entries in 6 turns.
    - A search path of a splay tree of [n] nodes shortens or turns with every
      turn of the splay, which ends within [2 * n + 2] of them; the other loops
      on trees visit a node a turn. The loops of a Fibonacci heap of [N] nodes
      take at most [N + 1] turns, and the 65 entries of its array are enough
      below 44945570212853 nodes, the 67th Fibonacci number. A union follows a class of a partition of
      [n] elements for fewer than [n] turns.
    - The loops over the chunks of an obstack are given a turn for each block
      that is allocated, and one more.
    - A LEB128 value of 64 bits has 10 groups, [bfd_log2] shifts 64 bits, the
      buffer of a dynamic string reaches the limit of [int] in 33 doublings, and
      [buildargv] consumes a character in every turn but the last.
    - Theorems whose fuel is a parameter ask for no more than these numbers.

    ** Not modelled

    - UEFI firmware, the disk controller, the PCI host and the keyboard
      controller: parameters. Build scripts, the linker script and package
      descriptions hold no logic in C.
    - Big-endian hosts for md5.c and sha1.c. [splay_tree_delete_pointers], which
      is [free] on the client's memory.
    - [htab_collisions] (floating point, two debugging counters).
    - The heap under [argv.c]: [freeargv] and running out of memory; blocks are
      values there. Unit tests and drivers under preprocessor guards.
    - The rest of libbfd.c, which allocates from and calls into BFD, and the
      rest of binutils (assembler, linker, disassemblers, object formats):
      third-party tools the system is built with, not part of it.

    Candidates for extension are further self-contained files of libiberty,
    such as the string functions. *)
From stdpp Require Export prelude list gmap fin_maps.
From Stdlib Require Export ZArith Lia.

#[global] Open Scope Z_scope.

(** ** Machine integers *)

(** A [w]-bit unsigned integer is a [Z] in [0, 2^w); C conversions to an
    unsigned type reduce modulo [2^w]. *)
Definition wrap (w z : Z) : Z := z mod 2 ^ w.
Abbreviation u8 := (wrap 8).
Abbreviation u16 := (wrap 16).
Abbreviation u32 := (wrap 32).
Abbreviation u64 := (wrap 64).

(** Signed [w]-bit reinterpretation (two's complement). *)
Definition sext (w z : Z) : Z :=
  let r := z mod 2 ^ w in if r <? 2 ^ (w - 1) then r else r - 2 ^ w.
Abbreviation i32 := (sext 32).

Definition is_byte (b : Z) : Prop := 0 <= b < 256.

#[global] Instance is_byte_dec b : Decision (is_byte b).
Proof. unfold is_byte. apply _. Defined.

Lemma wrap_small w z : 0 <= z < 2 ^ w -> wrap w z = z.
Proof. intros. by apply Z.mod_small. Qed.

Lemma wrap_range w z : 0 <= w -> 0 <= wrap w z < 2 ^ w.
Proof. intros. apply Z.mod_pos_bound. lia. Qed.

Lemma wrap_le w z : 0 <= z -> 0 <= w -> wrap w z <= z.
Proof. intros. apply Z.mod_le; lia. Qed.

Lemma wrap_wrap w z : wrap w (wrap w z) = wrap w z.
Proof. apply Zmod_mod. Qed.

Lemma sext_small w z : 0 < w -> - 2 ^ (w - 1) <= z < 2 ^ (w - 1) -> sext w z = z.
Proof.
  intros Hw Hz. unfold sext.
  assert (H2 : 2 ^ w = 2 * 2 ^ (w - 1)).
  { replace w with (1 + (w - 1)) at 1 by lia. rewrite Z.pow_add_r; lia. }
  destruct (Z.ltb_spec z 0).
  - replace (z mod 2 ^ w) with (z + 2 ^ w).
    + destruct (Z.ltb_spec (z + 2 ^ w) (2 ^ (w - 1))); lia.
    + apply (Z.mod_unique_pos _ _ (-1)); lia.
  - rewrite Z.mod_small by lia. destruct (Z.ltb_spec z (2 ^ (w - 1))); lia.
Qed.

Lemma u32_small z : 0 <= z < 4294967296 -> u32 z = z.
Proof. intros. by apply wrap_small. Qed.

Lemma u64_small z : 0 <= z < 18446744073709551616 -> u64 z = z.
Proof. intros. by apply wrap_small. Qed.

Lemma u8_small z : 0 <= z < 256 -> u8 z = z.
Proof. intros. by apply wrap_small. Qed.

Lemma u8_byte z : is_byte (u8 z).
Proof. unfold is_byte. pose proof (wrap_range 8 z). lia. Qed.

Lemma i32_small z : - 2147483648 <= z < 2147483648 -> i32 z = z.
Proof. intros. by apply sext_small. Qed.

(** Bits above the width of a bounded number are clear. *)
Lemma testbit_high z w i : 0 <= z < 2 ^ w -> 0 <= w <= i -> Z.testbit z i = false.
Proof.
  intros Hz Hi. rewrite <- (Z.mod_small z (2 ^ w)) by done.
  apply Z.mod_pow2_bits_high. lia.
Qed.

Lemma lxor_range a b w : 0 <= w -> 0 <= a < 2 ^ w -> 0 <= b < 2 ^ w -> 0 <= Z.lxor a b < 2 ^ w.
Proof.
  intros Hw Ha Hb. assert (E : Z.lxor a b mod 2 ^ w = Z.lxor a b).
  { apply Z.bits_inj'. intros i Hi. destruct (decide (i < w)).
    - by rewrite Z.mod_pow2_bits_low.
    - rewrite Z.mod_pow2_bits_high by lia.
      by rewrite Z.lxor_spec, (testbit_high a w), (testbit_high b w) by lia. }
  rewrite <- E. apply Z.mod_pos_bound. lia.
Qed.

(** ** Outcomes of C code *)

(** [Done a]: the code returned [a]; [Undef]: it performed an access outside
    an object (undefined behaviour); [Hang]: the fuel given to an unbounded
    loop was used up. *)
Inductive res (A : Type) : Type :=
| Done (a : A)
| Undef
| Hang.
Arguments Done {A} a.
Arguments Undef {A}.
Arguments Hang {A}.

(** Sequencing of code that touches no state. *)
Definition rbind {A B} (r : res A) (f : A -> res B) : res B :=
  match r with
  | Done a => f a
  | Undef => Undef
  | Hang => Hang
  end.

(** Stateful C code over a state [W]. *)
Definition St (W A : Type) : Type := W -> res (A * W).

Section monad.
Context {W : Type}.

Definition ret {A} (a : A) : St W A := fun w => Done (a, w).
Definition undef {A} : St W A := fun _ => Undef.
Definition hang {A} : St W A := fun _ => Hang.

Definition bind {A B} (m : St W A) (f : A -> St W B) : St W B :=
  fun w => match m w with
           | Done (a, w') => f a w'
           | Undef => Undef
           | Hang => Hang
           end.

Definition get : St W W := fun w => Done (w, w).
Definition put (w : W) : St W unit := fun _ => Done (tt, w).
Definition modify (f : W -> W) : St W unit := fun w => Done (tt, f w).
Definition gets {A} (f : W -> A) : St W A := fun w => Done (f w, w).
End monad.

Declare Scope c_scope.
Delimit Scope c_scope with c.
Notation "x <- m ;; k" := (bind m (fun x => k))
  (at level 100, m at next level, right associativity) : c_scope.
Notation "' p <- m ;; k" := (bind m (fun x => match x with p => k end))
  (at level 100, p pattern, m at next level, right associativity) : c_scope.
Notation "m ;;; k" := (bind m (fun _ => k))
  (at level 100, right associativity) : c_scope.
#[global] Open Scope c_scope.

Notation "'let?' x ':=' m 'in' k" := (rbind m (fun x => k))
  (at level 200, x pattern, m at level 200, k at level 200, right associativity) : c_scope.

(** Code that may end the process ([abort], [exit]): [None]. *)
Definition obind {W A B} (m : St W (option A)) (f : A -> St W (option B)) : St W (option B) :=
  bind m (fun x => match x with Some a => f a | None => ret None end).

Notation "x <-? m ;; k" := (obind m (fun x => k))
  (at level 100, m at next level, right associativity) : c_scope.

(** ** Loops *)

(** The body of a loop either goes on with a new loop state or leaves the
    loop ([break] or [return]) with a value. *)
Inductive ctl (S R : Type) : Type :=
| Next (s : S)
| Exit (r : R).
Arguments Next {S R} s.
Arguments Exit {S R} r.

Section loops.
Context {W S R : Type}.

(** [for (i = lo; i < lo + n; i++) body]. *)
Fixpoint cfor (n : nat) (i : Z) (body : Z -> S -> St W (ctl S R)) (s : S)
  : St W (ctl S R) :=
  match n with
  | O => ret (Next s)
  | Datatypes.S n' =>
      x <- body i s ;;
      match x with
      | Next s' => cfor n' (i + 1) body s'
      | Exit r => ret (Exit r)
      end
  end.

(** An unbounded loop with fuel; running out of fuel is [Hang]. *)
Fixpoint cloop (fuel : nat) (body : S -> St W (ctl S R)) (s : S) : St W R :=
  match fuel with
  | O => hang
  | Datatypes.S f =>
      x <- body s ;;
      match x with
      | Next s' => cloop f body s'
      | Exit r => ret r
      end
  end.
End loops.

(** [for] loops whose body has no early exit and no loop-carried value. *)
Definition cfor_ {W} (n : nat) (i : Z) (body : Z -> St W unit) : St W unit :=
  cfor (S := unit) (R := Empty_set) n i (fun i _ => body i ;;; ret (Next tt)) tt ;;;
  ret tt.

Lemma bind_done {W A B} (m : St W A) (f : A -> St W B) w a w' :
  m w = Done (a, w') -> bind m f w = f a w'.
Proof. unfold bind. by intros ->. Qed.

Lemma obind_done {W A B} (m : St W (option A)) (f : A -> St W (option B)) w a w' :
  m w = Done (Some a, w') -> obind m f w = f a w'.
Proof. unfold obind, bind. by intros ->. Qed.

Lemma obind_eq {W A B} (m m' : St W (option A)) (f : A -> St W (option B)) w w' :
  m w = m' w' -> obind m f w = obind m' f w'.
Proof. unfold obind, bind. by intros ->. Qed.

(** ** A weakest-precondition calculus *)

(** [wp m Q w]: from [w] the code returns (no undefined behaviour, no
    exhausted fuel) with a value and a state that satisfy [Q]. *)
Definition wp {W A} (m : St W A) (Q : A -> W -> Prop) (w : W) : Prop :=
  match m w with
  | Done (a, w') => Q a w'
  | _ => False
  end.

Section wp.
Context {W : Type}.

Lemma wp_ret {A} (a : A) Q (w : W) : Q a w -> wp (ret a) Q w.
Proof. done. Qed.

Lemma wp_bind {A B} (m : St W A) (f : A -> St W B) Q (w : W) :
  wp m (fun a w' => wp (f a) Q w') w -> wp (bind m f) Q w.
Proof. unfold wp, bind. by destruct (m w) as [[a w']| |]. Qed.

Lemma wp_bind_inv {A B} (m : St W A) (f : A -> St W B) Q (w : W) :
  wp (bind m f) Q w -> wp m (fun a w' => wp (f a) Q w') w.
Proof. unfold wp, bind. by destruct (m w) as [[a w']| |]. Qed.

Lemma wp_mono {A} (m : St W A) (P Q : A -> W -> Prop) (w : W) :
  wp m P w -> (forall a w', P a w' -> Q a w') -> wp m Q w.
Proof. unfold wp. destruct (m w) as [[a w']| |]; auto. Qed.

Lemma wp_done {A} (m : St W A) Q (w : W) :
  wp m Q w <-> exists a w', m w = Done (a, w') /\ Q a w'.
Proof.
  unfold wp. destruct (m w) as [[a w']| |]; split; intros H.
  - eauto.
  - by destruct H as (? & ? & [= -> ->] & ?).
  - done.
  - by destruct H as (? & ? & ? & ?).
  - done.
  - by destruct H as (? & ? & ? & ?).
Qed.

Lemma wp_eq {A} (m : St W A) Q (w : W) a w' : m w = Done (a, w') -> Q a w' -> wp m Q w.
Proof. unfold wp. by intros ->. Qed.

Lemma wp_get Q (w : W) : Q w w -> wp get Q w.
Proof. done. Qed.

Lemma wp_put Q (w w' : W) : Q tt w' -> wp (put w') Q w.
Proof. done. Qed.

Lemma wp_modify (f : W -> W) Q (w : W) : Q tt (f w) -> wp (modify f) Q w.
Proof. done. Qed.

Lemma wp_gets {A} (f : W -> A) Q (w : W) : Q (f w) w -> wp (gets f) Q w.
Proof. done. Qed.

(** The invariant rule: [I i s w] holds when iteration [i] starts. *)
Lemma wp_cfor {S R} (I : Z -> S -> W -> Prop) (Q : ctl S R -> W -> Prop)
    n lo body s w :
  I lo s w ->
  (forall i s w, lo <= i < lo + Z.of_nat n -> I i s w ->
     wp (body i s) (fun x w' => match x with
                               | Next s' => I (i + 1) s' w'
                               | Exit r => Q (Exit r) w'
                               end) w) ->
  (forall s w, I (lo + Z.of_nat n) s w -> Q (Next s) w) ->
  wp (cfor n lo body s) Q w.
Proof.
  revert lo s w. induction n as [|n IH]; intros lo s w HI Hb HQ; simpl.
  - apply wp_ret, HQ. by rewrite Z.add_0_r.
  - apply wp_bind. eapply wp_mono; [apply Hb; [lia|done]|].
    intros [s'|r] w' H; [|by apply wp_ret].
    apply IH; [done| |].
    + intros i s2 w2 Hi. apply Hb. lia.
    + intros s2 w2 HI2. apply HQ. replace (lo + Z.of_nat (Datatypes.S n))
        with (lo + 1 + Z.of_nat n) by lia. done.
Qed.

Lemma wp_cfor_ (I : Z -> W -> Prop) (Q : unit -> W -> Prop) n lo body w :
  I lo w ->
  (forall i w, lo <= i < lo + Z.of_nat n -> I i w ->
     wp (body i) (fun _ w' => I (i + 1) w') w) ->
  (forall w, I (lo + Z.of_nat n) w -> Q tt w) ->
  wp (cfor_ n lo body) Q w.
Proof.
  intros H0 Hb HQ. unfold cfor_. apply wp_bind.
  eapply wp_mono.
  - apply (wp_cfor (fun i _ => I i) (fun _ w => Q tt w)); [done| |by auto].
    intros i [] w1 Hi HI. apply wp_bind. eapply wp_mono; [by apply Hb|].
    intros x w2 HI2. by apply wp_ret.
  - intros x w1 HQ1. by apply wp_ret.
Qed.

(** Termination of an unbounded loop: a variant [V] bounded by the fuel. *)
Lemma wp_cloop {S R} (I : S -> W -> Prop) (V : S -> W -> nat) (Q : R -> W -> Prop)
    fuel body s w :
  I s w -> (V s w < fuel)%nat ->
  (forall s w, I s w ->
     wp (body s) (fun x w' => match x with
                              | Next s' => I s' w' /\ (V s' w' < V s w)%nat
                              | Exit r => Q r w'
                              end) w) ->
  wp (cloop fuel body s) Q w.
Proof.
  revert s w. induction fuel as [|f IH]; intros s w HI HV Hb; [lia|]. simpl.
  apply wp_bind. eapply wp_mono; [by apply Hb|].
  intros [s'|r] w' H; [|by apply wp_ret].
  destruct H as [HI' HV']. apply IH; [done|lia|done].
Qed.
End wp.

(** Every iteration of a [for] loop that ends was itself run to its end. *)
Lemma cfor__iter {W} n lo (body : Z -> St W unit) (w : W) r i :
  cfor_ n lo body w = Done r -> lo <= i < lo + Z.of_nat n ->
  exists w1 r1, body i w1 = Done r1.
Proof.
  unfold cfor_. revert lo w. induction n as [|n IH]; intros lo w Hr Hi; [lia|].
  cbn [cfor] in Hr. unfold bind at 1 2 3 in Hr. destruct (body lo w) as [[[] w']| |] eqn:E; [|done..].
  destruct (decide (i = lo)) as [-> |]; [by exists w, (tt, w')|].
  apply (IH (lo + 1) w'); [|lia]. unfold bind, ret in Hr |- *. done.
Qed.

(** ** Allocation *)

(** An address after those in use. *)
Definition bump {A} (m : gmap Z A) : Z := 1 + foldr Z.max 0 (map_to_list m).*1.

Lemma bump_fresh {A} (m : gmap Z A) : bump m <> 0 /\ m !! bump m = None.
Proof.
  assert (H0 : forall l, 0 <= foldr Z.max 0 l) by (intros l; induction l; cbn; lia).
  assert (Hm : forall l x, x ∈ l -> x <= foldr Z.max 0 l).
  { intros l x. induction l as [|y l IH]; [by intros ?%elem_of_nil|]. cbn. intros [->|Hx]%elem_of_cons; [lia|]. specialize (IH Hx). lia. }
  unfold bump. split; [specialize (H0 (map_to_list m).*1); lia|].
  apply eq_None_not_Some. intros [n Hn]. apply elem_of_map_to_list in Hn.
  assert (Hin : 1 + foldr Z.max 0 (map_to_list m).*1 ∈ (map_to_list m).*1)
    by (apply list_elem_of_fmap; by exists (1 + foldr Z.max 0 (map_to_list m).*1, n)).
  specialize (Hm _ _ Hin). lia.
Qed.

(** ** Clients of an abstract data type *)

(** The outcome [Q], unless the process ended, in [E]. *)
Definition unless {W A} (E : W -> Prop) (Q : A -> W -> Prop) (r : option A) (w : W) : Prop :=
  match r with Some a => Q a w | None => E w end.

Section client.
Context {Op Out W A : Type}.

(** A client chooses its next call by what the last one returned. *)
Inductive client :=
| Stop
| Do (o : Op) (k : Out -> client).

Context (run : Op -> St W (option Out)) (spec : A -> Op -> option (Out -> A -> Prop)).

Fixpoint run_client (c : client) : St W (option unit) :=
  match c with
  | Stop => ret (Some tt)
  | Do o k => r <-? run o ;; run_client (k r)
  end.

(** What a call may return and leave is [spec a o], [None] when the call is not
    allowed: every call of the client is allowed, and it ends in [Q]. *)
Fixpoint safe (c : client) (a : A) (Q : A -> Prop) : Prop :=
  match c with
  | Stop => Q a
  | Do o k =>
      match spec a o with
      | Some post => forall r a', post r a' -> safe (k r) a' Q
      | None => False
      end
  end.

Lemma safe_mono c a (Q Q' : A -> Prop) : (forall a, Q a -> Q' a) -> safe c a Q -> safe c a Q'.
Proof.
  intros HQ. revert a. induction c as [|o k IH]; intros a; cbn [safe]; [apply HQ|].
  destruct (spec a o); [|done]. intros Hs r a' Hp. by apply IH, Hs.
Qed.

(** If every call keeps the relation [Rel] to the abstract state, so does a client. *)
Lemma client_refines (E : W -> Prop) (Rel : W -> A -> Prop) :
  (forall o w a post, Rel w a -> spec a o = Some post ->
     wp (run o) (unless E (fun r w' => exists a', post r a' /\ Rel w' a')) w) ->
  forall c w a Q, Rel w a -> safe c a Q ->
  wp (run_client c) (unless E (fun _ w' => exists a', Rel w' a' /\ Q a')) w.
Proof.
  intros Hop c. induction c as [|o k IH]; intros w a Q HR Hs; cbn [safe run_client] in *.
  - apply wp_ret. by exists a.
  - destruct (spec a o) as [post|] eqn:Es; [|done]. apply wp_bind. eapply wp_mono; [by apply (Hop o w a post)|].
    intros [r|] w'; cbn [unless]; [|intros HE; by apply wp_ret]. intros (a' & Hp & HR'). apply (IH r w' a'); [done|by apply Hs].
Qed.
End client.
Arguments client : clear implicits.

(** ** Bit fields *)

(** [hi | lo] is [hi + lo] when the low [k] bits of [hi] are clear. *)
Lemma lor_disj hi lo k :
  0 <= k -> 0 <= lo < 2 ^ k -> hi mod 2 ^ k = 0 -> Z.lor hi lo = hi + lo.
Proof.
  intros Hk Hlo Hhi.
  assert (H0 : Z.land hi lo = 0).
  { apply Z.bits_inj'; intros i Hi; rewrite Z.land_spec, Z.bits_0.
    destruct (decide (i < k));
      [|by rewrite (testbit_high lo k), andb_false_r by lia].
    replace hi with (hi / 2 ^ k * 2 ^ k)
      by (pose proof (Z.div_mod hi (2 ^ k)); pose proof (Z.pow_pos_nonneg 2 k); lia).
    by rewrite Z.mul_pow2_bits_low by lia. }
  by rewrite Z.add_nocarry_lxor, Z.lxor_lor by done.
Qed.

Lemma lor_shiftl hi lo k :
  0 <= k -> 0 <= lo < 2 ^ k -> Z.lor (Z.shiftl hi k) lo = hi * 2 ^ k + lo.
Proof.
  intros Hk Hlo. rewrite Z.shiftl_mul_pow2 by done.
  apply lor_disj with k; [done..|]. apply Z.mod_mul.
  pose proof (Z.pow_pos_nonneg 2 k). lia.
Qed.

(** ** Searching loops *)

(** All pairs, in row order. *)
Definition grid {A B} (xs : list A) (ys : list B) : list (A * B) :=
  flat_map (fun x => map (pair x) ys) xs.

Lemma head_omap_grid {A B C} (g : A * B -> option C) (xs : list A) (ys : list B) :
  head (omap (fun x => head (omap (fun y => g (x, y)) ys)) xs) = head (omap g (grid xs ys)).
Proof.
  induction xs as [|x xs IH]; [done|]. cbn [grid flat_map omap list_omap].
  fold (grid xs ys). rewrite omap_app.
  replace (omap g (map (pair x) ys)) with (omap (fun y => g (x, y)) ys).
  2: { clear. induction ys as [|y ys IH]; [done|]. cbn. destruct (g (x, y)); by rewrite IH. }
  destruct (omap (fun y => g (x, y)) ys) as [|c l]; [exact IH|done].
Qed.

Lemma omap_if {A B} (p : A -> bool) (v : A -> B) (l : list A) :
  omap (fun x => if p x then Some (v x) else None) l = v <$> filter p l.
Proof.
  induction l as [|x l IH]; [done|]. rewrite filter_cons. cbn [omap list_omap].
  destruct (p x); [exact (f_equal (cons (v x)) IH)|exact IH].
Qed.

(** A loop that exits with [f i] at the first [i] where it is defined, while
    the state satisfies [I]. *)
Lemma wp_cfor_search {W R} (I : W -> Prop) (f : Z -> option R) n lo
    (body : Z -> unit -> St W (ctl unit R)) w :
  I w ->
  (forall i w, lo <= i < lo + Z.of_nat n -> I w ->
     wp (body i tt) (fun x w' => I w' /\
       x = match f i with Some r => Exit r | None => Next tt end) w) ->
  wp (cfor n lo body tt) (fun x w' => I w' /\
    x = match head (omap f (seqZ lo (Z.of_nat n))) with
        | Some r => Exit r | None => Next tt end) w.
Proof.
  revert lo w. induction n as [|n IH]; intros lo w HI Hb; cbn [cfor].
  - by apply wp_ret.
  - rewrite seqZ_cons by lia.
    replace (Z.pred (Z.of_nat (Datatypes.S n))) with (Z.of_nat n) by lia.
    rewrite <- Z.add_1_r. apply wp_bind. eapply wp_mono; [apply Hb; [lia|done]|].
    intros x w' [HI' ->]. cbn. destruct (f lo) as [r|]; [by apply wp_ret|].
    apply IH; [done|]. intros i w2 Hi. apply Hb. lia.
Qed.

(** ** Testing one bit *)

Lemma land_bit v i : 0 <= i -> (Z.land v (Z.shiftl 1 i) =? 0) = negb (Z.testbit v i).
Proof.
  intros Hi. assert (Hb : Z.land v (Z.shiftl 1 i) = if Z.testbit v i then 2 ^ i else 0).
  { rewrite Z.shiftl_1_l. apply Z.bits_inj'. intros j Hj. rewrite Z.land_spec.
    destruct (decide (j = i)) as [->|Hne].
    - rewrite Z.pow2_bits_true, andb_true_r by done.
      destruct (Z.testbit v i); [by rewrite Z.pow2_bits_true|by rewrite Z.bits_0].
    - rewrite Z.pow2_bits_false, andb_false_r by done.
      destruct (Z.testbit v i); [by rewrite Z.pow2_bits_false|by rewrite Z.bits_0]. }
  rewrite Hb. destruct (Z.testbit v i); [|done].
  apply Z.eqb_neq. pose proof (Z.pow_pos_nonneg 2 i). lia.
Qed.

Lemma omap_map {T U V} (h : T -> U) (k : U -> option V) xs :
  omap k (map h xs) = omap (k ∘ h) xs.
Proof. induction xs as [|x xs IH]; [done|]. cbn. destruct (k (h x)); by rewrite IH. Qed.

(** ** Lists *)

Lemma filter_ext_in_list {A} (P Q : A -> Prop) `{!forall x, Decision (P x), !forall x, Decision (Q x)} (l : list A) :
  (forall x, x ∈ l -> P x <-> Q x) -> filter P l = filter Q l.
Proof.
  induction l as [|x l IH]; intros Hx; [done|]. rewrite !filter_cons.
  rewrite IH by set_solver. specialize (Hx x ltac:(set_solver)).
  repeat case_decide; tauto.
Qed.

(** ** A part of the state *)

(** Run code over a component of the state. *)
Definition zoom {S T A} (proj : S -> T) (upd : T -> S -> S) (m : St T A) : St S A := fun s =>
  match m (proj s) with
  | Done (a, t) => Done (a, upd t s)
  | Undef => Undef
  | Hang => Hang
  end.

Lemma wp_zoom {S T A} (proj : S -> T) (upd : T -> S -> S) (m : St T A) (Q : A -> S -> Prop) s :
  wp m (fun a t => Q a (upd t s)) (proj s) -> wp (zoom proj upd m) Q s.
Proof. unfold wp, zoom. by destruct (m (proj s)) as [[a t]| |]. Qed.

(** The pieces of a list between the occurrences of a separator. *)
Fixpoint segments (sep : Z) (p : list Z) : list (list Z) :=
  match p with
  | [] => [[]]
  | c :: p' =>
      if c =? sep then [] :: segments sep p'
      else match segments sep p' with
           | s :: ss => (c :: s) :: ss
           | [] => [[c]]
           end
  end.

Lemma segments_cons sep p : exists s ss, segments sep p = s :: ss.
Proof.
  induction p as [|c p (s & ss & E)]; cbn [segments]; [by eauto|].
  rewrite E. destruct (c =? sep); by eauto.
Qed.

Lemma segments_no_sep sep p : Forall (fun s => sep ∉ s) (segments sep p).
Proof.
  induction p as [|x p IH]; cbn [segments]; [by repeat constructor; apply not_elem_of_nil|].
  destruct (Z.eqb_spec x sep) as [_|Hx].
  - constructor; [by apply not_elem_of_nil|done].
  - destruct (segments sep p) as [|s ss]; [repeat constructor; set_solver|].
    apply Forall_cons_1 in IH as [H1 H2]. constructor; [set_solver|done].
Qed.
