(* ===== verification/Bytes.v ===== *)
(** Bytes in memory: little-endian words, and byte-addressed memories with
    range reads and writes.  Physical RAM, disk images and files are all
    values of [mem]; the C struct overlays of the source become loads and
    stores at field offsets. *)
From S2P Require Import Prelude.

(** ** Little-endian words *)

Fixpoint le_enc (n : nat) (v : Z) : list Z :=
  match n with
  | O => []
  | S n' => v mod 256 :: le_enc n' (v / 256)
  end.

Fixpoint le_dec (bs : list Z) : Z :=
  match bs with
  | [] => 0
  | b :: bs' => b + 256 * le_dec bs'
  end.

Lemma length_le_enc n v : length (le_enc n v) = n.
Proof. revert v. induction n as [|n IH]; intros v; simpl; [done|by rewrite IH]. Qed.

Lemma le_enc_bytes n v : Forall is_byte (le_enc n v).
Proof.
  revert v. induction n as [|n IH]; intros v; simpl; constructor; [|done].
  unfold is_byte. pose proof (Z.mod_pos_bound v 256). lia.
Qed.

Lemma le_dec_enc n v : le_dec (le_enc n v) = v mod 256 ^ Z.of_nat n.
Proof.
  revert v. induction n as [|n IH]; intros v; cbn [le_enc le_dec]; [by rewrite Z.mod_1_r|].
  rewrite IH, Nat2Z.inj_succ, Z.pow_succ_r by lia.
  rewrite Z.rem_mul_r by (try apply Z.pow_nonzero; lia). lia.
Qed.

Lemma le_dec_bound bs :
  Forall is_byte bs -> 0 <= le_dec bs < 256 ^ Z.of_nat (length bs).
Proof.
  induction 1 as [|b bs Hb _ IH]; cbn [le_dec length]; [lia|].
  unfold is_byte in Hb. rewrite Nat2Z.inj_succ, Z.pow_succ_r by lia. lia.
Qed.

Lemma le_enc_dec bs : Forall is_byte bs -> le_enc (length bs) (le_dec bs) = bs.
Proof.
  induction 1 as [|b bs Hb _ IH]; simpl; [done|].
  unfold is_byte in Hb. rewrite (Z.mul_comm 256), Z.mod_add, Z.mod_small by lia.
  rewrite Z.div_add, Z.div_small by lia. by rewrite Z.add_0_l, IH.
Qed.

Lemma le_dec_inj bs1 bs2 :
  Forall is_byte bs1 -> Forall is_byte bs2 -> length bs1 = length bs2 ->
  le_dec bs1 = le_dec bs2 -> bs1 = bs2.
Proof.
  intros H1 H2 Hl He. rewrite <- (le_enc_dec bs1), <- (le_enc_dec bs2) by done.
  by rewrite Hl, He.
Qed.

Lemma le_dec_zeros n : le_dec (replicate n 0) = 0.
Proof. induction n as [|n IH]; simpl; lia. Qed.

Lemma le_dec_app bs1 bs2 :
  le_dec (bs1 ++ bs2) = le_dec bs1 + 256 ^ Z.of_nat (length bs1) * le_dec bs2.
Proof.
  induction bs1 as [|b bs1 IH]; [simpl; lia|].
  cbn [app le_dec length]. rewrite IH, Nat2Z.inj_succ, Z.pow_succ_r by lia. lia.
Qed.

(** ** Byte memories *)

(** A memory maps addresses to bytes; an address without an entry reads 0, as
    in memory obtained from [calloc] and in a zero-filled image.  An unknown
    initial content is an arbitrary [mem]. *)
Abbreviation mem := (gmap Z Z).

Definition mget (m : mem) (a : Z) : Z := default 0 (m !! a).
Definition mput (m : mem) (a v : Z) : mem := <[a := v]> m.

Fixpoint mputs (m : mem) (a : Z) (bs : list Z) : mem :=
  match bs with
  | [] => m
  | b :: bs' => mputs (mput m a b) (a + 1) bs'
  end.

Fixpoint mgets (m : mem) (a : Z) (n : nat) : list Z :=
  match n with
  | O => []
  | S n' => mget m a :: mgets m (a + 1) n'
  end.

(** An [n]-byte little-endian load and store. *)
Definition mld (n : nat) (m : mem) (a : Z) : Z := le_dec (mgets m a n).
Definition mst (n : nat) (m : mem) (a v : Z) : mem := mputs m a (le_enc n v).

Definition mem_ok (m : mem) : Prop := forall a, is_byte (mget m a).

Lemma mget_mput m a v x : mget (mput m a v) x = if decide (x = a) then v else mget m x.
Proof.
  unfold mget, mput. destruct (decide (x = a)) as [->|Hne].
  - by rewrite lookup_insert_eq.
  - by rewrite lookup_insert_ne.
Qed.

Lemma mget_mputs m a bs x :
  mget (mputs m a bs) x =
  if decide (a <= x < a + Z.of_nat (length bs)) then bs !!! Z.to_nat (x - a) else mget m x.
Proof.
  revert m a. induction bs as [|b bs IH]; intros m a; simpl.
  - rewrite decide_False by lia. done.
  - rewrite IH, mget_mput.
    destruct (decide (x = a)) as [->|Hne].
    + rewrite decide_False, decide_True by lia. by rewrite Z.sub_diag.
    + destruct (decide (a + 1 <= x < a + 1 + Z.of_nat (length bs))).
      * rewrite decide_True by lia.
        replace (Z.to_nat (x - a)) with (S (Z.to_nat (x - (a + 1)))) by lia. done.
      * rewrite decide_False by lia. done.
Qed.

Lemma mget_mputs_out m a bs x :
  x < a \/ a + Z.of_nat (length bs) <= x -> mget (mputs m a bs) x = mget m x.
Proof. intros. rewrite mget_mputs, decide_False by lia. done. Qed.

Lemma mget_mputs_in m a bs x b :
  a <= x -> bs !! Z.to_nat (x - a) = Some b -> mget (mputs m a bs) x = b.
Proof.
  intros Hx Hb. rewrite mget_mputs, decide_True.
  - by apply list_lookup_total_correct.
  - apply lookup_lt_Some in Hb. lia.
Qed.

Lemma length_mgets m a n : length (mgets m a n) = n.
Proof. revert a. induction n as [|n IH]; intros a; simpl; [done|by rewrite IH]. Qed.

Lemma mgets_lookup m a n i :
  (i < n)%nat -> mgets m a n !! i = Some (mget m (a + Z.of_nat i)).
Proof.
  revert a i. induction n as [|n IH]; intros a i Hi; [lia|].
  destruct i as [|i]; simpl; [by rewrite Z.add_0_r|].
  rewrite IH by lia. do 2 f_equal. lia.
Qed.

Lemma mgets_ext m1 m2 a1 a2 n :
  (forall i, 0 <= i < Z.of_nat n -> mget m1 (a1 + i) = mget m2 (a2 + i)) ->
  mgets m1 a1 n = mgets m2 a2 n.
Proof.
  intros H. apply list_eq_same_length with n; rewrite ?length_mgets; [done..|].
  intros i x y Hi. rewrite !mgets_lookup by done. intros [= <-] [= <-]. apply H. lia.
Qed.

Lemma mgets_app m a n1 n2 :
  mgets m a (n1 + n2) = mgets m a n1 ++ mgets m (a + Z.of_nat n1) n2.
Proof.
  revert a. induction n1 as [|n1 IH]; intros a; simpl; [by rewrite Z.add_0_r|].
  rewrite IH. do 3 f_equal. lia.
Qed.

Lemma mputs_app m a l1 l2 : mputs m a (l1 ++ l2) = mputs (mputs m a l1) (a + Z.of_nat (length l1)) l2.
Proof.
  revert m a. induction l1 as [|b l1 IH]; intros m a; cbn [app mputs length]; [by rewrite Z.add_0_r|].
  rewrite IH. f_equal. lia.
Qed.

Lemma mput_mputs_comm m p bs a v :
  a < p \/ p + Z.of_nat (length bs) <= a -> mputs (mput m a v) p bs = mput (mputs m p bs) a v.
Proof.
  revert m p. induction bs as [|b bs IH]; intros m p H; [done|]. cbn [mputs length] in *.
  unfold mput at 1 2. rewrite insert_insert_ne by lia. apply (IH (mput m p b)). lia.
Qed.

Lemma shl_byte b s : is_byte b -> 0 <= s <= 24 -> u32 (Z.shiftl b s) = b * 2 ^ s.
Proof.
  intros Hb Hs. unfold is_byte in Hb. rewrite Z.shiftl_mul_pow2 by lia.
  pose proof (Z.pow_pos_nonneg 2 s ltac:(lia) ltac:(lia)).
  pose proof (Z.pow_le_mono_r 2 s 24 ltac:(lia) ltac:(lia)). apply wrap_small. nia.
Qed.

(** A range read at offsets from its start. *)
Lemma mgets_offs m k n : mgets m k n = map (fun i => mget m (k + i)) (seqZ 0 (Z.of_nat n)).
Proof.
  apply list_eq_same_length with n.
  - by rewrite length_map, length_seqZ, Nat2Z.id.
  - by rewrite length_mgets.
  - intros i x y Hi Hx Hy. rewrite mgets_lookup in Hx by done.
    apply list_lookup_fmap_Some in Hy as (j & -> & [-> _]%lookup_seqZ). rewrite Z.add_0_l in *. congruence.
Qed.

Lemma mgets_mputs_same m a bs : mgets (mputs m a bs) a (length bs) = bs.
Proof.
  apply list_eq_same_length with (length bs); rewrite ?length_mgets; [done..|].
  intros i x y Hi. rewrite mgets_lookup by done. intros [= <-] Hy.
  apply mget_mputs_in; [lia|]. by replace (Z.to_nat _) with i by lia.
Qed.

Lemma mgets_mputs_disj m a bs b n :
  b + Z.of_nat n <= a \/ a + Z.of_nat (length bs) <= b ->
  mgets (mputs m a bs) b n = mgets m b n.
Proof. intros H. apply mgets_ext. intros i Hi. apply mget_mputs_out. lia. Qed.

Lemma mgets_mputs_sub m a bs b n :
  a <= b -> b + Z.of_nat n <= a + Z.of_nat (length bs) ->
  mgets (mputs m a bs) b n = take n (drop (Z.to_nat (b - a)) bs).
Proof.
  intros H1 H2.
  apply list_eq_same_length with n; rewrite ?length_mgets, ?length_take, ?length_drop; [lia..|].
  intros i x y Hi. rewrite mgets_lookup by done. intros [= <-].
  rewrite lookup_take_lt, lookup_drop by lia. intros Hy.
  apply mget_mputs_in; [lia|]. rewrite <- Hy. f_equal. lia.
Qed.

Lemma mgets_bytes m a n : mem_ok m -> Forall is_byte (mgets m a n).
Proof. intros H. revert a. induction n as [|n IH]; intros a; simpl; constructor; auto. Qed.

Lemma mem_ok_mput m a v : mem_ok m -> is_byte v -> mem_ok (mput m a v).
Proof. intros Hm Hv x. rewrite mget_mput. case_decide; auto. Qed.

Lemma mem_ok_mputs m a bs : mem_ok m -> Forall is_byte bs -> mem_ok (mputs m a bs).
Proof.
  intros Hm Hb. revert m a Hm. induction Hb; intros m a Hm; simpl; [done|].
  by auto using mem_ok_mput.
Qed.

Lemma mem_ok_empty : mem_ok ∅.
Proof. intros a. unfold mget. rewrite lookup_empty. simpl. unfold is_byte. lia. Qed.

Lemma mem_ok_mst n m a v : mem_ok m -> mem_ok (mst n m a v).
Proof. intros. apply mem_ok_mputs; [done|apply le_enc_bytes]. Qed.

Lemma mld_range n m a : mem_ok m -> 0 <= mld n m a < 256 ^ Z.of_nat n.
Proof.
  intros. unfold mld. pose proof (le_dec_bound (mgets m a n)) as H1.
  rewrite length_mgets in H1. by apply H1, mgets_bytes.
Qed.

Lemma mld_mst_same n m a v : mld n (mst n m a v) a = v mod 256 ^ Z.of_nat n.
Proof.
  unfold mld, mst. rewrite <- (length_le_enc n v) at 2.
  rewrite mgets_mputs_same. apply le_dec_enc.
Qed.

Lemma mld_mst_disj n k m a b v :
  b + Z.of_nat n <= a \/ a + Z.of_nat k <= b ->
  mld n (mst k m a v) b = mld n m b.
Proof. intros. unfold mld, mst. rewrite mgets_mputs_disj; [done|]. by rewrite length_le_enc. Qed.

Lemma mld_mputs_disj n m a b bs :
  b + Z.of_nat n <= a \/ a + Z.of_nat (length bs) <= b ->
  mld n (mputs m a bs) b = mld n m b.
Proof. intros. unfold mld. by rewrite mgets_mputs_disj. Qed.

Lemma mgets_mst_disj n k m a b v :
  b + Z.of_nat n <= a \/ a + Z.of_nat k <= b ->
  mgets (mst k m a v) b n = mgets m b n.
Proof. intros. unfold mst. apply mgets_mputs_disj. by rewrite length_le_enc. Qed.

Lemma mget_mst_out k m a x v :
  x < a \/ a + Z.of_nat k <= x -> mget (mst k m a v) x = mget m x.
Proof. intros. unfold mst. apply mget_mputs_out. by rewrite length_le_enc. Qed.

Lemma mget_mput_eq m a v : mget (mput m a v) a = v.
Proof. by rewrite mget_mput, decide_True. Qed.

Lemma mget_mput_ne m a v x : x <> a -> mget (mput m a v) x = mget m x.
Proof. intros. by rewrite mget_mput, decide_False. Qed.

Lemma mld_mput_disj n m a b v :
  b + Z.of_nat n <= a \/ a + 1 <= b -> mld n (mput m a v) b = mld n m b.
Proof. intros H. apply (mld_mputs_disj n m a b [v]). simpl. lia. Qed.

Lemma mld_mputs_in n m a b bs :
  a <= b -> b + Z.of_nat n <= a + Z.of_nat (length bs) ->
  mld n (mputs m a bs) b = le_dec (take n (drop (Z.to_nat (b - a)) bs)).
Proof. intros. unfold mld. by rewrite mgets_mputs_sub. Qed.

Lemma mld_zeroed n k m a b :
  a <= b -> b + Z.of_nat n <= a + Z.of_nat k -> mld n (mputs m a (replicate k 0)) b = 0.
Proof.
  intros. rewrite mld_mputs_in by (rewrite ?length_replicate; lia).
  rewrite drop_replicate, take_replicate. apply le_dec_zeros.
Qed.

Lemma mld_1 m a : mld 1 m a = mget m a.
Proof. unfold mld. simpl. lia. Qed.

(** ** Byte images *)

(** The [n] bytes from byte [a] of an image given as a function. *)
Definition img_bytes (img : Z -> Z) (a : Z) (n : nat) : list Z :=
  map img (seqZ a (Z.of_nat n)).

Lemma length_img_bytes img a n : length (img_bytes img a n) = n.
Proof. unfold img_bytes. rewrite length_map, length_seqZ. lia. Qed.

Lemma img_bytes_lookup img a n i :
  (i < n)%nat -> img_bytes img a n !! i = Some (img (a + Z.of_nat i)).
Proof.
  intros Hi. unfold img_bytes. change (map img) with (fmap (M := list) img).
  by rewrite list_lookup_fmap, lookup_seqZ_lt by lia.
Qed.

Lemma img_bytes_ext img1 img2 a1 a2 n :
  (forall i, 0 <= i < Z.of_nat n -> img1 (a1 + i) = img2 (a2 + i)) ->
  img_bytes img1 a1 n = img_bytes img2 a2 n.
Proof.
  intros H. apply list_eq_same_length with n; rewrite ?length_img_bytes; [done..|].
  intros i x y Hi. rewrite !img_bytes_lookup by done. intros [= <-] [= <-]. apply H. lia.
Qed.

Lemma img_bytes_app img a n1 n2 :
  img_bytes img a (n1 + n2) = img_bytes img a n1 ++ img_bytes img (a + Z.of_nat n1) n2.
Proof.
  unfold img_bytes. rewrite <- map_app. f_equal. by rewrite Nat2Z.inj_add, seqZ_app by lia.
Qed.

Lemma img_bytes_sub img a n b k :
  (b + k <= n)%nat ->
  take k (drop b (img_bytes img a n)) = img_bytes img (a + Z.of_nat b) k.
Proof.
  intros H. apply list_eq_same_length with k;
    rewrite ?length_take, ?length_drop, ?length_img_bytes; [lia..|].
  intros i x y Hi. rewrite lookup_take_lt, lookup_drop, !img_bytes_lookup by lia.
  intros [= <-] [= <-]. f_equal. lia.
Qed.

Lemma img_bytes_mget m a n : img_bytes (mget m) a n = mgets m a n.
Proof.
  apply list_eq_same_length with n; rewrite ?length_img_bytes, ?length_mgets; [done..|].
  intros i x y Hi. rewrite img_bytes_lookup, mgets_lookup by done. by intros [= <-] [= <-].
Qed.

Lemma img_bytes_bytes img a n : (forall x, is_byte (img x)) -> Forall is_byte (img_bytes img a n).
Proof. intros H. unfold img_bytes. apply Forall_map, Forall_true. auto. Qed.

(** ** Extensional equality of memories *)

(** Two memories are equivalent when every address reads the same; they can
    differ in addresses that hold an explicit 0. *)
Definition mem_eqv (m1 m2 : mem) : Prop := forall a, mget m1 a = mget m2 a.
Infix "=m=" := mem_eqv (at level 70) : c_scope.

#[export] Instance mem_eqv_equiv : Equivalence mem_eqv.
Proof. split; repeat intro; unfold mem_eqv in *; congruence. Qed.

#[export] Instance mget_proper : Proper (mem_eqv ==> eq ==> eq) mget.
Proof. intros m1 m2 Hm a ? <-. apply Hm. Qed.

#[export] Instance mgets_proper : Proper (mem_eqv ==> eq ==> eq ==> eq) mgets.
Proof. intros m1 m2 Hm a ? <- n ? <-. apply mgets_ext. intros. apply Hm. Qed.

#[export] Instance mld_proper : Proper (eq ==> mem_eqv ==> eq ==> eq) mld.
Proof. intros n ? <- m1 m2 Hm a ? <-. unfold mld. by rewrite Hm. Qed.

#[export] Instance mputs_proper : Proper (mem_eqv ==> eq ==> eq ==> mem_eqv) mputs.
Proof.
  intros m1 m2 Hm a ? <- bs ? <- x. rewrite !mget_mputs. case_decide; [done|apply Hm].
Qed.

#[export] Instance mst_proper : Proper (eq ==> mem_eqv ==> eq ==> eq ==> mem_eqv) mst.
Proof. intros n ? <- m1 m2 Hm a ? <- v ? <-. unfold mst. by rewrite Hm. Qed.

#[export] Instance mem_ok_proper : Proper (mem_eqv ==> iff) mem_ok.
Proof. intros m1 m2 Hm. split; intros H a; [rewrite <- (Hm a)|rewrite (Hm a)]; apply H. Qed.

Lemma mget_zeroed k m a x :
  a <= x -> x + 1 <= a + Z.of_nat k -> mget (mputs m a (replicate k 0)) x = 0.
Proof. intros. rewrite <- mld_1. apply mld_zeroed; lia. Qed.

(** Disjoint writes commute. *)
Lemma mputs_comm m a1 bs1 a2 bs2 :
  a1 + Z.of_nat (length bs1) <= a2 \/ a2 + Z.of_nat (length bs2) <= a1 ->
  mputs (mputs m a1 bs1) a2 bs2 =m= mputs (mputs m a2 bs2) a1 bs1.
Proof. intros H x. rewrite !mget_mputs. repeat case_decide; try lia; done. Qed.

Create HintDb mem.
#[export] Hint Resolve mem_ok_mput mem_ok_mputs mem_ok_mst mem_ok_empty mgets_bytes
  le_enc_bytes u8_byte : mem.
#[export] Hint Rewrite length_mgets length_le_enc @length_app @length_take @length_drop
  @length_replicate : mem.

(** Side conditions on ranges of lists built by the operations above. *)
Ltac len := autorewrite with mem in *; simpl length in *; lia.

(** Reads through a stack of writes at concrete or provably disjoint places. *)
Ltac mem_read :=
  repeat first
    [ rewrite mget_mput_eq
    | rewrite mld_mst_same
    | rewrite mget_mput_ne by lia
    | rewrite mget_mst_out by lia
    | rewrite mget_zeroed by lia
    | rewrite mget_mputs_out by (rewrite ?length_replicate; lia)
    | rewrite mld_mput_disj by lia
    | rewrite mld_mst_disj by lia
    | rewrite mld_zeroed by lia
    | rewrite mld_mputs_disj by (rewrite ?length_replicate; lia) ].
