(* ===== verification/Memory.v ===== *)
(** The kernel heap, [kernel/memory.c]: a bump allocator over a static
    16 MiB array.  A pointer into the array is its offset; NULL is [None]. *)
From S2P Require Import Prelude.

(** ** State and operations *)

Definition HEAP_SIZE : Z := 16 * 1024 * 1024.

(** The static [heap_offset], a [uint32_t]; the bytes of [heap] are not read
    or written by the allocator. *)
Record heap_st := Heap { heap_offset : Z }.

Definition memory_init : St heap_st unit := put (Heap 0).

(** [(size + 7) & ~7] on [uint32_t]. *)
Definition align8 (size : Z) : Z := Z.land (u32 (size + 7)) (u32 (Z.lnot 7)).

Definition kmalloc (size : Z) : St heap_st (option Z) :=
  let size := align8 size in
  off <- gets heap_offset ;;
  if HEAP_SIZE <? u32 (off + size) then ret None
  else put (Heap (u32 (off + size))) ;;; ret (Some off).

Definition kfree (ptr : option Z) : St heap_st unit := ret tt.

(** ** The allocator's contract *)

(** A call of a client. *)
Inductive heap_op := OMalloc (size : Z) | OFree (ptr : option Z).

(** The blocks handed out: start and requested size. *)
Definition block : Type := Z * Z.

Definition heap_step (o : heap_op) (live : list block) : St heap_st (list block) :=
  match o with
  | OMalloc size =>
      p <- kmalloc size ;;
      ret (match p with Some a => (a, size) :: live | None => live end)
  | OFree p => kfree p ;;; ret live
  end.

Fixpoint heap_run (ops : list heap_op) (live : list block) : St heap_st (list block) :=
  match ops with
  | [] => ret live
  | o :: ops' => live' <- heap_step o live ;; heap_run ops' live'
  end.

(** Requests the allocator is meant for: no larger than the heap. *)
Definition op_ok (o : heap_op) : Prop :=
  match o with OMalloc size => 0 <= size <= HEAP_SIZE | OFree _ => True end.

Definition blk_disj (b1 b2 : block) : Prop :=
  b1.1 + b1.2 <= b2.1 \/ b2.1 + b2.2 <= b1.1.

Definition blk_in_heap (b : block) : Prop :=
  0 <= b.1 /\ (8 | b.1) /\ b.1 + b.2 <= HEAP_SIZE.

Definition heap_inv (h : heap_st) : Prop :=
  0 <= heap_offset h <= HEAP_SIZE /\ (8 | heap_offset h).

Definition live_inv (live : list block) (h : heap_st) : Prop :=
  heap_inv h /\ Forall blk_in_heap live /\
  Forall (fun b => b.1 + b.2 <= heap_offset h) live /\
  ForallOrdPairs blk_disj live.

(** ** Lemmas *)

Lemma align8_spec size :
  0 <= size <= HEAP_SIZE ->
  size <= align8 size < size + 8 /\ (8 | align8 size).
Proof.
  unfold align8, HEAP_SIZE. intros Hs. rewrite (u32_small (size + 7)) by lia.
  assert (Hl : Z.land (size + 7) (u32 (Z.lnot 7)) = (size + 7) / 8 * 8).
  { change 8 with (2 ^ 3). rewrite <- Z.shiftl_mul_pow2, <- Z.shiftr_div_pow2 by lia.
    rewrite <- Z.ldiff_ones_r by lia. apply Z.bits_inj'. intros i Hi.
    rewrite Z.land_spec, Z.ldiff_spec.
    destruct (decide (i < 32)).
    - f_equal. change (u32 (Z.lnot 7)) with (Z.shiftl (Z.ones 29) 3).
      destruct (decide (i < 3)).
      + by rewrite Z.shiftl_spec_low, Z.ones_spec_low by lia.
      + rewrite Z.shiftl_spec, Z.ones_spec_low, Z.ones_spec_high by lia. done.
    - by rewrite (testbit_high (size + 7) 32) by lia. }
  rewrite Hl. split.
  - pose proof (Z.div_mod (size + 7) 8). pose proof (Z.mod_pos_bound (size + 7) 8). lia.
  - apply Z.divide_factor_r.
Qed.

Lemma align8_high size : 4294967289 <= size < 4294967296 -> align8 size = 0.
Proof.
  intros H. unfold align8. replace (u32 (size + 7)) with (size + 7 - 2 ^ 32).
  2: { unfold wrap. apply (Z.mod_unique_pos _ _ 1); lia. }
  assert (Hc : size + 7 - 2 ^ 32 = 0 \/ size + 7 - 2 ^ 32 = 1 \/ size + 7 - 2 ^ 32 = 2 \/
               size + 7 - 2 ^ 32 = 3 \/ size + 7 - 2 ^ 32 = 4 \/ size + 7 - 2 ^ 32 = 5 \/
               size + 7 - 2 ^ 32 = 6) by lia.
  by repeat destruct Hc as [-> | Hc]; [..|rewrite Hc].
Qed.

Lemma kmalloc_run size h :
  0 <= size <= HEAP_SIZE -> heap_inv h ->
  kmalloc size h =
  if HEAP_SIZE <? heap_offset h + align8 size then Done (None, h)
  else Done (Some (heap_offset h), Heap (heap_offset h + align8 size)).
Proof.
  intros Hs [Ho _]. pose proof (align8_spec size Hs) as [Ha _].
  unfold kmalloc, bind, gets, ret, put.
  rewrite u32_small by (unfold HEAP_SIZE in *; lia). by case_match.
Qed.

(** ** Properties *)

(** For every request no larger than the heap, [kmalloc] either returns
    NULL, exactly when the 8-aligned size does not fit, leaving the heap
    unchanged, or returns the old offset, 8-aligned, with the whole block
    inside the heap, and advances the offset past the block by less than 8
    bytes of padding; the allocator invariant is kept. *)
Theorem kmalloc_spec size h :
  0 <= size <= HEAP_SIZE -> heap_inv h ->
  wp (kmalloc size) (fun p h' =>
    heap_inv h' /\
    match p with
    | None => h' = h /\ HEAP_SIZE < heap_offset h + align8 size
    | Some a => a = heap_offset h /\ blk_in_heap (a, size) /\
                a + size <= heap_offset h' < a + size + 8
    end) h.
Proof.
  intros Hs Hh. unfold wp. rewrite kmalloc_run by done.
  pose proof (align8_spec size Hs) as [Ha Hd]. destruct Hh as [Ho Hdo].
  destruct (Z.ltb_spec HEAP_SIZE (heap_offset h + align8 size)).
  - by repeat split; try lia.
  - unfold heap_inv, blk_in_heap. simpl. repeat split; try lia; try done.
    by apply Z.divide_add_r.
Qed.

Lemma heap_step_inv o live h :
  op_ok o -> live_inv live h -> wp (heap_step o live) live_inv h.
Proof.
  intros Ho (Hh & Hin & Hlt & Hd). destruct o as [size|p]; simpl in *.
  - apply wp_bind. eapply wp_mono; [by apply kmalloc_spec|].
    intros [a|] h' [Hh' Hp]; apply wp_ret.
    + destruct Hp as (-> & Hb & Hoff). split_and!; [done|by constructor| |].
      * constructor; [simpl; lia|]. eapply Forall_impl; [exact Hlt|]. simpl. lia.
      * constructor; [|done]. eapply Forall_impl; [exact Hlt|].
        intros b Hb2. right. done.
    + by destruct Hp as [-> _].
  - by apply wp_bind, wp_ret, wp_ret.
Qed.

(** C29: Over any sequence of [kmalloc]/[kfree] calls with requests no larger
    than the heap, started right after [memory_init], the blocks handed out
    lie inside the heap, are 8-aligned and are pairwise disjoint. *)
Theorem heap_run_disjoint ops h :
  Forall op_ok ops ->
  wp (memory_init ;;; heap_run ops []) (fun live _ =>
    Forall blk_in_heap live /\ ForallOrdPairs blk_disj live) h.
Proof.
  intros Hops. apply wp_bind, wp_put.
  assert (H0 : live_inv [] (Heap 0)).
  { repeat split; simpl; try constructor; try done. by apply Z.divide_0_r. }
  revert H0. generalize (@nil block), (Heap 0).
  induction Hops as [|o ops Ho _ IH]; intros live h0 H0; simpl.
  - apply wp_ret. by destruct H0 as (_ & ? & _ & ?).
  - apply wp_bind. eapply wp_mono; [by apply heap_step_inv|]. auto.
Qed.

(** The size arithmetic wraps at 32 bits: a request of 0xFFFFFFF9 bytes
    or more is rounded to 0 and "succeeds" without reserving anything, and a
    request of 0xFFFFFFF8 bytes moves the offset back by 8, so that a later
    block overlaps one already handed out. *)
Theorem kmalloc_wraps :
  (forall size h, 4294967289 <= size < 4294967296 -> heap_inv h ->
     kmalloc size h = Done (Some (heap_offset h), h)) /\
  exists live h,
    (memory_init ;;; heap_run [OMalloc 16; OMalloc 4294967288; OMalloc 8] []) (Heap 0)
      = Done (live, h) /\
    exists b1 b2, b1 ∈ live /\ b2 ∈ live /\ b1.2 = 16 /\ b2.2 = 8 /\ ~ blk_disj b1 b2.
Proof.
  split.
  - intros size [off] Hs [Ho _]. simpl in Ho. unfold kmalloc, bind, gets, ret, put.
    rewrite align8_high by done. rewrite Z.add_0_r. simpl.
    unfold HEAP_SIZE in *. rewrite u32_small by lia.
    destruct (Z.ltb_spec (16 * 1024 * 1024) off); [lia|done].
  - eexists _, _. split; [vm_compute; reflexivity|].
    exists (0, 16), (8, 8). split_and!; [set_solver|set_solver|done|done|].
    unfold blk_disj. simpl. lia.
Qed.

Lemma kmalloc_spec_witness :
  (0 <= 100 <= HEAP_SIZE /\ heap_inv (Heap 64)) /\
  wp (kmalloc 100) (fun p h' => heap_inv h' /\
    match p with
    | None => h' = Heap 64 /\ HEAP_SIZE < 64 + align8 100
    | Some a => a = 64 /\ blk_in_heap (a, 100) /\ a + 100 <= heap_offset h' < a + 100 + 8
    end) (Heap 64).
Proof.
  assert (H1 : 0 <= 100 <= HEAP_SIZE) by (vm_compute; split; discriminate).
  assert (H2 : heap_inv (Heap 64)).
  { split; [vm_compute; split; discriminate|exists 8; reflexivity]. }
  split; [by split|]. exact (kmalloc_spec 100 (Heap 64) H1 H2).
Defined.

Lemma heap_run_disjoint_witness :
  wp (memory_init ;;; heap_run [OMalloc 10; OFree (Some 0); OMalloc 20] [])
    (fun live _ => Forall blk_in_heap live /\ ForallOrdPairs blk_disj live) (Heap 40).
Proof.
  apply heap_run_disjoint.
  repeat constructor; simpl; try (vm_compute; discriminate).
Defined.

Lemma kmalloc_wraps_witness :
  kmalloc 4294967295 (Heap 0) = Done (Some 0, Heap 0).
Proof.
  refine (proj1 kmalloc_wraps 4294967295 (Heap 0) _ _); [lia|].
  split; [vm_compute; split; discriminate|apply Z.divide_0_r].
Defined.
