(* ===== verification/Pci.v ===== *)
(** PCI configuration access and the search for the AHCI controller,
    [kernel/pci.c].  The I/O ports are a parameter of the model. *)
From S2P Require Import Prelude.

(** ** Port I/O *)

(** 32-bit port input and output over a hardware state [P]: what the
    [outl]/[inl] instructions do is not in the repository. *)
Class PortIO (P : Type) := {
  port_out32 : Z -> Z -> P -> P;
  port_in32 : Z -> P -> Z * P
}.

(** PCI configuration mechanism 1: a dword read from 0xCFC returns the
    configuration dword selected by the last write to 0xCF8. *)
Class PciHost (P : Type) `{PortIO P} (cfg : Z -> Z) := {
  cfg_range a : 0 <= cfg a < 2 ^ 32;
  cfg_read a p : (port_in32 0xCFC (port_out32 0xCF8 a p)).1 = cfg a
}.

Definition PCI_CONFIG_ADDRESS : Z := 0xCF8.
Definition PCI_CONFIG_DATA : Z := 0xCFC.

Definition pci_address (bus slot func offset : Z) : Z :=
  u32 (Z.lor (Z.lor (Z.lor (Z.lor (Z.shiftl bus 16) (Z.shiftl slot 11))
                           (Z.shiftl func 8)) (Z.land offset 0xFC)) 0x80000000).

Section pci.
Context {P : Type} `{PortIO P}.

Definition outl (port value : Z) : St P unit := modify (port_out32 port value).

Definition inl (port : Z) : St P Z := fun p => Done (port_in32 port p).

Definition pci_read (bus slot func offset : Z) : St P Z :=
  outl PCI_CONFIG_ADDRESS (pci_address bus slot func offset) ;;;
  inl PCI_CONFIG_DATA.

(** The body of the inner loop: [Exit base] is the function's [return]. *)
Definition probe_slot (bus slot : Z) : St P (ctl unit Z) :=
  vendor <- pci_read (u8 bus) slot 0 0 ;;
  if Z.land vendor 0xFFFF =? 0xFFFF then ret (Next tt)
  else
    class <- pci_read (u8 bus) slot 0 8 ;;
    let class_code := u8 (Z.land (Z.shiftr class 24) 0xFF) in
    let subclass := u8 (Z.land (Z.shiftr class 16) 0xFF) in
    if (class_code =? 0x01) && (subclass =? 0x06) then
      bar5 <- pci_read (u8 bus) slot 0 0x24 ;;
      ret (Exit (Z.land bar5 0xFFFFFFF0))
    else ret (Next tt).

Definition pci_find_ahci : St P Z :=
  x <- cfor 256 0 (fun bus _ => cfor 32 0 (fun slot _ => probe_slot bus slot) tt) tt ;;
  match x with
  | Exit base => ret base
  | Next _ => ret 0
  end.
End pci.

(** ** Specification: a search through configuration space *)

Section spec.
Variable cfg : Z -> Z.

(** A controller of class 01h (mass storage), subclass 06h (SATA). *)
Definition is_ahci (bs : Z * Z) : bool :=
  let '(bus, slot) := bs in
  negb (cfg (pci_address bus slot 0 0) mod 2 ^ 16 =? 0xFFFF) &&
  (cfg (pci_address bus slot 0 8) / 2 ^ 24 =? 1) &&
  (cfg (pci_address bus slot 0 8) / 2 ^ 16 mod 2 ^ 8 =? 6).

(** BAR5 without its four flag bits. *)
Definition abar (bs : Z * Z) : Z := cfg (pci_address bs.1 bs.2 0 0x24) / 16 * 16.

(** Functions 0 of every bus and slot, bus by bus. *)
Definition all_slots : list (Z * Z) := grid (seqZ 0 256) (seqZ 0 32).

Definition find_ahci_spec : Z :=
  match filter is_ahci all_slots with
  | bs :: _ => abar bs
  | [] => 0
  end.
End spec.

(** ** Lemmas *)

Lemma land_FFFF v : Z.land v 0xFFFF = v mod 2 ^ 16.
Proof. change 0xFFFF with (Z.ones 16). by rewrite Z.land_ones. Qed.

Lemma land_FF v : Z.land v 0xFF = v mod 2 ^ 8.
Proof. change 0xFF with (Z.ones 8). by rewrite Z.land_ones. Qed.

Lemma land_bar v : 0 <= v < 2 ^ 32 -> Z.land v 0xFFFFFFF0 = v / 16 * 16.
Proof.
  intros Hv. change 16 with (2 ^ 4). rewrite <- Z.shiftl_mul_pow2, <- Z.shiftr_div_pow2 by lia.
  apply Z.bits_inj'. intros i Hi. rewrite Z.land_spec.
  change 0xFFFFFFF0 with (Z.shiftl (Z.ones 28) 4).
  destruct (decide (i < 4)).
  - rewrite !Z.shiftl_spec_low by lia. by rewrite andb_false_r.
  - rewrite !Z.shiftl_spec, Z.shiftr_spec by lia. replace (i - 4 + 4) with i by lia.
    destruct (decide (i < 32)).
    + by rewrite Z.ones_spec_low, andb_true_r by lia.
    + by rewrite (testbit_high v 32) by lia.
Qed.

Lemma pci_address_sum bus slot func offset :
  0 <= bus < 256 -> 0 <= slot < 32 -> 0 <= func < 8 -> 0 <= offset < 256 ->
  pci_address bus slot func offset =
  2 ^ 31 + bus * 2 ^ 16 + slot * 2 ^ 11 + func * 2 ^ 8 + offset / 4 * 4.
Proof.
  intros Hb Hs Hf Ho. unfold pci_address.
  assert (Hoff : Z.land offset 0xFC = offset / 4 * 4).
  { change 4 with (2 ^ 2). rewrite <- Z.shiftl_mul_pow2, <- Z.shiftr_div_pow2 by lia.
    apply Z.bits_inj'. intros i Hi. rewrite Z.land_spec.
    change 0xFC with (Z.shiftl (Z.ones 6) 2). destruct (decide (i < 2)).
    - by rewrite !Z.shiftl_spec_low, andb_false_r by lia.
    - rewrite !Z.shiftl_spec, Z.shiftr_spec by lia. replace (i - 2 + 2) with i by lia.
      destruct (decide (i < 8)).
      + by rewrite Z.ones_spec_low, andb_true_r by lia.
      + by rewrite (testbit_high offset 8) by lia. }
  assert (Ho4 : 0 <= offset / 4 * 4 < 256).
  { pose proof (Z.div_mod offset 4). pose proof (Z.mod_pos_bound offset 4).
    pose proof (Z.div_pos offset 4). lia. }
  rewrite Hoff, !(Z.shiftl_mul_pow2) by lia.
  rewrite (lor_disj (bus * 2 ^ 16) _ 16), (lor_disj _ (func * 2 ^ 8) 11),
    (lor_disj _ (offset / 4 * 4) 8), Z.lor_comm, (lor_disj _ _ 31); try lia.
  - rewrite u32_small by lia. lia.
  - done.
  - replace (_ + _ + _) with ((bus * 2 ^ 8 + slot * 2 ^ 3 + func) * 2 ^ 8) by lia.
    by apply Z.mod_mul.
  - replace (_ + _) with ((bus * 2 ^ 5 + slot) * 2 ^ 11) by lia. by apply Z.mod_mul.
  - by apply Z.mod_mul.
Qed.

Section search.
Context {P : Type} `{PortIO P} (cfg : Z -> Z) `{!PciHost P cfg}.

Definition cfg_reg (bus slot func offset : Z) : Z := cfg (pci_address bus slot func offset).

Lemma wp_pci_read bus slot func offset (Q : Z -> P -> Prop) p :
  (forall p', Q (cfg_reg bus slot func offset) p') ->
  wp (pci_read bus slot func offset) Q p.
Proof.
  intros HQ. unfold pci_read, outl, inl, bind, modify, wp.
  pose proof (cfg_read (cfg := cfg) (pci_address bus slot func offset) p) as Hr.
  unfold PCI_CONFIG_DATA, PCI_CONFIG_ADDRESS.
  destruct (port_in32 _ _) as [v p'] eqn:E. simpl in Hr. subst v. apply HQ.
Qed.

Lemma wp_probe_slot bus slot p :
  0 <= bus < 256 ->
  wp (probe_slot bus slot) (fun x _ => True /\
    x = match (if is_ahci cfg (bus, slot) then Some (abar cfg (bus, slot)) else None) with
        | Some r => Exit r | None => Next tt end) p.
Proof.
  intros Hb. unfold probe_slot. rewrite (u8_small bus) by done.
  apply wp_bind, wp_pci_read. intros p1. unfold is_ahci, cfg_reg.
  rewrite land_FFFF. destruct (_ =? 65535); [by apply wp_ret|].
  apply wp_bind, wp_pci_read. intros p2. unfold cfg_reg.
  set (c := cfg (pci_address bus slot 0 8)).
  assert (Hc : 0 <= c < 2 ^ 32) by apply cfg_range.
  rewrite !land_FF, !Z.shiftr_div_pow2 by lia.
  change (u8 ?a) with (a mod 2 ^ 8). rewrite !Zmod_mod.
  rewrite (Z.mod_small (c / 2 ^ 24)).
  2: { split; [apply Z.div_pos; lia|apply Z.div_lt_upper_bound; lia]. }
  simpl negb. rewrite andb_true_l. destruct (_ && _); [|by apply wp_ret].
  apply wp_bind, wp_pci_read. intros p3. apply wp_ret. simpl. unfold abar, cfg_reg.
  by rewrite land_bar by apply cfg_range.
Qed.
End search.

Lemma pci_find_ahci_run {P} `{PortIO P} (cfg : Z -> Z) `{!PciHost P cfg} (p : P) :
  exists p', pci_find_ahci p = Done (find_ahci_spec cfg, p').
Proof.
  assert (Hw : wp pci_find_ahci (fun r _ => r = find_ahci_spec cfg) p).
  { unfold pci_find_ahci. apply wp_bind.
    set (g := fun bs : Z * Z => if is_ahci cfg bs then Some (abar cfg bs) else None).
    eapply wp_mono.
    - apply (wp_cfor_search (fun _ => True) (fun bus => head (omap (fun slot => g (bus, slot)) (seqZ 0 32)))); [done|].
      intros bus p1 Hbus _.
      apply (wp_cfor_search (fun _ => True) (fun slot => g (bus, slot)) 32 0
               (fun slot _ => probe_slot bus slot)); [done|].
      intros slot p2 Hslot _. apply wp_probe_slot; [done|lia].
    - cbv beta. intros x p1 [_ ->]. unfold find_ahci_spec.
      change (Z.of_nat 256) with 256. rewrite (head_omap_grid g). fold all_slots.
      unfold g. rewrite omap_if. generalize (filter (is_ahci cfg) all_slots).
      intros [|bs l]; by apply wp_ret. }
  apply wp_done in Hw as (r & p' & -> & ->). eauto.
Qed.

(** ** Properties *)

(** The configuration address built by [pci_read] encodes bus, slot,
    function and dword-aligned offset in the fields of mechanism 1, with the
    enable bit set: each field can be read back, and the low two bits are
    zero. *)
Theorem pci_address_fields bus slot func offset :
  0 <= bus < 256 -> 0 <= slot < 32 -> 0 <= func < 8 -> 0 <= offset < 256 ->
  let a := pci_address bus slot func offset in
  a / 2 ^ 31 = 1 /\ a / 2 ^ 16 mod 2 ^ 8 = bus /\ a / 2 ^ 11 mod 2 ^ 5 = slot /\
  a / 2 ^ 8 mod 2 ^ 3 = func /\ a mod 2 ^ 8 = offset - offset mod 4.
Proof.
  intros Hb Hs Hf Ho a. subst a. rewrite pci_address_sum by done.
  pose proof (Z.div_mod offset 4 ltac:(lia)) as E.
  pose proof (Z.mod_pos_bound offset 4 ltac:(lia)) as Hm.
  set (q := offset / 4) in *. set (r := offset mod 4) in *. clearbody q r.
  change (2 ^ 31) with 2147483648. change (2 ^ 16) with 65536. change (2 ^ 11) with 2048.
  change (2 ^ 8) with 256. change (2 ^ 5) with 32. change (2 ^ 3) with 8.
  Z.div_mod_to_equations. lia.
Qed.

(** C35: [pci_find_ahci] returns BAR5 (flag bits cleared) of the first function
    0, in bus-then-slot order over the whole configuration space, whose vendor
    is present and whose class/subclass is 01h/06h, and 0 when there is none;
    it always returns. *)
Theorem pci_find_ahci_spec {P} `{PortIO P} (cfg : Z -> Z) `{!PciHost P cfg} (p : P) :
  exists p', pci_find_ahci p = Done (find_ahci_spec cfg, p').
Proof. exact (pci_find_ahci_run cfg p). Qed.

(** ** A concrete host *)

(** A port space with only the configuration mechanism: the state is the last
    address written to 0xCF8. *)
Definition sim_ports (cfg : Z -> Z) : PortIO Z := {|
  port_out32 port v a := if port =? 0xCF8 then v else a;
  port_in32 port a := (if port =? 0xCFC then cfg a else 0, a)
|}.

Definition table_cfg (tbl : list (Z * Z)) (a : Z) : Z :=
  u32 (default 0xFFFFFFFF (snd <$> head (filter (fun e => e.1 = a) tbl))).

(** A host bridge in slot 0 and an AHCI controller in slot 4 of bus 0. *)
Definition demo_cfg : Z -> Z := table_cfg
  [(pci_address 0 0 0 0, 0x12378086); (pci_address 0 0 0 8, 0x06000002);
   (pci_address 0 4 0 0, 0x29228086); (pci_address 0 4 0 8, 0x01060102);
   (pci_address 0 4 0 0x24, 0xFEBF1005)].

Lemma sim_host (tbl : list (Z * Z)) : @PciHost Z (sim_ports (table_cfg tbl)) (table_cfg tbl).
Proof. split; [intros a; apply wrap_range; lia|done]. Qed.

Lemma pci_address_fields_witness :
  pci_address 0 31 7 0x25 / 2 ^ 11 mod 2 ^ 5 = 31 /\ pci_address 0 31 7 0x25 mod 2 ^ 8 = 0x24.
Proof.
  destruct (pci_address_fields 0 31 7 0x25) as (_ & _ & H1 & _ & H2); [lia..|].
  split; [exact H1|rewrite H2; reflexivity].
Defined.

Lemma pci_find_ahci_spec_witness :
  exists p', @pci_find_ahci Z (sim_ports demo_cfg) 0 = Done (0xFEBF1000, p').
Proof.
  destruct (@pci_find_ahci_spec Z (sim_ports demo_cfg) demo_cfg (sim_host _) 0) as [p' Hp].
  exists p'. rewrite Hp. replace (find_ahci_spec demo_cfg) with 0xFEBF1000; [reflexivity|].
  lazy. reflexivity.
Defined.
