(* ===== verification/Layout.v ===== *)
(** Packed C structures: a layout lists the fields in order with their sizes
    in bytes; offsets and [sizeof] are computed from it. *)
From stdpp Require Import strings.
From S2P Require Import Prelude.

Abbreviation layout := (list (string * Z)).

Fixpoint sizeof (l : layout) : Z :=
  match l with
  | [] => 0
  | (_, n) :: l' => n + sizeof l'
  end.

Fixpoint offset_of (l : layout) (f : string) : option Z :=
  match l with
  | [] => None
  | (g, n) :: l' => if decide (f = g) then Some 0 else Z.add n <$> offset_of l' f
  end.

(** The offset of a field, for layouts where the field exists. *)
Definition off (l : layout) (f : string) : Z := default 0 (offset_of l f).

Definition field_size (l : layout) (f : string) : Z :=
  default 0 (snd <$> head (filter (fun e => e.1 = f) l)).

(** Two fields of a layout do not overlap. *)
Lemma offset_of_bound l f o :
  Forall (fun e => 0 < e.2) l -> offset_of l f = Some o ->
  0 <= o /\ o + field_size l f <= sizeof l.
Proof.
  intros Hl. revert o. induction Hl as [|[g n] l Hn Hl IH]; intros o Ho; [done|].
  assert (Hs : 0 <= sizeof l).
  { clear -Hl. induction Hl as [|[] l]; simpl in *; lia. }
  unfold field_size in *. simpl in *. rewrite filter_cons. simpl.
  destruct (decide (f = g)) as [->|Hne].
  - injection Ho as <-. rewrite decide_True by done. simpl. lia.
  - rewrite decide_False by (intros ->; done).
    destruct (offset_of l f) as [o'|] eqn:E; [|done]. injection Ho as <-.
    specialize (IH o' eq_refl). lia.
Qed.

#[global] Arguments sizeof : simpl never.
#[global] Arguments offset_of : simpl never.

(** Closed layout offsets and sizes become numerals. *)
Ltac offsets :=
  repeat match goal with
  | |- context [off ?l ?f] =>
      let v := eval vm_compute in (off l f) in change (off l f) with v
  | |- context [field_size ?l ?f] =>
      let v := eval vm_compute in (field_size l f) in change (field_size l f) with v
  | |- context [sizeof ?l] =>
      let v := eval vm_compute in (sizeof l) in change (sizeof l) with v
  end.

(** Sums of closed offsets inside an address. *)
Ltac offset_sums :=
  repeat match goal with
  | |- context [?x + (Zpos ?a + ?b)] =>
      let v := eval vm_compute in (Zpos a + b) in change (Zpos a + b) with v
  | |- context [?x + (0 + ?b)] => change (0 + b) with b
  end.

