(* ===== verification/Ahci.v ===== *)
(** The AHCI driver, [kernel/ahci.c] with [ahci.h] and [ahci_structs.h]: port
    discovery, port start-up and polled sector reads through one command slot.
    The controller is a parameter of the model, described by a class of
    documented behaviour, with a concrete simulated controller as instance. *)
From stdpp Require Import strings.
From S2P Require Import Prelude Bytes Layout Pci.

(** ** Register and structure layouts ([ahci.h], [ahci_structs.h]) *)

Definition AHCI_PORT_BASE : Z := 0x100.
Definition AHCI_PORT_SIZE : Z := 0x80.
Definition PORT_CLB : Z := 0x00.
Definition PORT_CLBU : Z := 0x04.
Definition PORT_FB : Z := 0x08.
Definition PORT_FBU : Z := 0x0C.
Definition PORT_IS : Z := 0x10.
Definition PORT_IE : Z := 0x14.
Definition PORT_CMD : Z := 0x18.
Definition PORT_TFD : Z := 0x20.
Definition PORT_SIG : Z := 0x24.
Definition PORT_SSTS : Z := 0x28.
Definition PORT_SERR : Z := 0x30.
Definition PORT_CI : Z := 0x38.
Definition SATA_SIG_ATA : Z := 0x00000101.
Definition SATA_SIG_ATAPI : Z := 0xEB140101.

Definition HBA_PORT : layout :=
  [("clb", 4); ("clbu", 4); ("fb", 4); ("fbu", 4); ("is", 4); ("ie", 4); ("cmd", 4);
   ("reserved0", 4); ("tfd", 4); ("sig", 4); ("ssts", 4); ("sctl", 4); ("serr", 4);
   ("sact", 4); ("ci", 4); ("sntf", 4); ("fbs", 4); ("reserved1", 44); ("vendor", 16)].

Definition HBA_MEM : layout :=
  [("cap", 4); ("ghc", 4); ("is", 4); ("pi", 4); ("vs", 4); ("ccc_ctl", 4);
   ("ccc_pts", 4); ("em_loc", 4); ("em_ctl", 4); ("cap2", 4); ("bohc", 4);
   ("reserved", 0xA0 - 0x2C); ("vendor", 0x100 - 0xA0); ("ports", 32 * sizeof HBA_PORT)].

(** The bit-fields [cfl:5 a:1 w:1 p:1] and [r:1 b:1 c:1 reserved0:1 pmp:4]
    occupy the bytes "flags0" and "flags1", lowest bit first. *)
Definition HBA_CMD_HEADER : layout :=
  [("flags0", 1); ("flags1", 1); ("prdtl", 2); ("prdbc", 4); ("ctba", 4); ("ctbau", 4);
   ("reserved1", 16)].

(** [dbc:22 reserved1:9 i:1] occupy the dword "dbc_i". *)
Definition HBA_PRDT_ENTRY : layout :=
  [("dba", 4); ("dbau", 4); ("reserved0", 4); ("dbc_i", 4)].

Definition HBA_CMD_TBL : layout :=
  [("cfis", 64); ("acmd", 16); ("reserved", 48); ("prdt_entry", sizeof HBA_PRDT_ENTRY)].

(** [pmport:4 reserved0:3 c:1] occupy the byte "flags". *)
Definition FIS_REG_H2D : layout :=
  [("fis_type", 1); ("flags", 1); ("command", 1); ("featurel", 1); ("lba0", 1);
   ("lba1", 1); ("lba2", 1); ("device", 1); ("lba3", 1); ("lba4", 1); ("lba5", 1);
   ("featureh", 1); ("count", 2); ("icc", 1); ("control", 1); ("reserved1", 4)].

(** Assignment to a bit-field of [n] bits at bit [p] of a stored unit. *)
Definition set_bits (old p n v : Z) : Z :=
  Z.lor (Z.ldiff old (Z.shiftl (Z.ones n) p)) (Z.shiftl (v mod 2 ^ n) p).

Definition get_bits (u p n : Z) : Z := Z.shiftr u p mod 2 ^ n.

(** ** Hardware interface *)

(** Memory-mapped registers (32-bit accesses) and the physical memory shared
    by the processor and the controller's DMA engine. *)
Class Hba (A : Type) := {
  mmio_rd : Z -> A -> Z * A;
  mmio_wr : Z -> Z -> A -> A;
  ram : A -> mem;
  set_ram : mem -> A -> A
}.

(** The driver's statics [hba] (0 for NULL) and [active_port], and the machine. *)
Record drv (P A : Type) := Drv {
  hba : Z;
  active_port : Z;
  ports_hw : P;
  hw : A
}.
Arguments Drv {P A} _ _ _ _.
Arguments hba {P A} _.
Arguments active_port {P A} _.
Arguments ports_hw {P A} _.
Arguments hw {P A} _.

(** Physical addresses of the per-port DMA structures. *)
Definition clb_of (port : Z) : Z := u32 (0x100000 + port * 0x400).
Definition fb_of (port : Z) : Z := u32 (0x108000 + port * 0x100).
Definition ctba_of (port : Z) : Z := u32 (0x110000 + port * 0x100).

Section driver.
Context {P A : Type} `{PortIO P} `{Hba A}.
Abbreviation M := (St (drv P A)).

Definition on_hw (f : A -> A) : M unit :=
  modify (fun d => Drv (hba d) (active_port d) (ports_hw d) (f (hw d))).

Definition rd32 (a : Z) : M Z := fun d =>
  let (v, h) := mmio_rd a (hw d) in
  Done (v, Drv (hba d) (active_port d) (ports_hw d) h).

Definition wr32 (a v : Z) : M unit := on_hw (mmio_wr a v).

Definition on_ram (f : mem -> mem) : M unit := on_hw (fun h => set_ram (f (ram h)) h).

Definition on_ports {B} (m : St P B) : M B := fun d =>
  match m (ports_hw d) with
  | Done (b, p) => Done (b, Drv (hba d) (active_port d) p (hw d))
  | Undef => Undef
  | Hang => Hang
  end.

(** [&hba->ports[port] + offset]. *)
Definition port_reg (d : drv P A) (port offset : Z) : Z :=
  hba d + off HBA_MEM "ports" + port * sizeof HBA_PORT + offset.

Definition port_read (port offset : Z) : M Z :=
  a <- gets (fun d => port_reg d port offset) ;; rd32 a.

Definition port_write (port offset value : Z) : M unit :=
  a <- gets (fun d => port_reg d port offset) ;; wr32 a value.

(** [while (port_read (port, PORT_CMD) & mask) {}] *)
Definition spin_cmd (fuel : nat) (port mask : Z) : M unit :=
  cloop fuel (fun _ : unit =>
    v <- port_read port PORT_CMD ;;
    if Z.land v mask =? 0 then ret (Exit tt) else ret (Next tt)) tt.

Definition port_rebase (fuel : nat) (port : Z) : M unit :=
  cmd <- port_read port PORT_CMD ;;
  let cmd := Z.land cmd (u32 (Z.lnot 0x01)) in
  let cmd := Z.land cmd (u32 (Z.lnot 0x10)) in
  port_write port PORT_CMD cmd ;;;
  spin_cmd fuel port 0xC000 ;;;
  port_write port PORT_CLB (clb_of port) ;;;
  port_write port PORT_CLBU 0 ;;;
  port_write port PORT_FB (fb_of port) ;;;
  port_write port PORT_FBU 0 ;;;
  port_write port PORT_SERR 0xFFFFFFFF ;;;
  port_write port PORT_IS 0xFFFFFFFF ;;;
  spin_cmd fuel port 0x8000 ;;;
  cmd <- port_read port PORT_CMD ;;
  let cmd := Z.lor cmd 0x10 in
  let cmd := Z.lor cmd 0x01 in
  port_write port PORT_CMD cmd.

Definition set_hba (b : Z) : M unit :=
  modify (fun d => Drv b (active_port d) (ports_hw d) (hw d)).
Definition set_active (i : Z) : M unit :=
  modify (fun d => Drv (hba d) i (ports_hw d) (hw d)).

(** The body of the port-discovery loop of [ahci_init]. *)
Definition scan_port (pi i : Z) : M unit :=
  if Z.land pi (Z.shiftl 1 i) =? 0 then ret tt
  else
    ssts <- port_read i PORT_SSTS ;;
    let det := u8 (Z.land ssts 0x0F) in
    let ipm := u8 (Z.land (Z.shiftr ssts 8) 0x0F) in
    if (det =? 3) && (ipm =? 1) then
      sig <- port_read i PORT_SIG ;;
      if sig =? SATA_SIG_ATA then set_active i else ret tt
    else ret tt.

Definition ahci_init (fuel : nat) : M Z :=
  ahci_base <- on_ports pci_find_ahci ;;
  if ahci_base =? 0 then ret (-1)
  else
    set_hba ahci_base ;;;
    ghc <- rd32 (ahci_base + off HBA_MEM "ghc") ;;
    wr32 (ahci_base + off HBA_MEM "ghc") (Z.lor ghc (2 ^ 31)) ;;;
    pi <- rd32 (ahci_base + off HBA_MEM "pi") ;;
    cfor_ 32 0 (scan_port pi) ;;;
    p <- gets active_port ;;
    if p =? -1 then ret (-1)
    else port_rebase fuel p ;;; ret 0.

(** The command header in slot 0 of the command list. *)
Definition fill_header (clb ctba : Z) (m : mem) : mem :=
  let at_ f := clb + off HBA_CMD_HEADER f in
  let m := mput m (at_ "flags0") (set_bits (mget m (at_ "flags0")) 0 5 (sizeof FIS_REG_H2D / 4)) in
  let m := mput m (at_ "flags0") (set_bits (mget m (at_ "flags0")) 6 1 0) in
  let m := mst 2 m (at_ "prdtl") 1 in
  let m := mst 4 m (at_ "ctba") ctba in
  let m := mst 4 m (at_ "ctbau") 0 in
  mst 4 m (at_ "prdbc") 0.

(** The command table: cleared, then the PRDT entry and the command FIS. *)
Definition fill_table (ctba lba count buffer : Z) (m : mem) : mem :=
  let prd f := ctba + off HBA_CMD_TBL "prdt_entry" + off HBA_PRDT_ENTRY f in
  let fis f := ctba + off HBA_CMD_TBL "cfis" + off FIS_REG_H2D f in
  let m := mputs m ctba (replicate (Z.to_nat (sizeof HBA_CMD_TBL)) 0) in
  let m := mst 4 m (prd "dba") (u32 buffer) in
  let m := mst 4 m (prd "dbau") 0 in
  let m := mst 4 m (prd "dbc_i") (set_bits (mld 4 m (prd "dbc_i")) 0 22 (u32 (count * 512 - 1))) in
  let m := mst 4 m (prd "dbc_i") (set_bits (mld 4 m (prd "dbc_i")) 31 1 1) in
  let m := mput m (fis "fis_type") 0x27 in
  let m := mput m (fis "flags") (set_bits (mget m (fis "flags")) 7 1 1) in
  let m := mput m (fis "command") 0x25 in
  let m := mput m (fis "device") (Z.shiftl 1 6) in
  let m := mput m (fis "lba0") (u8 lba) in
  let m := mput m (fis "lba1") (u8 (Z.shiftr lba 8)) in
  let m := mput m (fis "lba2") (u8 (Z.shiftr lba 16)) in
  let m := mput m (fis "lba3") (u8 (Z.shiftr lba 24)) in
  let m := mput m (fis "lba4") (u8 (Z.shiftr lba 32)) in
  let m := mput m (fis "lba5") (u8 (Z.shiftr lba 40)) in
  mst 2 m (fis "count") (u16 count).

(** One iteration of the polling loop. *)
Definition poll (port : Z) : M (ctl unit (option Z)) :=
  ci <- port_read port PORT_CI ;;
  if Z.land ci 1 =? 0 then ret (Exit None)
  else
    pis <- port_read port PORT_IS ;;
    if Z.land pis (Z.shiftl 1 30) =? 0 then ret (Next tt) else ret (Exit (Some (-1))).

Definition POLL_LIMIT : nat := Z.to_nat 1000000.

(** [limit] is the bound 1000000 of the [for] loop. *)
Definition ahci_read_lim (limit : nat) (lba count buffer : Z) : M Z :=
  port <- gets active_port ;;
  if port =? -1 then ret (-1)
  else
    let clb := clb_of port in
    let ctba := ctba_of port in
    on_ram (fill_header clb ctba) ;;;
    on_ram (fill_table ctba lba count buffer) ;;;
    port_write port PORT_IS 0xFFFFFFFF ;;;
    port_write port PORT_CI 1 ;;;
    x <- cfor limit 0 (fun _ _ => poll port) tt ;;
    match x with
    | Exit (Some e) => ret e
    | _ =>
        ci <- port_read port PORT_CI ;;
        if Z.land ci 1 =? 0 then ret 0 else ret (-2)
    end.

Definition ahci_read : Z -> Z -> Z -> M Z := ahci_read_lim POLL_LIMIT.
End driver.

(** ** What a controller does with a command (AHCI 1.3.1, ATA8-ACS) *)

Record ata_read := AtaRead { c_lba : Z; c_count : Z; c_addr : Z; c_bytes : Z }.

(** The command in slot 0, as the controller decodes it from memory: a
    non-ATAPI, non-reset read with one PRDT entry and a 5-dword H2D register
    FIS carrying READ DMA EXT with LBA addressing, its data base address
    word-aligned (bit 0 of DBA is reserved). *)
Definition decode_cmd (m : mem) (clb : Z) : option ata_read :=
  let h f := clb + off HBA_CMD_HEADER f in
  let tbl := mld 4 m (h "ctba") + 2 ^ 32 * mld 4 m (h "ctbau") in
  let fis f := tbl + off HBA_CMD_TBL "cfis" + off FIS_REG_H2D f in
  let prd f := tbl + off HBA_CMD_TBL "prdt_entry" + off HBA_PRDT_ENTRY f in
  if (get_bits (mget m (h "flags0")) 0 5 =? 5)
     && (get_bits (mget m (h "flags0")) 5 1 =? 0)
     && (get_bits (mget m (h "flags0")) 6 1 =? 0)
     && (get_bits (mget m (h "flags1")) 0 3 =? 0)
     && (mld 2 m (h "prdtl") =? 1)
     && (mget m (fis "fis_type") =? 0x27)
     && (get_bits (mget m (fis "flags")) 7 1 =? 1)
     && (mget m (fis "command") =? 0x25)
     && (get_bits (mget m (fis "device")) 6 1 =? 1)
     && Z.even (mld 4 m (prd "dba"))
  then Some (AtaRead
    (mget m (fis "lba0") + 2 ^ 8 * mget m (fis "lba1") + 2 ^ 16 * mget m (fis "lba2") +
     2 ^ 24 * mget m (fis "lba3") + 2 ^ 32 * mget m (fis "lba4") + 2 ^ 40 * mget m (fis "lba5"))
    (mld 2 m (fis "count"))
    (mld 4 m (prd "dba") + 2 ^ 32 * mld 4 m (prd "dbau"))
    (get_bits (mld 4 m (prd "dbc_i")) 0 22 + 1))
  else None.

(** ** Lemmas on bit-fields and on the memory the driver writes *)

Lemma set_bits_testbit old p n v i :
  0 <= p -> 0 <= n -> 0 <= i ->
  Z.testbit (set_bits old p n v) i =
  if decide (p <= i < p + n) then Z.testbit v (i - p) else Z.testbit old i.
Proof.
  intros Hp Hn Hi. unfold set_bits.
  rewrite Z.lor_spec, Z.ldiff_spec, !Z.shiftl_spec by lia.
  case_decide as Hd.
  - rewrite Z.ones_spec_low, Z.mod_pow2_bits_low by lia. by rewrite andb_false_r.
  - destruct (decide (i < p)).
    + rewrite !(Z.testbit_neg_r _ (i - p)) by lia. simpl. by rewrite andb_true_r, orb_false_r.
    + rewrite Z.ones_spec_high, Z.mod_pow2_bits_high by lia. simpl.
      by rewrite andb_true_r, orb_false_r.
Qed.

Lemma get_bits_testbit u p n i :
  0 <= p -> 0 <= n -> 0 <= i ->
  Z.testbit (get_bits u p n) i = if decide (i < n) then Z.testbit u (i + p) else false.
Proof.
  intros Hp Hn Hi. unfold get_bits. case_decide.
  - rewrite Z.mod_pow2_bits_low, Z.shiftr_spec by lia. done.
  - by rewrite Z.mod_pow2_bits_high by lia.
Qed.

Lemma get_set_same old p n v :
  0 <= p -> 0 <= n -> get_bits (set_bits old p n v) p n = v mod 2 ^ n.
Proof.
  intros Hp Hn. apply Z.bits_inj'. intros i Hi.
  rewrite get_bits_testbit by done. case_decide.
  - rewrite set_bits_testbit, decide_True, Z.mod_pow2_bits_low by lia. f_equal. lia.
  - by rewrite Z.mod_pow2_bits_high by lia.
Qed.

Lemma get_set_disj old p n v q k :
  0 <= p -> 0 <= n -> 0 <= q -> 0 <= k -> q + k <= p \/ p + n <= q ->
  get_bits (set_bits old p n v) q k = get_bits old q k.
Proof.
  intros. apply Z.bits_inj'. intros i Hi. rewrite !get_bits_testbit by done.
  case_decide; [|done]. rewrite set_bits_testbit, decide_False by lia. done.
Qed.

Lemma set_bits_bound old p n v w :
  0 <= p -> 0 <= n -> p + n <= w -> 0 <= old < 2 ^ w -> 0 <= set_bits old p n v < 2 ^ w.
Proof.
  intros Hp Hn Hw Ho.
  assert (Hm : set_bits old p n v mod 2 ^ w = set_bits old p n v).
  { apply Z.bits_inj'. intros i Hi. destruct (decide (i < w)).
    - by rewrite Z.mod_pow2_bits_low by lia.
    - rewrite Z.mod_pow2_bits_high by lia. rewrite set_bits_testbit, decide_False by lia.
      by rewrite (testbit_high old w) by lia. }
  rewrite <- Hm. apply Z.mod_pos_bound, Z.pow_pos_nonneg; lia.
Qed.

(** The six LBA bytes of the FIS. *)
Lemma lba_bytes lba :
  0 <= lba < 2 ^ 48 ->
  u8 lba + 2 ^ 8 * u8 (Z.shiftr lba 8) + 2 ^ 16 * u8 (Z.shiftr lba 16) +
  2 ^ 24 * u8 (Z.shiftr lba 24) + 2 ^ 32 * u8 (Z.shiftr lba 32) +
  2 ^ 40 * u8 (Z.shiftr lba 40) = lba.
Proof.
  intros H. pose proof (le_dec_enc 6 lba) as E. rewrite Z.mod_small in E by done.
  cbn [le_enc le_dec] in E. unfold wrap. rewrite !Z.shiftr_div_pow2 by lia.
  replace (lba / 2 ^ 16) with (lba / 256 / 256) by (rewrite !Z.div_div by lia; done).
  replace (lba / 2 ^ 24) with (lba / 256 / 256 / 256) by (rewrite !Z.div_div by lia; done).
  replace (lba / 2 ^ 32) with (lba / 256 / 256 / 256 / 256)
    by (rewrite !Z.div_div by lia; done).
  replace (lba / 2 ^ 40) with (lba / 256 / 256 / 256 / 256 / 256)
    by (rewrite !Z.div_div by lia; done).
  change (2 ^ 8) with 256. lia.
Qed.

Lemma clb_of_small port : 0 <= port < 32 -> clb_of port = 0x100000 + port * 0x400.
Proof. intros. apply u32_small. lia. Qed.

Lemma fb_of_small port : 0 <= port < 32 -> fb_of port = 0x108000 + port * 0x100.
Proof. intros. apply u32_small. lia. Qed.

Lemma ctba_of_small port : 0 <= port < 32 -> ctba_of port = 0x110000 + port * 0x100.
Proof. intros. apply u32_small. lia. Qed.

(** Regions [(start, size)] the controller accesses for a port. *)
Definition dma_regions (port : Z) : list (Z * Z) :=
  [(clb_of port, 32 * sizeof HBA_CMD_HEADER); (fb_of port, 0x100);
   (ctba_of port, sizeof HBA_CMD_TBL)].

Definition region_disj (r1 r2 : Z * Z) : Prop :=
  r1.1 + r1.2 <= r2.1 \/ r2.1 + r2.2 <= r1.1.

#[export] Instance region_disj_dec r1 r2 : Decision (region_disj r1 r2).
Proof. unfold region_disj. apply _. Defined.

(** The bits of the command header that the driver never writes. *)
Definition header_clean (m : mem) (clb : Z) : Prop :=
  get_bits (mget m (clb + off HBA_CMD_HEADER "flags0")) 5 1 = 0 /\
  get_bits (mget m (clb + off HBA_CMD_HEADER "flags1")) 0 3 = 0.

Lemma fill_header_out clb ctba m x :
  ~ (clb <= x < clb + sizeof HBA_CMD_HEADER) -> mget (fill_header clb ctba m) x = mget m x.
Proof. unfold fill_header. cbv zeta. offsets. intros H1. by mem_read. Qed.

Lemma fill_table_out ctba lba count buffer m x :
  ~ (ctba <= x < ctba + sizeof HBA_CMD_TBL) ->
  mget (fill_table ctba lba count buffer m) x = mget m x.
Proof. unfold fill_table. cbv zeta. offsets. intros H1. by mem_read. Qed.

Lemma fill_table_mld_out ctba lba count buffer m n x :
  x + Z.of_nat n <= ctba \/ ctba + sizeof HBA_CMD_TBL <= x ->
  mld n (fill_table ctba lba count buffer m) x = mld n m x.
Proof.
  intros H. unfold mld. f_equal. apply mgets_ext. intros i Hi.
  apply fill_table_out. lia.
Qed.

(** The command header as the controller reads it. *)
Lemma fill_header_reads clb ctba m :
  let m' := fill_header clb ctba m in
  mget m' clb = set_bits (set_bits (mget m clb) 0 5 5) 6 1 0 /\
  mget m' (clb + 1) = mget m (clb + 1) /\
  mld 2 m' (clb + 2) = 1 /\
  mld 4 m' (clb + 8) = ctba mod 2 ^ 32 /\
  mld 4 m' (clb + 12) = 0.
Proof.
  cbv zeta. unfold fill_header. cbv zeta. offsets. rewrite !Z.add_0_r.
  split_and!; by mem_read.
Qed.

(** The PRDT entry and the command FIS as the controller reads them. *)
Lemma fill_table_reads ctba lba count buffer m :
  let m' := fill_table ctba lba count buffer m in
  mget m' ctba = 0x27 /\
  mget m' (ctba + 1) = set_bits 0 7 1 1 /\
  mget m' (ctba + 2) = 0x25 /\
  mget m' (ctba + 4) = u8 lba /\
  mget m' (ctba + 5) = u8 (Z.shiftr lba 8) /\
  mget m' (ctba + 6) = u8 (Z.shiftr lba 16) /\
  mget m' (ctba + 7) = Z.shiftl 1 6 /\
  mget m' (ctba + 8) = u8 (Z.shiftr lba 24) /\
  mget m' (ctba + 9) = u8 (Z.shiftr lba 32) /\
  mget m' (ctba + 10) = u8 (Z.shiftr lba 40) /\
  mld 2 m' (ctba + 12) = u16 count mod 2 ^ 16 /\
  mld 4 m' (ctba + 128) = u32 buffer mod 2 ^ 32 /\
  mld 4 m' (ctba + 132) = 0 /\
  mld 4 m' (ctba + 140) =
    set_bits (set_bits 0 0 22 (u32 (count * 512 - 1)) mod 2 ^ 32) 31 1 1 mod 2 ^ 32.
Proof.
  cbv zeta. unfold fill_table. cbv zeta. offsets. rewrite !Z.add_0_r.
  rewrite <- !Z.add_assoc. offset_sums.
  split_and!; by mem_read.
Qed.

(** The byte count of the PRDT entry. *)
Lemma dbc_bytes count :
  0 < count <= 8192 ->
  get_bits (set_bits (set_bits 0 0 22 (u32 (count * 512 - 1)) mod 2 ^ 32) 31 1 1 mod 2 ^ 32)
    0 22 + 1 = 512 * count.
Proof.
  intros Hn. rewrite (u32_small (count * 512 - 1)) by lia.
  pose proof (set_bits_bound 0 0 22 (count * 512 - 1) 32) as H1.
  rewrite (Z.mod_small (set_bits 0 0 22 _)) by lia.
  pose proof (set_bits_bound (set_bits 0 0 22 (count * 512 - 1)) 31 1 1 32) as H2.
  rewrite Z.mod_small by lia.
  rewrite get_set_disj, get_set_same, Z.mod_small by lia. lia.
Qed.

(** What the driver writes decodes to a READ DMA EXT of exactly the requested
    sectors into the requested buffer. *)
Lemma decode_fill clb ctba lba count buffer m :
  0 <= ctba < 2 ^ 32 ->
  clb + sizeof HBA_CMD_HEADER <= ctba \/ ctba + sizeof HBA_CMD_TBL <= clb ->
  0 <= lba < 2 ^ 48 -> 0 < count <= 8192 -> 0 <= buffer < 2 ^ 32 -> Z.even buffer = true ->
  header_clean m clb ->
  decode_cmd (fill_table ctba lba count buffer (fill_header clb ctba m)) clb =
  Some (AtaRead lba count buffer (512 * count)).
Proof.
  intros Ht Hd Hl Hn Hb Hev Hclean.
  pose proof (fill_header_reads clb ctba m) as (R0 & R1 & R2 & R8 & R12).
  set (m1 := fill_header clb ctba m) in *.
  pose proof (fill_table_reads ctba lba count buffer m1) as
    (T0 & T1 & T2 & T4 & T5 & T6 & T7 & T8 & T9 & T10 & T12 & T128 & T132 & T140).
  assert (Hout : forall n x, clb <= x -> x + Z.of_nat n <= clb + 32 ->
    mld n (fill_table ctba lba count buffer m1) x = mld n m1 x).
  { intros n x Hx1 Hx2. apply fill_table_mld_out. revert Hd. offsets. lia. }
  set (m2 := fill_table ctba lba count buffer m1) in *. clearbody m2.
  unfold header_clean in Hclean. unfold decode_cmd. cbv zeta.
  revert Hclean. offsets. rewrite !Z.add_0_r. intros [Hf0 Hf1].
  rewrite <- (mld_1 m2 clb), <- (mld_1 m2 (clb + 1)), !(Hout 1%nat), !(Hout 2%nat),
    !(Hout 4%nat), !mld_1, R0, R1, R2, R8, R12, (Z.mod_small ctba) by lia.
  rewrite Z.mul_0_r, Z.add_0_r, <- !Z.add_assoc. offset_sums.
  rewrite T128, T132, T140, T0, T1, T2, T4, T5, T6, T7, T8, T9, T10, T12.
  rewrite (get_set_disj _ 6 1 0 0 5), (get_set_disj _ 6 1 0 5 1), (get_set_disj _ 0 5 5 5 1),
    !get_set_same, Hf0, Hf1, !Z.add_assoc, lba_bytes, dbc_bytes by lia.
  rewrite (u32_small buffer), (Z.mod_small buffer), Hev by lia.
  unfold wrap. rewrite (Z.mod_small count), (Z.mod_small count) by lia.
  rewrite Z.mul_0_r, Z.add_0_r. reflexivity.
Qed.

(** ** A controller with a disk behind the port *)

(** Bytes the controller writes by itself when a command completes. *)
Definition reported (clb port x : Z) : Prop :=
  clb + 4 <= x < clb + 8 \/ fb_of port <= x < fb_of port + 0x100.

Definition mem_upto (clb port : Z) (m1 m2 : mem) : Prop :=
  forall x, ~ reported clb port x -> mget m1 x = mget m2 x.

(** Agreement except where a failed command of [size] bytes into [addr] may
    have left part of its data, and where the controller reports. *)
Definition mem_failed (clb port addr size : Z) (m1 m2 : mem) : Prop :=
  forall x, ~ reported clb port x -> ~ (addr <= x < addr + size) -> mget m1 x = mget m2 x.

(** Documented behaviour of a started port with a disk of [cap] sectors that
    hold [img], each command ending within [lat] polls.  [hba_ready clb]: the
    port runs with its command list at [clb] and no command in flight.
    [hba_busy n clb m]: a command completes after [n] more polls, leaving the
    memory [m] except for what the controller reports there itself, the byte
    count in the command header and the received FIS.  [hba_failing n clb addr
    size m]: the device rejects the command after [n] more polls; the port then
    stops with the command's CI bit and the task file error bit of PxIS set,
    and memory is [m] up to partial data and the reports.  A read succeeds when
    its sectors are on the disk, and fails when some lie beyond its end;
    nothing is said of the port after a failure. *)
Class HbaModel (A : Type) `{Hba A} (base port : Z) (img : Z -> Z) (cap : Z) (lat : nat) := {
  hba_ready : Z -> A -> Prop;
  hba_busy : nat -> Z -> mem -> A -> Prop;
  hba_failing : nat -> Z -> Z -> Z -> mem -> A -> Prop;
  hba_reg (o : Z) : Z := base + off HBA_MEM "ports" + port * sizeof HBA_PORT + o;
  hba_ram m a : ram (set_ram m a) = m;
  hba_ready_ram clb m a : hba_ready clb a -> hba_ready clb (set_ram m a);
  hba_clear_is clb v a :
    hba_ready clb a ->
    hba_ready clb (mmio_wr (hba_reg PORT_IS) v a) /\
    ram (mmio_wr (hba_reg PORT_IS) v a) = ram a;
  hba_issue clb a c :
    hba_ready clb a -> decode_cmd (ram a) clb = Some c ->
    0 < c_count c -> c_bytes c = 512 * c_count c -> c_lba c + c_count c <= cap ->
    exists n, (n <= lat)%nat /\
      hba_busy n clb
        (mputs (ram a) (c_addr c) (img_bytes img (512 * c_lba c) (Z.to_nat (c_bytes c))))
        (mmio_wr (hba_reg PORT_CI) 1 a);
  hba_reject clb a c :
    hba_ready clb a -> decode_cmd (ram a) clb = Some c ->
    0 < c_count c -> c_bytes c = 512 * c_count c -> cap < c_lba c + c_count c ->
    exists n, (n <= lat)%nat /\
      hba_failing n clb (c_addr c) (c_bytes c) (ram a) (mmio_wr (hba_reg PORT_CI) 1 a);
  hba_poll n clb m a :
    hba_busy (S n) clb m a ->
    let '(v, a1) := mmio_rd (hba_reg PORT_CI) a in
    let '(s, a2) := mmio_rd (hba_reg PORT_IS) a1 in
    Z.testbit v 0 = true /\ Z.testbit s 30 = false /\ hba_busy n clb m a2;
  hba_complete clb m a :
    hba_busy 0 clb m a ->
    let '(v, a1) := mmio_rd (hba_reg PORT_CI) a in
    Z.testbit v 0 = false /\ hba_ready clb a1 /\ mem_upto clb port (ram a1) m;
  hba_poll_fail n clb addr size m a :
    hba_failing (S n) clb addr size m a ->
    let '(v, a1) := mmio_rd (hba_reg PORT_CI) a in
    let '(s, a2) := mmio_rd (hba_reg PORT_IS) a1 in
    Z.testbit v 0 = true /\ Z.testbit s 30 = false /\ hba_failing n clb addr size m a2;
  hba_error clb addr size m a :
    hba_failing 0 clb addr size m a ->
    let '(v, a1) := mmio_rd (hba_reg PORT_CI) a in
    let '(s, a2) := mmio_rd (hba_reg PORT_IS) a1 in
    Z.testbit v 0 = true /\ Z.testbit s 30 = true /\
    mem_failed clb port addr size (ram a2) m;
  hba_idle clb a :
    hba_ready clb a ->
    let '(v, a1) := mmio_rd (hba_reg PORT_CI) a in
    Z.testbit v 0 = false /\ hba_ready clb a1 /\ ram a1 = ram a
}.

Section read.
Context {P A : Type} `{Hba A} (base port : Z) (img : Z -> Z) (cap : Z) (lat : nat)
  `{!HbaModel A base port img cap lat}.
Implicit Types d : drv P A.

(** The driver is bound to this port of this controller. *)
Definition bound (d : drv P A) : Prop := hba d = base /\ active_port d = port.

Lemma port_reg_bound d o : bound d -> port_reg d port o = hba_reg o.
Proof. intros [Hb _]. unfold port_reg, hba_reg. by rewrite Hb. Qed.

Definition with_hw d h : drv P A := Drv (hba d) (active_port d) (ports_hw d) h.

Lemma bound_with_hw d h : bound d -> bound (with_hw d h).
Proof. done. Qed.

Lemma wp_port_read o (Q : Z -> drv P A -> Prop) d :
  bound d ->
  (let '(v, h) := mmio_rd (hba_reg o) (hw d) in Q v (with_hw d h)) ->
  wp (port_read port o) Q d.
Proof.
  intros Hb HQ. unfold wp, port_read, bind, gets, rd32. rewrite port_reg_bound by done.
  by destruct (mmio_rd _ _).
Qed.

Lemma wp_port_write o v (Q : unit -> drv P A -> Prop) d :
  bound d -> Q tt (with_hw d (mmio_wr (hba_reg o) v (hw d))) ->
  wp (port_write port o v) Q d.
Proof.
  intros Hb HQ. unfold wp, port_write, bind, gets, wr32, on_hw, modify.
  by rewrite port_reg_bound.
Qed.

Lemma wp_on_ram f (Q : unit -> drv P A -> Prop) d :
  Q tt (with_hw d (set_ram (f (ram (hw d))) (hw d))) -> wp (on_ram f) Q d.
Proof. done. Qed.

(** The polling loop ends with the command complete, or with one more poll
    to do when the latency equals the bound. *)
Lemma wp_poll_loop limit n clb m d i :
  bound d -> hba_busy n clb m (hw d) -> (n <= limit)%nat ->
  wp (cfor limit i (fun _ _ => poll port) tt) (fun x d' =>
    bound d' /\
    ((x = Exit None /\ hba_ready clb (hw d') /\ mem_upto clb port (ram (hw d')) m) \/
     (x = Next tt /\ hba_busy 0 clb m (hw d')))) d.
Proof.
  revert n d i. induction limit as [|limit IH]; intros n d i Hb Hbusy Hn; cbn [cfor].
  { assert (n = 0%nat) as -> by lia. apply wp_ret. by eauto. }
  apply wp_bind. unfold poll at 1. apply wp_bind, wp_port_read; [done|].
  destruct n as [|n].
  - pose proof (hba_complete _ _ _ Hbusy) as Hc.
    destruct (mmio_rd _ _) as [v a1] eqn:E1. destruct Hc as (Hv & Hr & Hm).
    change 1 with (Z.shiftl 1 0). rewrite land_bit, Hv by lia. simpl.
    apply wp_ret, wp_ret. by eauto.
  - pose proof (hba_poll _ _ _ _ Hbusy) as Hc.
    destruct (mmio_rd _ _) as [v a1] eqn:E1.
    destruct (mmio_rd _ a1) as [s a2] eqn:E2. destruct Hc as (Hv & Hs & Hbz).
    change (Z.land v 1) with (Z.land v (Z.shiftl 1 0)). rewrite land_bit, Hv by lia.
    apply wp_bind, wp_port_read; [by apply bound_with_hw|]. cbn [hw with_hw].
    rewrite E2, land_bit, Hs by lia. apply wp_ret.
    by apply (IH n); [| |lia].
Qed.

(** The polling loop leaves with -1 when the device rejects the command. *)
Lemma wp_poll_fail limit n clb addr size m d i :
  bound d -> hba_failing n clb addr size m (hw d) -> (n < limit)%nat ->
  wp (cfor limit i (fun _ _ => poll port) tt) (fun x d' =>
    bound d' /\ x = Exit (Some (-1)) /\ mem_failed clb port addr size (ram (hw d')) m) d.
Proof.
  revert n d i. induction limit as [|limit IH]; intros n d i Hb Hf Hn; [lia|]. cbn [cfor].
  apply wp_bind. unfold poll at 1. apply wp_bind, wp_port_read; [done|].
  destruct n as [|n].
  - pose proof (hba_error _ _ _ _ _ Hf) as Hc.
    destruct (mmio_rd _ _) as [v a1] eqn:E1.
    destruct (mmio_rd _ a1) as [s a2] eqn:E2. destruct Hc as (Hv & Hs & Hm).
    change (Z.land v 1) with (Z.land v (Z.shiftl 1 0)). rewrite land_bit, Hv by lia.
    apply wp_bind, wp_port_read; [by apply bound_with_hw|]. cbn [hw with_hw].
    rewrite E2, land_bit, Hs by lia. by apply wp_ret, wp_ret.
  - pose proof (hba_poll_fail _ _ _ _ _ _ Hf) as Hc.
    destruct (mmio_rd _ _) as [v a1] eqn:E1.
    destruct (mmio_rd _ a1) as [s a2] eqn:E2. destruct Hc as (Hv & Hs & Hbz).
    change (Z.land v 1) with (Z.land v (Z.shiftl 1 0)). rewrite land_bit, Hv by lia.
    apply wp_bind, wp_port_read; [by apply bound_with_hw|]. cbn [hw with_hw].
    rewrite E2, land_bit, Hs by lia. apply wp_ret.
    by apply (IH n); [| |lia].
Qed.

(** A buffer apart from the port's DMA structures. *)
Definition buffer_apart (buffer size : Z) : Prop :=
  Forall (region_disj (buffer, size)) (dma_regions port).

(** The parts of them that a command through slot 0 uses. *)
Definition cmd_regions : list (Z * Z) :=
  [(clb_of port, sizeof HBA_CMD_HEADER); (fb_of port, 0x100); (ctba_of port, sizeof HBA_CMD_TBL)].

(** Memory outside the buffer and those parts is unchanged, and the header
    can carry the next command. *)
Definition read_frame count buffer d d' : Prop :=
  header_clean (ram (hw d')) (clb_of port) /\
  (forall x, ~ (buffer <= x < buffer + 512 * count) ->
     Forall (fun r => ~ (r.1 <= x < r.1 + r.2)) cmd_regions ->
     mget (ram (hw d')) x = mget (ram (hw d)) x).

(** What a successful read leaves behind. *)
Definition read_post lba count buffer d (r : Z) (d' : drv P A) : Prop :=
  r = 0 /\ bound d' /\ hba_ready (clb_of port) (hw d') /\
  mgets (ram (hw d')) buffer (Z.to_nat (512 * count)) =
    img_bytes img (512 * lba) (Z.to_nat (512 * count)) /\
  read_frame count buffer d d'.

Definition cmd_mem lba count buffer d : mem :=
  fill_table (ctba_of port) lba count buffer
    (fill_header (clb_of port) (ctba_of port) (ram (hw d))).

Lemma header_clean_cmd lba count buffer d :
  0 <= port < 32 -> header_clean (ram (hw d)) (clb_of port) ->
  header_clean (cmd_mem lba count buffer d) (clb_of port).
Proof.
  intros Hp [H0 H1]. pose proof (clb_of_small port Hp). pose proof (ctba_of_small port Hp).
  unfold header_clean, cmd_mem in *. split.
  - rewrite fill_table_out by (offsets; lia). unfold fill_header. cbv zeta. revert H0. offsets.
    intros H0. mem_read. by rewrite !get_set_disj by lia.
  - rewrite fill_table_out by (offsets; lia). unfold fill_header. cbv zeta. revert H1. offsets.
    intros H1. by mem_read.
Qed.

Lemma buffer_apart_3 buffer size : buffer_apart buffer size ->
  region_disj (buffer, size) (clb_of port, 0x400) /\ region_disj (buffer, size) (fb_of port, 0x100) /\
  region_disj (buffer, size) (ctba_of port, 144).
Proof. unfold buffer_apart, dma_regions. rewrite !Forall_cons. intros (H1 & H2 & H3 & _). done. Qed.

Lemma read_frame_intro lba count buffer d d' :
  0 <= port < 32 -> 0 < count -> header_clean (ram (hw d)) (clb_of port) ->
  buffer_apart buffer (512 * count) ->
  mem_failed (clb_of port) port buffer (512 * count) (ram (hw d')) (cmd_mem lba count buffer d) ->
  read_frame count buffer d d'.
Proof.
  intros Hp Hc Hclean Ha Hm.
  destruct (buffer_apart_3 _ _ Ha) as (A1 & A2 & A3). unfold region_disj in A1, A2, A3.
  cbn [fst snd] in A1, A2, A3.
  pose proof (clb_of_small port Hp) as Ec. pose proof (fb_of_small port Hp) as Ef.
  pose proof (ctba_of_small port Hp) as Et. split.
  - apply (header_clean_cmd lba count buffer) in Hclean as [H0 H1]; [|done].
    unfold header_clean. revert H0 H1. offsets. intros H0 H1.
    by rewrite !Hm by (unfold reported; lia).
  - intros x H1 H2. unfold cmd_regions in H2. rewrite !Forall_cons in H2.
    destruct H2 as (H2 & H3 & H4 & _). cbn [fst snd] in H2, H3, H4. revert H2 H3 H4. offsets.
    intros H2 H3 H4. rewrite Hm by (unfold reported; lia).
    unfold cmd_mem. rewrite fill_table_out by (offsets; lia). apply fill_header_out. offsets. lia.
Qed.

Lemma read_post_intro lba count buffer d d' :
  0 <= port < 32 -> 0 < count -> header_clean (ram (hw d)) (clb_of port) ->
  buffer_apart buffer (512 * count) -> bound d' -> hba_ready (clb_of port) (hw d') ->
  mem_upto (clb_of port) port (ram (hw d')) (mputs (cmd_mem lba count buffer d) buffer
    (img_bytes img (512 * lba) (Z.to_nat (512 * count)))) ->
  read_post lba count buffer d 0 d'.
Proof.
  intros Hp Hc Hclean Ha Hb Hr Hm. unfold read_post.
  destruct (buffer_apart_3 _ _ Ha) as (A1 & A2 & A3). unfold region_disj in A1, A2, A3.
  cbn [fst snd] in A1, A2, A3.
  pose proof (clb_of_small port Hp) as Ec. pose proof (fb_of_small port Hp) as Ef.
  pose proof (ctba_of_small port Hp) as Et.
  set (bs := img_bytes _ _ _) in *.
  assert (Hlen : length bs = Z.to_nat (512 * count)).
  { unfold bs, img_bytes. rewrite length_map, length_seqZ. lia. }
  split_and!; [done..| |].
  - rewrite <- Hlen. rewrite <- (mgets_mputs_same (cmd_mem lba count buffer d) buffer bs) at 2.
    apply mgets_ext. intros i Hi. apply Hm. unfold reported. lia.
  - apply (read_frame_intro lba); [done..|]. intros x H1 H2.
    rewrite Hm, mget_mputs_out by (done || lia). done.
Qed.

(** The end of [ahci_read]: the poll and the final status check, from a
    command in flight. *)
Lemma wp_read_end limit n clb m (Q : Z -> drv P A -> Prop) d :
  bound d -> hba_busy n clb m (hw d) -> (n <= limit)%nat ->
  (forall d', bound d' -> hba_ready clb (hw d') -> mem_upto clb port (ram (hw d')) m -> Q 0 d') ->
  wp (x <- cfor limit 0 (fun _ _ => poll port) tt ;;
      match x with
      | Exit (Some e) => ret e
      | _ => ci <- port_read port PORT_CI ;;
             if Z.land ci 1 =? 0 then ret 0 else ret (-2)
      end) Q d.
Proof.
  intros Hb Hbusy Hn HQ. apply wp_bind.
  eapply wp_mono; [by apply (wp_poll_loop limit n clb m)|]. cbn beta.
  intros x d' (Hb' & [(-> & Hr' & Hm')|(-> & Hbz)]).
  - apply wp_bind, wp_port_read; [done|].
    pose proof (hba_idle _ _ Hr') as Hi. destruct (mmio_rd _ _) as [v a1].
    destruct Hi as (Hv & Hr1 & Hm1). change 1 with (Z.shiftl 1 0).
    rewrite land_bit, Hv by lia. apply wp_ret, HQ; [done..|]. cbn [hw with_hw]. by rewrite Hm1.
  - apply wp_bind, wp_port_read; [done|].
    pose proof (hba_complete _ _ _ Hbz) as Hi. destruct (mmio_rd _ _) as [v a1].
    destruct Hi as (Hv & Hr1 & Hm1). change 1 with (Z.shiftl 1 0).
    rewrite land_bit, Hv by lia. by apply wp_ret, HQ.
Qed.

(** The command as issued: [ahci_read] up to the polling loop. *)
Lemma wp_read_start limit lba count buffer (Q : Z -> drv P A -> Prop) d :
  0 <= port < 32 -> bound d -> hba_ready (clb_of port) (hw d) ->
  header_clean (ram (hw d)) (clb_of port) ->
  0 <= lba < 2 ^ 48 -> 0 < count <= 8192 -> 0 <= buffer < 2 ^ 32 -> Z.even buffer = true ->
  (forall a, hba_ready (clb_of port) a -> ram a = cmd_mem lba count buffer d ->
     decode_cmd (ram a) (clb_of port) = Some (AtaRead lba count buffer (512 * count)) ->
     wp (x <- cfor limit 0 (fun _ _ => poll port) tt ;;
         match x with
         | Exit (Some e) => ret e
         | _ => ci <- port_read port PORT_CI ;;
                if Z.land ci 1 =? 0 then ret 0 else ret (-2)
         end) Q (with_hw d (mmio_wr (hba_reg PORT_CI) 1 a))) ->
  wp (ahci_read_lim limit lba count buffer) Q d.
Proof.
  intros Hp Hb Hr Hclean Hl Hc Hbuf Hev HQ.
  pose proof (clb_of_small port Hp) as Eclb. pose proof (ctba_of_small port Hp) as Ect.
  unfold ahci_read_lim. apply wp_bind, wp_gets. rewrite (proj2 Hb).
  destruct (Z.eqb_spec port (-1)); [lia|]. cbv zeta.
  apply wp_bind, wp_on_ram. apply wp_bind, wp_on_ram. cbn [hw with_hw]. rewrite hba_ram.
  fold (cmd_mem lba count buffer d).
  set (a2 := set_ram (cmd_mem lba count buffer d) _).
  assert (Hra : ram a2 = cmd_mem lba count buffer d) by apply hba_ram.
  assert (Hr2 : hba_ready (clb_of port) a2) by (by repeat apply hba_ready_ram).
  clearbody a2. destruct (hba_clear_is _ 0xFFFFFFFF _ Hr2) as [Hr3 Hra3].
  rewrite Hra in Hra3.
  apply wp_bind, wp_port_write; [done|]. apply wp_bind, wp_port_write; [done|].
  apply HQ; [done..|]. cbn [hw with_hw]. rewrite Hra3. unfold cmd_mem. apply decode_fill; [lia| |done..].
  offsets. lia.
Qed.

Lemma wp_ahci_read limit lba count buffer d :
  0 <= port < 32 -> bound d -> hba_ready (clb_of port) (hw d) ->
  header_clean (ram (hw d)) (clb_of port) ->
  0 <= lba < 2 ^ 48 -> 0 < count <= 8192 -> 0 <= buffer < 2 ^ 32 -> Z.even buffer = true ->
  buffer_apart buffer (512 * count) -> (lat <= limit)%nat -> lba + count <= cap ->
  wp (ahci_read_lim limit lba count buffer) (read_post lba count buffer d) d.
Proof.
  intros Hp Hb Hr Hclean Hl Hc Hbuf Hev Ha Hlat Hcap.
  apply wp_read_start; [done..|]. intros a Hra Hm Hdec.
  destruct (hba_issue _ _ _ Hra Hdec) as (k & Hk & Hbusy); [cbn; lia|done..|].
  cbn [c_addr c_lba c_bytes] in Hbusy. rewrite Hm in Hbusy.
  eapply wp_read_end; [done|exact Hbusy|lia|].
  intros d' Hb' Hr' Hm'. apply read_post_intro; (done || lia).
Qed.

Lemma wp_ahci_read_beyond limit lba count buffer d :
  0 <= port < 32 -> bound d -> hba_ready (clb_of port) (hw d) ->
  header_clean (ram (hw d)) (clb_of port) ->
  0 <= lba < 2 ^ 48 -> 0 < count <= 8192 -> 0 <= buffer < 2 ^ 32 -> Z.even buffer = true ->
  buffer_apart buffer (512 * count) -> (lat < limit)%nat -> cap < lba + count ->
  wp (ahci_read_lim limit lba count buffer) (fun r d' =>
    r = -1 /\ bound d' /\ read_frame count buffer d d') d.
Proof.
  intros Hp Hb Hr Hclean Hl Hc Hbuf Hev Ha Hlat Hcap.
  apply wp_read_start; [done..|]. intros a Hra Hm Hdec.
  destruct (hba_reject _ _ _ Hra Hdec) as (k & Hk & Hf); [cbn; lia|done..|].
  cbn [c_addr c_bytes] in Hf. rewrite Hm in Hf.
  apply wp_bind. eapply wp_mono.
  - by apply (wp_poll_fail limit k (clb_of port) buffer (512 * count) (cmd_mem lba count buffer d));
      [|exact Hf|lia].
  - cbv beta. intros x d' (Hb' & -> & Hm'). apply wp_ret. split_and!; [done..|].
    apply (read_frame_intro lba); (done || lia).
Qed.
End read.

(** C10: For a started, idle port whose command header has its unused flag bits
    clear and a disk that answers before the polling bound, [ahci_read] of 1 to
    8192 sectors into an even-addressed buffer below 4 GiB and apart from the
    port's DMA structures returns.  If the sectors are on the disk it returns
    0, the buffer holds exactly those sectors, and the port is ready for the
    next command; if some lie beyond the disk's end it returns -1.  Either way
    no memory changes but the buffer and the port's own command header (slot
    0), received-FIS area and command table, which the code keeps at fixed
    addresses (inside the kernel image, see [dma_overlaps_kernel]). *)
Theorem ahci_read_correct {P A : Type} `{Hba A} (base port : Z)
    (img : Z -> Z) (cap : Z) (lat : nat) `{!HbaModel A base port img cap lat}
    lba count buffer (d : drv P A) :
  0 <= port < 32 -> bound base port d -> hba_ready (clb_of port) (hw d) ->
  header_clean (ram (hw d)) (clb_of port) ->
  0 <= lba < 2 ^ 48 -> 0 < count <= 8192 -> 0 <= buffer < 2 ^ 32 -> Z.even buffer = true ->
  buffer_apart port buffer (512 * count) -> (lat < POLL_LIMIT)%nat ->
  wp (ahci_read lba count buffer) (fun r d' =>
    bound base port d' /\ header_clean (ram (hw d')) (clb_of port) /\
    (forall x, ~ (buffer <= x < buffer + 512 * count) ->
       ~ (clb_of port <= x < clb_of port + sizeof HBA_CMD_HEADER) ->
       ~ (fb_of port <= x < fb_of port + 0x100) ->
       ~ (ctba_of port <= x < ctba_of port + sizeof HBA_CMD_TBL) ->
       mget (ram (hw d')) x = mget (ram (hw d)) x) /\
    if lba + count <=? cap then
      r = 0 /\ hba_ready (clb_of port) (hw d') /\
      mgets (ram (hw d')) buffer (Z.to_nat (512 * count)) =
        img_bytes img (512 * lba) (Z.to_nat (512 * count))
    else r = -1) d.
Proof.
  intros Hp Hb Hr Hclean Hl Hc Hbuf Hev Ha Hlat. destruct (Z.leb_spec (lba + count) cap) as [Hcap|Hcap].
  - eapply wp_mono; [by eapply (wp_ahci_read base port img cap lat POLL_LIMIT); (done || lia)|].
    intros r d' (-> & Hb' & Hr' & Hm & Hclean' & Hf). split_and!; [done..| |done|done|done].
    intros x H1 H2 H3 H4. apply Hf; [done|]. by repeat constructor.
  - eapply wp_mono; [by eapply (wp_ahci_read_beyond base port img cap lat POLL_LIMIT); (done || lia)|].
    intros r d' (-> & Hb' & Hclean' & Hf). split_and!; [done..| |done].
    intros x H1 H2 H3 H4. apply Hf; [done|]. by repeat constructor.
Qed.

(** C12: Whatever the controller does, [ahci_read] terminates with the driver's
    two static variables unchanged and returns 0, -1 or -2; with no active port
    it returns -1 and performs no access at all. *)
Theorem ahci_read_total {P A : Type} `{Hba A} limit lba count buffer (d : drv P A) :
  (exists r d', ahci_read_lim limit lba count buffer d = Done (r, d') /\
     (r = 0 \/ r = -1 \/ r = -2) /\ hba d' = hba d /\ active_port d' = active_port d) /\
  (active_port d = -1 -> ahci_read_lim limit lba count buffer d = Done (-1, d)).
Proof.
  split.
  - apply wp_done. unfold ahci_read_lim. apply wp_bind, wp_gets.
    destruct (active_port d =? -1); [by apply wp_ret; eauto|]. cbv zeta.
    set (I := fun d' : drv P A => hba d' = hba d /\ active_port d' = active_port d).
    assert (Hrd : forall p o (Q : Z -> drv P A -> Prop) d1, I d1 ->
      (forall v d2, I d2 -> Q v d2) -> wp (port_read p o) Q d1).
    { intros p o Q d1 HI HQ. unfold wp, port_read, bind, gets, rd32.
      destruct (mmio_rd _ _). by apply HQ. }
    do 4 (apply wp_bind; unfold port_write, wr32, on_ram, on_hw;
          try (apply wp_bind, wp_gets); apply wp_modify).
    apply wp_bind. eapply wp_mono.
    + apply (wp_cfor (fun _ _ => I)
        (fun x d' => I d' /\ (x = Next tt \/ x = Exit None \/ x = Exit (Some (-1))))); [done| |].
      * intros i [] d1 _ HI. unfold poll. apply wp_bind, Hrd; [done|]. intros v d2 HI2.
        destruct (_ =? 0); [apply wp_ret; by eauto|].
        apply wp_bind, Hrd; [done|]. intros v2 d3 HI3.
        destruct (_ =? 0); apply wp_ret; by eauto.
      * intros [] d1 HI. by eauto.
    + cbn beta. intros x d1 (HI & Hx).
      assert (Hfin : wp (ci <- port_read (active_port d) PORT_CI ;;
        if Z.land ci 1 =? 0 then ret 0 else ret (-2))
        (fun r d' => (r = 0 \/ r = -1 \/ r = -2) /\ I d') d1).
      { apply wp_bind, Hrd; [done|]. intros v d2 HI2.
        destruct (_ =? 0); apply wp_ret; by eauto. }
      destruct Hx as [-> | [-> | ->]]; [exact Hfin..|]. apply wp_ret. by eauto.
  - intros Ha. unfold ahci_read_lim, bind, gets. by rewrite Ha.
Qed.

(** ** Discovery and start-up *)

(** A register access: the value a read returned, the value written. *)
Inductive access :=
| Rd (a v : Z)
| Wr (a v : Z).

(** Running a sequence of accesses on the hardware. *)
Fixpoint mmio_run {A} `{Hba A} (tr : list access) (h h' : A) : Prop :=
  match tr with
  | [] => h' = h
  | Rd a v :: tr => exists h1, mmio_rd a h = (v, h1) /\ mmio_run tr h1 h'
  | Wr a v :: tr => mmio_run tr (mmio_wr a v h) h'
  end.

Lemma mmio_run_app {A} `{Hba A} t1 t2 (h1 h2 h3 : A) :
  mmio_run t1 h1 h2 -> mmio_run t2 h2 h3 -> mmio_run (t1 ++ t2) h1 h3.
Proof.
  revert h1. induction t1 as [|[a v|a v] t1 IH]; intros h1; cbn [app mmio_run].
  - by intros ->.
  - intros (h & E & H1) H2. eauto.
  - eauto.
Qed.

(** Register [o] of port [i] of the controller at [base]. *)
Definition reg_at (base i o : Z) : Z :=
  base + off HBA_MEM "ports" + i * sizeof HBA_PORT + o.

Definition ghc_at (base : Z) : Z := base + off HBA_MEM "ghc".
Definition pi_at (base : Z) : Z := base + off HBA_MEM "pi".

(** The port registers that [port_rebase] writes. *)
Definition start_regs : list Z :=
  [PORT_CMD; PORT_CLB; PORT_CLBU; PORT_FB; PORT_FBU; PORT_SERR; PORT_IS].

(** Writes that do not reset the controller: GHC without its HR bit, and the
    registers above. *)
Definition start_write (base a v : Z) : Prop :=
  (a = ghc_at base /\ Z.testbit v 0 = false) \/
  exists i o, 0 <= i < 32 /\ o ∈ start_regs /\ a = reg_at base i o.

(** ST and FRE (bits 0 and 4 of PxCMD); CR and FR (bits 15 and 14). *)
Definition CMD_START : Z := 0x11.
Definition CMD_RUNNING : Z := 0xC000.

(** Documented behaviour used by [ahci_init]: outside a reset, the
    identification registers PI, PxSSTS and PxSIG are read-only and stable and
    GHC.HR reads 0; ST and FRE of PxCMD ([hid_ctl]) read back as last written;
    and once both are clear, CR and FR read 0 within [cmd_lat] reads of PxCMD.
    Nothing is said of CR and FR while ST or FRE is set. *)
Class HbaIdent (A : Type) `{Hba A} (base pi : Z) (ssts sig : Z -> Z) (cmd_lat : nat) := {
  hid_inv : A -> Prop;
  hid_ctl : Z -> A -> Z;
  hid_lat : Z -> A -> nat;
  hid_wr a v h : hid_inv h -> start_write base a v -> hid_inv (mmio_wr a v h);
  hid_rd a h : hid_inv h -> hid_inv (mmio_rd a h).2;
  hid_ghc h : hid_inv h -> Z.testbit (mmio_rd (ghc_at base) h).1 0 = false;
  hid_pi h : hid_inv h -> (mmio_rd (pi_at base) h).1 = pi;
  hid_ssts i h : 0 <= i < 32 -> hid_inv h -> (mmio_rd (reg_at base i PORT_SSTS) h).1 = ssts i;
  hid_sig i h : 0 <= i < 32 -> hid_inv h -> (mmio_rd (reg_at base i PORT_SIG) h).1 = sig i;
  hid_ctl_set i v h : 0 <= i < 32 -> hid_inv h ->
    hid_ctl i (mmio_wr (reg_at base i PORT_CMD) v h) = Z.land v CMD_START;
  hid_ctl_wr i a v h : 0 <= i < 32 -> hid_inv h -> start_write base a v ->
    a <> reg_at base i PORT_CMD -> hid_ctl i (mmio_wr a v h) = hid_ctl i h;
  hid_ctl_rd i a h : hid_inv h -> hid_ctl i (mmio_rd a h).2 = hid_ctl i h;
  hid_lat_le i h : hid_inv h -> (hid_lat i h <= cmd_lat)%nat;
  hid_cmd i h : 0 <= i < 32 -> hid_inv h ->
    let '(v, h') := mmio_rd (reg_at base i PORT_CMD) h in
    Z.land v CMD_START = hid_ctl i h /\
    (hid_ctl i h = 0 -> Z.land v CMD_RUNNING = 0 \/ (hid_lat i h' < hid_lat i h)%nat)
}.

(** An established link: DET 3 and IPM 1 of PxSSTS. *)
Definition is_linked (ssts : Z) : bool := (ssts mod 2 ^ 4 =? 3) && (ssts / 2 ^ 8 mod 2 ^ 4 =? 1).

(** A port with an active ATA device behind it. *)
Definition is_ata (pi : Z) (ssts sig : Z -> Z) (i : Z) : bool :=
  Z.testbit pi i && is_linked (ssts i) && (sig i =? SATA_SIG_ATA).

Definition ata_ports (pi : Z) (ssts sig : Z -> Z) : list Z :=
  filter (is_ata pi ssts sig) (seqZ 0 32).

(** The reads of the port scan: PxSSTS of each implemented port, and PxSIG of
    those with a link. *)
Definition scan_reads (base pi : Z) (ssts sig : Z -> Z) (i : Z) : list access :=
  if Z.testbit pi i then
    Rd (reg_at base i PORT_SSTS) (ssts i) ::
    (if is_linked (ssts i) then [Rd (reg_at base i PORT_SIG) (sig i)] else [])
  else [].

Definition scan_trace (base pi : Z) (ssts sig : Z -> Z) : list access :=
  flat_map (scan_reads base pi ssts sig) (seqZ 0 32).

(** Reads of [a] until the bits of [mask] are clear. *)
Definition polled (a mask : Z) (tr : list access) : Prop :=
  exists vs v, tr = map (Rd a) vs ++ [Rd a v] /\
    Forall (fun v => Z.land v mask <> 0) vs /\ Z.land v mask = 0.

(** Starting port [i] (AHCI 1.3.1, 10.3): clear ST and FRE and wait until the
    port has stopped, set the command list and FIS addresses, clear the error
    and interrupt bits, wait until the command list is not running, set ST and
    FRE.  The other bits of PxCMD are written as they were read. *)
Definition rebase_trace (base i : Z) (tr : list access) : Prop :=
  exists v0 v1 p1 p2,
    polled (reg_at base i PORT_CMD) CMD_RUNNING p1 /\
    polled (reg_at base i PORT_CMD) 0x8000 p2 /\
    tr = [Rd (reg_at base i PORT_CMD) v0;
          Wr (reg_at base i PORT_CMD) (Z.land v0 0xFFFFFFEE)] ++ p1 ++
         [Wr (reg_at base i PORT_CLB) (clb_of i); Wr (reg_at base i PORT_CLBU) 0;
          Wr (reg_at base i PORT_FB) (fb_of i); Wr (reg_at base i PORT_FBU) 0;
          Wr (reg_at base i PORT_SERR) 0xFFFFFFFF; Wr (reg_at base i PORT_IS) 0xFFFFFFFF] ++ p2 ++
         [Rd (reg_at base i PORT_CMD) v1;
          Wr (reg_at base i PORT_CMD) (Z.lor v1 CMD_START)].

Lemma land_nibble v : u8 (Z.land v 0x0F) = v mod 2 ^ 4.
Proof.
  change 0x0F with (Z.ones 4). rewrite Z.land_ones by lia. apply u8_small.
  pose proof (Z.mod_pos_bound v (2 ^ 4)). lia.
Qed.

Lemma start_write_reg base i o v :
  0 <= i < 32 -> o ∈ start_regs -> start_write base (reg_at base i o) v.
Proof. intros Hi Ho. right. by exists i, o. Qed.

Section init.
Context {P A : Type} `{PortIO P} `{Hba A} (base : Z) (pi : Z) (ssts sig : Z -> Z) (cmd_lat : nat)
  `{!HbaIdent A base pi ssts sig cmd_lat}.
Implicit Types d : drv P A.

Definition attached d : Prop := hba d = base /\ hid_inv (hw d).

(** [d2] is reached from [d1] by exactly the accesses [tr]. *)
Definition traced (tr : list access) d1 d2 : Prop :=
  attached d2 /\ active_port d2 = active_port d1 /\ mmio_run tr (hw d1) (hw d2).

Lemma traced_nil d : attached d -> traced [] d d.
Proof. done. Qed.

Lemma traced_app t1 t2 d1 d2 d3 : traced t1 d1 d2 -> traced t2 d2 d3 -> traced (t1 ++ t2) d1 d3.
Proof.
  intros (A2 & P2 & R2) (A3 & P3 & R3). split; [done|]. split; [congruence|].
  by eapply mmio_run_app.
Qed.

Lemma port_reg_attached d i o : attached d -> port_reg d i o = reg_at base i o.
Proof. intros [Hb _]. unfold port_reg. by rewrite Hb. Qed.

Lemma wp_reg_read i o (Q : Z -> drv P A -> Prop) d :
  attached d ->
  (forall v h, mmio_rd (reg_at base i o) (hw d) = (v, h) ->
     traced [Rd (reg_at base i o) v] d (with_hw d h) -> Q v (with_hw d h)) ->
  wp (port_read i o) Q d.
Proof.
  intros Ha HQ. unfold wp, port_read, bind, gets, rd32. rewrite port_reg_attached by done.
  destruct Ha as [Hb Hi]. pose proof (hid_rd (reg_at base i o) _ Hi) as Hi'.
  destruct (mmio_rd _ _) as [v h] eqn:E. apply (HQ v h eq_refl). split_and!; [done..|].
  exists h. by split.
Qed.

Lemma wp_reg_write i o v (Q : unit -> drv P A -> Prop) d :
  attached d -> 0 <= i < 32 -> o ∈ start_regs ->
  (forall d', hw d' = mmio_wr (reg_at base i o) v (hw d) ->
     traced [Wr (reg_at base i o) v] d d' -> Q tt d') ->
  wp (port_write i o v) Q d.
Proof.
  intros Ha Hp Ho HQ. unfold wp, port_write, bind, gets, wr32, on_hw, modify.
  rewrite port_reg_attached by done. destruct Ha as [Hb Hi]. apply HQ; [done|].
  split_and!; [|done..]. split; [done|]. by apply hid_wr, start_write_reg.
Qed.

Lemma start_reg_neq i o : o ∈ start_regs -> o <> PORT_CMD -> reg_at base i o <> reg_at base i PORT_CMD.
Proof. unfold reg_at. lia. Qed.

(** A write to a register other than PxCMD, at the end of the trace [tr]. *)
Lemma wp_next_write tr i o v (Q : unit -> drv P A -> Prop) d0 d :
  traced tr d0 d -> 0 <= i < 32 -> o ∈ start_regs -> o <> PORT_CMD -> hid_ctl i (hw d) = 0 ->
  (forall d', traced (tr ++ [Wr (reg_at base i o) v]) d0 d' -> hid_ctl i (hw d') = 0 -> Q tt d') ->
  wp (port_write i o v) Q d.
Proof.
  intros T Hi Ho Hne Hc HQ. apply wp_reg_write; [apply T|done..|].
  intros d' E T'. apply HQ; [by eapply traced_app|].
  rewrite E, hid_ctl_wr; [done|done|apply T|by apply start_write_reg|by apply start_reg_neq].
Qed.

(** Waiting for a stopped port. *)
Lemma wp_spin fuel i mask d :
  attached d -> 0 <= i < 32 -> hid_ctl i (hw d) = 0 -> (cmd_lat < fuel)%nat ->
  (forall v, Z.land v CMD_RUNNING = 0 -> Z.land v mask = 0) ->
  wp (spin_cmd fuel i mask) (fun _ d' => hid_ctl i (hw d') = 0 /\
    exists tr, polled (reg_at base i PORT_CMD) mask tr /\ traced tr d d') d.
Proof.
  intros Ha Hp Hctl Hf Hm. unfold spin_cmd. set (a := reg_at base i PORT_CMD).
  apply (wp_cloop (fun _ d' => hid_ctl i (hw d') = 0 /\
      exists vs, Forall (fun v => Z.land v mask <> 0) vs /\ traced (map (Rd a) vs) d d')
    (fun _ d' => hid_lat i (hw d'))).
  { split; [done|]. exists []. by split; [|apply traced_nil]. }
  { pose proof (hid_lat_le i _ (proj2 Ha)). lia. }
  intros _ d1 (Hc1 & vs & Hvs & T1). pose proof (proj1 T1) as A1.
  apply wp_bind, wp_reg_read; [done|]. intros v h E T2. fold a in E, T2.
  pose proof (hid_cmd i _ Hp (proj2 A1)) as Hc. pose proof (hid_ctl_rd i a _ (proj2 A1)) as Hk.
  fold a in Hc. rewrite E in Hc, Hk. destruct Hc as [_ Hc]. cbn [snd] in Hk. rewrite Hc1 in Hk.
  destruct (Z.eqb_spec (Z.land v mask) 0) as [Hz|Hne]; apply wp_ret.
  - split; [done|]. exists (map (Rd a) vs ++ [Rd a v]). split; [by exists vs, v|].
    by eapply traced_app.
  - split.
    + split; [done|]. exists (vs ++ [v]). split; [by apply Forall_app; auto|].
      rewrite map_app. by eapply traced_app.
    + cbn [hw with_hw]. destruct (Hc Hc1) as [Hz|Hlt]; [by rewrite Hm in Hne|done].
Qed.

Lemma land_start v : Z.land (Z.land v 0xFFFFFFEE) CMD_START = 0.
Proof. rewrite <- Z.land_assoc. apply Z.land_0_r. Qed.

Ltac start_reg := apply (bool_decide_unpack _); vm_compute; exact I.

Lemma wp_port_rebase fuel i d :
  attached d -> 0 <= i < 32 -> (cmd_lat < fuel)%nat ->
  wp (port_rebase fuel i) (fun _ d' => exists tr, rebase_trace base i tr /\ traced tr d d') d.
Proof.
  intros Ha Hi Hf. unfold port_rebase. set (cmd := reg_at base i PORT_CMD).
  apply wp_bind, wp_reg_read; [done|]. intros v0 h0 _ T0. set (d0 := with_hw d h0) in *.
  replace (Z.land (Z.land v0 _) _) with (Z.land v0 0xFFFFFFEE)
    by (rewrite <- Z.land_assoc; reflexivity).
  apply wp_bind, wp_reg_write; [apply T0|done|start_reg|]. intros d1 E1 T1.
  assert (C1 : hid_ctl i (hw d1) = 0).
  { rewrite E1, hid_ctl_set; [apply land_start|done|apply T0]. }
  apply wp_bind. eapply wp_mono; [by apply wp_spin; [apply T1|..]|].
  cbv beta. intros [] d2 (C2 & p1 & P1 & T2).
  pose proof (traced_app _ _ _ _ _ (traced_app _ _ _ _ _ T0 T1) T2) as T3.
  apply wp_bind, (wp_next_write _ i _ _ _ _ _ T3 Hi); [start_reg|done|done|]. intros d3 T4 C3.
  apply wp_bind, (wp_next_write _ i _ _ _ _ _ T4 Hi); [start_reg|done|done|]. intros d4 T5 C4.
  apply wp_bind, (wp_next_write _ i _ _ _ _ _ T5 Hi); [start_reg|done|done|]. intros d5 T6 C5.
  apply wp_bind, (wp_next_write _ i _ _ _ _ _ T6 Hi); [start_reg|done|done|]. intros d6 T7 C6.
  apply wp_bind, (wp_next_write _ i _ _ _ _ _ T7 Hi); [start_reg|done|done|]. intros d7 T8 C7.
  apply wp_bind, (wp_next_write _ i _ _ _ _ _ T8 Hi); [start_reg|done|done|]. intros d8 T9 C8.
  apply wp_bind. eapply wp_mono; [apply wp_spin; [apply T9|done..|]|].
  { intros v Hv. change 0x8000 with (Z.land CMD_RUNNING 0x8000).
    by rewrite Z.land_assoc, Hv, Z.land_0_l. }
  cbv beta. intros [] d9 (C9 & p2 & P2 & T10).
  apply wp_bind, wp_reg_read; [apply T10|]. intros v1 h1 _ T11. set (d10 := with_hw d9 h1) in *.
  replace (Z.lor (Z.lor v1 _) _) with (Z.lor v1 CMD_START) by (rewrite <- Z.lor_assoc; reflexivity).
  apply wp_reg_write; [apply T11|done|start_reg|]. intros d11 _ T12.
  pose proof (traced_app _ _ _ _ _ (traced_app _ _ _ _ _ (traced_app _ _ _ _ _ T9 T10) T11) T12) as T.
  eexists. split; [|exact T]. exists v0, v1, p1, p2. split_and!; [done..|].
  fold cmd. by rewrite <- !app_assoc.
Qed.

Lemma wp_scan_port i d :
  attached d -> 0 <= i < 32 ->
  wp (scan_port pi i) (fun _ d' => attached d' /\
    active_port d' = (if is_ata pi ssts sig i then i else active_port d) /\
    mmio_run (scan_reads base pi ssts sig i) (hw d) (hw d')) d.
Proof.
  intros Ha Hi. unfold scan_port, is_ata, scan_reads. rewrite land_bit by lia.
  destruct (Z.testbit pi i); cbn [negb andb]; [|by apply wp_ret].
  apply wp_bind, wp_reg_read; [done|]. intros v h E T1.
  pose proof (hid_ssts i _ Hi (proj2 Ha)) as Ev. rewrite E in Ev. cbn [fst] in Ev. subst v.
  rewrite !land_nibble, Z.shiftr_div_pow2 by lia. fold (is_linked (ssts i)).
  destruct (is_linked (ssts i)); cbn [andb]; [|by apply wp_ret].
  apply wp_bind, wp_reg_read; [apply T1|]. intros v h2 E2 T2.
  pose proof (hid_sig i _ Hi (proj2 (proj1 T1))) as Ev. rewrite E2 in Ev. cbn [fst] in Ev. subst v.
  destruct (traced_app _ _ _ _ _ T1 T2) as (A2 & P2 & R2).
  destruct (_ =? SATA_SIG_ATA); [by apply wp_modify|by apply wp_ret].
Qed.

Lemma wp_scan d :
  attached d ->
  wp (cfor_ 32 0 (scan_port pi)) (fun _ d' => attached d' /\
    active_port d' = default (active_port d) (last (ata_ports pi ssts sig)) /\
    mmio_run (scan_trace base pi ssts sig) (hw d) (hw d')) d.
Proof.
  intros Ha.
  apply (wp_cfor_ (fun i d' => attached d' /\
    active_port d' = default (active_port d) (last (filter (is_ata pi ssts sig) (seqZ 0 i))) /\
    mmio_run (flat_map (scan_reads base pi ssts sig) (seqZ 0 i)) (hw d) (hw d'))); [done| |done].
  intros i d1 Hi (A1 & P1 & R1). eapply wp_mono; [apply wp_scan_port; [done|lia]|].
  cbn beta. intros [] d2 (A2 & P2 & R2). split; [done|]. rewrite P2, P1.
  replace (i + 1) with (Z.of_nat (S (Z.to_nat i))) by lia.
  rewrite seqZ_S, filter_app, flat_map_app, Z2Nat.id, Z.add_0_l by lia. split.
  - rewrite filter_cons, filter_nil. destruct (is_ata pi ssts sig i) eqn:E; simpl.
    + by rewrite last_snoc.
    + by rewrite app_nil_r.
  - cbn [flat_map]. rewrite app_nil_r. by eapply mmio_run_app.
Qed.

(** [ahci_init] once the controller has been found. *)
Lemma wp_init_found fuel d :
  hid_inv (hw d) -> -1 <= active_port d < 32 -> (cmd_lat < fuel)%nat ->
  wp (set_hba base ;;;
      ghc <- rd32 (base + off HBA_MEM "ghc") ;;
      wr32 (base + off HBA_MEM "ghc") (Z.lor ghc (2 ^ 31)) ;;;
      pi <- rd32 (base + off HBA_MEM "pi") ;;
      cfor_ 32 0 (scan_port pi) ;;;
      p <- gets active_port ;;
      if p =? -1 then ret (-1) else port_rebase fuel p ;;; ret 0)
    (fun r d' => hba d' = base /\
      active_port d' = default (active_port d) (last (ata_ports pi ssts sig)) /\
      r = (if active_port d' =? -1 then -1 else 0) /\
      exists ghc tr,
        mmio_run (Rd (ghc_at base) ghc :: Wr (ghc_at base) (Z.lor ghc (2 ^ 31)) ::
                  Rd (pi_at base) pi :: scan_trace base pi ssts sig ++ tr) (hw d) (hw d') /\
        if active_port d' =? -1 then tr = [] else rebase_trace base (active_port d') tr) d.
Proof.
  intros Hi Hp Hf. fold (ghc_at base) (pi_at base).
  apply wp_bind, wp_modify. cbn [hba active_port ports_hw hw].
  pose proof (hid_rd (ghc_at base) _ Hi) as Hi1. pose proof (hid_ghc _ Hi) as Hg.
  apply wp_bind. unfold wp at 1, rd32 at 1. cbn [hw].
  destruct (mmio_rd (ghc_at base) (hw d)) as [ghc h1] eqn:E1. cbn [fst snd] in Hi1, Hg.
  apply wp_bind, wp_modify. cbn [hba active_port ports_hw hw].
  assert (Hi2 : hid_inv (mmio_wr (ghc_at base) (Z.lor ghc (2 ^ 31)) h1)).
  { apply hid_wr; [done|]. left. split; [done|]. by rewrite Z.lor_spec, Hg. }
  set (h2 := mmio_wr _ _ h1) in *.
  pose proof (hid_rd (pi_at base) _ Hi2) as Hi3. pose proof (hid_pi _ Hi2) as Hpi.
  apply wp_bind. unfold wp at 1, rd32. cbn [hw].
  destruct (mmio_rd (pi_at base) h2) as [v h3] eqn:E3. cbn [fst snd] in Hi3, Hpi. subst v.
  apply wp_bind. eapply wp_mono; [by apply wp_scan|].
  cbv beta. cbn [active_port hw]. intros [] d1 (A1 & P1 & R1). apply wp_bind, wp_gets.
  assert (Hrun : forall tr d', mmio_run tr (hw d1) (hw d') ->
    mmio_run (Rd (ghc_at base) ghc :: Wr (ghc_at base) (Z.lor ghc (2 ^ 31)) ::
              Rd (pi_at base) pi :: scan_trace base pi ssts sig ++ tr) (hw d) (hw d')).
  { intros tr d' R. exists h1. split; [done|]. exists h3. split; [done|]. by eapply mmio_run_app. }
  destruct (Z.eqb_spec (active_port d1) (-1)) as [E|E].
  - apply wp_ret. split_and!; [by apply A1|done|by rewrite E|]. exists ghc, [].
    split; [by apply Hrun|]. by rewrite E.
  - assert (Hr : 0 <= active_port d1 < 32).
    { destruct (last (ata_ports pi ssts sig)) as [q|] eqn:El; simpl in P1; [|lia].
      apply last_Some_elem_of, list_elem_of_filter in El as [_ Hq%elem_of_seqZ]. lia. }
    apply wp_bind. eapply wp_mono; [by apply wp_port_rebase|].
    cbv beta. intros [] d2 (tr & Htr & A2 & P2 & R2). apply wp_ret. rewrite P2.
    apply Z.eqb_neq in E. rewrite E. split_and!; [by apply A2|done..|]. exists ghc, tr.
    split; [by apply Hrun|done].
Qed.
End init.

(** C11: [ahci_init] always returns.  Without an AHCI function in configuration
    space it returns -1 and touches neither the controller nor its own state.
    Otherwise the highest-numbered implemented port with a link to an ATA
    device becomes the active port (the previous one stays if there is none),
    and it returns 0 exactly when some port is active.  The register accesses
    are exactly these: GHC.AE is set, PI is read, each implemented port's
    status and each linked port's signature are read, and the active port, if
    any, is stopped, waited for, given its command list and FIS area, cleared
    of errors and started ([rebase_trace]). *)
Theorem ahci_init_selects {P A : Type} `{PortIO P} `{Hba A} (cfg : Z -> Z) `{!PciHost P cfg}
    (pi : Z) (ssts sig : Z -> Z) (cmd_lat : nat)
    `{!HbaIdent A (find_ahci_spec cfg) pi ssts sig cmd_lat} fuel (d : drv P A) :
  (find_ahci_spec cfg <> 0 -> hid_inv (hw d)) -> -1 <= active_port d < 32 ->
  (cmd_lat < fuel)%nat ->
  wp (ahci_init fuel) (fun r d' =>
    let base := find_ahci_spec cfg in
    if base =? 0 then
      r = -1 /\ hba d' = hba d /\ active_port d' = active_port d /\ hw d' = hw d
    else
      hba d' = base /\
      active_port d' = default (active_port d) (last (ata_ports pi ssts sig)) /\
      r = (if active_port d' =? -1 then -1 else 0) /\
      exists ghc tr,
        mmio_run (Rd (ghc_at base) ghc :: Wr (ghc_at base) (Z.lor ghc (2 ^ 31)) ::
                  Rd (pi_at base) pi :: scan_trace base pi ssts sig ++ tr) (hw d) (hw d') /\
        if active_port d' =? -1 then tr = [] else rebase_trace base (active_port d') tr) d.
Proof.
  intros Hi Hp Hf. unfold ahci_init. apply wp_bind.
  destruct (pci_find_ahci_run cfg (ports_hw d)) as [p' Ep].
  eapply wp_eq; [unfold on_ports; by rewrite Ep|]. cbv beta zeta.
  destruct (Z.eqb_spec (find_ahci_spec cfg) 0) as [|Hne]; [by apply wp_ret|].
  apply (wp_init_found _ pi ssts sig cmd_lat fuel (Drv (hba d) (active_port d) p' (hw d)));
    [by apply Hi|done..].
Qed.

(** ** Placement of the DMA structures *)

(** The load address of the kernel image ([kernel/linker.ld]) and the size of
    its static heap, which is part of the image. *)
Definition KERNEL_BASE : Z := 0x100000.

(** The command list, received-FIS area and command table of all 32 ports
    are pairwise disjoint, and each command list is 1 KiB-aligned, each FIS
    area 256-byte-aligned and each command table 128-byte-aligned, as the
    controller requires. *)
Theorem dma_regions_disjoint p q r1 r2 :
  0 <= p < 32 -> 0 <= q < 32 -> r1 ∈ dma_regions p -> r2 ∈ dma_regions q -> r1 <> r2 ->
  region_disj r1 r2 /\ (1024 | clb_of p) /\ (256 | fb_of p) /\ (128 | ctba_of p).
Proof.
  intros Hp Hq H1 H2 Hne. unfold dma_regions, region_disj in *.
  rewrite (clb_of_small p), (clb_of_small q), (fb_of_small p), (fb_of_small q),
    (ctba_of_small p), (ctba_of_small q) in * by done.
  change (32 * sizeof HBA_CMD_HEADER) with 0x400 in *. change (sizeof HBA_CMD_TBL) with 144 in *.
  split_and!.
  - rewrite !elem_of_cons in H1, H2.
    destruct H1 as [-> | [-> | [-> | H1]]]; [..|by apply not_elem_of_nil in H1].
    all: destruct H2 as [-> | [-> | [-> | H2]]]; [..|by apply not_elem_of_nil in H2].
    all: simpl; try lia.
    all: assert (p <> q) by (intros ->; done); lia.
  - exists (0x400 + p). lia.
  - exists (0x1080 + p). lia.
  - exists (0x2200 + 2 * p). lia.
Qed.

(** The command list of every port lies inside the first 64 KiB of the
    kernel image as linked at 0x100000, so programming a port or issuing a
    command writes into the running kernel whenever the image is that large. *)
Theorem dma_overlaps_kernel p :
  0 <= p < 32 ->
  KERNEL_BASE <= clb_of p /\ clb_of p + 32 * sizeof HBA_CMD_HEADER <= KERNEL_BASE + 0x10000 /\
  KERNEL_BASE <= ctba_of p /\ ctba_of p + sizeof HBA_CMD_TBL <= KERNEL_BASE + 0x20000.
Proof.
  intros Hp. rewrite clb_of_small, ctba_of_small by done. unfold KERNEL_BASE. offsets. lia.
Qed.

(** The PORT_* register offsets of [ahci.h] are the offsets of the fields
    of HBA_PORT, the port array starts at AHCI_PORT_BASE and has stride
    AHCI_PORT_SIZE, and the packed structures have the sizes the AHCI
    specification prescribes. *)
Theorem ahci_layouts :
  map (offset_of HBA_PORT) ["clb"; "clbu"; "fb"; "fbu"; "is"; "ie"; "cmd"; "tfd"; "sig";
                            "ssts"; "serr"; "ci"]
    = map Some [PORT_CLB; PORT_CLBU; PORT_FB; PORT_FBU; PORT_IS; PORT_IE; PORT_CMD; PORT_TFD;
                PORT_SIG; PORT_SSTS; PORT_SERR; PORT_CI] /\
  offset_of HBA_MEM "ports" = Some AHCI_PORT_BASE /\ sizeof HBA_PORT = AHCI_PORT_SIZE /\
  sizeof HBA_MEM = 0x1100 /\ sizeof HBA_CMD_HEADER = 32 /\ sizeof HBA_PRDT_ENTRY = 16 /\
  sizeof HBA_CMD_TBL = 0x80 + 16 /\ sizeof FIS_REG_H2D = 20.
Proof. repeat split. Qed.

(** ** A simulated controller *)

(** Register file, memory, the command in flight (the polls left, and the
    memory it will leave, or None if the device rejects it), and the number of
    reads of a PxCMD register that still report CR and FR set after a stop. *)
Record sim := Sim {
  s_regs : gmap Z Z;
  s_ram : mem;
  s_busy : option (nat * option mem);
  s_stop : nat
}.

Section sim.
Context (base port : Z) (img : Z -> Z) (cap : Z) (lat : nat).

Definition s_reg (i o : Z) : Z := base + off HBA_MEM "ports" + i * sizeof HBA_PORT + o.

(** Offset of an address inside its port's register block. *)
Definition port_off (a : Z) : Z := (a - base) mod 0x80.

Definition in_ports (a : Z) : bool := (base + 0x100 <=? a) && (a <? base + 0x1100).

Definition read_only (a : Z) : bool :=
  (a =? base + off HBA_MEM "pi")
  || (in_ports a && ((port_off a =? PORT_SSTS) || (port_off a =? PORT_SIG))).

Definition sim_rd (a : Z) (s : sim) : Z * sim :=
  if a =? s_reg port PORT_CI then
    match s_busy s with
    | Some (S n, m) => (1, Sim (s_regs s) (s_ram s) (Some (n, m)) (s_stop s))
    | Some (O, Some m) => (0, Sim (s_regs s) m None (s_stop s))
    | Some (O, None) => (1, s)
    | None => (0, s)
    end
  else if a =? s_reg port PORT_IS then
    match s_busy s with
    | Some (O, None) => (Z.setbit (mget (s_regs s) a) 30, s)
    | _ => (mget (s_regs s) a, s)
    end
  else if port_off a =? PORT_CMD then
    if Z.land (mget (s_regs s) a) CMD_START =? 0 then
      match s_stop s with
      | S n => (Z.lor (mget (s_regs s) a) CMD_RUNNING, Sim (s_regs s) (s_ram s) (s_busy s) n)
      | O => (Z.ldiff (mget (s_regs s) a) CMD_RUNNING, s)
      end
    else (Z.lor (mget (s_regs s) a) CMD_RUNNING, s)
  else (mget (s_regs s) a, s).

Definition sim_wr (a v : Z) (s : sim) : sim :=
  if read_only a then s
  else if a =? s_reg port PORT_CI then
    match decode_cmd (s_ram s) (mget (s_regs s) (s_reg port PORT_CLB)) with
    | Some c => Sim (s_regs s) (s_ram s)
        (Some (if c_lba c + c_count c <=? cap
               then (lat, Some (mputs (s_ram s) (c_addr c)
                                  (img_bytes img (512 * c_lba c) (Z.to_nat (c_bytes c)))))
               else (S lat, None))) (s_stop s)
    | None => s
    end
  else if a =? s_reg port PORT_IS then
    Sim (mput (s_regs s) a (Z.ldiff (mget (s_regs s) a) v)) (s_ram s) (s_busy s) (s_stop s)
  else Sim (mput (s_regs s) a v) (s_ram s) (s_busy s) (s_stop s).

Definition sim_hba : Hba sim := {|
  mmio_rd := sim_rd;
  mmio_wr := sim_wr;
  ram := s_ram;
  set_ram m s := Sim (s_regs s) m (s_busy s) (s_stop s)
|}.
Existing Instance sim_hba.

Definition sim_ready (clb : Z) (s : sim) : Prop :=
  s_busy s = None /\ mget (s_regs s) (s_reg port PORT_CLB) = clb /\
  Z.testbit (mget (s_regs s) (s_reg port PORT_IS)) 30 = false.

Definition sim_inflight (n : nat) (clb : Z) (m : mem) (s : sim) : Prop :=
  s_busy s = Some (n, Some m) /\ mget (s_regs s) (s_reg port PORT_CLB) = clb /\
  Z.testbit (mget (s_regs s) (s_reg port PORT_IS)) 30 = false.

Definition sim_failing (n : nat) (clb addr size : Z) (m : mem) (s : sim) : Prop :=
  s_busy s = Some (S n, None) /\ s_ram s = m /\
  Z.testbit (mget (s_regs s) (s_reg port PORT_IS)) 30 = false.

Lemma port_off_reg i o : 0 <= o < 0x80 -> port_off (s_reg i o) = o.
Proof.
  intros Ho. unfold port_off, s_reg. offsets.
  replace (base + 256 + i * 128 + o - base) with (o + (2 + i) * 128) by lia.
  rewrite Z.mod_add, Z.mod_small; lia.
Qed.

Lemma s_reg_neq i j o1 o2 : 0 <= o1 < 0x80 -> 0 <= o2 < 0x80 -> o1 <> o2 ->
  (s_reg i o1 =? s_reg j o2) = false.
Proof.
  intros H1 H2 Hne. apply Z.eqb_neq. intros E. apply Hne.
  by rewrite <- (port_off_reg i o1), <- (port_off_reg j o2), E.
Qed.

Lemma read_only_reg i o :
  0 <= i -> 0 <= o < 0x80 -> o <> PORT_SSTS -> o <> PORT_SIG -> read_only (s_reg i o) = false.
Proof.
  intros Hi Ho H1 H2. unfold read_only. rewrite port_off_reg by done.
  apply orb_false_intro.
  - apply Z.eqb_neq. unfold s_reg. offsets. lia.
  - apply andb_false_intro2, orb_false_intro; by apply Z.eqb_neq.
Qed.

Ltac sim_regs :=
  repeat first
    [ rewrite Z.eqb_refl
    | rewrite port_off_reg by (vm_compute; split; congruence)
    | rewrite read_only_reg by first [done | lia | vm_compute; split; congruence | discriminate]
    | rewrite s_reg_neq by first [vm_compute; split; congruence | discriminate] ].

Lemma sim_rd_ci s : sim_rd (s_reg port PORT_CI) s =
  match s_busy s with
  | Some (S n, m) => (1, Sim (s_regs s) (s_ram s) (Some (n, m)) (s_stop s))
  | Some (O, Some m) => (0, Sim (s_regs s) m None (s_stop s))
  | Some (O, None) => (1, s)
  | None => (0, s)
  end.
Proof. unfold sim_rd. by sim_regs. Qed.

Lemma sim_rd_is s : sim_rd (s_reg port PORT_IS) s =
  match s_busy s with
  | Some (O, None) => (Z.setbit (mget (s_regs s) (s_reg port PORT_IS)) 30, s)
  | _ => (mget (s_regs s) (s_reg port PORT_IS), s)
  end.
Proof. unfold sim_rd. by sim_regs. Qed.

Lemma sim_wr_ci s c :
  0 <= port -> decode_cmd (s_ram s) (mget (s_regs s) (s_reg port PORT_CLB)) = Some c ->
  sim_wr (s_reg port PORT_CI) 1 s = Sim (s_regs s) (s_ram s)
    (Some (if c_lba c + c_count c <=? cap
           then (lat, Some (mputs (s_ram s) (c_addr c)
                              (img_bytes img (512 * c_lba c) (Z.to_nat (c_bytes c)))))
           else (S lat, None))) (s_stop s).
Proof. intros Hp Hd. unfold sim_wr. sim_regs. by rewrite Hd. Qed.

Lemma sim_model : 0 <= port -> HbaModel sim base port img cap lat.
Proof.
  intros Hp. refine {| hba_ready := sim_ready; hba_busy := sim_inflight;
                       hba_failing := sim_failing |}; try done;
    repeat change (mmio_rd ?a ?s) with (sim_rd a s);
    change (base + off HBA_MEM "ports" + port * sizeof HBA_PORT + PORT_CI) with (s_reg port PORT_CI);
    change (base + off HBA_MEM "ports" + port * sizeof HBA_PORT + PORT_IS) with (s_reg port PORT_IS).
  - intros clb v s (H1 & H2 & H3).
    change (mmio_wr _ v s) with (sim_wr (s_reg port PORT_IS) v s).
    unfold sim_wr. sim_regs.
    split; [|done]. split_and!; cbn [s_busy s_regs]; [done|..].
    + rewrite mget_mput_ne; [done|]. apply Z.eqb_neq. by sim_regs.
    + by rewrite mget_mput_eq, Z.ldiff_spec, H3.
  - intros clb s c (H1 & H2 & H3) Hd _ _ Hcap. exists lat. split; [done|].
    change (mmio_wr _ 1 s) with (sim_wr (s_reg port PORT_CI) 1 s).
    change (ram s) with (s_ram s) in *. rewrite <- H2 in Hd. rewrite (sim_wr_ci _ _ Hp Hd).
    apply Z.leb_le in Hcap. rewrite Hcap. done.
  - intros clb s c (H1 & H2 & H3) Hd _ _ Hcap. exists lat. split; [done|].
    change (mmio_wr _ 1 s) with (sim_wr (s_reg port PORT_CI) 1 s).
    change (ram s) with (s_ram s) in *. rewrite <- H2 in Hd. rewrite (sim_wr_ci _ _ Hp Hd).
    apply Z.leb_gt in Hcap. rewrite Hcap. done.
  - intros n clb m s (H1 & H2 & H3). rewrite sim_rd_ci, H1, sim_rd_is. cbn [s_busy s_regs].
    destruct n; done.
  - intros clb m s (H1 & H2 & H3). rewrite sim_rd_ci, H1. by split_and!.
  - intros n clb addr size m s (H1 & H2 & H3). rewrite sim_rd_ci, H1, sim_rd_is. done.
  - intros clb addr size m s (H1 & H2 & H3). rewrite sim_rd_ci, H1, sim_rd_is.
    cbn [s_busy s_regs]. split_and!; [done|by apply Z.setbit_eq|]. intros x _ _.
    change (ram ?t) with (s_ram t). cbn [s_ram]. by rewrite H2.
  - intros clb s (H1 & H2 & H3). by rewrite sim_rd_ci, H1.
Defined.

(** The identification registers hold the given values and no reset is on. *)
Definition sim_id (pi : Z) (ssts sig : Z -> Z) (cmd_lat : nat) (s : sim) : Prop :=
  mget (s_regs s) (pi_at base) = pi /\
  Z.testbit (mget (s_regs s) (ghc_at base)) 0 = false /\
  (forall i, 0 <= i < 32 -> mget (s_regs s) (s_reg i PORT_SSTS) = ssts i /\
                          mget (s_regs s) (s_reg i PORT_SIG) = sig i) /\
  (s_stop s <= cmd_lat)%nat.

Lemma read_only_id i o :
  0 <= i < 32 -> o = PORT_SSTS \/ o = PORT_SIG -> read_only (s_reg i o) = true.
Proof.
  intros Hi Ho. unfold read_only. rewrite port_off_reg.
  2: { destruct Ho as [-> | ->]; vm_compute; split; congruence. }
  apply orb_true_intro. right. apply andb_true_intro. split.
  - unfold in_ports, s_reg. offsets.
    assert (0 <= o < 128) by (destruct Ho as [-> | ->]; vm_compute; split; congruence).
    apply andb_true_intro. split; [apply Z.leb_le|apply Z.ltb_lt]; lia.
  - by destruct Ho as [-> | ->].
Qed.

Lemma start_reg_range o : o ∈ start_regs -> 0 <= o < 0x80.
Proof.
  assert (H : Forall (fun o => 0 <= o < 0x80) start_regs)
    by (apply (bool_decide_unpack _); vm_compute; exact I).
  rewrite Forall_forall in H. apply H.
Qed.

Lemma sim_id_put pi ssts sig cl s a v :
  sim_id pi ssts sig cl s -> read_only a = false -> start_write base a v ->
  sim_id pi ssts sig cl (Sim (mput (s_regs s) a v) (s_ram s) (s_busy s) (s_stop s)).
Proof.
  intros (H1 & Hg & H2 & H3) Ha Hw. split_and!; cbn [s_regs s_stop]; [| | |done].
  - rewrite mget_mput_ne; [done|]. intros <-. unfold read_only, pi_at in Ha.
    by rewrite Z.eqb_refl in Ha.
  - destruct Hw as [[-> Hv]|(i & o & Hi & Ho & ->)]; [by rewrite mget_mput_eq|].
    apply start_reg_range in Ho. rewrite mget_mput_ne; [done|].
    unfold reg_at, ghc_at. offsets. lia.
  - intros i Hi. destruct (H2 i Hi). rewrite !mget_mput_ne; [done|..].
    all: intros <-; rewrite read_only_id in Ha; auto; done.
Qed.

Lemma sim_rd_regs a s :
  s_regs (sim_rd a s).2 = s_regs s /\ (s_stop (sim_rd a s).2 <= s_stop s)%nat.
Proof.
  unfold sim_rd. destruct (a =? _); [by destruct (s_busy s) as [[[|n] [m|]]|]|].
  destruct (a =? _); [by destruct (s_busy s) as [[[|n] [m|]]|]|].
  destruct (port_off a =? PORT_CMD); [|done]. destruct (_ =? 0); [|done].
  destruct (s_stop s) eqn:E; simpl; (split; [done|lia]).
Qed.

(** Writes, apart from commands: PxIS is cleared by ones, the others store. *)
Lemma sim_wr_regs a v s : s_stop (sim_wr a v s) = s_stop s /\
  (s_regs (sim_wr a v s) = s_regs s \/
   exists v', s_regs (sim_wr a v s) = mput (s_regs s) a v').
Proof.
  unfold sim_wr. destruct (read_only a); [by auto|].
  destruct (a =? _); [destruct (decode_cmd _ _); by auto|].
  destruct (a =? _); split; [done|by eauto..].
Qed.

Lemma ctl_bits v r : r = Z.lor v CMD_RUNNING \/ r = Z.ldiff v CMD_RUNNING ->
  Z.land r CMD_START = Z.land v CMD_START.
Proof.
  intros Hr. apply Z.bits_inj'. intros j Hj. rewrite !Z.land_spec.
  destruct (decide (Z.testbit CMD_START j = false)) as [->|Hs]; [by rewrite !andb_false_r|].
  assert (Hk : Z.testbit CMD_RUNNING j = false).
  { destruct (Z.testbit CMD_RUNNING j) eqn:E; [|done]. exfalso. apply Hs.
    assert (Hd : Z.land CMD_RUNNING CMD_START = 0) by reflexivity.
    apply (f_equal (fun z => Z.testbit z j)) in Hd. rewrite Z.land_spec, E, Z.bits_0 in Hd. done. }
  f_equal. destruct Hr as [-> | ->].
  - by rewrite Z.lor_spec, Hk, orb_false_r.
  - by rewrite Z.ldiff_spec, Hk, andb_true_r.
Qed.

Lemma running_bits v : Z.land (Z.ldiff v CMD_RUNNING) CMD_RUNNING = 0.
Proof.
  apply Z.bits_inj'. intros j Hj. rewrite Z.land_spec, Z.ldiff_spec, Z.bits_0.
  by destruct (Z.testbit _ j), (Z.testbit CMD_RUNNING j).
Qed.

(** The global registers are plain. *)
Lemma sim_rd_plain a s : base <= a < base + 0x10 -> 0 <= port ->
  sim_rd a s = (mget (s_regs s) a, s).
Proof.
  intros Ha Hp. unfold sim_rd.
  destruct (Z.eqb_spec a (s_reg port PORT_CI)) as [E|_].
  { exfalso. revert E. unfold s_reg, PORT_CI. offsets. lia. }
  destruct (Z.eqb_spec a (s_reg port PORT_IS)) as [E|_].
  { exfalso. revert E. unfold s_reg, PORT_IS. offsets. lia. }
  destruct (Z.eqb_spec (port_off a) PORT_CMD) as [E|_]; [|done].
  exfalso. revert E. unfold port_off, PORT_CMD. rewrite Z.mod_small; lia.
Qed.

Lemma sim_rd_cmd i s : sim_rd (s_reg i PORT_CMD) s =
  let r := mget (s_regs s) (s_reg i PORT_CMD) in
  if Z.land r CMD_START =? 0 then
    match s_stop s with
    | S n => (Z.lor r CMD_RUNNING, Sim (s_regs s) (s_ram s) (s_busy s) n)
    | O => (Z.ldiff r CMD_RUNNING, s)
    end
  else (Z.lor r CMD_RUNNING, s).
Proof. unfold sim_rd. sim_regs. done. Qed.

Lemma sim_ident pi ssts sig cl : 0 <= port -> HbaIdent sim base pi ssts sig cl.
Proof.
  intros Hp.
  refine {| hid_inv := sim_id pi ssts sig cl; hid_lat _ s := s_stop s;
            hid_ctl i s := Z.land (mget (s_regs s) (s_reg i PORT_CMD)) CMD_START |}.
  - intros a v s Hs Hw. change (mmio_wr a v s) with (sim_wr a v s). unfold sim_wr.
    destruct (read_only a) eqn:E; [done|].
    destruct (a =? s_reg port PORT_CI); [by destruct (decode_cmd _ _)|].
    destruct (Z.eqb_spec a (s_reg port PORT_IS)) as [->|_]; apply sim_id_put; try done.
    destruct Hw as [[Ha _]|Hw]; [|by right].
    exfalso. revert Ha. unfold s_reg, ghc_at, PORT_IS. offsets. lia.
  - intros a s (H1 & Hg & H2 & H3). change (mmio_rd a s) with (sim_rd a s).
    destruct (sim_rd_regs a s) as [E1 E2]. unfold sim_id. rewrite E1.
    split_and!; [done..|lia].
  - intros s (_ & Hg & _). change (mmio_rd _ s) with (sim_rd (ghc_at base) s).
    by rewrite sim_rd_plain by (unfold ghc_at; offsets; lia).
  - intros s (H1 & _). change (mmio_rd _ s) with (sim_rd (pi_at base) s).
    by rewrite sim_rd_plain by (unfold pi_at; offsets; lia).
  - intros i s Hi (_ & _ & H2 & _).
    change (mmio_rd _ s) with (sim_rd (s_reg i PORT_SSTS) s). unfold sim_rd. sim_regs.
    change (PORT_SSTS =? PORT_CMD) with false. by destruct (H2 i Hi).
  - intros i s Hi (_ & _ & H2 & _).
    change (mmio_rd _ s) with (sim_rd (s_reg i PORT_SIG) s). unfold sim_rd. sim_regs.
    change (PORT_SIG =? PORT_CMD) with false. by destruct (H2 i Hi).
  - intros i v s Hi _. change (mmio_wr _ v s) with (sim_wr (s_reg i PORT_CMD) v s).
    unfold sim_wr. sim_regs. cbn [s_regs]. by rewrite mget_mput_eq.
  - intros i a v s Hi _ _ Ha. change (mmio_wr a v s) with (sim_wr a v s).
    destruct (proj2 (sim_wr_regs a v s)) as [->|[v' ->]]; [done|]. by rewrite mget_mput_ne.
  - intros i a s _. change (mmio_rd a s) with (sim_rd a s). by rewrite (proj1 (sim_rd_regs a s)).
  - by intros i s (_ & _ & _ & ?).
  - intros i s Hi _. change (mmio_rd _ s) with (sim_rd (s_reg i PORT_CMD) s).
    rewrite sim_rd_cmd. cbv zeta.
    destruct (Z.eqb_spec (Z.land (mget (s_regs s) (s_reg i PORT_CMD)) CMD_START) 0) as [Hz|Hn].
    + destruct (s_stop s) as [|n] eqn:E.
      * split; [by apply ctl_bits; right|]. intros _. left. apply running_bits.
      * split; [by apply ctl_bits; left|]. intros _. right. simpl. lia.
    + by split; [apply ctl_bits; left|].
Defined.
End sim.

(** ** Witnesses: a one-disk machine *)

Definition demo_img (a : Z) : Z := a mod 251.
Definition demo_base : Z := 0xFEBF1000.

(** Port 1 started, command list in place. *)
Definition demo_started : drv Z sim :=
  Drv demo_base 1 0 (Sim {[ s_reg demo_base 1 PORT_CLB := clb_of 1 ]} ∅ None 0).

(** Ports 0 (ATAPI) and 1 (ATA) implemented; a port takes 2 reads to stop. *)
Definition demo_cold (base : Z) : drv Z sim :=
  Drv 0 (-1) 0 (Sim (list_to_map
    [(base + off HBA_MEM "pi", 3);
     (s_reg base 0 PORT_SSTS, 0x113); (s_reg base 0 PORT_SIG, SATA_SIG_ATAPI);
     (s_reg base 1 PORT_SSTS, 0x113); (s_reg base 1 PORT_SIG, SATA_SIG_ATA)]) ∅ None 2).

(** The base address found in the demonstration configuration space. *)
Definition demo_abar : Z := find_ahci_spec demo_cfg.

Definition demo_ssts (i : Z) : Z := if (i =? 0) || (i =? 1) then 0x113 else 0.
Definition demo_sig (i : Z) : Z :=
  if i =? 0 then SATA_SIG_ATAPI else if i =? 1 then SATA_SIG_ATA else 0.

(** Two sectors from LBA 7; a read past the end of the 4096 sectors. *)
Lemma ahci_read_correct_witness :
  wp (@ahci_read Z sim (sim_hba demo_base 1 demo_img 4096 3) 7 2 0x200000) (fun r d' =>
    r = 0 /\ mgets (s_ram (hw d')) 0x200000 1024 = img_bytes demo_img 3584 1024) demo_started /\
  wp (@ahci_read Z sim (sim_hba demo_base 1 demo_img 4096 3) 4095 2 0x200000) (fun r d' =>
    r = -1 /\ mget (s_ram (hw d')) 0x300000 = 0) demo_started.
Proof.
  assert (Hap : buffer_apart 1 0x200000 1024)
    by (apply (bool_decide_unpack _); vm_compute; exact I).
  assert (Hr : sim_ready demo_base 1 (clb_of 1) (hw demo_started)) by by repeat split.
  assert (Hl : (3 < POLL_LIMIT)%nat) by (unfold POLL_LIMIT; lia).
  split.
  - eapply wp_mono; [apply (@ahci_read_correct Z sim (sim_hba demo_base 1 demo_img 4096 3)
      demo_base 1 demo_img 4096 3 (sim_model demo_base 1 demo_img 4096 3 ltac:(lia)) 7 2 0x200000);
      (lia || done || (split; reflexivity))|].
    intros r d' (_ & _ & _ & H1 & _ & H2). by split.
  - eapply wp_mono; [apply (@ahci_read_correct Z sim (sim_hba demo_base 1 demo_img 4096 3)
      demo_base 1 demo_img 4096 3 (sim_model demo_base 1 demo_img 4096 3 ltac:(lia)) 4095 2 0x200000);
      (lia || done || (split; reflexivity))|].
    intros r d' (_ & _ & Hf & H1). split; [exact H1|].
    transitivity (mget (s_ram (hw demo_started)) 0x300000); [apply Hf; [lia|..]|reflexivity];
      rewrite ?(clb_of_small 1), ?(fb_of_small 1), ?(ctba_of_small 1) by lia; offsets; lia.
Defined.

Lemma ahci_read_total_witness :
  @ahci_read_lim Z sim (sim_hba demo_base 1 demo_img 4096 3) 5 0 1 0x200000 (demo_cold demo_base)
  = Done (-1, demo_cold demo_base).
Proof.
  refine (proj2 (@ahci_read_total Z sim (sim_hba demo_base 1 demo_img 4096 3) 5 0 1 0x200000 (demo_cold demo_base)) _).
  reflexivity.
Defined.

Lemma demo_abar_eq : demo_abar = demo_base.
Proof. lazy. reflexivity. Qed.

Lemma demo_cold_id : sim_id demo_base 3 demo_ssts demo_sig 2 (hw (demo_cold demo_base)).
Proof.
  split_and!; [reflexivity|reflexivity| |done]. intros i Hi.
  set (regs := s_regs (hw (demo_cold demo_base))).
  assert (H : forallb (fun i => (mget regs (s_reg demo_base i PORT_SSTS) =? demo_ssts i) &&
                                (mget regs (s_reg demo_base i PORT_SIG) =? demo_sig i))
                      (seqZ 0 32) = true) by (vm_compute; reflexivity).
  rewrite forallb_forall in H. specialize (H i). rewrite <- list_elem_of_In, elem_of_seqZ in H.
  apply andb_prop in H as [H1 H2]; [|lia]. by apply Z.eqb_eq in H1, H2.
Qed.

(** The highest-numbered ATA port, 1, is selected. *)
Lemma ahci_init_selects_witness :
  wp (@ahci_init Z sim (sim_ports demo_cfg) (sim_hba demo_abar 1 demo_img 4096 3) 5)
    (fun r d' => r = 0 /\ hba d' = demo_abar /\ active_port d' = 1) (demo_cold demo_abar).
Proof.
  eapply wp_mono.
  - apply (@ahci_init_selects Z sim (sim_ports demo_cfg) _ demo_cfg (sim_host _) 3 demo_ssts
      demo_sig 2 (sim_ident demo_abar 1 demo_img 4096 3 3 demo_ssts demo_sig 2 ltac:(lia)) 5);
      [intros _|simpl; lia|lia].
    change (sim_id demo_abar 3 demo_ssts demo_sig 2 (hw (demo_cold demo_abar))).
    rewrite demo_abar_eq. apply demo_cold_id.
  - cbv beta zeta. fold demo_abar. intros r d'.
    destruct (Z.eqb_spec demo_abar 0) as [E|_]; [rewrite demo_abar_eq in E; discriminate E|].
    intros (H1 & H2 & H3 & _).
    replace (last (ata_ports 3 demo_ssts demo_sig)) with (Some 1) in H2 by reflexivity.
    simpl in H2. rewrite H2 in H3. by split_and!.
Defined.

Lemma dma_regions_disjoint_witness :
  region_disj (clb_of 0, 1024) (ctba_of 0, 144) /\ (1024 | clb_of 0) /\ (256 | fb_of 0) /\ (128 | ctba_of 0).
Proof.
  apply (dma_regions_disjoint 0 0); [lia|lia| | |discriminate].
  - left.
  - right. right. left.
Defined.

Lemma dma_overlaps_kernel_witness :
  KERNEL_BASE <= clb_of 1 /\ clb_of 1 + 32 * sizeof HBA_CMD_HEADER <= KERNEL_BASE + 0x10000 /\
  KERNEL_BASE <= ctba_of 1 /\ ctba_of 1 + sizeof HBA_CMD_TBL <= KERNEL_BASE + 0x20000.
Proof. apply dma_overlaps_kernel. lia. Defined.
