(* ===== verification/Fsso.v ===== *)
(** The FSSO file system reader, [kernel/fsso.h] and [kernel/fsso.c]: on-disk
    structures, mount, inode lookup, directory search, path resolution and
    file reads, over an abstract sector device. *)
From stdpp Require Import strings.
From S2P Require Import Prelude Bytes Layout.

(** ** On-disk structures ([fsso.h]) *)

Definition FSSO_MAGIC : Z := 0x4653534F5F5631.
Definition FSSO_BLOCK_SIZE : Z := 1024.
Definition FSSO_MAX_FILENAME : Z := 255.
Definition FSSO_FIRST_DATA_BLOCK : Z := 11.
Definition FSSO_DIRECT_BLOCKS : Z := 12.
Definition FSSO_TYPE_FILE : Z := 1.
Definition FSSO_TYPE_DIR : Z := 2.

Definition FSSO_Superblock : layout :=
  [("magic", 8); ("block_size", 4); ("total_blocks", 4); ("total_inodes", 4);
   ("free_blocks", 4); ("free_inodes", 4); ("first_data_blockl", 4); ("fs_name", 8);
   ("version", 4); ("reserved", 48)].

Definition FSSO_Inode : layout :=
  [("size", 4); ("created", 4); ("modified", 4); ("type", 1); ("reserved", 3);
   ("direct", 48); ("indirect", 4); ("double_indirect", 4); ("triple_indirect", 4)].

Definition FSSO_DirEntry : layout := [("inode", 4); ("name", FSSO_MAX_FILENAME + 1)].

Record superblock := Superblock {
  sb_magic : Z; sb_block_size : Z; sb_total_blocks : Z; sb_total_inodes : Z;
  sb_free_blocks : Z; sb_free_inodes : Z; sb_first_data_blockl : Z;
  sb_fs_name : list Z; sb_version : Z; sb_reserved : list Z
}.

Record inode := Inode {
  i_size : Z; i_created : Z; i_modified : Z; i_type : Z; i_reserved : list Z;
  i_direct : list Z; i_indirect : Z; i_double_indirect : Z; i_triple_indirect : Z
}.

Record dirent := Dirent { de_inode : Z; de_name : list Z }.

(** [FSSO_Filesystem] *)
Record filesystem := Filesystem { fs_superblock : superblock; fs_disk_start_block : Z }.

(** Struct overlays: the value of a structure stored at byte [a], given the
    bytes [rd a n] of the object it overlays. *)
Section overlay.
Variable rd : Z -> nat -> list Z.

Definition ld (n : nat) (a : Z) : Z := le_dec (rd a n).

Definition get_superblock (a : Z) : superblock :=
  let f s := a + off FSSO_Superblock s in
  Superblock (ld 8 (f "magic")) (ld 4 (f "block_size")) (ld 4 (f "total_blocks"))
    (ld 4 (f "total_inodes")) (ld 4 (f "free_blocks")) (ld 4 (f "free_inodes"))
    (ld 4 (f "first_data_blockl")) (rd (f "fs_name") 8) (ld 4 (f "version"))
    (rd (f "reserved") 48).

Definition get_inode (a : Z) : inode :=
  let f s := a + off FSSO_Inode s in
  Inode (ld 4 (f "size")) (ld 4 (f "created")) (ld 4 (f "modified")) (ld 1 (f "type"))
    (rd (f "reserved") 3) (map (fun i => ld 4 (f "direct" + 4 * i)) (seqZ 0 12))
    (ld 4 (f "indirect")) (ld 4 (f "double_indirect")) (ld 4 (f "triple_indirect")).

Definition get_dirent (a : Z) : dirent :=
  let f s := a + off FSSO_DirEntry s in
  Dirent (ld 4 (f "inode")) (rd (f "name") (Z.to_nat (field_size FSSO_DirEntry "name"))).
End overlay.

(** Bytes [a, a+n) of a block buffer. *)
Definition sub (bs : list Z) (a : Z) (n : nat) : list Z := take n (drop (Z.to_nat a) bs).

(** ** The sector device *)

(** What [ahci_read (lba, count, buffer)] is for this file: a status and the
    buffer's new contents. *)
Class BlockDev (D : Type) := {
  sector_read : Z -> Z -> list Z -> St D (Z * list Z)
}.

(** The device serves the image [img]: a read of [count] sectors into a buffer
    of that size succeeds with the image's bytes. *)
Class BlockDevOk (D : Type) `{BlockDev D} (img : Z -> Z) := {
  dev_ok : D -> Prop;
  dev_img_byte a : is_byte (img a);
  dev_read lba count buf d :
    dev_ok d -> 0 <= lba < 2 ^ 48 -> 0 < count <= 2 ->
    length buf = Z.to_nat (512 * count) ->
    wp (sector_read lba count buf) (fun rb d' =>
      rb = (0, img_bytes img (512 * lba) (Z.to_nat (512 * count))) /\ dev_ok d') d
}.

(** A device with an end, or with sectors missing: it serves the sectors [s]
    with [has s], and nothing is promised of a read that touches another. *)
Class BlockDevOn (D : Type) `{BlockDev D} (img : Z -> Z) (has : Z -> Prop) := {
  on_ok : D -> Prop;
  on_img_byte a : is_byte (img a);
  on_read lba count buf d :
    on_ok d -> 0 <= lba < 2 ^ 48 -> 0 < count <= 2 ->
    (forall s, lba <= s < lba + count -> has s) ->
    length buf = Z.to_nat (512 * count) ->
    wp (sector_read lba count buf) (fun rb d' =>
      rb = (0, img_bytes img (512 * lba) (Z.to_nat (512 * count))) /\ on_ok d') d
}.

(** An ideal device serves every sector. *)
Definition everywhere : Z -> Prop := fun _ => True.

#[export] Instance dev_on {D} `{BlockDev D} img `{!BlockDevOk D img} :
  BlockDevOn D img everywhere := {|
  on_ok := dev_ok;
  on_img_byte := dev_img_byte;
  on_read lba count buf d Hd Hl Hc _ Hlen := dev_read lba count buf d Hd Hl Hc Hlen
|}.

(** Both sectors of a block. *)
Definition has_block (has : Z -> Prop) (b : Z) : Prop := has (2 * b) /\ has (2 * b + 1).

Lemma has_block_everywhere b : has_block everywhere b.
Proof. done. Qed.

Lemma has_blocks_everywhere bs : Forall (has_block everywhere) bs.
Proof. by apply Forall_true. Qed.

#[export] Hint Resolve has_block_everywhere has_blocks_everywhere : core.

(** ** Operations ([fsso.c]) *)

(** Comparison of a directory entry's name field with a C string: the loop
    [for (k = 0; entries[j].name[k] || name[k]; k++)].  [ent] and [name] are
    what is left of the field and of the string before its NUL; reading past
    the end of the field is undefined. *)
Fixpoint name_match (ent name : list Z) : res bool :=
  match ent with
  | [] => Undef
  | e :: ent' =>
      let c := match name with [] => 0 | c :: _ => c end in
      if (e =? 0) && (c =? 0) then Done true
      else if e =? c then name_match ent' (tail name)
      else Done false
  end.

Definition lift {W A} (r : res A) : St W A := fun w =>
  match r with Done a => Done (a, w) | Undef => Undef | Hang => Hang end.

(** [component[i++] = *p] until ['.'] or the end; characters beyond
    FSSO_MAX_FILENAME are dropped.  Returns the component and the rest. *)
Fixpoint take_component (p comp : list Z) : list Z * list Z :=
  match p with
  | [] => (comp, [])
  | c :: p' =>
      if c =? 46 then (comp, p)
      else take_component p'
             (if Z.of_nat (length comp) <? FSSO_MAX_FILENAME then comp ++ [c] else comp)
  end.

(** [buf[pos + j] = bs[j]] for all [j], undefined past the end of [buf]. *)
Definition write_bytes (buf : list Z) (pos : Z) (bs : list Z) : res (list Z) :=
  if Z.of_nat (length buf) <? pos + Z.of_nat (length bs) then Undef
  else Done (take (Z.to_nat pos) buf ++ bs ++ drop (Z.to_nat pos + length bs) buf).

Section fsso.
Context {D : Type} `{BlockDev D}.

(** Indeterminate contents of the uninitialised block buffer of each
    function. *)
Inductive site := AtMount | AtInode | AtDir | AtFile | AtLs.
Variable junk : site -> list Z.

Definition read_block (block_num : Z) (buffer : list Z) : St D (list Z) :=
  let lba := u64 (block_num * 2) in
  '(_, b) <- sector_read lba 2 buffer ;;
  ret b.

Definition fsso_mount (fs : filesystem) : St D (Z * filesystem) :=
  buffer <- read_block 0 (junk AtMount) ;;
  let sb := get_superblock (sub buffer) 0 in
  if negb (sb_magic sb =? FSSO_MAGIC) then ret (-1, fs)
  else ret (0, Filesystem sb 0).

Definition inodes_per_block : Z := FSSO_BLOCK_SIZE / sizeof FSSO_Inode.
Definition entries_per_block : Z := FSSO_BLOCK_SIZE / sizeof FSSO_DirEntry.

(** [out] is the caller's inode object, written on success. *)
Definition fsso_read_inode (fs : filesystem) (inode_num : Z) (out : inode)
  : St D (Z * inode) :=
  if sb_total_inodes (fs_superblock fs) <=? inode_num then ret (-1, out)
  else
    let block_num := u32 (3 + inode_num / inodes_per_block) in
    let offset := inode_num mod inodes_per_block in
    buffer <- read_block block_num (junk AtInode) ;;
    ret (0, get_inode (sub buffer) (sizeof FSSO_Inode * offset)).

(** The scan of one directory block: [Exit ino] is [return 0]. *)
Definition scan_entries (buffer name : list Z) : St D (ctl unit Z) :=
  cfor (Z.to_nat entries_per_block) 0 (fun j _ =>
    let e := get_dirent (sub buffer) (sizeof FSSO_DirEntry * j) in
    if de_inode e =? 0 then ret (Next tt)
    else
      m <- lift (name_match (de_name e) name) ;;
      if m : bool then ret (Exit (de_inode e)) else ret (Next tt)) tt.

(** One iteration over [direct]: [Exit None] is [break]. *)
Definition dir_step (ino : inode) (name : list Z) (i : Z) (buffer : list Z)
  : St D (ctl (list Z) (option Z)) :=
  let b := i_direct ino !!! Z.to_nat i in
  if b =? 0 then ret (Exit None)
  else
    buffer <- read_block b buffer ;;
    x <- scan_entries buffer name ;;
    match x with
    | Exit n => ret (Exit (Some n))
    | Next _ => ret (Next buffer)
    end.

Definition fsso_find_in_dir (fs : filesystem) (dir_inode : Z) (name : list Z)
    (uninit : inode) (out_inode : Z) : St D (Z * Z) :=
  '(r, ino) <- fsso_read_inode fs dir_inode uninit ;;
  if negb (r =? 0) then ret (-1, out_inode)
  else if negb (i_type ino =? FSSO_TYPE_DIR) then ret (-2, out_inode)
  else
    x <- cfor (Z.to_nat FSSO_DIRECT_BLOCKS) 0 (dir_step ino name) (junk AtDir) ;;
    match x with
    | Exit (Some n) => ret (0, n)
    | _ => ret (-3, out_inode)
    end.

(** The [while ( *p != '\0')] loop of [fsso_resolve_path]. *)
Fixpoint resolve_loop (fuel : nat) (fs : filesystem) (uninit : inode) (p : list Z)
    (current_inode : Z) : St D (option Z) :=
  match p with
  | [] => ret (Some current_inode)
  | _ :: _ =>
      match fuel with
      | O => hang
      | S fuel' =>
          let '(component, p) := take_component p [] in
          let p := match p with c :: p' => if c =? 46 then p' else p | [] => p end in
          if (length component =? 0)%nat then
            resolve_loop fuel' fs uninit p current_inode
          else
            '(r, next_inode) <- fsso_find_in_dir fs current_inode component uninit 0 ;;
            if negb (r =? 0) then ret None
            else resolve_loop fuel' fs uninit p next_inode
      end
  end.

Definition fsso_resolve_path (fs : filesystem) (path : list Z) (uninit : inode)
    (out_inode : Z) : St D (Z * Z) :=
  x <- resolve_loop (length path) fs uninit path 0 ;;
  match x with
  | Some n => ret (0, n)
  | None => ret (-1, out_inode)
  end.

(** One iteration of the copy loop of [fsso_read_file]; the loop state is
    [bytes_read], [out_buffer] and [block_buffer]. *)
Definition file_step (ino : inode) (max_size : Z) (i : Z) (s : Z * list Z * list Z)
  : St D (ctl (Z * list Z * list Z) (Z * list Z)) :=
  let '(bytes_read, out_buffer, block_buffer) := s in
  let b := i_direct ino !!! Z.to_nat i in
  if b =? 0 then ret (Exit (bytes_read, out_buffer))
  else if max_size <=? bytes_read then ret (Exit (bytes_read, out_buffer))
  else
    block_buffer <- read_block b block_buffer ;;
    let to_copy := FSSO_BLOCK_SIZE in
    let to_copy := if max_size <? u32 (bytes_read + to_copy)
                   then u32 (max_size - bytes_read) else to_copy in
    out_buffer <- lift (write_bytes out_buffer bytes_read (sub block_buffer 0 (Z.to_nat to_copy))) ;;
    ret (Next (u32 (bytes_read + to_copy), out_buffer, block_buffer)).

Definition fsso_read_file (fs : filesystem) (inode_num : Z) (uninit : inode)
    (out_buffer : list Z) (max_size : Z) : St D (Z * list Z) :=
  '(r, ino) <- fsso_read_inode fs inode_num uninit ;;
  if negb (r =? 0) then ret (-1, out_buffer)
  else if negb (i_type ino =? FSSO_TYPE_FILE) then ret (-2, out_buffer)
  else
    x <- cfor (Z.to_nat FSSO_DIRECT_BLOCKS) 0 (file_step ino max_size)
           (0, out_buffer, junk AtFile) ;;
    let '(bytes_read, out) := match x with
                              | Next (n, out, _) => (n, out)
                              | Exit (n, out) => (n, out)
                              end in
    ret (i32 bytes_read, out).
End fsso.

(** ** Specification: the file system as a view of the image *)

Section spec.
Variable img : Z -> Z.

Definition blk (b : Z) : list Z := img_bytes img (1024 * b) 1024.

(** Where the reader looks for inode [n]: 13 inodes per block, from block 3. *)
Definition inode_addr (n : Z) : Z := 1024 * (3 + n / 13) + 76 * (n mod 13).

Definition inode_at (n : Z) : inode := get_inode (img_bytes img) (inode_addr n).

(** The direct blocks in use: those before the first 0. *)
Fixpoint until0 (bs : list Z) : list Z :=
  match bs with
  | [] => []
  | b :: bs' => if b =? 0 then [] else b :: until0 bs'
  end.

Definition data_blocks (ino : inode) : list Z := until0 (i_direct ino).

Definition block_entries (b : Z) : list dirent :=
  map (fun j => get_dirent (img_bytes img) (1024 * b + 260 * j)) (seqZ 0 3).

Definition dirents (ino : inode) : list dirent := flat_map block_entries (data_blocks ino).

Fixpoint cstr (bs : list Z) : list Z :=
  match bs with
  | [] => []
  | b :: bs' => if b =? 0 then [] else b :: cstr bs'
  end.

Definition entry_ino (name : list Z) (e : dirent) : option Z :=
  if de_inode e =? 0 then None
  else if decide (cstr (de_name e) = name) then Some (de_inode e) else None.

(** The first used entry with that name. *)
Definition dir_lookup (ino : inode) (name : list Z) : option Z :=
  head (omap (entry_ino name) (dirents ino)).

Definition file_content (ino : inode) : list Z := flat_map blk (data_blocks ino).

(** Used entries have NUL-terminated names. *)
Definition names_ok (ino : inode) : Prop :=
  Forall (fun e => de_inode e <> 0 -> 0 ∈ de_name e) (dirents ino).
End spec.

Lemma length_until0 bs : (length (until0 bs) <= length bs)%nat.
Proof. induction bs as [|b bs IH]; cbn [until0 length]; [done|]. destruct (b =? 0); simpl; lia. Qed.

(** Result of [fsso_find_in_dir]: return value and found inode. *)
Definition find_result (total : Z) (img : Z -> Z) (dir : Z) (name : list Z) (out : Z) : Z * Z :=
  if total <=? dir then (-1, out)
  else if negb (i_type (inode_at img dir) =? FSSO_TYPE_DIR) then (-2, out)
  else match dir_lookup img (inode_at img dir) name with
       | Some n => (0, n)
       | None => (-3, out)
       end.

(** Every directory the search reads has NUL-terminated names. *)
Definition dir_wf (total : Z) (img : Z -> Z) (n : Z) : Prop :=
  0 <= n < total -> i_type (inode_at img n) = FSSO_TYPE_DIR -> names_ok img (inode_at img n).

(** The components of a path: the non-empty segments between dots, cut to
    FSSO_MAX_FILENAME characters. *)
Definition components (p : list Z) : list (list Z) :=
  map (take (Z.to_nat FSSO_MAX_FILENAME)) (filter (fun s => s <> []) (segments 46 p)).

(** Walking the components from an inode. *)
Fixpoint walk (total : Z) (img : Z -> Z) (cur : Z) (cs : list (list Z)) : option Z :=
  match cs with
  | [] => Some cur
  | c :: cs' =>
      let '(r, next) := find_result total img cur c 0 in
      if r =? 0 then walk total img next cs' else None
  end.

(** Result of [fsso_read_file]: return value and output buffer. *)
Definition read_result (total : Z) (img : Z -> Z) (n : Z) (out : list Z) (max_size : Z)
  : Z * list Z :=
  if total <=? n then (-1, out)
  else if negb (i_type (inode_at img n) =? FSSO_TYPE_FILE) then (-2, out)
  else
    let content := take (Z.to_nat max_size) (file_content img (inode_at img n)) in
    (Z.of_nat (length content), content ++ drop (length content) out).

(** ** Lemmas on overlays and names *)

Lemma get_inode_ext rd1 rd2 a1 a2 :
  (forall o n, 0 <= o -> o + Z.of_nat n <= 76 -> rd1 (a1 + o) n = rd2 (a2 + o) n) ->
  get_inode rd1 a1 = get_inode rd2 a2.
Proof.
  intros H. unfold get_inode, ld. cbv zeta. offsets. f_equal;
    try (f_equal; apply H; lia); try (apply H; lia).
  apply map_ext_in. intros i Hi%list_elem_of_In%elem_of_seqZ.
  rewrite <- !Z.add_assoc. f_equal. apply H; lia.
Qed.

Lemma get_dirent_ext rd1 rd2 a1 a2 :
  (forall o n, 0 <= o -> o + Z.of_nat n <= 260 -> rd1 (a1 + o) n = rd2 (a2 + o) n) ->
  get_dirent rd1 a1 = get_dirent rd2 a2.
Proof.
  intros H. unfold get_dirent, ld. cbv zeta. offsets.
  change (field_size FSSO_DirEntry "name") with 256.
  f_equal; [f_equal|]; apply H; lia.
Qed.

Lemma sub_blk img b o n :
  0 <= o -> o + Z.of_nat n <= 1024 ->
  sub (blk img b) o n = img_bytes img (1024 * b + o) n.
Proof.
  intros Ho Hn. unfold sub, blk. rewrite img_bytes_sub by lia. f_equal. lia.
Qed.

Lemma get_inode_blk img b o :
  0 <= o -> o + 76 <= 1024 ->
  get_inode (sub (blk img b)) o = get_inode (img_bytes img) (1024 * b + o).
Proof.
  intros. apply get_inode_ext. intros. rewrite sub_blk by lia. f_equal. lia.
Qed.

Lemma get_dirent_blk img b o :
  0 <= o -> o + 260 <= 1024 ->
  get_dirent (sub (blk img b)) o = get_dirent (img_bytes img) (1024 * b + o).
Proof.
  intros. apply get_dirent_ext. intros. rewrite sub_blk by lia. f_equal. lia.
Qed.

Lemma name_match_spec ent name :
  0 ∈ ent -> Forall (fun c => c <> 0) name ->
  name_match ent name = Done (bool_decide (cstr ent = name)).
Proof.
  intros H0. revert name. induction ent as [|e ent IH]; [by apply not_elem_of_nil in H0|].
  intros name Hn. cbn [name_match cstr].
  destruct (Z.eqb_spec e 0) as [->|He].
  - destruct name as [|c name]; [done|]. apply Forall_cons_1 in Hn as [Hc _].
    cbv zeta. destruct (Z.eqb_spec c 0); [done|]. rewrite andb_false_r.
    destruct (Z.eqb_spec 0 c); [by subst|].
    by rewrite bool_decide_eq_false_2.
  - cbv zeta. cbn [andb]. destruct name as [|c name]; cbn [tail].
    + destruct (Z.eqb_spec e 0); [done|].
      by rewrite bool_decide_eq_false_2.
    + apply Forall_cons_1 in Hn as [Hc Hn]. destruct (Z.eqb_spec e c) as [->|Hec].
      * rewrite IH; [|set_solver|done]. f_equal. apply bool_decide_ext. naive_solver.
      * rewrite bool_decide_eq_false_2; naive_solver.
Qed.

Lemma dir_lookup_cons img b bs name :
  head (omap (entry_ino name) (flat_map (block_entries img) (until0 (b :: bs)))) =
  if b =? 0 then None
  else match head (omap (entry_ino name) (block_entries img b)) with
       | Some n => Some n
       | None => head (omap (entry_ino name) (flat_map (block_entries img) (until0 bs)))
       end.
Proof.
  cbn [until0]. destruct (b =? 0); [done|]. cbn [flat_map]. rewrite omap_app.
  by destruct (omap (entry_ino name) (block_entries img b)).
Qed.

Lemma ld_range img n a :
  (forall x, is_byte (img x)) -> 0 <= ld (img_bytes img) n a < 256 ^ Z.of_nat n.
Proof.
  intros H. unfold ld. pose proof (le_dec_bound (img_bytes img a n)) as Hb.
  rewrite length_img_bytes in Hb. by apply Hb, img_bytes_bytes.
Qed.

Lemma inode_direct_lookup img a i :
  0 <= i < 12 ->
  i_direct (get_inode (img_bytes img) a) !! Z.to_nat i = Some (ld (img_bytes img) 4 (a + 16 + 4 * i)).
Proof.
  intros Hi. unfold get_inode. cbv zeta. cbn [i_direct]. offsets.
  change (map ?f) with (fmap (M := list) f). rewrite list_lookup_fmap, lookup_seqZ_lt by lia.
  simpl. do 2 f_equal. lia.
Qed.

Lemma length_inode_direct rd a : length (i_direct (get_inode rd a)) = 12%nat.
Proof. done. Qed.

(** ** The operations refine the specification *)

Section on.
Context {D : Type} `{BlockDev D} (img : Z -> Z) (has : Z -> Prop) `{!BlockDevOn D img has}.
Variable junk : site -> list Z.
Hypothesis junk_len : forall s, length (junk s) = 1024%nat.

Lemma wp_read_block_on b buf (Q : list Z -> D -> Prop) d :
  on_ok d -> 0 <= b < 2 ^ 32 -> has_block has b -> length buf = 1024%nat ->
  (forall d', on_ok d' -> Q (blk img b) d') ->
  wp (read_block b buf) Q d.
Proof.
  intros Hd Hb [Hs1 Hs2] Hl HQ. unfold read_block. rewrite u64_small by lia.
  assert (Hs : forall s, b * 2 <= s < b * 2 + 2 -> has s).
  { intros s Hs. assert (s = 2 * b \/ s = 2 * b + 1) as [-> | ->] by lia; done. }
  apply wp_bind. eapply wp_mono; [apply on_read; [done|lia|lia|done|by rewrite Hl]|].
  cbn beta. intros [r b'] d' [[= -> ->] Hd']. apply wp_ret.
  replace (512 * (b * 2)) with (1024 * b) by lia. by apply HQ.
Qed.

Lemma length_blk b : length (blk img b) = 1024%nat.
Proof. apply length_img_bytes. Qed.

Lemma wp_mount_on fs d :
  on_ok d -> has_block has 0 ->
  wp (fsso_mount junk fs) (fun r d' =>
    on_ok d' /\
    r = let sb := get_superblock (img_bytes img) 0 in
        if sb_magic sb =? FSSO_MAGIC then (0, Filesystem sb 0) else (-1, fs)) d.
Proof.
  intros Hd H0. unfold fsso_mount.
  apply wp_bind, wp_read_block_on; [done|lia|done|apply junk_len|].
  intros d' Hd'. replace (get_superblock (sub (blk img 0)) 0)
    with (get_superblock (img_bytes img) 0).
  - cbv zeta. by destruct (_ =? FSSO_MAGIC).
  - unfold get_superblock, ld. cbv zeta. offsets. by rewrite !sub_blk by lia.
Qed.

(** The block of an inode that [fs] has is served. *)
Definition inode_read (fs : filesystem) (n : Z) : Prop :=
  n < sb_total_inodes (fs_superblock fs) -> has_block has (3 + n / 13).

Lemma wp_read_inode_on fs n out (Q : Z * inode -> D -> Prop) d :
  on_ok d -> 0 <= n < 2 ^ 32 -> inode_read fs n ->
  (forall d', on_ok d' ->
     Q (if sb_total_inodes (fs_superblock fs) <=? n then (-1, out)
        else (0, inode_at img n)) d') ->
  wp (fsso_read_inode junk fs n out) Q d.
Proof.
  intros Hd Hn Hr HQ. unfold fsso_read_inode, inode_read in *.
  destruct (Z.leb_spec (sb_total_inodes (fs_superblock fs)) n); [by apply wp_ret, HQ|].
  change inodes_per_block with 13.
  pose proof (Z.mod_pos_bound n 13 ltac:(lia)). pose proof (Z.div_mod n 13 ltac:(lia)).
  rewrite (u32_small (3 + n / 13)) by (Z.div_mod_to_equations; lia).
  apply wp_bind, wp_read_block_on; [done|Z.div_mod_to_equations; lia|auto|apply junk_len|].
  intros d' Hd'. apply wp_ret. offsets. rewrite get_inode_blk by lia. by apply HQ.
Qed.

Lemma direct_range n i b :
  0 <= i < 12 -> i_direct (inode_at img n) !! Z.to_nat i = Some b -> 0 <= b < 2 ^ 32.
Proof.
  intros Hi Hb. unfold inode_at in Hb. rewrite inode_direct_lookup in Hb by done.
  injection Hb as <-. by apply (ld_range img 4), on_img_byte.
Qed.

(** The step of a loop over the direct blocks. *)
Lemma direct_next n i :
  0 <= i < 12 -> exists b, i_direct (inode_at img n) !!! Z.to_nat i = b /\ 0 <= b < 2 ^ 32 /\
  drop (Z.to_nat i) (i_direct (inode_at img n)) =
    b :: drop (Z.to_nat (i + 1)) (i_direct (inode_at img n)).
Proof.
  intros Hi. destruct (i_direct (inode_at img n) !! Z.to_nat i) as [b|] eqn:E.
  - exists b. split_and!; [by apply list_lookup_total_correct|by eapply direct_range..|].
    rewrite (drop_S _ b) by done. do 2 f_equal. lia.
  - apply lookup_ge_None in E. unfold inode_at in E. rewrite length_inode_direct in E. lia.
Qed.

Lemma wp_scan_entries_on b name d :
  on_ok d -> Forall (fun c => c <> 0) name ->
  Forall (fun e => de_inode e <> 0 -> 0 ∈ de_name e) (block_entries img b) ->
  wp (scan_entries (blk img b) name) (fun x d' => on_ok d' /\
    x = match head (omap (entry_ino name) (block_entries img b)) with
        | Some n => Exit n | None => Next tt end) d.
Proof.
  intros Hd Hn Hok. unfold scan_entries. change (Z.to_nat entries_per_block) with 3%nat.
  eapply wp_mono.
  - apply (wp_cfor_search on_ok (fun j => entry_ino name
      (get_dirent (img_bytes img) (1024 * b + 260 * j)))); [done|].
    intros j d1 Hj Hd1. offsets. rewrite get_dirent_blk by lia. cbv zeta.
    set (e := get_dirent _ _). unfold entry_ino.
    destruct (Z.eqb_spec (de_inode e) 0) as [|He]; [by apply wp_ret|].
    assert (Hin : 0 ∈ de_name e).
    { rewrite Forall_forall in Hok. apply Hok; [|done]. unfold block_entries.
      apply list_elem_of_In, in_map_iff. exists j. split; [done|].
      apply list_elem_of_In, elem_of_seqZ. lia. }
    rewrite name_match_spec by done. apply wp_bind, wp_ret.
    case_bool_decide; [rewrite decide_True by done|rewrite decide_False by done];
      by apply wp_ret.
  - cbv beta. intros x d' [Hd' ->]. split; [done|]. unfold block_entries.
    by rewrite omap_map.
Qed.

(** The search of the blocks not yet read. *)
Definition find_from (bs name : list Z) : option Z :=
  head (omap (entry_ino name) (flat_map (block_entries img) (until0 bs))).

(** The data blocks of an inode of type [t] that [fs] has are served. *)
Definition data_read (fs : filesystem) (n t : Z) : Prop :=
  n < sb_total_inodes (fs_superblock fs) -> i_type (inode_at img n) = t ->
  Forall (has_block has) (data_blocks (inode_at img n)).

Lemma wp_find_in_dir_on fs n name uninit out (Q : Z * Z -> D -> Prop) d :
  on_ok d -> 0 <= n < 2 ^ 32 -> Forall (fun c => c <> 0) name ->
  dir_wf (sb_total_inodes (fs_superblock fs)) img n ->
  inode_read fs n -> data_read fs n FSSO_TYPE_DIR ->
  (forall d', on_ok d' ->
     Q (find_result (sb_total_inodes (fs_superblock fs)) img n name out) d') ->
  wp (fsso_find_in_dir junk fs n name uninit out) Q d.
Proof.
  intros Hd Hn Hname Hok Hir Hdr HQ. unfold fsso_find_in_dir, find_result in *.
  apply wp_bind, wp_read_inode_on; [done..|]. intros d1 Hd1.
  destruct (Z.leb_spec (sb_total_inodes (fs_superblock fs)) n); [by apply wp_ret, HQ|].
  cbn [negb Z.eqb]. destruct (Z.eqb_spec (i_type (inode_at img n)) FSSO_TYPE_DIR) as [Ht|];
    cbn [negb] in *; [|by apply wp_ret, HQ].
  specialize (Hok ltac:(lia) Ht). specialize (Hdr ltac:(lia) Ht). unfold data_blocks in Hdr.
  unfold dir_lookup, dirents, data_blocks in HQ. unfold names_ok, dirents, data_blocks in Hok.
  set (direct := i_direct (inode_at img n)) in *.
  fold (find_from direct name) in HQ.
  apply wp_bind. eapply wp_mono.
  - apply (wp_cfor (fun i buf d' => on_ok d' /\ length buf = 1024%nat /\
      find_from direct name = find_from (drop (Z.to_nat i) direct) name /\
      Forall (fun e => de_inode e <> 0 -> 0 ∈ de_name e)
        (flat_map (block_entries img) (until0 (drop (Z.to_nat i) direct))) /\
      Forall (has_block has) (until0 (drop (Z.to_nat i) direct)))
      (fun x d' => on_ok d' /\
         find_from direct name = match x with Exit r => r | Next _ => None end)).
    + by split_and!; [|apply junk_len| | |].
    + intros i buf d2 Hi (Hd2 & Hl & Hf & Hok2 & Hb2). unfold dir_step. fold direct.
      destruct (direct_next n i ltac:(change FSSO_DIRECT_BLOCKS with 12 in Hi; lia))
        as (b & Eb & Hb & Edrop). fold direct in Eb, Edrop. rewrite Eb.
      rewrite Edrop in Hf, Hok2, Hb2. unfold find_from at 2 in Hf. rewrite dir_lookup_cons in Hf.
      cbn [until0] in Hok2, Hb2. destruct (Z.eqb_spec b 0) as [_|Hb0]; [by apply wp_ret|].
      apply Forall_cons_1 in Hb2 as [Hb2 Hb3]. cbn [flat_map] in Hok2. apply Forall_app in Hok2 as [Hok3 Hok4].
      apply wp_bind, wp_read_block_on; [done..|]. intros d3 Hd3.
      apply wp_bind. eapply wp_mono; [by apply wp_scan_entries_on|].
      cbn beta. intros x d4 [Hd4 ->].
      destruct (head (omap _ (block_entries img b))); apply wp_ret; [done|].
      by split_and!; [|apply length_blk| | |].
    + intros buf d2 (Hd2 & _ & Hf & _ & _). split; [done|]. rewrite Hf, drop_ge; [done|].
      unfold direct, inode_at. by rewrite length_inode_direct.
  - cbv beta. intros x d2 [Hd2 Hf]. rewrite Hf in HQ.
    destruct x as [buf|[m|]]; by apply wp_ret, HQ.
Qed.

(** What has been copied when iteration [i] starts. *)
Definition copied (direct out0 : list Z) (max_size i : Z) (s : Z * list Z * list Z) : Prop :=
  let content := take (Z.to_nat max_size) (flat_map (blk img) (take (Z.to_nat i) direct)) in
  let '(n, out, buf) := s in
  n = Z.of_nat (length content) /\ out = content ++ drop (length content) out0 /\
  length buf = 1024%nat /\ Forall (fun b => b <> 0) (take (Z.to_nat i) direct).

Lemma length_flat_blk bs : length (flat_map (blk img) bs) = (1024 * length bs)%nat.
Proof.
  induction bs as [|b bs IH]; [done|]. cbn [flat_map length].
  rewrite length_app, IH, length_blk. lia.
Qed.

Lemma until0_app bs1 b bs2 :
  Forall (fun b => b <> 0) bs1 ->
  until0 (bs1 ++ b :: bs2) = if b =? 0 then bs1 else bs1 ++ until0 (b :: bs2).
Proof.
  induction 1 as [|x bs1 Hx H1 IH]; cbn [app until0].
  - by destruct (b =? 0).
  - rewrite IH. destruct (Z.eqb_spec x 0); [done|]. cbn [until0]. by destruct (b =? 0).
Qed.

Lemma until0_all bs : Forall (fun b => b <> 0) bs -> until0 bs = bs.
Proof.
  induction 1 as [|x bs Hx H1 IH]; cbn [until0]; [done|].
  rewrite IH. by destruct (Z.eqb_spec x 0).
Qed.

Lemma write_bytes_append content out0 bs :
  (length content + length bs <= length out0)%nat ->
  write_bytes (content ++ drop (length content) out0) (Z.of_nat (length content)) bs =
  Done ((content ++ bs) ++ drop (length (content ++ bs)) out0).
Proof.
  intros Hl. unfold write_bytes.
  destruct (Z.ltb_spec (Z.of_nat (length (content ++ drop (length content) out0)))
              (Z.of_nat (length content) + Z.of_nat (length bs))) as [Hlt|_].
  { rewrite length_app, length_drop in Hlt. lia. }
  f_equal. rewrite Nat2Z.id, take_app_length, <- app_assoc. f_equal. f_equal.
  rewrite drop_app_add, drop_drop, length_app. done.
Qed.

Lemma copied_step_on n out0 max_size i s d :
  on_ok d -> Forall (has_block has) (data_blocks (inode_at img n)) ->
  0 <= i < 12 -> 0 <= max_size <= Z.of_nat (length out0) -> max_size < 2 ^ 32 ->
  copied (i_direct (inode_at img n)) out0 max_size i s ->
  wp (file_step (inode_at img n) max_size i s) (fun x d' => on_ok d' /\
    match x with
    | Next s' => copied (i_direct (inode_at img n)) out0 max_size (i + 1) s'
    | Exit (k, out) =>
        let content := take (Z.to_nat max_size)
                         (file_content img (inode_at img n)) in
        k = Z.of_nat (length content) /\ out = content ++ drop (length content) out0
    end) d.
Proof.
  intros Hd Hrd Hi Hmax Hmax32. destruct s as [[k out] buf].
  unfold copied, file_content, data_blocks. cbv zeta.
  destruct (direct_next n i Hi) as (b & Eb & Hb & Edrop).
  set (direct := i_direct (inode_at img n)) in *.
  assert (Hl12 : length direct = 12%nat) by apply length_inode_direct.
  set (pre := take (Z.to_nat i) direct).
  assert (Hlpre : length pre = Z.to_nat i) by (unfold pre; rewrite length_take; lia).
  intros (Hk & Hout & Hbuf & Hnz).
  assert (Hdir : direct = pre ++ b :: drop (Z.to_nat (i + 1)) direct).
  { rewrite <- Edrop. symmetry. apply take_drop. }
  assert (Hunt : until0 direct = if b =? 0 then pre
                 else pre ++ until0 (b :: drop (Z.to_nat (i + 1)) direct)).
  { rewrite Hdir at 1. by apply until0_app. }
  unfold data_blocks in Hrd. fold direct in Hrd. rewrite Hunt in Hrd |- *.
  unfold file_step. fold direct. rewrite Eb.
  destruct (Z.eqb_spec b 0) as [_|Hb0]; [by apply wp_ret|].
  apply Forall_app in Hrd as [_ Hrd]. cbn [until0] in Hrd.
  destruct (Z.eqb_spec b 0) as [|_]; [done|]. apply Forall_cons_1 in Hrd as [Hrb _].
  pose proof (length_flat_blk pre) as Hlen. pose proof Hk as Hk0. rewrite length_take in Hk0.
  destruct (Z.leb_spec max_size k) as [Hle|Hgt].
  { apply wp_ret. split; [done|]. rewrite flat_map_app, take_app_le by lia. done. }
  set (content := flat_map (blk img) pre) in *.
  assert (Hk' : k = Z.of_nat (length content)) by lia.
  rewrite (take_ge content) in Hout by lia.
  assert (Hnext : take (Z.to_nat (i + 1)) direct = pre ++ [b]).
  { rewrite Hdir, take_app_ge by lia. f_equal.
    by replace (Z.to_nat (i + 1) - length pre)%nat with 1%nat by lia. }
  apply wp_bind, wp_read_block_on; [done..|]. intros d1 Hd1.
  unfold FSSO_BLOCK_SIZE. rewrite (u32_small (k + 1024)), (u32_small (max_size - k)) by lia.
  set (tc := if max_size <? k + 1024 then max_size - k else 1024).
  assert (Htc : tc = Z.min 1024 (max_size - k)).
  { unfold tc. destruct (Z.ltb_spec max_size (k + 1024)); lia. }
  assert (Hsub : sub (blk img b) 0 (Z.to_nat tc) = take (Z.to_nat tc) (blk img b)) by done.
  rewrite Hsub, Hk', Hout, write_bytes_append.
  2: { rewrite length_take, length_blk. lia. }
  apply wp_bind, wp_ret, wp_ret. split; [done|].
  rewrite Hnext, flat_map_app. cbn [flat_map]. rewrite app_nil_r. fold content.
  rewrite take_app_ge by lia.
  replace (Z.to_nat max_size - length content)%nat with (Z.to_nat (max_size - k)) by lia.
  assert (Htk : take (Z.to_nat (max_size - k)) (blk img b) = take (Z.to_nat tc) (blk img b)).
  { destruct (Z.leb_spec (max_size - k) 1024); [f_equal; lia|].
    rewrite !take_ge; rewrite ?length_blk; [done|lia..]. }
  rewrite Htk. split; [|split; [done|split; [apply length_blk|]]].
  - rewrite length_app, length_take, length_blk, u32_small by lia. lia.
  - apply Forall_app. split; [done|]. by constructor.
Qed.

Lemma wp_read_file_on fs n uninit out0 max_size (Q : Z * list Z -> D -> Prop) d :
  on_ok d -> 0 <= n < 2 ^ 32 -> 0 <= max_size <= Z.of_nat (length out0) -> max_size < 2 ^ 32 ->
  inode_read fs n -> data_read fs n FSSO_TYPE_FILE ->
  (forall d', on_ok d' ->
     Q (read_result (sb_total_inodes (fs_superblock fs)) img n out0 max_size) d') ->
  wp (fsso_read_file junk fs n uninit out0 max_size) Q d.
Proof.
  intros Hd Hn Hm1 Hm2 Hir Hdr HQ. unfold fsso_read_file, read_result in *.
  apply wp_bind, wp_read_inode_on; [done..|]. intros d1 Hd1.
  destruct (Z.leb_spec (sb_total_inodes (fs_superblock fs)) n); [by apply wp_ret, HQ|].
  cbn [negb Z.eqb]. destruct (Z.eqb_spec (i_type (inode_at img n)) FSSO_TYPE_FILE) as [Ht|];
    cbn [negb] in *; [|by apply wp_ret, HQ].
  specialize (Hdr ltac:(lia) Ht).
  apply wp_bind. eapply wp_mono.
  - apply (wp_cfor (fun i s d' => on_ok d' /\
        copied (i_direct (inode_at img n)) out0 max_size i s)
      (fun x d' => on_ok d' /\
         let content := take (Z.to_nat max_size) (file_content img (inode_at img n)) in
         let '(k, out) := match x with Next (k, out, _) => (k, out) | Exit (k, out) => (k, out) end in
         k = Z.of_nat (length content) /\ out = content ++ drop (length content) out0)).
    + split; [done|]. unfold copied. cbv zeta.
      change (take (Z.to_nat 0) ?l) with (@nil Z). cbn [flat_map]. rewrite take_nil.
      split_and!; [done..|apply junk_len|done].
    + intros i s d2 Hi [Hd2 Hc]. eapply wp_mono; [by apply copied_step_on|].
      intros [s'|[k out]] d3; [done|]. by intros [? ?].
    + intros [[k out] buf] d2 [Hd2 (Hk & Ho & _ & Hnz)]. split; [done|]. cbv zeta.
      unfold file_content, data_blocks.
      assert (Hl12 : length (i_direct (inode_at img n)) = 12%nat) by apply length_inode_direct.
      rewrite (take_ge (i_direct _)) in Hk, Ho, Hnz by (rewrite Hl12; done). by rewrite until0_all.
  - cbv beta zeta. intros x d2 [Hd2 Hx].
    assert (Hlen : (length (take (Z.to_nat max_size) (file_content img (inode_at img n)))
                    <= 12 * 1024)%nat).
    { rewrite length_take. unfold file_content. rewrite length_flat_blk.
      pose proof (length_until0 (i_direct (inode_at img n))) as Hu.
      unfold inode_at in Hu at 2. rewrite length_inode_direct in Hu. unfold data_blocks. lia. }
    destruct x as [[[k out] buf]|[k out]]; destruct Hx as [-> ->];
      rewrite i32_small by lia; by apply wp_ret, HQ.
Qed.
End on.

(** On a device that serves every sector. *)
Section refine.
Context {D : Type} `{BlockDev D} (img : Z -> Z) `{!BlockDevOk D img}.
Variable junk : site -> list Z.
Hypothesis junk_len : forall s, length (junk s) = 1024%nat.

Lemma wp_read_block b buf (Q : list Z -> D -> Prop) d :
  dev_ok d -> 0 <= b < 2 ^ 32 -> length buf = 1024%nat ->
  (forall d', dev_ok d' -> Q (blk img b) d') ->
  wp (read_block b buf) Q d.
Proof. intros. by apply (wp_read_block_on img everywhere (BlockDevOn0 := dev_on img)). Qed.

Lemma wp_mount fs d :
  dev_ok d ->
  wp (fsso_mount junk fs) (fun r d' =>
    dev_ok d' /\
    r = let sb := get_superblock (img_bytes img) 0 in
        if sb_magic sb =? FSSO_MAGIC then (0, Filesystem sb 0) else (-1, fs)) d.
Proof. intros. by apply (wp_mount_on img everywhere (BlockDevOn0 := dev_on img) junk junk_len). Qed.

Lemma wp_read_inode fs n out (Q : Z * inode -> D -> Prop) d :
  dev_ok d -> 0 <= n < 2 ^ 32 ->
  (forall d', dev_ok d' ->
     Q (if sb_total_inodes (fs_superblock fs) <=? n then (-1, out)
        else (0, inode_at img n)) d') ->
  wp (fsso_read_inode junk fs n out) Q d.
Proof.
  intros. by apply (wp_read_inode_on img everywhere (BlockDevOn0 := dev_on img) junk junk_len).
Qed.

Lemma wp_find_in_dir fs n name uninit out (Q : Z * Z -> D -> Prop) d :
  dev_ok d -> 0 <= n < 2 ^ 32 -> Forall (fun c => c <> 0) name ->
  dir_wf (sb_total_inodes (fs_superblock fs)) img n ->
  (forall d', dev_ok d' ->
     Q (find_result (sb_total_inodes (fs_superblock fs)) img n name out) d') ->
  wp (fsso_find_in_dir junk fs n name uninit out) Q d.
Proof.
  intros. apply (wp_find_in_dir_on img everywhere (BlockDevOn0 := dev_on img) junk junk_len);
    unfold inode_read, data_read; auto.
Qed.

Lemma wp_read_file fs n uninit out0 max_size (Q : Z * list Z -> D -> Prop) d :
  dev_ok d -> 0 <= n < 2 ^ 32 -> 0 <= max_size <= Z.of_nat (length out0) -> max_size < 2 ^ 32 ->
  (forall d', dev_ok d' ->
     Q (read_result (sb_total_inodes (fs_superblock fs)) img n out0 max_size) d') ->
  wp (fsso_read_file junk fs n uninit out0 max_size) Q d.
Proof.
  intros. apply (wp_read_file_on img everywhere (BlockDevOn0 := dev_on img) junk junk_len);
    unfold inode_read, data_read; auto.
Qed.

Lemma find_result_range total n name out :
  0 <= out < 2 ^ 32 -> 0 <= (find_result total img n name out).2 < 2 ^ 32.
Proof.
  intros Ho. unfold find_result. destruct (total <=? n); [done|].
  destruct (negb _); [done|]. unfold dir_lookup.
  destruct (head _) as [m|] eqn:E; [|done]. simpl.
  apply head_Some_elem_of, list_elem_of_omap in E as (e & He & Hm).
  unfold entry_ino in Hm. destruct (de_inode e =? 0); [done|].
  case_decide; [|done]. injection Hm as <-. unfold dirents in He.
  apply list_elem_of_In, in_flat_map in He as (b & _ & He).
  unfold block_entries in He. apply in_map_iff in He as (j & <- & _).
  unfold get_dirent. cbn [de_inode]. by apply (ld_range img 4), dev_img_byte.
Qed.

Lemma take_component_spec p comp :
  (length comp <= 255)%nat ->
  exists s rest, take_component p comp = (take 255 (comp ++ s), rest) /\
    (Forall (fun c => c <> 0) p -> Forall (fun c => c <> 0) s) /\
    ((rest = [] /\ segments 46 p = [s]) \/
     exists p', rest = 46 :: p' /\ segments 46 p = s :: segments 46 p' /\
                (length p' < length p)%nat /\
                (Forall (fun c => c <> 0) p -> Forall (fun c => c <> 0) p')).
Proof.
  revert comp. induction p as [|c p IH]; intros comp Hl; cbn [take_component segments].
  { exists [], []. rewrite app_nil_r, take_ge by lia. by eauto. }
  destruct (Z.eqb_spec c 46) as [->|Hc].
  { exists [], (46 :: p). rewrite app_nil_r, take_ge by lia. split_and!; [done|done|].
    right. exists p. split_and!; [done..|simpl; lia|]. by intros [_ ?]%Forall_cons_1. }
  set (comp' := if _ <? _ then _ else _).
  assert (Hl' : (length comp' <= 255)%nat).
  { unfold comp', FSSO_MAX_FILENAME. destruct (Z.ltb_spec (Z.of_nat (length comp)) 255); [|done].
    rewrite length_app. simpl. lia. }
  destruct (IH comp' Hl') as (s & rest & Et & Hs & Hr). exists (c :: s), rest.
  split_and!.
  - rewrite Et. f_equal. unfold comp', FSSO_MAX_FILENAME.
    destruct (Z.ltb_spec (Z.of_nat (length comp)) 255).
    + by rewrite <- app_assoc.
    + rewrite !take_app_le by lia. done.
  - intros [H1 H2]%Forall_cons_1. constructor; auto.
  - destruct Hr as [[-> ->]|(p' & -> & -> & Hlt & Hz)]; [by left|]. right.
    exists p'. split_and!; [done..|simpl; lia|]. intros [_ H2]%Forall_cons_1. auto.
Qed.

Lemma components_cons s ss p :
  segments 46 p = s :: ss ->
  components p = (if decide (s = []) then [] else [take 255 s]) ++
                 map (take 255) (filter (fun s => s <> []) ss).
Proof.
  intros E. unfold components. rewrite E, filter_cons.
  change (Z.to_nat FSSO_MAX_FILENAME) with 255%nat.
  destruct (decide (s = [])); [by rewrite decide_False by auto|].
  by rewrite decide_True by auto.
Qed.

(** Skipping the separator after a component. *)
Definition skip_dot (p : list Z) : list Z :=
  match p with c :: p' => if c =? 46 then p' else p | [] => p end.

Lemma wp_resolve_loop fs uninit fuel p cur (Q : option Z -> D -> Prop) d :
  (forall n, dir_wf (sb_total_inodes (fs_superblock fs)) img n) ->
  dev_ok d -> 0 <= cur < 2 ^ 32 -> Forall (fun c => c <> 0) p -> (length p <= fuel)%nat ->
  (forall d', dev_ok d' ->
     Q (walk (sb_total_inodes (fs_superblock fs)) img cur (components p)) d') ->
  wp (resolve_loop junk fuel fs uninit p cur) Q d.
Proof.
  intros Hwf. revert p cur d. induction fuel as [|fuel IH]; intros p cur d Hd Hcur Hp Hl HQ.
  { destruct p; [|simpl in Hl; lia]. by apply wp_ret, HQ. }
  destruct p as [|c0 p0]; [by apply wp_ret, HQ|]. cbn [resolve_loop].
  set (p := c0 :: p0) in *.
  destruct (take_component_spec p []) as (s & rest & Et & Hs & Hr); [simpl; lia|].
  rewrite Et. rewrite app_nil_l. fold (skip_dot rest).
  assert (Hrest : components p = (if decide (s = []) then [] else [take 255 s]) ++
                    components (skip_dot rest) /\
    Forall (fun c => c <> 0) (skip_dot rest) /\ (length (skip_dot rest) <= fuel)%nat).
  { destruct Hr as [[-> E]|(p' & -> & E & Hlt & Hz)]; rewrite (components_cons _ _ _ E).
    - by split_and!; [|constructor|simpl; lia].
    - change (skip_dot (46 :: p')) with p'. split_and!; [done|auto|lia]. }
  destruct Hrest as (Hc & Hz & Hlen). rewrite Hc in HQ.
  destruct s as [|c1 s].
  - cbn [take length Nat.eqb]. apply IH; [done..|]. by rewrite decide_True in HQ.
  - rewrite decide_False in HQ by done. cbn [take length Nat.eqb]. cbn [app walk] in HQ.
    change (c1 :: take 254 s) with (take 255 (c1 :: s)) in *.
    apply wp_bind, wp_find_in_dir; [done..|by apply Forall_take, Hs|by apply Hwf|].
    intros d1 Hd1.
    pose proof (find_result_range (sb_total_inodes (fs_superblock fs)) cur
                  (take 255 (c1 :: s)) 0 ltac:(lia)) as Hrg.
    destruct (find_result _ _ _ _ _) as [r next]. destruct (r =? 0); cbn [negb].
    + by apply IH.
    + by apply wp_ret, HQ.
Qed.
End refine.

(** ** Properties *)

(** On a device that serves the image, [fsso_mount] returns 0 and records
    the superblock exactly when its magic number is right, and otherwise
    returns -1 leaving the file system object as it was. *)
Theorem fsso_mount_spec {D} `{BlockDev D} (img : Z -> Z) `{!BlockDevOk D img}
    (junk : site -> list Z) fs (d : D) :
  (forall s, length (junk s) = 1024%nat) -> dev_ok d ->
  wp (fsso_mount junk fs) (fun r d' => dev_ok d' /\
    r = let sb := get_superblock (img_bytes img) 0 in
        if sb_magic sb =? FSSO_MAGIC then (0, Filesystem sb 0) else (-1, fs)) d.
Proof. intros Hj Hd. by apply (wp_mount img junk Hj). Qed.

(** C7: [fsso_find_in_dir] implements directory lookup on the image: -1 for an
    inode number beyond the table, -2 for an inode that is not a directory, 0
    with the inode of the first used entry bearing that name, -3 when there is
    none; the output is written only on success. *)
Theorem fsso_find_in_dir_spec {D} `{BlockDev D} (img : Z -> Z) `{!BlockDevOk D img}
    (junk : site -> list Z) fs n name uninit out (d : D) :
  (forall s, length (junk s) = 1024%nat) -> dev_ok d -> 0 <= n < 2 ^ 32 ->
  Forall (fun c => c <> 0) name -> dir_wf (sb_total_inodes (fs_superblock fs)) img n ->
  wp (fsso_find_in_dir junk fs n name uninit out) (fun r d' => dev_ok d' /\
    r = find_result (sb_total_inodes (fs_superblock fs)) img n name out) d.
Proof. intros Hj Hd Hn Hs Hw. by apply (wp_find_in_dir img junk Hj). Qed.

(** C8: [fsso_read_file] copies the file's blocks in order, up to [max_size]
    bytes, writes nothing else of the output buffer, and returns the number of
    bytes copied; -1 and -2 report a bad inode number and an inode that is not
    a file. *)
Theorem fsso_read_file_spec {D} `{BlockDev D} (img : Z -> Z) `{!BlockDevOk D img}
    (junk : site -> list Z) fs n uninit out max_size (d : D) :
  (forall s, length (junk s) = 1024%nat) -> dev_ok d -> 0 <= n < 2 ^ 32 ->
  0 <= max_size <= Z.of_nat (length out) -> max_size < 2 ^ 32 ->
  wp (fsso_read_file junk fs n uninit out max_size) (fun r d' => dev_ok d' /\
    r = read_result (sb_total_inodes (fs_superblock fs)) img n out max_size) d.
Proof. intros Hj Hd Hn Hm1 Hm2. by apply (wp_read_file img junk Hj). Qed.

(** C9: [fsso_resolve_path] always returns: it walks the dot-separated,
    non-empty components of the path (cut to 255 characters) from the root
    inode by directory lookup, and returns -1 as soon as one lookup fails. *)
Theorem fsso_resolve_path_spec {D} `{BlockDev D} (img : Z -> Z) `{!BlockDevOk D img}
    (junk : site -> list Z) fs path uninit out (d : D) :
  (forall s, length (junk s) = 1024%nat) -> dev_ok d -> Forall (fun c => c <> 0) path ->
  (forall n, dir_wf (sb_total_inodes (fs_superblock fs)) img n) ->
  wp (fsso_resolve_path junk fs path uninit out) (fun r d' => dev_ok d' /\
    r = match walk (sb_total_inodes (fs_superblock fs)) img 0 (components path) with
        | Some n => (0, n) | None => (-1, out) end) d.
Proof.
  intros Hj Hd Hp Hw. unfold fsso_resolve_path. apply wp_bind.
  apply (wp_resolve_loop img junk Hj); [done..|lia|done|done|].
  intros d' Hd'. destruct (walk _ _ _ _); by apply wp_ret.
Qed.

(** A path component never contains the separator '.', so a file whose
    name contains a dot, such as the "hello.txt" and "hello.py" of the shipped
    image, is found by [fsso_find_in_dir] but is never what
    [fsso_resolve_path] looks for. *)
Theorem components_no_dot path c :
  c ∈ components path -> c <> [] /\ 46 ∉ c /\ Z.of_nat (length c) <= FSSO_MAX_FILENAME.
Proof.
  unfold components. intros Hc. apply list_elem_of_In, in_map_iff in Hc as (s & <- & Hs).
  apply list_elem_of_In, list_elem_of_filter in Hs as [Hne Hs].
  change (Z.to_nat FSSO_MAX_FILENAME) with 255%nat. split_and!.
  - by destruct s.
  - intros [i Hi]%list_elem_of_lookup. apply lookup_take_Some in Hi as [Hi _].
    apply list_elem_of_lookup_2 in Hi. clear Hne i. revert s Hs Hi.
    pose proof (segments_no_sep 46 path) as Hall.
    rewrite Forall_forall in Hall. auto.
  - rewrite length_take. unfold FSSO_MAX_FILENAME. lia.
Qed.

(** The number of bytes [fsso_read_file] reports is the number of whole
    blocks of the file times 1024, cut to [max_size]: the file's recorded size
    plays no part, so the last block is returned with its padding. *)
Theorem fsso_read_ignores_size total img n out max_size :
  0 <= n < total -> i_type (inode_at img n) = FSSO_TYPE_FILE -> 0 <= max_size ->
  (read_result total img n out max_size).1 =
    Z.min max_size (1024 * Z.of_nat (length (data_blocks (inode_at img n)))).
Proof.
  intros Hn Ht Hm. unfold read_result. destruct (Z.leb_spec total n); [lia|].
  rewrite Ht. cbn [negb Z.eqb]. change (FSSO_TYPE_FILE =? FSSO_TYPE_FILE) with true.
  cbn [negb fst]. rewrite length_take. unfold file_content. rewrite length_flat_blk. lia.
Qed.

(** Device errors are dropped: if the sector read fails and leaves the
    buffer alone, [fsso_mount] decides on the indeterminate contents of its
    local buffer, and mounts them as a file system when they happen to start
    with the magic number. *)
Theorem fsso_mount_ignores_errors {D} `{BlockDev D} (junk : site -> list Z) fs (d : D) :
  (forall lba count buf w, exists r, r <> 0 /\ sector_read lba count buf w = Done ((r, buf), w)) ->
  fsso_mount junk fs d =
    Done (let sb := get_superblock (sub (junk AtMount)) 0 in
          if sb_magic sb =? FSSO_MAGIC then (0, Filesystem sb 0) else (-1, fs), d).
Proof.
  intros Hf. unfold fsso_mount, read_block, bind.
  destruct (Hf (u64 (0 * 2)) 2 (junk AtMount) d) as (r & _ & ->).
  cbv zeta. unfold ret. by destruct (_ =? FSSO_MAGIC).
Qed.

(** ** Two concrete devices *)

(** A device that serves a memory as its image, and one that always fails. *)
Definition mem_dev (m : mem) : BlockDev unit := {|
  sector_read lba count buf := ret (0, mgets m (512 * lba) (Z.to_nat (512 * count)))
|}.

Definition broken_dev : BlockDev unit := {| sector_read lba count buf := ret (-1, buf) |}.

Lemma mem_dev_ok m : mem_ok m -> @BlockDevOk unit (mem_dev m) (mget m).
Proof.
  intros Hm. refine {| dev_ok _ := True |}; [exact Hm|].
  intros lba count buf d _ _ _ _. unfold sector_read, mem_dev. cbn.
  split; [|done]. by rewrite img_bytes_mget.
Defined.

(** A small image: inode 0 is a directory with the single entry "a", which is
    inode 1, a file of one block that starts with "hello". *)
Definition demo_img : mem :=
  let put4 a v m := mst 4 m a v in
  let puts a bs m := mputs m a bs in
  puts 0 (le_enc 8 FSSO_MAGIC)
    (put4 16 2 (put4 3084 FSSO_TYPE_DIR (put4 3088 11 (put4 3160 FSSO_TYPE_FILE (put4 3164 12
      (put4 11264 1 (puts 11268 [97] (puts 12288 [104; 101; 108; 108; 111] ∅)))))))).

Definition demo_fs : filesystem := Filesystem (get_superblock (mgets demo_img) 0) 0.
Definition zero_junk : site -> list Z := fun _ => replicate (Z.to_nat 1024) 0.
Definition no_inode : inode := Inode 0 0 0 0 [] [] 0 0 0.

Lemma demo_ok : mem_ok demo_img.
Proof.
  unfold demo_img. cbv beta zeta.
  repeat first [apply mem_ok_mst | apply mem_ok_mputs | apply mem_ok_empty | apply le_enc_bytes
    | apply Forall_nil_2 | apply Forall_cons_2; [unfold is_byte; lia|]].
Qed.

Lemma zero_junk_length s : length (zero_junk s) = 1024%nat.
Proof. by destruct s. Qed.

Lemma demo_wf n : dir_wf 2 (mget demo_img) n.
Proof.
  intros Hn. assert (n = 0 \/ n = 1) as [-> | ->] by lia; [|by vm_compute].
  intros _. unfold names_ok. apply (bool_decide_unpack _). by vm_compute.
Qed.

Lemma fsso_mount_spec_witness :
  wp (@fsso_mount unit (mem_dev demo_img) zero_junk demo_fs)
    (fun r _ => r = (0, demo_fs)) tt.
Proof.
  eapply wp_mono; [exact (@fsso_mount_spec unit (mem_dev demo_img) (mget demo_img)
    (mem_dev_ok _ demo_ok) zero_junk demo_fs tt zero_junk_length I)|].
  cbv beta. intros r w [_ ->]. by vm_compute.
Defined.

Lemma fsso_find_in_dir_spec_witness :
  wp (@fsso_find_in_dir unit (mem_dev demo_img) zero_junk demo_fs 0 [97] no_inode 7)
    (fun r _ => r = (0, 1)) tt.
Proof.
  eapply wp_mono; [exact (@fsso_find_in_dir_spec unit (mem_dev demo_img) (mget demo_img)
    (mem_dev_ok _ demo_ok) zero_junk demo_fs 0 [97] no_inode 7 tt zero_junk_length I
    ltac:(lia) ltac:(by repeat constructor) (demo_wf 0))|].
  cbv beta. intros r w [_ ->]. by vm_compute.
Defined.

Lemma fsso_read_file_spec_witness :
  wp (@fsso_read_file unit (mem_dev demo_img) zero_junk demo_fs 1 no_inode (replicate 8 9) 5)
    (fun r _ => r = (5, [104; 101; 108; 108; 111; 9; 9; 9])) tt.
Proof.
  eapply wp_mono; [exact (@fsso_read_file_spec unit (mem_dev demo_img) (mget demo_img)
    (mem_dev_ok _ demo_ok) zero_junk demo_fs 1 no_inode (replicate 8 9) 5 tt zero_junk_length I
    ltac:(lia) ltac:(simpl; lia) ltac:(lia))|].
  cbv beta. intros r w [_ ->]. by vm_compute.
Defined.

(** The path "..a." has the single component "a". *)
Lemma fsso_resolve_path_spec_witness :
  wp (@fsso_resolve_path unit (mem_dev demo_img) zero_junk demo_fs [46; 46; 97; 46] no_inode 7)
    (fun r _ => r = (0, 1)) tt.
Proof.
  eapply wp_mono; [exact (@fsso_resolve_path_spec unit (mem_dev demo_img) (mget demo_img)
    (mem_dev_ok _ demo_ok) zero_junk demo_fs [46; 46; 97; 46] no_inode 7 tt zero_junk_length I
    ltac:(by repeat constructor) demo_wf)|].
  cbv beta. intros r w [_ ->]. by vm_compute.
Defined.

(** The components of "hello.txt" are "hello" and "txt". *)
Lemma components_no_dot_witness :
  [116; 120; 116] ∈ components [104; 101; 108; 108; 111; 46; 116; 120; 116] /\
  46 ∉ [116; 120; 116].
Proof.
  assert (Hc : [116; 120; 116] ∈ components [104; 101; 108; 108; 111; 46; 116; 120; 116])
    by (apply list_elem_of_In; vm_compute; by auto).
  split; [done|]. by apply (components_no_dot _ _ Hc).
Defined.

Lemma fsso_read_ignores_size_witness :
  i_size (inode_at (mget demo_img) 1) = 0 /\
  (read_result 2 (mget demo_img) 1 (replicate 8 9) 2048).1 = 1024.
Proof.
  split; [by vm_compute|].
  rewrite (fsso_read_ignores_size 2 (mget demo_img) 1 (replicate 8 9) 2048);
    [by vm_compute|lia|by vm_compute|lia].
Defined.

Lemma fsso_mount_ignores_errors_witness :
  @fsso_mount unit broken_dev (fun _ => mgets demo_img 0 1024) demo_fs tt =
    Done ((0, Filesystem (get_superblock (mgets demo_img) 0) 0), tt).
Proof.
  rewrite (@fsso_mount_ignores_errors unit broken_dev (fun _ => mgets demo_img 0 1024) demo_fs tt);
    [by vm_compute|].
  intros lba count buf []. by exists (-1).
Defined.
