(* ===== verification/Mkfsso.v ===== *)
(** The image builder, [tools/mkfsso.c]: formatting of an FSSO image and
    [fsso_add_file], on a byte-addressed disk; the files an image holds as an
    abstract list, the refinement of [fsso_add_file] to appending to it, and
    the round trip from [fsso_add_file] to the kernel's reader. *)
From stdpp Require Import strings.
From S2P Require Import Prelude Bytes Layout Fsso.

Definition TOTAL_BLOCKS : Z := 4096.
Definition TOTAL_INODES : Z := 512.

(** Bytes of the image: the object [calloc (TOTAL_BLOCKS, FSSO_BLOCK_SIZE)]. *)
Definition DISK_BYTES : Z := TOTAL_BLOCKS * FSSO_BLOCK_SIZE.

(** ** Accesses to the disk object, undefined outside it *)

Definition in_disk (a : Z) (n : nat) : bool := (0 <=? a) && (a + Z.of_nat n <=? DISK_BYTES).

Definition dld (n : nat) (a : Z) : St mem Z := fun m =>
  if in_disk a n then Done (mld n m a, m) else Undef.

Definition dst (n : nat) (a v : Z) : St mem unit := fun m =>
  if in_disk a n then Done (tt, mst n m a v) else Undef.

(** [arr[i]] of a local array or of the caller's data. *)
Definition aref (arr : list Z) (i : Z) : St mem Z := fun m =>
  match arr !! Z.to_nat i with
  | Some v => if 0 <=? i then Done (v, m) else Undef
  | None => Undef
  end.

(** ** [fsso_add_file] *)

Definition inode_bitmap : Z := FSSO_BLOCK_SIZE.
Definition block_bitmap : Z := FSSO_BLOCK_SIZE * 2.
Definition inode_table : Z := FSSO_BLOCK_SIZE * 3.
Definition inode_slot (i : Z) : Z := inode_table + sizeof FSSO_Inode * i.

(** [if (!(bitmap[i / 8] & (1 << i % 8))) bitmap[i / 8] |= 1 << i % 8]: was
    the bit free? *)
Definition claim_bit (bitmap i : Z) : St mem bool :=
  let byte := i / 8 in
  let bit := i mod 8 in
  v <- dld 1 (bitmap + byte) ;;
  if Z.land v (Z.shiftl 1 bit) =? 0 then
    v <- dld 1 (bitmap + byte) ;;
    dst 1 (bitmap + byte) (u8 (Z.lor v (Z.shiftl 1 bit))) ;;;
    ret true
  else ret false.

(** The search for a free inode; 0 when there is none. *)
Definition find_free_inode : St mem Z :=
  n <- dld 4 (off FSSO_Superblock "total_inodes") ;;
  x <- cfor (Z.to_nat (n - 1)) 1 (fun i _ =>
         c <- claim_bit inode_bitmap i ;;
         if c : bool then ret (Exit i) else ret (Next tt)) tt ;;
  match x with Exit i => ret i | Next _ => ret 0 end.

(** One iteration of the block search; the state is [blocks_found] and
    [allocated_blocks]. *)
Definition alloc_step (blocks_needed i : Z) (s : Z * list Z)
  : St mem (ctl (Z * list Z) (Z * list Z)) :=
  let '(blocks_found, allocated_blocks) := s in
  if negb (blocks_found <? blocks_needed) then ret (Exit s)
  else
    c <- claim_bit block_bitmap i ;;
    if c : bool then
      if Z.of_nat (length allocated_blocks) <=? blocks_found then undef
      else ret (Next (blocks_found + 1, <[Z.to_nat blocks_found := i]> allocated_blocks))
    else ret (Next s).

Definition alloc_blocks (blocks_needed : Z) : St mem (Z * list Z) :=
  n <- dld 4 (off FSSO_Superblock "total_blocks") ;;
  x <- cfor (Z.to_nat (n - FSSO_FIRST_DATA_BLOCK)) FSSO_FIRST_DATA_BLOCK
         (alloc_step blocks_needed) (0, replicate (Z.to_nat FSSO_DIRECT_BLOCKS) 0) ;;
  match x with Next s => ret s | Exit s => ret s end.

(** The copy of the [i]-th block of data. *)
Definition write_block (allocated_blocks data : list Z) (size i : Z) : St mem unit :=
  b <- aref allocated_blocks i ;;
  let block := u32 (b * FSSO_BLOCK_SIZE) in
  let offset := u32 (i * FSSO_BLOCK_SIZE) in
  let to_copy := u32 (size - offset) in
  let to_copy := if FSSO_BLOCK_SIZE <? to_copy then FSSO_BLOCK_SIZE else to_copy in
  cfor_ (Z.to_nat to_copy) 0 (fun j =>
    v <- aref data (u32 (offset + j)) ;;
    dst 1 (block + j) v).

Definition write_inode (free_inode size blocks_found : Z) (allocated_blocks : list Z)
  : St mem unit :=
  let inode := inode_slot free_inode in
  dst 4 (inode + off FSSO_Inode "size") size ;;;
  dst 1 (inode + off FSSO_Inode "type") FSSO_TYPE_FILE ;;;
  dst 4 (inode + off FSSO_Inode "created") 0 ;;;
  dst 4 (inode + off FSSO_Inode "modified") 0 ;;;
  cfor_ (Z.to_nat blocks_found) 0 (fun i =>
    b <- aref allocated_blocks i ;;
    dst 4 (inode + off FSSO_Inode "direct" + 4 * i) b).

(** [while (name[j] && j < FSSO_MAX_FILENAME)] and the final NUL. *)
Fixpoint write_name (a : Z) (j : Z) (name : list Z) : St mem unit :=
  match name with
  | c :: name' =>
      if j <? FSSO_MAX_FILENAME then
        dst 1 (a + j) c ;;; write_name a (j + 1) name'
      else dst 1 (a + j) 0
  | [] => dst 1 (a + j) 0
  end.

(** One iteration of the search for a directory slot: [Exit 0] is
    [return 0]. *)
Definition slot_step (root_block free_inode blocks_found : Z) (name : list Z) (i : Z)
    (_ : unit) : St mem (ctl unit Z) :=
  let entry := root_block + sizeof FSSO_DirEntry * i in
  n <- dld 4 (entry + off FSSO_DirEntry "inode") ;;
  if n =? 0 then
    dst 4 (entry + off FSSO_DirEntry "inode") free_inode ;;;
    write_name (entry + off FSSO_DirEntry "name") 0 name ;;;
    v <- dld 4 (off FSSO_Superblock "free_inodes") ;;
    dst 4 (off FSSO_Superblock "free_inodes") (u32 (v - 1)) ;;;
    v <- dld 4 (off FSSO_Superblock "free_blocks") ;;
    dst 4 (off FSSO_Superblock "free_blocks") (u32 (v - blocks_found)) ;;;
    ret (Exit 0)
  else ret (Next tt).

Definition fsso_add_file (name data : list Z) (size : Z) : St mem Z :=
  free_inode <- find_free_inode ;;
  if free_inode =? 0 then ret (-1)
  else
    let blocks_needed := u32 (size + FSSO_BLOCK_SIZE - 1) / FSSO_BLOCK_SIZE in
    '(blocks_found, allocated_blocks) <- alloc_blocks blocks_needed ;;
    if blocks_found <? blocks_needed then ret (-1)
    else
      cfor_ (Z.to_nat blocks_found) 0 (write_block allocated_blocks data size) ;;;
      write_inode free_inode size blocks_found allocated_blocks ;;;
      root <- dld 4 (inode_slot 0 + off FSSO_Inode "direct") ;;
      let root_block := u32 (root * FSSO_BLOCK_SIZE) in
      x <- cfor (Z.to_nat entries_per_block) 0
             (slot_step root_block free_inode blocks_found name) tt ;;
      match x with Exit r => ret r | Next _ => ret (-1) end.

(** ** [main] *)

Definition text (s : string) : list Z :=
  map (fun c => Z.of_N (Ascii.N_of_ascii c)) (String.list_ascii_of_string s).

(** A string literal as an object: its characters and the NUL. *)
Definition c_lit (s : list Z) : list Z := s ++ [0].

(** The superblock, the bitmaps and the root inode. *)
Definition format_disk : St mem unit :=
  dst 8 (off FSSO_Superblock "magic") FSSO_MAGIC ;;;
  dst 4 (off FSSO_Superblock "block_size") FSSO_BLOCK_SIZE ;;;
  dst 4 (off FSSO_Superblock "total_blocks") TOTAL_BLOCKS ;;;
  dst 4 (off FSSO_Superblock "total_inodes") TOTAL_INODES ;;;
  dst 4 (off FSSO_Superblock "free_blocks") (TOTAL_BLOCKS - FSSO_FIRST_DATA_BLOCK) ;;;
  dst 4 (off FSSO_Superblock "free_inodes") (TOTAL_INODES - 1) ;;;
  dst 4 (off FSSO_Superblock "first_data_blockl") FSSO_FIRST_DATA_BLOCK ;;;
  dst 4 (off FSSO_Superblock "version") 1 ;;;
  modify (fun m => mputs m (off FSSO_Superblock "fs_name") (text "FSSO    ")) ;;;
  dst 1 inode_bitmap 0x01 ;;;
  dst 1 block_bitmap 0xFF ;;;
  dst 1 (block_bitmap + 1) 0x07 ;;;
  let root := inode_slot 0 in
  dst 4 (root + off FSSO_Inode "size") 0 ;;;
  dst 4 (root + off FSSO_Inode "created") 0 ;;;
  dst 4 (root + off FSSO_Inode "modified") 0 ;;;
  dst 1 (root + off FSSO_Inode "type") FSSO_TYPE_DIR ;;;
  dst 4 (root + off FSSO_Inode "direct") FSSO_FIRST_DATA_BLOCK ;;;
  v <- dld 1 (block_bitmap + 1) ;;
  dst 1 (block_bitmap + 1) (Z.lor v 0x08).

Definition newline : list Z := [10].
Definition hello_txt : list Z := text "hello.txt".
Definition test_data : list Z := c_lit (text "Hello from FSSO!" ++ newline).
Definition hello_py : list Z := text "hello.py".
Definition py_script : list Z := c_lit (text "print('Hello from SimplrOS!')" ++ newline).

(** Formatting and the two files: the exit status so far. *)
Definition build_image : St mem Z :=
  format_disk ;;;
  r <- fsso_add_file hello_txt test_data 18 ;;
  if negb (r =? 0) then ret 1
  else
    r <- fsso_add_file hello_py py_script 31 ;;
    if negb (r =? 0) then ret 1 else ret 0.

(** The whole program: [open_ok] and [alloc_ok] say whether [fopen] and
    [calloc] succeed, [fwrite] how many blocks it writes; the result is the
    exit status and what was handed to [fwrite]. *)
Definition main (argc : Z) (open_ok alloc_ok : bool) (fwrite : mem -> Z)
  : res (Z * option mem) :=
  if argc <? 2 then Done (1, None)
  else if negb open_ok then Done (1, None)
  else if negb alloc_ok then Done (1, None)
  else
    match build_image ∅ with
    | Done (r, disk) =>
        if negb (r =? 0) then Done (r, None)
        else if negb (fwrite disk =? TOTAL_BLOCKS) then Done (1, Some disk)
        else Done (0, Some disk)
    | Undef => Undef
    | Hang => Hang
    end.

(** ** The disk operations *)

Definition bit_used (m : mem) (bitmap i : Z) : bool :=
  Z.testbit (mget m (bitmap + i / 8)) (i mod 8).

Definition mark (bitmap i : Z) (m : mem) : mem :=
  mput m (bitmap + i / 8) (Z.lor (mget m (bitmap + i / 8)) (Z.shiftl 1 (i mod 8))).

Definition marks (bitmap : Z) (ixs : list Z) (m : mem) : mem :=
  foldl (fun m i => mark bitmap i m) m ixs.

Lemma wp_dld n a (Q : Z -> mem -> Prop) m :
  0 <= a -> a + Z.of_nat n <= 4194304 -> Q (mld n m a) m -> wp (dld n a) Q m.
Proof.
  intros H1 H2 HQ. unfold wp, dld, in_disk. change DISK_BYTES with 4194304.
  destruct (Z.leb_spec 0 a), (Z.leb_spec (a + Z.of_nat n) 4194304); try lia. exact HQ.
Qed.

Lemma wp_dst n a v (Q : unit -> mem -> Prop) m :
  0 <= a -> a + Z.of_nat n <= 4194304 -> Q tt (mst n m a v) -> wp (dst n a v) Q m.
Proof.
  intros H1 H2 HQ. unfold wp, dst, in_disk. change DISK_BYTES with 4194304.
  destruct (Z.leb_spec 0 a), (Z.leb_spec (a + Z.of_nat n) 4194304); try lia. exact HQ.
Qed.

Lemma wp_aref arr i v (Q : Z -> mem -> Prop) m :
  0 <= i -> arr !! Z.to_nat i = Some v -> Q v m -> wp (aref arr i) Q m.
Proof.
  intros Hi Hv HQ. unfold wp, aref. rewrite Hv. destruct (Z.leb_spec 0 i); [exact HQ|lia].
Qed.

Lemma mst_1 m a v : is_byte v -> mst 1 m a v = mput m a v.
Proof. intros H. unfold mst, is_byte in *. cbn. by rewrite Z.mod_small. Qed.

Lemma lor_bit_byte v i : is_byte v -> 0 <= i < 8 -> is_byte (Z.lor v (Z.shiftl 1 i)).
Proof.
  unfold is_byte. intros Hv Hi.
  assert (H0 : 0 <= Z.lor v (Z.shiftl 1 i))
    by (apply Z.lor_nonneg; split; [lia|apply Z.shiftl_nonneg; lia]).
  split; [done|]. change 256 with (2 ^ 8).
  apply Z.log2_lt_cancel. rewrite Z.log2_pow2 by lia.
  destruct (decide (Z.lor v (Z.shiftl 1 i) = 0)) as [E|E]; [rewrite E; simpl; lia|].
  rewrite Z.log2_lor by (try apply Z.shiftl_nonneg; lia).
  rewrite Z.log2_shiftl by lia. simpl (Z.log2 1).
  assert (Z.log2 v < 8); [|lia].
  destruct (decide (v = 0)) as [-> |]; [simpl; lia|]. apply Z.log2_lt_pow2; lia.
Qed.

(** Bit indices of the two bitmaps: bytes of one block. *)
Definition bit_ix (i : Z) : Prop := 0 <= i < 8192.

Lemma bit_ix_bounds i : bit_ix i -> 0 <= i / 8 < 1024 /\ 0 <= i mod 8 < 8.
Proof.
  unfold bit_ix. intros Hi. pose proof (Z.mod_pos_bound i 8).
  pose proof (Z.div_mod i 8). lia.
Qed.

Lemma mem_ok_mark bm i m : mem_ok m -> bit_ix i -> mem_ok (mark bm i m).
Proof.
  intros Hm Hi%bit_ix_bounds. apply mem_ok_mput; [done|]. apply lor_bit_byte; [auto|lia].
Qed.

Lemma mget_mark_out bm i m x : x <> bm + i / 8 -> mget (mark bm i m) x = mget m x.
Proof. apply mget_mput_ne. Qed.

Lemma bit_used_mark bm i j m :
  bit_ix i -> bit_ix j -> bit_used (mark bm i m) bm j = bit_used m bm j || bool_decide (i = j).
Proof.
  intros Hi Hj. pose proof (bit_ix_bounds _ Hi). pose proof (bit_ix_bounds _ Hj).
  unfold bit_used, mark. rewrite mget_mput. destruct (decide (bm + j / 8 = bm + i / 8)) as [E|E].
  - rewrite Z.lor_spec. replace (bm + i / 8) with (bm + j / 8) by lia. f_equal.
    rewrite Z.shiftl_1_l, Z.pow2_bits_eqb by lia. apply eq_bool_prop_intro.
    rewrite Is_true_true, Z.eqb_eq, bool_decide_spec.
    pose proof (Z.div_mod i 8). pose proof (Z.div_mod j 8). lia.
  - rewrite bool_decide_eq_false_2 by congruence. by rewrite orb_false_r.
Qed.

Lemma bit_used_ext bm i m1 m2 :
  mget m1 (bm + i / 8) = mget m2 (bm + i / 8) -> bit_used m1 bm i = bit_used m2 bm i.
Proof. unfold bit_used. by intros ->. Qed.

Lemma wp_claim_bit bm i (Q : bool -> mem -> Prop) m :
  mem_ok m -> bit_ix i -> 0 <= bm <= 3072 ->
  Q (negb (bit_used m bm i)) (if bit_used m bm i then m else mark bm i m) ->
  wp (claim_bit bm i) Q m.
Proof.
  intros Hm Hi Hbm HQ. pose proof (bit_ix_bounds _ Hi). unfold claim_bit. cbv zeta.
  apply wp_bind, wp_dld; [lia..|]. rewrite mld_1, land_bit by lia.
  fold (bit_used m bm i). destruct (bit_used m bm i); cbn [negb]; [by apply wp_ret|].
  apply wp_bind, wp_dld; [lia..|]. rewrite mld_1.
  apply wp_bind, wp_dst; [lia..|]. apply wp_ret.
  pose proof (lor_bit_byte (mget m (bm + i / 8)) (i mod 8) (Hm _) ltac:(lia)) as Hb.
  rewrite u8_small by exact Hb. by rewrite mst_1.
Qed.

(** The free indices of [lo, lo + n). *)
Definition free_in (m : mem) (bm lo n : Z) : list Z :=
  filter (fun i => bit_used m bm i = false) (seqZ lo n).

Lemma free_in_cons m bm lo n :
  free_in m bm lo (Z.of_nat (S n)) =
  (if bit_used m bm lo then [] else [lo]) ++ free_in m bm (lo + 1) (Z.of_nat n).
Proof.
  unfold free_in. rewrite seqZ_cons by lia.
  replace (Z.pred (Z.of_nat (S n))) with (Z.of_nat n) by lia. rewrite <- Z.add_1_r.
  rewrite filter_cons. destruct (bit_used m bm lo); [by rewrite decide_False|by rewrite decide_True].
Qed.

Lemma free_in_spec m bm lo n i :
  i ∈ free_in m bm lo n <-> bit_used m bm i = false /\ lo <= i < lo + n.
Proof. unfold free_in. by rewrite list_elem_of_filter, elem_of_seqZ. Qed.

Lemma NoDup_free_in m bm lo n : NoDup (free_in m bm lo n).
Proof. apply NoDup_filter, NoDup_seqZ. Qed.

Lemma free_in_mark m bm lo n i :
  0 <= lo -> lo + n <= 8192 -> bit_ix i -> i < lo ->
  free_in (mark bm i m) bm lo n = free_in m bm lo n.
Proof.
  intros Hlo Hn Hi Hlt. unfold free_in. apply filter_ext_in_list. intros j Hj%elem_of_seqZ.
  unfold bit_ix in *. rewrite bit_used_mark by (unfold bit_ix; lia).
  by rewrite bool_decide_eq_false_2, orb_false_r by lia.
Qed.

Lemma wp_search_free bm n lo m :
  mem_ok m -> 0 <= bm <= 3072 -> 0 <= lo -> lo + Z.of_nat n <= 8192 ->
  wp (cfor n lo (fun i _ => c <- claim_bit bm i ;;
                   if c : bool then ret (Exit i) else ret (Next tt)) tt)
    (fun x w => match head (free_in m bm lo (Z.of_nat n)) with
                | Some i => x = Exit i /\ w = mark bm i m
                | None => x = Next tt /\ w = m
                end) m.
Proof.
  intros Hm Hbm. revert lo. induction n as [|n IH]; intros lo Hlo Hn; cbn [cfor].
  - by apply wp_ret.
  - rewrite free_in_cons. do 2 apply wp_bind. apply wp_claim_bit; [done|unfold bit_ix; lia|done|].
    destruct (bit_used m bm lo); cbn [negb app head]; apply wp_ret.
    + apply IH; lia.
    + by apply wp_ret.
Qed.

Lemma wp_find_free_inode (Q : Z -> mem -> Prop) m :
  mem_ok m -> mld 4 m (off FSSO_Superblock "total_inodes") = TOTAL_INODES ->
  (match head (free_in m inode_bitmap 1 511) with
   | Some i => Q i (mark inode_bitmap i m)
   | None => Q 0 m
   end) ->
  wp find_free_inode Q m.
Proof.
  intros Hm Hn HQ. unfold find_free_inode.
  apply wp_bind, wp_dld; [offsets; lia..|]. rewrite Hn.
  change (Z.to_nat (TOTAL_INODES - 1)) with (Z.to_nat 511).
  apply wp_bind. eapply wp_mono.
  - apply (wp_search_free inode_bitmap (Z.to_nat 511) 1 m); [done|unfold inode_bitmap, FSSO_BLOCK_SIZE|..]; lia.
  - cbv beta. rewrite Z2Nat.id by lia. intros x w.
    destruct (head (free_in m inode_bitmap 1 511)); intros [-> ->]; by apply wp_ret.
Qed.

(** The local array [allocated_blocks] holding [bs]. *)
Definition block_array (bs : list Z) : list Z := bs ++ replicate (12 - length bs) 0.

Definition ctl_val {A} (x : ctl A A) : A := match x with Next s => s | Exit s => s end.

(** The blocks the search takes. *)
Definition picked (m : mem) (k lo n : Z) : list Z :=
  take (Z.to_nat k) (free_in m block_bitmap lo n).

Lemma insert_block_array bs i :
  (length bs < 12)%nat -> <[length bs := i]> (block_array bs) = block_array (bs ++ [i]).
Proof.
  intros Hl. unfold block_array.
  replace (12 - length bs)%nat with (S (12 - length (bs ++ [i])))
    by (rewrite length_app; simpl; lia).
  cbn [replicate]. by rewrite insert_app_r_alt, Nat.sub_diag, <- app_assoc by lia.
Qed.

Lemma length_block_array bs : (length bs <= 12)%nat -> length (block_array bs) = 12%nat.
Proof. intros. unfold block_array. rewrite length_app, length_replicate. lia. Qed.

Lemma marks_cons bm i ixs m : marks bm (i :: ixs) m = marks bm ixs (mark bm i m).
Proof. done. Qed.

Lemma claim_bit_run bm i m :
  mem_ok m -> bit_ix i -> 0 <= bm <= 3072 ->
  claim_bit bm i m =
  Done (negb (bit_used m bm i), if bit_used m bm i then m else mark bm i m).
Proof.
  intros Hm Hi Hbm.
  pose proof (wp_claim_bit bm i (fun c w => c = negb (bit_used m bm i) /\
    w = if bit_used m bm i then m else mark bm i m) m Hm Hi Hbm ltac:(done))
    as (c & w & -> & -> & ->)%wp_done. done.
Qed.

Lemma picked_nil m k lo : picked m k lo 0 = [].
Proof. unfold picked, free_in. simpl. apply take_nil. Qed.

Lemma picked_0 m k lo n : k <= 0 -> picked m k lo n = [].
Proof. intros. unfold picked. by replace (Z.to_nat k) with O by lia. Qed.

Lemma picked_cons m k lo n :
  0 < k ->
  picked m k lo (Z.of_nat (S n)) =
  if bit_used m block_bitmap lo then picked m k (lo + 1) (Z.of_nat n)
  else lo :: picked m (k - 1) (lo + 1) (Z.of_nat n).
Proof.
  intros Hk. unfold picked. rewrite free_in_cons. destruct (bit_used m block_bitmap lo); [done|].
  by replace (Z.to_nat k) with (S (Z.to_nat (k - 1))) by lia.
Qed.

Lemma picked_mark m k lo n i :
  0 <= lo -> lo + n <= 8192 -> bit_ix i -> i < lo ->
  picked (mark block_bitmap i m) k lo n = picked m k lo n.
Proof. intros. unfold picked. by rewrite free_in_mark. Qed.

(** The block search: it takes the first free blocks, and overruns the local
    array exactly when it needs more than 12. *)
Lemma alloc_loop n lo pre k m :
  mem_ok m -> 0 <= lo -> lo + Z.of_nat n <= 8192 -> (length pre <= 12)%nat -> 0 <= k ->
  let t := picked m (k - Z.of_nat (length pre)) lo (Z.of_nat n) in
  let run := cfor n lo (alloc_step k) (Z.of_nat (length pre), block_array pre) m in
  if decide (12 < length pre + length t)%nat then run = Undef
  else exists x, run = Done (x, marks block_bitmap t m) /\
         ctl_val x = (Z.of_nat (length (pre ++ t)), block_array (pre ++ t)).
Proof.
  revert lo pre m. induction n as [|n IH]; intros lo pre m Hm Hlo Hn Hp Hk; cbv zeta; cbn [cfor].
  { rewrite picked_nil, decide_False by (simpl; lia). eexists. split; [done|]. by rewrite app_nil_r. }
  unfold alloc_step at 1 3. destruct (Z.ltb_spec (Z.of_nat (length pre)) k) as [Hlt|Hge]; cbn [negb].
  2: { rewrite picked_0, decide_False by (simpl; lia). eexists. split; [done|]. simpl. by rewrite app_nil_r. }
  rewrite picked_cons by lia.
  assert (Hc : claim_bit block_bitmap lo m = Done (negb (bit_used m block_bitmap lo),
      if bit_used m block_bitmap lo then m else mark block_bitmap lo m))
    by (apply claim_bit_run; [done|unfold bit_ix; lia|unfold block_bitmap, FSSO_BLOCK_SIZE; lia]).
  destruct (bit_used m block_bitmap lo); cbn [negb] in Hc.
  - erewrite bind_done by (erewrite bind_done by exact Hc; done). apply IH; (lia || done).
  - rewrite <- (picked_mark _ _ _ _ lo) by (unfold bit_ix; lia).
    set (m1 := mark block_bitmap lo m) in *. cbn [length]. rewrite marks_cons. fold m1.
    destruct (decide (length pre = 12%nat)) as [E12|].
    + rewrite decide_True by lia.
      unfold bind at 1 2. rewrite Hc, length_block_array, E12 by lia. done.
    + erewrite bind_done.
      2: { erewrite bind_done by exact Hc. rewrite length_block_array by lia.
           destruct (Z.leb_spec (Z.of_nat 12) (Z.of_nat (length pre))); [lia|done]. }
      rewrite Nat2Z.id, insert_block_array by lia.
      replace (Z.of_nat (length pre) + 1) with (Z.of_nat (length (pre ++ [lo])))
        by (rewrite length_app; simpl; lia).
      specialize (IH (lo + 1) (pre ++ [lo]) m1 ltac:(apply mem_ok_mark; [done|unfold bit_ix; lia])
        ltac:(lia) ltac:(lia) ltac:(rewrite length_app; simpl; lia) Hk). cbv zeta in IH.
      rewrite <- app_assoc in IH. cbn [app] in IH.
      replace (k - Z.of_nat (length (pre ++ [lo]))) with (k - Z.of_nat (length pre) - 1) in IH
        by (rewrite length_app; simpl; lia).
      set (t := picked m1 _ _ _) in *. revert IH. rewrite length_app.
      replace (length pre + length [lo] + length t)%nat with (length pre + S (length t))%nat
        by (simpl; lia). done.
Qed.

Definition free_blocks (m : mem) : list Z := free_in m block_bitmap 11 4085.

Lemma alloc_blocks_run k m :
  mem_ok m -> mld 4 m (off FSSO_Superblock "total_blocks") = TOTAL_BLOCKS -> 0 <= k ->
  let t := take (Z.to_nat k) (free_blocks m) in
  alloc_blocks k m =
    if decide (12 < length t)%nat then Undef
    else Done ((Z.of_nat (length t), block_array t), marks block_bitmap t m).
Proof.
  intros Hm Hn Hk t. unfold alloc_blocks.
  assert (E : dld 4 (off FSSO_Superblock "total_blocks") m = Done (TOTAL_BLOCKS, m)).
  { rewrite <- Hn. offsets. done. }
  erewrite bind_done by exact E. change (replicate (Z.to_nat FSSO_DIRECT_BLOCKS) 0) with (block_array []).
  change (Z.to_nat (TOTAL_BLOCKS - FSSO_FIRST_DATA_BLOCK)) with (Z.to_nat 4085).
  change FSSO_FIRST_DATA_BLOCK with 11.
  pose proof (alloc_loop (Z.to_nat 4085) 11 [] k m Hm) as Hl. cbv zeta in Hl.
  cbn [app length] in Hl. rewrite Z2Nat.id, Z.sub_0_r in Hl by lia. cbn [Nat.add] in Hl.
  specialize (Hl ltac:(lia) ltac:(lia) ltac:(lia) Hk). fold (free_blocks m) in Hl.
  unfold picked in Hl. fold (free_blocks m) in Hl. fold t in Hl. change (Z.of_nat 0) with 0 in Hl.
  case_decide.
  - unfold bind. by rewrite Hl.
  - destruct Hl as (x & Hx & Hv). erewrite bind_done by exact Hx.
    destruct x; simpl in Hv; by subst.
Qed.

Lemma mem_ok_marks bm ixs m : mem_ok m -> Forall bit_ix ixs -> mem_ok (marks bm ixs m).
Proof.
  intros Hm Hi. revert m Hm. induction Hi as [|i ixs Hi _ IH]; intros m Hm; [done|].
  by apply IH, mem_ok_mark.
Qed.

Lemma mget_marks_out bm ixs m x :
  Forall bit_ix ixs -> x < bm \/ bm + 1024 <= x -> mget (marks bm ixs m) x = mget m x.
Proof.
  intros Hi Hx. revert m. induction Hi as [|i ixs Hi _ IH]; intros m; [done|].
  rewrite marks_cons, IH. apply mget_mark_out. apply bit_ix_bounds in Hi. lia.
Qed.

Lemma bit_used_marks bm ixs j m :
  Forall bit_ix ixs -> bit_ix j ->
  bit_used (marks bm ixs m) bm j = bit_used m bm j || bool_decide (j ∈ ixs).
Proof.
  intros Hi Hj. revert m. induction Hi as [|i ixs Hi _ IH]; intros m.
  - rewrite bool_decide_eq_false_2 by apply not_elem_of_nil. by rewrite orb_false_r.
  - rewrite marks_cons, IH, bit_used_mark, <- orb_assoc by done. f_equal.
    apply eq_bool_prop_intro. rewrite orb_True, !bool_decide_spec, elem_of_cons. naive_solver.
Qed.

(** ** The write loops *)

Lemma drop_cons_Z (l : list Z) i :
  0 <= i < Z.of_nat (length l) ->
  exists v, l !! Z.to_nat i = Some v /\ take (Z.to_nat (i + 1)) l = take (Z.to_nat i) l ++ [v].
Proof.
  intros Hi. destruct (lookup_lt_is_Some_2 l (Z.to_nat i)) as [v Hv]; [lia|].
  exists v. split; [done|]. replace (Z.to_nat (i + 1)) with (S (Z.to_nat i)) by lia.
  by apply take_S_r.
Qed.

(** A loop that stores the items of [src] one after another, [k] bytes each. *)
Lemma wp_store_loop k src a (body : Z -> St mem unit) (Q : unit -> mem -> Prop) m :
  (forall i v w, 0 <= i -> src !! Z.to_nat i = Some v ->
     forall R : unit -> mem -> Prop, R tt (mputs w (a + Z.of_nat k * i) (le_enc k v)) ->
     wp (body i) R w) ->
  Q tt (mputs m a (flat_map (le_enc k) src)) ->
  wp (cfor_ (length src) 0 body) Q m.
Proof.
  intros Hb HQ.
  assert (Hlen : forall l, length (flat_map (le_enc k) l) = (k * length l)%nat).
  { induction l as [|x l IH]; simpl; [lia|]. rewrite length_app, length_le_enc, IH. lia. }
  apply (wp_cfor_ (fun i w => w = mputs m a (flat_map (le_enc k) (take (Z.to_nat i) src)))).
  - done.
  - intros i w Hi ->. destruct (drop_cons_Z src i) as (v & Hv & E); [lia|].
    apply (Hb i v); [lia|done|]. rewrite E, flat_map_app, mputs_app. cbn [flat_map].
    rewrite app_nil_r, Hlen, length_take_le by lia. f_equal. lia.
  - intros w ->. by rewrite Z.add_0_l, Nat2Z.id, firstn_all.
Qed.

Lemma flat_map_le_enc_1 bs : Forall is_byte bs -> flat_map (le_enc 1) bs = bs.
Proof.
  induction 1 as [|b bs Hb _ IH]; [done|]. unfold is_byte in Hb.
  cbn [flat_map]. rewrite IH. cbn. by rewrite Z.mod_small.
Qed.

(** The bytes of the [i]-th block of a file. *)
Definition chunk (data : list Z) (i : Z) : list Z :=
  take 1024 (drop (Z.to_nat (1024 * i)) data).

Lemma wp_write_block arr data size i b (Q : unit -> mem -> Prop) m :
  Forall is_byte data -> 0 <= i < 12 -> arr !! Z.to_nat i = Some b -> 0 <= b < 4096 ->
  1024 * i < size <= Z.of_nat (length data) -> size < 2 ^ 32 ->
  Q tt (mputs m (1024 * b) (chunk (take (Z.to_nat size) data) i)) ->
  wp (write_block arr data size i) Q m.
Proof.
  intros Hd Hi Hb Hbr Hs Hsz HQ. unfold write_block.
  apply wp_bind, (wp_aref _ _ b); [lia|done|]. cbv zeta. change FSSO_BLOCK_SIZE with 1024.
  rewrite (u32_small (b * 1024)), (u32_small (i * 1024)), u32_small by lia.
  rewrite (Z.mul_comm b), (Z.mul_comm i).
  set (src := chunk (take (Z.to_nat size) data) i) in *.
  assert (Hl : length src = Z.to_nat (Z.min 1024 (size - 1024 * i))).
  { unfold src, chunk. rewrite length_take, length_drop, length_take. lia. }
  replace (Z.to_nat (if 1024 <? size - 1024 * i then 1024 else size - 1024 * i)) with (length src)
    by (rewrite Hl; destruct (Z.ltb_spec 1024 (size - 1024 * i)); lia).
  apply (wp_store_loop 1 src (1024 * b)).
  - intros j v w Hj Hv R HR. pose proof (lookup_lt_Some _ _ _ Hv) as Hlt.
    unfold src, chunk in Hv. apply lookup_take_Some in Hv as [Hv _].
    rewrite lookup_drop in Hv. apply lookup_take_Some in Hv as [Hv _].
    rewrite u32_small by lia. apply wp_bind, (wp_aref _ _ v); [lia| |].
    + rewrite <- Hv. f_equal. lia.
    + apply wp_dst; [lia..|]. unfold mst. by rewrite Z.mul_1_l in HR.
  - rewrite flat_map_le_enc_1; [done|]. unfold src, chunk. by apply Forall_take, Forall_drop, Forall_take.
Qed.

(** All the blocks of a file. *)
Fixpoint put_blocks (bs : list Z) (i : Z) (data : list Z) (m : mem) : mem :=
  match bs with
  | [] => m
  | b :: bs' => put_blocks bs' (i + 1) data (mputs m (1024 * b) (chunk data i))
  end.

Lemma put_blocks_snoc bs b i data m :
  put_blocks (bs ++ [b]) i data m =
  mputs (put_blocks bs i data m) (1024 * b) (chunk data (i + Z.of_nat (length bs))).
Proof.
  revert i m. induction bs as [|c bs IH]; intros i m; cbn [app put_blocks length]; [by rewrite Z.add_0_r|].
  rewrite IH. do 2 f_equal. lia.
Qed.

(** Blocks needed for [size] bytes. *)
Definition blocks_for (size : Z) : Z := (size + 1023) / 1024.

Lemma wp_write_data bs data size (Q : unit -> mem -> Prop) m :
  Forall is_byte data -> (length bs <= 12)%nat -> Forall (fun b => 0 <= b < 4096) bs ->
  0 <= size <= Z.of_nat (length data) -> size < 2 ^ 32 ->
  Z.of_nat (length bs) = blocks_for size ->
  Q tt (put_blocks bs 0 (take (Z.to_nat size) data) m) ->
  wp (cfor_ (length bs) 0 (write_block (block_array bs) data size)) Q m.
Proof.
  intros Hd Hl Hb Hs Hsz Hn HQ. unfold blocks_for in Hn.
  apply (wp_cfor_ (fun i w => w = put_blocks (take (Z.to_nat i) bs) 0 (take (Z.to_nat size) data) m)).
  - done.
  - intros i w Hi ->. destruct (drop_cons_Z bs i) as (b & Hv & E); [lia|].
    pose proof (Z.div_mod (size + 1023) 1024 ltac:(lia)).
    pose proof (Z.mod_pos_bound (size + 1023) 1024 ltac:(lia)).
    apply (wp_write_block _ _ _ _ b); [done|lia| |by apply (Forall_lookup_1 _ _ _ _ Hb Hv)|lia|lia|].
    + unfold block_array. by apply lookup_app_l_Some.
    + rewrite E, put_blocks_snoc, length_take_le by lia. by rewrite Z.add_0_l, Z2Nat.id by lia.
  - intros w ->. by rewrite Z.add_0_l, Nat2Z.id, firstn_all.
Qed.

Definition put_inode (ino size : Z) (bs : list Z) (m : mem) : mem :=
  let a := inode_slot ino in
  mputs (mst 4 (mst 4 (mst 1 (mst 4 m a size) (a + 12) FSSO_TYPE_FILE) (a + 4) 0) (a + 8) 0)
    (a + 16) (flat_map (le_enc 4) bs).

Lemma wp_write_inode ino size bs (Q : unit -> mem -> Prop) m :
  0 <= ino < 512 -> (length bs <= 12)%nat -> Q tt (put_inode ino size bs m) ->
  wp (write_inode ino size (Z.of_nat (length bs)) (block_array bs)) Q m.
Proof.
  intros Hi Hl HQ. unfold write_inode. cbv zeta.
  assert (Ha : 0 <= inode_slot ino /\ inode_slot ino + 76 <= 4194304)
    by (unfold inode_slot, inode_table, FSSO_BLOCK_SIZE; offsets; lia).
  unfold put_inode in HQ. cbv zeta in HQ. set (a := inode_slot ino) in *. offsets.
  rewrite Z.add_0_r. repeat (apply wp_bind, wp_dst; [lia..|]). rewrite Nat2Z.id.
  apply (wp_store_loop 4 bs (a + 16)); [|done].
  intros i v w Hi' Hv R HR. pose proof (lookup_lt_Some _ _ _ Hv).
  apply wp_bind, (wp_aref _ _ v); [lia| |].
  - unfold block_array. by apply lookup_app_l_Some.
  - by apply wp_dst; [lia..|].
Qed.

Lemma wp_write_name a j name (Q : unit -> mem -> Prop) m :
  0 <= a -> 0 <= j <= 255 -> a + 256 <= 4194304 -> Forall is_byte name ->
  Q tt (mputs m (a + j) (take (Z.to_nat (255 - j)) name ++ [0])) ->
  wp (write_name a j name) Q m.
Proof.
  revert j m. induction name as [|c name IH]; intros j m Ha Hj Hb Hn HQ.
  - cbn [write_name]. apply wp_dst; [lia..|]. rewrite mst_1 by (unfold is_byte; lia).
    by rewrite take_nil in HQ.
  - cbn [write_name]. apply Forall_cons_1 in Hn as [Hc Hn].
    change FSSO_MAX_FILENAME with 255. destruct (Z.ltb_spec j 255).
    + apply wp_bind, wp_dst; [lia..|]. rewrite mst_1 by done. apply IH; [lia..|done|].
      replace (Z.to_nat (255 - j)) with (S (Z.to_nat (255 - (j + 1)))) in HQ by lia.
      cbn [take app mputs] in HQ. by rewrite Z.add_assoc.
    + apply wp_dst; [lia..|]. rewrite mst_1 by (unfold is_byte; lia).
      by replace (Z.to_nat (255 - j)) with O in HQ by lia.
Qed.

(** The first unused entry of the directory block at byte [rb]. *)
Definition free_slot (rb : Z) (m : mem) : option Z :=
  head (filter (fun i => mld 4 m (rb + 260 * i) = 0) (seqZ 0 3)).

Definition put_counts (nblocks : Z) (m : mem) : mem :=
  let m := mst 4 m 24 (u32 (mld 4 m 24 - 1)) in
  mst 4 m 20 (u32 (mld 4 m 20 - nblocks)).

Definition put_entry (rb slot ino : Z) (name : list Z) (m : mem) : mem :=
  mputs (mst 4 m (rb + 260 * slot) ino) (rb + 260 * slot + 4) (take 255 name ++ [0]).

Lemma wp_slot_search rb ino nblocks name (Q : ctl unit Z -> mem -> Prop) m :
  0 <= rb -> rb + 1024 <= 4194304 -> Forall is_byte name ->
  match free_slot rb m with
  | Some slot => Q (Exit 0) (put_counts nblocks (put_entry rb slot ino name m))
  | None => Q (Next tt) m
  end ->
  wp (cfor (Z.to_nat entries_per_block) 0 (slot_step rb ino nblocks name) tt) Q m.
Proof.
  intros Hr1 Hr2 Hn HQ. change (Z.to_nat entries_per_block) with 3%nat.
  assert (Hstep : forall i (R : ctl unit Z -> mem -> Prop), 0 <= i < 3 ->
    R (if mld 4 m (rb + 260 * i) =? 0 then Exit 0 else Next tt)
      (if mld 4 m (rb + 260 * i) =? 0 then put_counts nblocks (put_entry rb i ino name m) else m) ->
    wp (slot_step rb ino nblocks name i tt) R m).
  { intros i R Hi HR. unfold slot_step. cbv zeta. offsets. rewrite Z.add_0_r.
    apply wp_bind, wp_dld; [lia..|]. destruct (mld 4 m (rb + 260 * i) =? 0); [|by apply wp_ret].
    apply wp_bind, wp_dst; [lia..|]. apply wp_bind, wp_write_name; [lia..|done|].
    rewrite Z.add_0_r. change (Z.to_nat (255 - 0)) with 255%nat.
    apply wp_bind, wp_dld; [lia..|]. apply wp_bind, wp_dst; [lia..|].
    apply wp_bind, wp_dld; [lia..|]. apply wp_bind, wp_dst; [lia..|]. by apply wp_ret. }
  unfold free_slot in HQ. change (seqZ 0 3) with [0; 1; 2] in HQ. rewrite !filter_cons in HQ.
  cbn [cfor]. change (0 + 1) with 1. change (1 + 1) with 2.
  apply wp_bind, Hstep; [lia|]. destruct (Z.eqb_spec (mld 4 m (rb + 260 * 0)) 0);
    [by rewrite decide_True in HQ by done|rewrite decide_False in HQ by done].
  apply wp_bind, Hstep; [lia|]. destruct (Z.eqb_spec (mld 4 m (rb + 260 * 1)) 0);
    [by rewrite decide_True in HQ by done|rewrite decide_False in HQ by done].
  apply wp_bind, Hstep; [lia|]. destruct (Z.eqb_spec (mld 4 m (rb + 260 * 2)) 0);
    [by rewrite decide_True in HQ by done|rewrite decide_False in HQ by done].
  done.
Qed.

(** ** [fsso_add_file] on every branch *)

(** What [fsso_add_file] relies on: the sizes in the superblock and the root
    directory's first block. *)
Record disk_wf (m : mem) : Prop := {
  wf_bytes : mem_ok m;
  wf_inodes : mld 4 m (off FSSO_Superblock "total_inodes") = TOTAL_INODES;
  wf_blocks : mld 4 m (off FSSO_Superblock "total_blocks") = TOTAL_BLOCKS;
  wf_root : mld 4 m (inode_slot 0 + off FSSO_Inode "direct") = FSSO_FIRST_DATA_BLOCK
}.

Definition root_bytes : Z := 1024 * FSSO_FIRST_DATA_BLOCK.

Definition claimed (ino : Z) (bs : list Z) (m : mem) : mem :=
  marks block_bitmap bs (mark inode_bitmap ino m).

Definition stored (ino : Z) (bs data : list Z) (m : mem) : mem :=
  put_inode ino (Z.of_nat (length data)) bs (put_blocks bs 0 data (claimed ino bs m)).

(** The return value of [fsso_add_file] and the image it leaves. *)
Definition add_outcome (name data : list Z) (m : mem) : Z * mem :=
  match head (free_in m inode_bitmap 1 511) with
  | None => (-1, m)
  | Some ino =>
      let n := blocks_for (Z.of_nat (length data)) in
      let bs := take (Z.to_nat n) (free_blocks m) in
      if Z.of_nat (length bs) <? n then (-1, claimed ino bs m)
      else
        let m1 := stored ino bs data m in
        match free_slot root_bytes m1 with
        | Some slot => (0, put_counts n (put_entry root_bytes slot ino name m1))
        | None => (-1, m1)
        end
  end.

Lemma mget_put_blocks_out bs i data m x :
  Forall (fun b => x < 1024 * b \/ 1024 * b + 1024 <= x) bs ->
  mget (put_blocks bs i data m) x = mget m x.
Proof.
  intros Hb. revert i m. induction Hb as [|b bs Hb _ IH]; intros i m; [done|].
  cbn [put_blocks]. rewrite IH. apply mget_mputs_out. unfold chunk. rewrite length_take. lia.
Qed.

Lemma length_flat_map_le_enc k l : length (flat_map (le_enc k) l) = (k * length l)%nat.
Proof. induction l as [|x l IH]; simpl; [lia|]. rewrite length_app, length_le_enc, IH. lia. Qed.

Lemma flat_map_le_enc_bytes k l : Forall is_byte (flat_map (le_enc k) l).
Proof.
  induction l as [|x l IH]; cbn [flat_map]; [done|].
  apply Forall_app; split; [apply le_enc_bytes|done].
Qed.

Lemma mget_put_inode_out ino size bs m x :
  (length bs <= 12)%nat -> x < inode_slot ino \/ inode_slot ino + 76 <= x ->
  mget (put_inode ino size bs m) x = mget m x.
Proof.
  intros Hl Hx. unfold put_inode. cbv zeta.
  rewrite mget_mputs_out by (rewrite length_flat_map_le_enc; lia).
  by rewrite !mget_mst_out by lia.
Qed.

Lemma inode_slot_eq n : inode_slot n = 3072 + 76 * n.
Proof. unfold inode_slot, inode_table. by offsets. Qed.

(** Blocks and inodes that [fsso_add_file] can claim. *)
Lemma free_blocks_range m : Forall (fun b => 11 <= b < 4096) (free_blocks m).
Proof. apply Forall_forall. intros b [_ Hb]%free_in_spec. lia. Qed.

Lemma free_inode_range m i : head (free_in m inode_bitmap 1 511) = Some i ->
  1 <= i < 512 /\ bit_used m inode_bitmap i = false.
Proof.
  intros Hi. destruct (free_in m inode_bitmap 1 511) as [|j l] eqn:E; [done|].
  injection Hi as ->. assert (Hin : i ∈ free_in m inode_bitmap 1 511) by (rewrite E; set_solver).
  apply free_in_spec in Hin. split; [lia|tauto].
Qed.

Lemma Forall_bit_ix lo hi l :
  0 <= lo -> hi <= 8192 -> Forall (fun b => lo <= b < hi) l -> Forall bit_ix l.
Proof. intros ?? H. eapply Forall_impl; [exact H|]. unfold bit_ix. simpl. lia. Qed.

(** Bytes outside the bitmaps, the new inode and the claimed blocks. *)
Lemma mget_stored_out ino bs data m x :
  0 <= ino < 512 -> (length bs <= 12)%nat -> Forall (fun b => 11 <= b < 4096) bs ->
  x < 1024 \/ 3072 <= x -> x < inode_slot ino \/ inode_slot ino + 76 <= x ->
  Forall (fun b => x < 1024 * b \/ 1024 * b + 1024 <= x) bs ->
  mget (stored ino bs data m) x = mget m x.
Proof.
  intros Hi Hl Hb Hx1 Hx2 Hx3. unfold stored, claimed.
  rewrite mget_put_inode_out, mget_put_blocks_out by done.
  rewrite mget_marks_out; [|by apply (Forall_bit_ix 11 4096)|].
  - apply mget_mark_out. pose proof (bit_ix_bounds ino ltac:(unfold bit_ix; lia)).
    unfold inode_bitmap, FSSO_BLOCK_SIZE. lia.
  - unfold block_bitmap, FSSO_BLOCK_SIZE. lia.
Qed.

Lemma free_blocks_mark_inode m i :
  bit_ix i -> free_blocks (mark inode_bitmap i m) = free_blocks m.
Proof.
  intros Hi. pose proof (bit_ix_bounds i Hi). apply filter_ext_in_list. intros b Hb%elem_of_seqZ.
  pose proof (bit_ix_bounds b ltac:(unfold bit_ix; lia)).
  rewrite (bit_used_ext _ _ (mark inode_bitmap i m) m); [done|]. apply mget_mark_out.
  unfold block_bitmap, inode_bitmap, FSSO_BLOCK_SIZE. lia.
Qed.

Lemma mld_ext n m1 m2 a :
  (forall x, a <= x < a + Z.of_nat n -> mget m1 x = mget m2 x) -> mld n m1 a = mld n m2 a.
Proof. intros H. unfold mld. f_equal. apply mgets_ext. intros i Hi. apply H. lia. Qed.

Lemma wp_add_file name data size (Q : Z -> mem -> Prop) m :
  disk_wf m -> Forall is_byte data -> Forall is_byte name ->
  0 <= size <= Z.of_nat (length data) -> size <= 12 * 1024 ->
  (let o := add_outcome name (take (Z.to_nat size) data) m in Q o.1 o.2) ->
  wp (fsso_add_file name data size) Q m.
Proof.
  intros [Hm Hni Hnb Hroot] Hd Hn Hs Hsz HQ. unfold fsso_add_file, add_outcome in *.
  cbv zeta in HQ.
  assert (El : Z.of_nat (length (take (Z.to_nat size) data)) = size) by (rewrite length_take; lia).
  rewrite El in HQ.
  apply wp_bind, wp_find_free_inode; [done..|].
  destruct (head (free_in m inode_bitmap 1 511)) as [ino|] eqn:Eino; [|by apply wp_ret].
  apply free_inode_range in Eino as [Hino _]. destruct (Z.eqb_spec ino 0) as [|_]; [lia|].
  assert (Hix : bit_ix ino) by (unfold bit_ix; lia).
  change FSSO_BLOCK_SIZE with 1024. rewrite u32_small by lia.
  replace ((size + 1024 - 1) / 1024) with (blocks_for size) by (unfold blocks_for; f_equal; lia).
  assert (Hbf : 0 <= blocks_for size <= 12).
  { unfold blocks_for. pose proof (Z.div_mod (size + 1023) 1024 ltac:(lia)).
    pose proof (Z.mod_pos_bound (size + 1023) 1024 ltac:(lia)). lia. }
  set (n := blocks_for size) in *.
  assert (Hrun : alloc_blocks n (mark inode_bitmap ino m) =
    let t := take (Z.to_nat n) (free_blocks m) in Done ((Z.of_nat (length t), block_array t), claimed ino t m)).
  { rewrite alloc_blocks_run.
    - rewrite free_blocks_mark_inode by done. rewrite decide_False; [done|]. rewrite length_take. lia.
    - by apply mem_ok_mark.
    - rewrite <- Hnb. apply mld_ext. intros x Hx. apply mget_mark_out. apply bit_ix_bounds in Hix.
      revert Hx. unfold inode_bitmap, FSSO_BLOCK_SIZE. offsets. lia.
    - lia. }
  cbv zeta in Hrun. set (t := take (Z.to_nat n) (free_blocks m)) in *.
  assert (Ht : Forall (fun b => 11 <= b < 4096) t) by apply Forall_take, free_blocks_range.
  assert (Hlt : (length t <= 12)%nat) by (unfold t; rewrite length_take; lia).
  apply wp_bind, (wp_eq _ _ _ _ _ Hrun).
  revert HQ. destruct (Z.ltb_spec (Z.of_nat (length t)) n) as [|Hge]; intros HQ; [by apply wp_ret|].
  assert (Hn' : Z.of_nat (length t) = n) by (assert (length t <= Z.to_nat n)%nat by (unfold t; rewrite length_take; lia); lia).
  rewrite Nat2Z.id. apply wp_bind, wp_write_data; [done|done| | |lia|done|].
  { eapply Forall_impl; [exact Ht|]. simpl. lia. }
  { lia. }
  apply wp_bind, wp_write_inode; [lia|done|].
  assert (Em : put_inode ino size t (put_blocks t 0 (take (Z.to_nat size) data) (claimed ino t m)) =
    stored ino t (take (Z.to_nat size) data) m) by (unfold stored; by rewrite El).
  rewrite Em. set (m1 := stored _ _ _ _) in *.
  apply wp_bind, wp_dld; [rewrite inode_slot_eq; offsets; lia..|].
  assert (Hr : mld 4 m1 (inode_slot 0 + off FSSO_Inode "direct") = FSSO_FIRST_DATA_BLOCK).
  { rewrite <- Hroot. apply mld_ext. intros x. rewrite inode_slot_eq. offsets. intros Hx.
    apply mget_stored_out; [lia|done..|lia|rewrite inode_slot_eq; lia|].
    eapply Forall_impl; [exact Ht|]. simpl. lia. }
  rewrite Hr. change (u32 (FSSO_FIRST_DATA_BLOCK * 1024)) with root_bytes.
  apply wp_bind, wp_slot_search; [unfold root_bytes, FSSO_FIRST_DATA_BLOCK; lia..|done|].
  rewrite Hn'. destruct (free_slot root_bytes m1); by apply wp_ret.
Qed.

(** ** The files an image holds *)

(** A file of the root directory: its inode and blocks, name and contents. *)
Record slot := Slot {
  sl_ino : Z; sl_blocks : list Z; sl_name : list Z; sl_data : list Z
}.

Definition slot_file (s : slot) : list Z * list Z := (sl_name s, sl_data s).

Definition entry_at (m : mem) (k : Z) : dirent := get_dirent (img_bytes (mget m)) (root_bytes + 260 * k).

(** Entry [k] of the root directory, its inode and its blocks hold the file. *)
Record slot_ok (m : mem) (k : Z) (s : slot) : Prop := {
  so_ino : 1 <= sl_ino s < 13;
  so_used : bit_used m inode_bitmap (sl_ino s) = true;
  so_entry : de_inode (entry_at m k) = sl_ino s;
  so_nul : 0 ∈ de_name (entry_at m k);
  so_name : cstr (de_name (entry_at m k)) = sl_name s;
  so_type : i_type (inode_at (mget m) (sl_ino s)) = FSSO_TYPE_FILE;
  so_size : i_size (inode_at (mget m) (sl_ino s)) = Z.of_nat (length (sl_data s));
  so_direct : i_direct (inode_at (mget m) (sl_ino s)) = block_array (sl_blocks s);
  so_len : Z.of_nat (length (sl_blocks s)) = blocks_for (Z.of_nat (length (sl_data s)));
  so_max : (length (sl_blocks s) <= 12)%nat;
  so_range : Forall (fun b => 12 <= b < 4096) (sl_blocks s);
  so_blocks : Forall (fun b => bit_used m block_bitmap b = true) (sl_blocks s);
  so_data : take (length (sl_data s)) (flat_map (blk (mget m)) (sl_blocks s)) = sl_data s
}.

Record Holds (m : mem) (slots : list slot) : Prop := {
  h_magic : mld 8 m 0 = FSSO_MAGIC;
  h_wf : disk_wf m;
  h_slots : (length slots <= 3)%nat;
  h_root_type : i_type (inode_at (mget m) 0) = FSSO_TYPE_DIR;
  h_root_direct : i_direct (inode_at (mget m) 0) = block_array [FSSO_FIRST_DATA_BLOCK];
  h_root_used : bit_used m block_bitmap FSSO_FIRST_DATA_BLOCK = true;
  h_files k s : slots !! k = Some s -> slot_ok m (Z.of_nat k) s;
  h_rest k : Z.of_nat (length slots) <= k < 3 -> mld 4 m (root_bytes + 260 * k) = 0;
  h_clean i : 1 <= i < 13 -> bit_used m inode_bitmap i = false ->
    i_direct (inode_at (mget m) i) = block_array []
}.

(** The image represents the list of (name, contents) pairs, in directory
    order. *)
Definition Repr (m : mem) (fs : list (list Z * list Z)) : Prop :=
  exists slots, Holds m slots /\ map slot_file slots = fs.

Lemma inode_addr_slot n : 0 <= n < 13 -> inode_addr n = inode_slot n.
Proof.
  intros Hn. unfold inode_addr. rewrite inode_slot_eq, Z.div_small, Z.mod_small by lia. lia.
Qed.

Lemma inode_at_ext m1 m2 n :
  0 <= n < 13 -> (forall x, inode_slot n <= x < inode_slot n + 76 -> mget m1 x = mget m2 x) ->
  inode_at (mget m1) n = inode_at (mget m2) n.
Proof.
  intros Hn H. unfold inode_at. rewrite inode_addr_slot by done.
  apply get_inode_ext. intros o k Ho Hk. apply img_bytes_ext. intros i Hi. apply H. lia.
Qed.

Lemma entry_at_ext m1 m2 k :
  (forall x, root_bytes + 260 * k <= x < root_bytes + 260 * k + 260 -> mget m1 x = mget m2 x) ->
  entry_at m1 k = entry_at m2 k.
Proof.
  intros H. apply get_dirent_ext. intros o n Ho Hn. apply img_bytes_ext. intros i Hi. apply H. lia.
Qed.

Lemma blk_ext m1 m2 b :
  (forall x, 1024 * b <= x < 1024 * b + 1024 -> mget m1 x = mget m2 x) ->
  blk (mget m1) b = blk (mget m2) b.
Proof. intros H. apply img_bytes_ext. intros i Hi. apply H. lia. Qed.

Lemma entry_inode m k : de_inode (entry_at m k) = mld 4 m (root_bytes + 260 * k).
Proof.
  unfold entry_at, get_dirent, ld. cbv zeta. cbn [de_inode]. offsets.
  by rewrite img_bytes_mget, Z.add_0_r.
Qed.

Lemma entry_name m k : de_name (entry_at m k) = mgets m (root_bytes + 260 * k + 4) 256.
Proof.
  unfold entry_at, get_dirent. cbv zeta. cbn [de_name]. offsets.
  rewrite img_bytes_mget. by change (Z.to_nat (field_size FSSO_DirEntry "name")) with 256%nat.
Qed.

(** A file stays where it is when the bytes of its entry, inode and blocks and
    its bitmap bits do. *)
Lemma slot_ok_frame m1 m2 k s :
  slot_ok m1 k s ->
  (forall x, root_bytes + 260 * k <= x < root_bytes + 260 * k + 260 -> mget m2 x = mget m1 x) ->
  (forall x, inode_slot (sl_ino s) <= x < inode_slot (sl_ino s) + 76 -> mget m2 x = mget m1 x) ->
  (forall b x, b ∈ sl_blocks s -> 1024 * b <= x < 1024 * b + 1024 -> mget m2 x = mget m1 x) ->
  bit_used m2 inode_bitmap (sl_ino s) = true ->
  (forall b, b ∈ sl_blocks s -> bit_used m2 block_bitmap b = true) ->
  slot_ok m2 k s.
Proof.
  intros [] He Hi Hb Hu Hub.
  pose proof (inode_at_ext m2 m1 (sl_ino s) ltac:(lia) Hi) as Ei.
  pose proof (entry_at_ext m2 m1 k He) as Ee.
  split; rewrite ?Ei, ?Ee; try done.
  - apply Forall_forall. auto.
  - rewrite <- so_data0 at 2. f_equal. clear -Hb. induction (sl_blocks s) as [|b bs IH]; [done|].
    cbn [flat_map]. rewrite (blk_ext m2 m1) by (intros; apply (Hb b); [set_solver|done]).
    f_equal. apply IH. intros b' x Hb'. apply Hb. set_solver.
Qed.

(** ** Fields of an inode and the data of a file *)

Lemma inode_type_mld m n : 0 <= n < 13 -> i_type (inode_at (mget m) n) = mld 1 m (inode_slot n + 12).
Proof.
  intros Hn. unfold inode_at, get_inode, ld. rewrite inode_addr_slot by done. cbn [i_type].
  offsets. by rewrite img_bytes_mget.
Qed.

Lemma inode_size_mld m n : 0 <= n < 13 -> i_size (inode_at (mget m) n) = mld 4 m (inode_slot n).
Proof.
  intros Hn. unfold inode_at, get_inode, ld. rewrite inode_addr_slot by done. cbn [i_size].
  offsets. by rewrite img_bytes_mget, Z.add_0_r.
Qed.

Lemma inode_direct_mld m n : 0 <= n < 13 ->
  i_direct (inode_at (mget m) n) =
  (fun i => mld 4 m (inode_slot n + 16 + 4 * i)) <$> seqZ 0 12.
Proof.
  intros Hn. unfold inode_at, get_inode, ld. rewrite inode_addr_slot by done. cbn [i_direct].
  apply map_ext. intros i. offsets. rewrite img_bytes_mget. done.
Qed.

Lemma flat_map_le_enc_sub k l i v :
  l !! i = Some v -> take k (drop (k * i) (flat_map (le_enc k) l)) = le_enc k v.
Proof.
  revert i. induction l as [|x l IH]; intros i Hi; [done|]. cbn [flat_map].
  destruct i as [|i]; simpl in Hi.
  - injection Hi as ->. rewrite Nat.mul_0_r, drop_0. rewrite <- (length_le_enc k v) at 1.
    by rewrite take_app_length.
  - rewrite drop_app_ge by (rewrite length_le_enc; lia). rewrite length_le_enc.
    replace (k * S i - k)%nat with (k * i)%nat by lia. by apply IH.
Qed.

Lemma flat_map_blk_ext m1 m2 bs :
  (forall b x, b ∈ bs -> 1024 * b <= x < 1024 * b + 1024 -> mget m1 x = mget m2 x) ->
  flat_map (blk (mget m1)) bs = flat_map (blk (mget m2)) bs.
Proof.
  intros H. induction bs as [|b bs IH]; [done|]. cbn [flat_map].
  rewrite (blk_ext m1 m2) by (intros; apply (H b); [set_solver|done]).
  f_equal. apply IH. intros b' x Hb'. apply H. set_solver.
Qed.

Lemma put_blocks_data bs i data m :
  NoDup bs -> 0 <= i ->
  let d := drop (Z.to_nat (1024 * i)) data in
  Z.of_nat (length d) <= 1024 * Z.of_nat (length bs) ->
  take (length d) (flat_map (blk (mget (put_blocks bs i data m))) bs) = d.
Proof.
  revert i m. induction bs as [|b bs IH]; intros i m Hnd Hi d Hl.
  - destruct d; [done|simpl in Hl; lia].
  - apply NoDup_cons in Hnd as [Hb Hnd]. cbn [flat_map put_blocks].
    set (m1 := mputs m (1024 * b) (chunk data i)). set (m2 := put_blocks bs (i + 1) data m1).
    assert (Eb : forall n, (n <= length (chunk data i))%nat ->
      take n (blk (mget m2) b) = take n (chunk data i)).
    { intros n Hn. unfold blk. rewrite img_bytes_mget.
      assert (Hc : (length (chunk data i) <= 1024)%nat) by (unfold chunk; rewrite length_take; lia).
      replace 1024%nat with (length (chunk data i) + (1024 - length (chunk data i)))%nat by lia.
      rewrite mgets_app, take_app_le by (by rewrite length_mgets). f_equal.
      rewrite <- (mgets_mputs_same m (1024 * b) (chunk data i)) at 2. apply mgets_ext.
      intros j Hj. apply mget_put_blocks_out. apply Forall_forall. intros c Hc'.
      assert (b <> c) by (by intros ->). lia. }
    assert (Hc : chunk data i = take 1024 d) by done.
    assert (Hlb : length (blk (mget m2) b) = 1024%nat) by apply length_img_bytes.
    specialize (IH (i + 1) m1 Hnd ltac:(lia)). cbv zeta in IH. fold m2 in IH.
    assert (Ed : drop (Z.to_nat (1024 * (i + 1))) data = drop 1024 d).
    { unfold d. rewrite drop_drop. f_equal. lia. }
    rewrite Ed, length_drop in IH. cbn [length] in Hl.
    destruct (decide (length d <= 1024)%nat) as [Hs|Hs].
    + rewrite take_app_le by lia. rewrite Eb by (rewrite Hc, length_take; lia).
      rewrite Hc, take_take, take_ge by lia. done.
    + rewrite take_app_ge by lia. rewrite Hlb, IH by lia.
      rewrite <- (take_drop 1024 d) at 2. f_equal.
      rewrite <- (firstn_all2 (n := 1024) (blk (mget m2) b)) by lia.
      rewrite Eb by (rewrite Hc, length_take; lia). by rewrite Hc, take_take.
Qed.

(** ** Adding a file to an image *)

Section added.
Context (m : mem) (ino : Z) (bs : list Z) (k : Z) (name data : list Z).
Hypothesis Hm : mem_ok m.
Hypothesis Hino : 1 <= ino < 13.
Hypothesis Hlen : (length bs <= 12)%nat.
Hypothesis Hbs : Forall (fun b => 12 <= b < 4096) bs.
Hypothesis Hk : 0 <= k < 3.

(** The image a successful [fsso_add_file] leaves. *)
Definition added : mem :=
  put_counts (Z.of_nat (length bs)) (put_entry root_bytes k ino name (stored ino bs data m)).

Definition out_of_blocks (x : Z) : Prop := Forall (fun b => x < 1024 * b \/ 1024 * b + 1024 <= x) bs.

Lemma blocks_from_11 : Forall (fun b => 11 <= b < 4096) bs.
Proof. eapply Forall_impl; [exact Hbs|]. simpl. lia. Qed.

Lemma out_of_blocks_low x : x < 12288 -> out_of_blocks x.
Proof. intros Hx. eapply Forall_impl; [exact Hbs|]. simpl. lia. Qed.

(** The last writes: the directory entry and the counters. *)
Lemma mget_entry_out m1 x :
  x < 20 \/ 28 <= x -> x < root_bytes + 260 * k \/ root_bytes + 260 * k + 260 <= x ->
  mget (put_counts (Z.of_nat (length bs)) (put_entry root_bytes k ino name m1)) x = mget m1 x.
Proof.
  intros H1 H2. unfold put_counts, put_entry. cbv zeta. rewrite !mget_mst_out by lia.
  rewrite mget_mputs_out by (rewrite length_app, length_take; cbn [length]; lia).
  apply mget_mst_out. lia.
Qed.

Lemma mget_added_out x :
  x < 20 \/ 28 <= x -> x < 1024 \/ 3072 <= x ->
  x < inode_slot ino \/ inode_slot ino + 76 <= x ->
  x < root_bytes + 260 * k \/ root_bytes + 260 * k + 260 <= x -> out_of_blocks x ->
  mget added x = mget m x.
Proof.
  intros. unfold added. rewrite mget_entry_out by done.
  apply mget_stored_out; [lia|done|apply blocks_from_11|done..].
Qed.

(** The bitmaps, after the claims, are only read. *)
Lemma bit_used_added bm j : bit_ix j -> bm = inode_bitmap \/ bm = block_bitmap ->
  bit_used added bm j = bit_used (claimed ino bs m) bm j.
Proof.
  intros Hj%bit_ix_bounds Hbm. apply bit_used_ext.
  assert (1024 <= bm + j / 8 < 3072)
    by (revert Hbm; unfold inode_bitmap, block_bitmap, FSSO_BLOCK_SIZE; lia).
  unfold added. rewrite mget_entry_out by (unfold root_bytes, FSSO_FIRST_DATA_BLOCK; lia).
  unfold stored. rewrite mget_put_inode_out by (rewrite ?inode_slot_eq; (done || lia)).
  apply mget_put_blocks_out, out_of_blocks_low. lia.
Qed.

Lemma bs_bit_ix : Forall bit_ix bs.
Proof. apply (Forall_bit_ix 12 4096); [lia..|exact Hbs]. Qed.

Lemma added_inode_bit j :
  bit_ix j -> bit_used added inode_bitmap j = bit_used m inode_bitmap j || bool_decide (ino = j).
Proof.
  intros Hj. rewrite bit_used_added by auto.
  rewrite <- bit_used_mark by (done || (unfold bit_ix; lia)).
  apply bit_used_ext, mget_marks_out; [apply bs_bit_ix|].
  apply bit_ix_bounds in Hj. unfold inode_bitmap, block_bitmap, FSSO_BLOCK_SIZE. lia.
Qed.

Lemma added_block_bit j :
  bit_ix j -> bit_used added block_bitmap j = bit_used m block_bitmap j || bool_decide (j ∈ bs).
Proof.
  intros Hj. rewrite bit_used_added by auto. unfold claimed.
  rewrite bit_used_marks by (done || apply bs_bit_ix). f_equal.
  apply bit_used_ext, mget_mark_out. apply bit_ix_bounds in Hj.
  pose proof (bit_ix_bounds ino ltac:(unfold bit_ix; lia)).
  unfold inode_bitmap, block_bitmap, FSSO_BLOCK_SIZE. lia.
Qed.

Lemma mem_ok_added : Forall is_byte name -> Forall is_byte data -> mem_ok added.
Proof.
  intros Hn Hd. unfold added, put_counts, put_entry, stored, put_inode. cbv zeta.
  repeat first [apply mem_ok_mst | apply mem_ok_mputs].
  - assert (Hc : mem_ok (claimed ino bs m)).
    { apply mem_ok_marks; [|apply bs_bit_ix]. apply mem_ok_mark; [done|unfold bit_ix; lia]. }
    generalize 0 at 1 as i. revert Hc. generalize (claimed ino bs m). clear -Hd.
    induction bs as [|b l IH]; intros m' Hm' i; cbn [put_blocks]; [done|].
    apply IH, mem_ok_mputs; [done|]. by apply Forall_take, Forall_drop.
  - apply flat_map_le_enc_bytes.
  - apply Forall_app; split; [by apply Forall_take|by repeat constructor].
Qed.

(** The new directory entry. *)
Lemma entry_added_inode : de_inode (entry_at added k) = ino.
Proof.
  rewrite entry_inode. unfold added, put_counts, put_entry, root_bytes, FSSO_FIRST_DATA_BLOCK.
  cbv zeta. rewrite !mld_mst_disj by lia. rewrite mld_mputs_disj by lia.
  rewrite mld_mst_same. apply Z.mod_small. lia.
Qed.

Lemma entry_added_name :
  (length name <= 255)%nat -> exists rest, de_name (entry_at added k) = name ++ 0 :: rest.
Proof.
  intros Hn. rewrite entry_name. unfold added, put_counts, put_entry, root_bytes, FSSO_FIRST_DATA_BLOCK.
  cbv zeta. rewrite !mgets_mst_disj by lia. rewrite take_ge by lia.
  set (a := 1024 * 11 + 260 * k + 4). set (m1 := mst _ _ _ _).
  replace 256%nat with (length (name ++ [0%Z]) + (255 - length name))%nat
    by (rewrite length_app; simpl; lia).
  rewrite mgets_app, mgets_mputs_same, <- app_assoc. by eexists.
Qed.

(** The new inode. *)
Lemma inode_added : inode_at (mget added) ino = inode_at (mget (stored ino bs data m)) ino.
Proof.
  apply inode_at_ext; [lia|]. intros x. rewrite inode_slot_eq. intros Hx. unfold added.
  apply mget_entry_out; unfold root_bytes, FSSO_FIRST_DATA_BLOCK; lia.
Qed.

Lemma inode_added_type : i_type (inode_at (mget added) ino) = FSSO_TYPE_FILE.
Proof.
  rewrite inode_added, inode_type_mld by lia. unfold stored, put_inode. cbv zeta.
  rewrite mld_mputs_disj by lia. rewrite !mld_mst_disj by lia. apply mld_mst_same.
Qed.

Lemma inode_added_size :
  Z.of_nat (length data) < 2 ^ 32 ->
  i_size (inode_at (mget added) ino) = Z.of_nat (length data).
Proof.
  intros Hd. rewrite inode_added, inode_size_mld by lia. unfold stored, put_inode. cbv zeta.
  rewrite mld_mputs_disj by lia. rewrite !mld_mst_disj by lia. rewrite mld_mst_same.
  apply Z.mod_small. lia.
Qed.

Lemma inode_added_direct :
  i_direct (inode_at (mget m) ino) = block_array [] ->
  i_direct (inode_at (mget added) ino) = block_array bs.
Proof.
  rewrite inode_added, !inode_direct_mld by lia. intros Hold.
  apply list_eq_same_length with 12%nat;
    [by rewrite length_block_array|by rewrite length_map, length_seqZ|].
  intros i x y Hi. rewrite !list_lookup_fmap, lookup_seqZ_lt by lia. simpl fmap. intros [= <-] Hy.
  rewrite Z.add_0_l. unfold stored, put_inode. cbv zeta. unfold block_array in Hy.
  destruct (decide (i < length bs)%nat) as [Hlt|Hge].
  - rewrite lookup_app_l in Hy by done. rewrite mld_mputs_in by (rewrite ?length_flat_map_le_enc; lia).
    replace (Z.to_nat _) with (4 * i)%nat by lia.
    rewrite (flat_map_le_enc_sub 4 bs i y Hy), le_dec_enc. apply Z.mod_small.
    apply (Forall_lookup_1 _ _ _ _ Hbs) in Hy. simpl in Hy. lia.
  - rewrite mld_mputs_disj by (rewrite length_flat_map_le_enc; lia).
    rewrite !mld_mst_disj by lia.
    assert (Hz : block_array [] !! i = Some (mld 4 m (inode_slot ino + 16 + 4 * Z.of_nat i))).
    { rewrite <- Hold, list_lookup_fmap, lookup_seqZ_lt by lia. simpl. by rewrite Z.add_0_l. }
    rewrite lookup_app_r in Hy by lia. apply lookup_replicate in Hy as [-> _].
    apply lookup_replicate in Hz as [Hz _]. rewrite <- Hz.
    apply mld_ext. intros x Hx. rewrite inode_slot_eq in Hx.
    rewrite mget_put_blocks_out by (apply out_of_blocks_low; lia). unfold claimed.
    rewrite mget_marks_out; [|apply bs_bit_ix|unfold block_bitmap, FSSO_BLOCK_SIZE; lia].
    apply mget_mark_out. pose proof (bit_ix_bounds ino ltac:(unfold bit_ix; lia)).
    unfold inode_bitmap, FSSO_BLOCK_SIZE. lia.
Qed.

(** The data. *)
Lemma blocks_added :
  NoDup bs -> Z.of_nat (length bs) = blocks_for (Z.of_nat (length data)) ->
  take (length data) (flat_map (blk (mget added)) bs) = data.
Proof.
  intros Hnd Hl.
  rewrite (flat_map_blk_ext added (put_blocks bs 0 data (claimed ino bs m)) bs).
  - apply (put_blocks_data bs 0 data _ Hnd); [lia|]. rewrite drop_0. unfold blocks_for in Hl.
    pose proof (Z.div_mod (Z.of_nat (length data) + 1023) 1024 ltac:(lia)).
    pose proof (Z.mod_pos_bound (Z.of_nat (length data) + 1023) 1024 ltac:(lia)). lia.
  - intros b x Hb Hx. rewrite Forall_forall in Hbs. specialize (Hbs b Hb).
    unfold added. rewrite mget_entry_out by (unfold root_bytes, FSSO_FIRST_DATA_BLOCK; lia).
    unfold stored. apply mget_put_inode_out; [done|rewrite inode_slot_eq; lia].
Qed.
End added.

Lemma cstr_prefix name rest : Forall (fun c => c <> 0) name -> cstr (name ++ 0 :: rest) = name.
Proof.
  induction 1 as [|c name Hc _ IH]; [done|]. cbn [app cstr].
  destruct (Z.eqb_spec c 0); [done|]. by rewrite IH.
Qed.

(** A C string of at most FSSO_MAX_FILENAME characters. *)
Definition name_ok (name : list Z) : Prop :=
  Forall (fun c => c <> 0) name /\ Forall is_byte name /\ (length name <= 255)%nat.

(** A file the image has room for. *)
Definition data_ok (data : list Z) : Prop :=
  Forall is_byte data /\ Z.of_nat (length data) <= 12 * 1024.

Lemma blocks_for_bound n : 0 <= n <= 12 * 1024 -> 0 <= blocks_for n <= 12.
Proof.
  intros Hn. unfold blocks_for. pose proof (Z.div_mod (n + 1023) 1024 ltac:(lia)).
  pose proof (Z.mod_pos_bound (n + 1023) 1024 ltac:(lia)). lia.
Qed.

Section add_holds.
Context (m : mem) (slots : list slot) (ino : Z) (name data : list Z).
Hypothesis Hold : Holds m slots.
Hypothesis Hroom : (length slots < 3)%nat.
Hypothesis Hino : 1 <= ino < 13.
Hypothesis Hfree : bit_used m inode_bitmap ino = false.
Hypothesis Hname : name_ok name.
Hypothesis Hdata : data_ok data.

Definition new_blocks : list Z :=
  take (Z.to_nat (blocks_for (Z.of_nat (length data)))) (free_blocks m).

Hypothesis Henough : Z.of_nat (length new_blocks) = blocks_for (Z.of_nat (length data)).

Definition image : mem := added m ino new_blocks (Z.of_nat (length slots)) name data.

Lemma new_len : (length new_blocks <= 12)%nat.
Proof. pose proof (blocks_for_bound (Z.of_nat (length data))). destruct Hdata. lia. Qed.

Lemma new_free b : b ∈ new_blocks -> 12 <= b < 4096 /\ bit_used m block_bitmap b = false.
Proof.
  intros Hb%elem_of_take. destruct Hb as (i & Hb & _). apply list_elem_of_lookup_2 in Hb.
  apply free_in_spec in Hb as [Hu Hr]. split; [|done]. split; [|lia].
  assert (b <> FSSO_FIRST_DATA_BLOCK) as Hne.
  { intros ->. pose proof (h_root_used m slots Hold). congruence. }
  unfold FSSO_FIRST_DATA_BLOCK in Hne. lia.
Qed.

Lemma new_range : Forall (fun b => 12 <= b < 4096) new_blocks.
Proof. apply Forall_forall. intros b Hb. by apply new_free. Qed.

Lemma new_NoDup : NoDup new_blocks.
Proof.
  unfold new_blocks. set (n := Z.to_nat _). pose proof (NoDup_free_in m block_bitmap 11 4085) as H.
  fold (free_blocks m) in H. rewrite <- (take_drop n (free_blocks m)) in H.
  apply NoDup_app in H as [H _]. exact H.
Qed.

Lemma image_out x :
  x < 20 \/ 28 <= x -> x < 1024 \/ 3072 <= x -> x < inode_slot ino \/ inode_slot ino + 76 <= x ->
  x < root_bytes + 260 * Z.of_nat (length slots) \/
    root_bytes + 260 * Z.of_nat (length slots) + 260 <= x ->
  (forall b, b ∈ new_blocks -> x < 1024 * b \/ 1024 * b + 1024 <= x) ->
  mget image x = mget m x.
Proof.
  intros H1 H2 H3 H4 H5. unfold image.
  apply mget_added_out; [done|apply new_len|apply new_range|lia|done..|].
  by apply Forall_forall.
Qed.

(** Below the data blocks, outside the new inode and entry. *)
Lemma image_low x :
  x < 20 \/ 28 <= x < 1024 \/ 3072 <= x < 12288 -> x < inode_slot ino \/ inode_slot ino + 76 <= x ->
  x < root_bytes + 260 * Z.of_nat (length slots) \/
    root_bytes + 260 * Z.of_nat (length slots) + 260 <= x ->
  mget image x = mget m x.
Proof. intros. apply image_out; [lia..|]. intros b [Hb _]%new_free. lia. Qed.

Lemma image_inode_bit j : bit_ix j ->
  bit_used image inode_bitmap j = bit_used m inode_bitmap j || bool_decide (ino = j).
Proof.
  apply added_inode_bit; [done|apply new_len|apply new_range|lia].
Qed.

Lemma image_block_bit j : bit_ix j ->
  bit_used image block_bitmap j = bit_used m block_bitmap j || bool_decide (j ∈ new_blocks).
Proof. apply added_block_bit; [done|apply new_len|apply new_range|lia]. Qed.

(** The files already there stay. *)
Lemma old_slot_ok i s : slots !! i = Some s -> slot_ok image (Z.of_nat i) s.
Proof.
  intros Hs. pose proof (lookup_lt_Some _ _ _ Hs) as Hi.
  pose proof (h_files _ _ Hold _ _ Hs) as Hok. pose proof Hok as [].
  assert (Hne : sl_ino s <> ino) by (intros E; rewrite E in *; congruence).
  apply (slot_ok_frame m); [done| | | | |].
  - intros x Hx. apply image_low; rewrite ?inode_slot_eq;
      revert Hx; unfold root_bytes, FSSO_FIRST_DATA_BLOCK; lia.
  - intros x. rewrite inode_slot_eq. intros Hx. apply image_low; rewrite ?inode_slot_eq;
      revert Hx; unfold root_bytes, FSSO_FIRST_DATA_BLOCK; lia.
  - intros b x Hb Hx. rewrite Forall_forall in so_range0, so_blocks0.
    specialize (so_range0 b Hb). specialize (so_blocks0 b Hb).
    apply image_out; rewrite ?inode_slot_eq; [lia..|unfold root_bytes, FSSO_FIRST_DATA_BLOCK; lia|].
    intros c Hc. apply new_free in Hc as [_ Hc]. assert (b <> c) by congruence. lia.
  - rewrite image_inode_bit by (unfold bit_ix; lia). by rewrite so_used0.
  - intros b Hb. rewrite Forall_forall in so_range0, so_blocks0.
    specialize (so_range0 b Hb). rewrite image_block_bit by (unfold bit_ix; lia).
    by rewrite (so_blocks0 b Hb).
Qed.

(** The new file is there. *)
Lemma new_slot_ok : slot_ok image (Z.of_nat (length slots)) (Slot ino new_blocks name data).
Proof.
  destruct Hname as (Hn0 & Hnb & Hnl), Hdata as [Hdb Hdl].
  pose proof (wf_bytes m (h_wf _ _ Hold)) as Hm. pose proof new_len as Hl. pose proof new_range as Hr.
  assert (Hk : 0 <= Z.of_nat (length slots) < 3) by lia.
  destruct (entry_added_name m ino new_blocks (Z.of_nat (length slots)) name data Hl Hk Hnl)
    as [rest Hrest].
  unfold image. split; cbn [sl_ino sl_blocks sl_name sl_data].
  - done.
  - fold image. rewrite image_inode_bit by (unfold bit_ix; lia).
    by rewrite bool_decide_eq_true_2, orb_true_r.
  - by apply entry_added_inode.
  - rewrite Hrest. set_solver.
  - rewrite Hrest. by apply cstr_prefix.
  - by apply inode_added_type.
  - apply inode_added_size; [done..|lia].
  - apply inode_added_direct; [done..|]. by apply (h_clean _ _ Hold).
  - done.
  - done.
  - done.
  - apply Forall_forall. intros b Hb. fold image.
    rewrite image_block_bit by (apply new_free in Hb; unfold bit_ix; lia).
    by rewrite bool_decide_eq_true_2, orb_true_r.
  - apply blocks_added; [done..|apply new_NoDup|done].
Qed.

Lemma image_wf : disk_wf image.
Proof.
  destruct (h_wf _ _ Hold) as [Hm Hti Htb Hr].
  split.
  - apply mem_ok_added; [done..|apply new_len|apply new_range|apply Hname|apply Hdata].
  - rewrite <- Hti. apply mld_ext. intros x. offsets. intros Hx.
    apply image_low; rewrite ?inode_slot_eq; unfold root_bytes, FSSO_FIRST_DATA_BLOCK; lia.
  - rewrite <- Htb. apply mld_ext. intros x. offsets. intros Hx.
    apply image_low; rewrite ?inode_slot_eq; unfold root_bytes, FSSO_FIRST_DATA_BLOCK; lia.
  - rewrite <- Hr. apply mld_ext. intros x. offsets. rewrite inode_slot_eq. intros Hx.
    apply image_low; rewrite ?inode_slot_eq; unfold root_bytes, FSSO_FIRST_DATA_BLOCK; lia.
Qed.

Lemma image_holds : Holds image (slots ++ [Slot ino new_blocks name data]).
Proof.
  assert (Hroot : inode_at (mget image) 0 = inode_at (mget m) 0).
  { apply inode_at_ext; [lia|]. intros x. rewrite inode_slot_eq. intros Hx.
    apply image_low; rewrite ?inode_slot_eq; unfold root_bytes, FSSO_FIRST_DATA_BLOCK; lia. }
  split.
  - rewrite <- (h_magic _ _ Hold). apply mld_ext. intros x Hx.
    apply image_low; rewrite ?inode_slot_eq; unfold root_bytes, FSSO_FIRST_DATA_BLOCK; lia.
  - apply image_wf.
  - rewrite length_app. simpl. lia.
  - rewrite Hroot. apply (h_root_type _ _ Hold).
  - rewrite Hroot. apply (h_root_direct _ _ Hold).
  - rewrite image_block_bit by (unfold bit_ix, FSSO_FIRST_DATA_BLOCK; lia).
    by rewrite (h_root_used _ _ Hold).
  - intros i s [Hs|[Hi Hs]]%lookup_app_Some; [by apply old_slot_ok|].
    apply list_lookup_singleton_Some in Hs as [Hi0 <-].
    replace i with (length slots) by lia. apply new_slot_ok.
  - intros i Hi. rewrite length_app in Hi. cbn [length] in Hi.
    rewrite <- (h_rest _ _ Hold i) by lia. apply mld_ext. intros x Hx.
    apply image_low; rewrite ?inode_slot_eq; revert Hx; unfold root_bytes, FSSO_FIRST_DATA_BLOCK; lia.
  - intros i Hi Hf. rewrite image_inode_bit in Hf by (unfold bit_ix; lia).
    apply orb_false_iff in Hf as [Hf Hne]. apply bool_decide_eq_false in Hne.
    rewrite <- (h_clean _ _ Hold i) by done. f_equal. apply inode_at_ext; [lia|].
    intros x. rewrite inode_slot_eq. intros Hx.
    apply image_low; rewrite ?inode_slot_eq; unfold root_bytes, FSSO_FIRST_DATA_BLOCK; lia.
Qed.
End add_holds.

(** The first unused entry is the one after the files, also once the data and
    the inode are written. *)
Lemma free_slot_next m slots ino bs data :
  Holds m slots -> (length slots < 3)%nat -> 1 <= ino < 13 -> (length bs <= 12)%nat ->
  Forall (fun b => 12 <= b < 4096) bs ->
  free_slot root_bytes (stored ino bs data m) = Some (Z.of_nat (length slots)).
Proof.
  intros Hold Hroom Hino Hl Hb.
  assert (He : forall i, 0 <= i < 3 -> mld 4 (stored ino bs data m) (root_bytes + 260 * i) =
    mld 4 m (root_bytes + 260 * i)).
  { intros i Hi. apply mld_ext. intros x. unfold root_bytes, FSSO_FIRST_DATA_BLOCK. intros Hx.
    apply mget_stored_out; rewrite ?inode_slot_eq; try lia.
    - eapply Forall_impl; [exact Hb|]. simpl. lia.
    - eapply Forall_impl; [exact Hb|]. simpl. lia. }
  assert (Hused : forall i, 0 <= i < Z.of_nat (length slots) -> mld 4 m (root_bytes + 260 * i) <> 0).
  { intros i Hi. destruct (lookup_lt_is_Some_2 slots (Z.to_nat i)) as [s Hs]; [lia|].
    pose proof (h_files _ _ Hold _ _ Hs) as []. rewrite entry_inode, Z2Nat.id in so_entry0 by lia. lia. }
  pose proof (h_rest _ _ Hold (Z.of_nat (length slots)) ltac:(lia)) as Hz.
  unfold free_slot. change (seqZ 0 3) with [0; 1; 2]. rewrite !filter_cons, !He by lia.
  destruct (length slots) as [|[|[|n]]]; [| | |lia].
  - by rewrite decide_True.
  - rewrite decide_False by (apply Hused; lia). by rewrite decide_True.
  - rewrite decide_False by (apply Hused; lia). rewrite decide_False by (apply Hused; lia).
    by rewrite decide_True.
Qed.

Lemma wp_add_file_repr m fs name data size (Q : Z -> mem -> Prop) ino :
  Repr m fs -> (length fs < 3)%nat -> name_ok name -> Forall is_byte data ->
  0 <= size <= Z.of_nat (length data) -> size <= 12 * 1024 ->
  head (free_in m inode_bitmap 1 511) = Some ino -> ino < 13 ->
  blocks_for size <= Z.of_nat (length (free_blocks m)) ->
  (forall m', Repr m' (fs ++ [(name, take (Z.to_nat size) data)]) -> Q 0 m') ->
  wp (fsso_add_file name data size) Q m.
Proof.
  intros (slots & Hold & <-) Hroom Hname Hd Hs Hs' Hino Hino13 Hfree HQ.
  rewrite length_map in Hroom. pose proof (free_inode_range _ _ Hino) as [Hir Hif].
  apply wp_add_file; [apply (h_wf _ _ Hold)|done|apply Hname|lia|done|].
  set (d := take (Z.to_nat size) data) in *. unfold add_outcome. rewrite Hino. cbv zeta.
  assert (Ed : Z.of_nat (length d) = size) by (unfold d; rewrite length_take; lia).
  assert (Hdok : data_ok d) by (split; [by apply Forall_take|lia]).
  fold (new_blocks m d).
  assert (Hn : Z.of_nat (length (new_blocks m d)) = blocks_for (Z.of_nat (length d))).
  { pose proof (blocks_for_bound size ltac:(lia)). unfold new_blocks. rewrite length_take, Ed. lia. }
  rewrite Hn, Z.ltb_irrefl.
  assert (Hl : (length (new_blocks m d) <= 12)%nat) by (pose proof (blocks_for_bound size ltac:(lia)); rewrite Ed in Hn; lia).
  assert (Hr : Forall (fun b => 12 <= b < 4096) (new_blocks m d)) by by eapply new_range.
  rewrite (free_slot_next m slots) by (done || lia).
  cbn [fst snd]. rewrite <- Hn. apply HQ.
  exists (slots ++ [Slot ino (new_blocks m d) name d]). split.
  - assert (HH : Holds (image m slots ino name d) (slots ++ [Slot ino (new_blocks m d) name d]))
      by (apply image_holds; done || lia).
    unfold image, added in HH. exact HH.
  - by rewrite map_app.
Qed.

(** ** Reading the image back *)

Lemma until0_block_array bs : (length bs <= 12)%nat -> Forall (fun b => 12 <= b < 4096) bs ->
  until0 (block_array bs) = bs.
Proof.
  intros Hl Hb. unfold block_array. generalize (12 - length bs)%nat as z. clear Hl. intros z.
  induction Hb as [|b bs Hb _ IH].
  - by destruct z.
  - cbn [app until0]. destruct (Z.eqb_spec b 0); [lia|]. by rewrite IH.
Qed.

Definition entry_slot (name : list Z) (s : slot) : option Z :=
  if decide (sl_name s = name) then Some (sl_ino s) else None.

Section readback.
Context (m : mem) (slots : list slot).
Hypothesis Hold : Holds m slots.

Lemma superblock_magic : sb_magic (get_superblock (img_bytes (mget m)) 0) = FSSO_MAGIC.
Proof.
  rewrite <- (h_magic _ _ Hold). cbn [get_superblock sb_magic]. unfold ld. offsets.
  by rewrite img_bytes_mget.
Qed.

Lemma superblock_inodes : sb_total_inodes (get_superblock (img_bytes (mget m)) 0) = 512.
Proof.
  rewrite <- (wf_inodes _ (h_wf _ _ Hold) : _ = 512). cbn [get_superblock sb_total_inodes].
  unfold ld. offsets. by rewrite img_bytes_mget.
Qed.

Lemma root_entries : dirents (mget m) (inode_at (mget m) 0) = map (entry_at m) (seqZ 0 3).
Proof.
  unfold dirents, data_blocks. rewrite (h_root_direct _ _ Hold).
  change (until0 (block_array [FSSO_FIRST_DATA_BLOCK])) with [FSSO_FIRST_DATA_BLOCK].
  cbn [flat_map]. by rewrite app_nil_r.
Qed.

Lemma entry_of_slot k s name : slots !! k = Some s ->
  entry_ino name (entry_at m (Z.of_nat k)) = entry_slot name s.
Proof.
  intros Hs. destruct (h_files _ _ Hold _ _ Hs). unfold entry_ino, entry_slot.
  rewrite so_entry0, so_name0. destruct (Z.eqb_spec (sl_ino s) 0); [lia|done].
Qed.

Lemma entry_of_rest k name : Z.of_nat (length slots) <= k < 3 ->
  entry_ino name (entry_at m k) = None.
Proof.
  intros Hk. unfold entry_ino. by rewrite entry_inode, (h_rest _ _ Hold).
Qed.

Lemma root_lookup name :
  dir_lookup (mget m) (inode_at (mget m) 0) name = head (omap (entry_slot name) slots).
Proof.
  unfold dir_lookup. rewrite root_entries, omap_map. f_equal.
  pose proof (h_slots _ _ Hold) as Hl.
  replace 3 with (Z.of_nat (length slots) + (3 - Z.of_nat (length slots))) by lia.
  rewrite seqZ_app by lia. rewrite omap_app.
  assert (Hrest : forall l, (forall k, k ∈ l -> Z.of_nat (length slots) <= k < 3) ->
    omap (entry_ino name ∘ entry_at m) l = []).
  { induction l as [|k l IH]; intros H; [done|]. cbn. rewrite entry_of_rest by (apply H; set_solver).
    apply IH. intros k' Hk'. apply H. set_solver. }
  rewrite (Hrest (seqZ (0 + _) _)) by (intros k Hk%elem_of_seqZ; lia). rewrite app_nil_r.
  assert (Hpre : forall l pre, slots = pre ++ l ->
    omap (entry_ino name ∘ entry_at m) (seqZ (Z.of_nat (length pre)) (Z.of_nat (length l))) =
    omap (entry_slot name) l).
  { induction l as [|s l IH]; intros pre E; [done|].
    rewrite seqZ_cons by (cbn [length]; lia). cbn [omap list_omap compose].
    unfold compose at 1.
    rewrite (entry_of_slot (length pre) s name) by (rewrite E; by apply list_lookup_middle).
    specialize (IH (pre ++ [s])). rewrite length_app in IH. cbn [length] in IH.
    replace (Z.succ (Z.of_nat (length pre))) with (Z.of_nat (length pre + 1)) by lia.
    replace (Z.pred (Z.of_nat (length (s :: l)))) with (Z.of_nat (length l)) by (cbn [length]; lia).
    specialize (IH ltac:(by rewrite E, <- app_assoc)).
    destruct (entry_slot name s); [f_equal|]; exact IH. }
  by apply (Hpre slots []).
Qed.

Lemma root_names_ok : names_ok (mget m) (inode_at (mget m) 0).
Proof.
  unfold names_ok. rewrite root_entries. apply Forall_map, Forall_forall. intros k Hk%elem_of_seqZ Hu.
  destruct (decide (k < Z.of_nat (length slots))) as [Hlt|Hge].
  - destruct (lookup_lt_is_Some_2 slots (Z.to_nat k)) as [s Hs]; [lia|].
    pose proof (so_nul _ _ _ (h_files _ _ Hold _ _ Hs)) as Hn. by rewrite Z2Nat.id in Hn by lia.
  - rewrite entry_inode, (h_rest _ _ Hold) in Hu by lia. done.
Qed.

Lemma slot_blocks k s : slots !! k = Some s ->
  data_blocks (inode_at (mget m) (sl_ino s)) = sl_blocks s.
Proof.
  intros Hs. destruct (h_files _ _ Hold _ _ Hs). unfold data_blocks.
  by rewrite so_direct0, until0_block_array.
Qed.

Lemma slot_content k s : slots !! k = Some s ->
  take (length (sl_data s)) (file_content (mget m) (inode_at (mget m) (sl_ino s))) = sl_data s.
Proof.
  intros Hs. unfold file_content. rewrite (slot_blocks k) by done.
  by destruct (h_files _ _ Hold _ _ Hs).
Qed.

Lemma length_slot_content k s : slots !! k = Some s ->
  (length (sl_data s) <= length (file_content (mget m) (inode_at (mget m) (sl_ino s))))%nat.
Proof. intros Hs. rewrite <- (slot_content k s Hs) at 1. rewrite length_take. lia. Qed.
End readback.

(** Mount the image, find a file of the root directory, read it: what the
    shell's [cat] does. *)
Definition read_by_name {D} `{BlockDev D} (junk : site -> list Z) (fs0 : filesystem)
    (name : list Z) (uninit : inode) (out : list Z) (max_size : Z) : St D (Z * list Z) :=
  '(r, fs) <- fsso_mount junk fs0 ;;
  if negb (r =? 0) then ret (-10, out)
  else
    '(r, n) <- fsso_find_in_dir junk fs 0 name uninit 0 ;;
    if negb (r =? 0) then ret (r, out)
    else fsso_read_file junk fs n uninit out max_size.

(** The contents of the first file with that name. *)
Definition fs_lookup (name : list Z) (fs : list (list Z * list Z)) : option (list Z) :=
  head (omap (fun f => if decide (f.1 = name) then Some f.2 else None) fs).

(** Looking a slot up by name and looking its file up are the same search. *)
Lemma slot_search slots name :
  match fs_lookup name (map slot_file slots) with
  | Some data => exists k s, slots !! k = Some s /\ sl_data s = data /\
      head (omap (entry_slot name) slots) = Some (sl_ino s)
  | None => head (omap (entry_slot name) slots) = None
  end.
Proof.
  unfold fs_lookup. rewrite omap_map. induction slots as [|s slots IH]; [done|].
  unfold entry_slot in *. cbn. destruct (decide (sl_name s = name)); [by exists 0%nat, s|].
  destruct (head (omap _ slots)) as [data|]; [|exact IH].
  destruct IH as (k & s' & ? & ? & ?). by exists (S k), s'.
Qed.

(** The sectors of the image lie on the device. *)
Definition holds_image (has : Z -> Prop) : Prop := forall s, 0 <= s < 2 * TOTAL_BLOCKS -> has s.

Lemma has_block_image has b : holds_image has -> 0 <= b < TOTAL_BLOCKS -> has_block has b.
Proof. intros Hi Hb. split; apply Hi; lia. Qed.

Lemma has_array_image has bs :
  holds_image has -> (length bs <= 12)%nat -> Forall (fun b => 12 <= b < 4096) bs ->
  Forall (has_block has) (until0 (block_array bs)).
Proof.
  intros Hi Hl Hb. rewrite until0_block_array by done.
  eapply Forall_impl; [exact Hb|]. cbv beta. intros b ?. apply has_block_image; [done|].
  unfold TOTAL_BLOCKS. lia.
Qed.

Lemma wp_read_by_name_on {D} `{BlockDev D} m fs has `{!BlockDevOn D (mget m) has} junk fs0 name
    uninit out max_size (d : D) :
  Repr m fs -> holds_image has -> (forall s, length (junk s) = 1024%nat) -> on_ok d ->
  Forall (fun c => c <> 0) name ->
  0 <= max_size <= Z.of_nat (length out) -> max_size < 2 ^ 32 ->
  wp (read_by_name junk fs0 name uninit out max_size) (fun r d' => on_ok d' /\
    match fs_lookup name fs with
    | Some data =>
        let n := Z.min max_size (Z.of_nat (length data)) in
        n <= r.1 /\ take (Z.to_nat n) r.2 = take (Z.to_nat max_size) data
    | None => r = (-3, out)
    end) d.
Proof.
  intros (slots & Hold & <-) Hi Hj Hd Hname Hm1 Hm2. unfold read_by_name.
  assert (Hhas : forall b, 0 <= b < 13 -> has_block has b).
  { intros b Hb. apply has_block_image; [done|]. unfold TOTAL_BLOCKS. lia. }
  apply wp_bind. eapply wp_mono; [by apply (wp_mount_on (mget m) has junk Hj); auto with lia|].
  cbv beta. intros rf d1 [Hd1 ->].
  pose proof (superblock_magic m slots Hold) as Emagic.
  pose proof (superblock_inodes m slots Hold) as Etotal.
  cbv zeta. rewrite Emagic, Z.eqb_refl. set (sb := get_superblock _ _) in *. cbn [negb Z.eqb].
  apply wp_bind, (wp_find_in_dir_on (mget m) has junk Hj); [done|lia|done| | | |].
  { intros _ _. by eapply root_names_ok. }
  { intros _. by apply Hhas. }
  { intros _ _. unfold data_blocks. rewrite (h_root_direct _ _ Hold).
    change (until0 (block_array [FSSO_FIRST_DATA_BLOCK])) with [FSSO_FIRST_DATA_BLOCK].
    constructor; [|done]. apply Hhas. unfold FSSO_FIRST_DATA_BLOCK. lia. }
  cbn [fs_superblock]. rewrite Etotal. intros d2 Hd2. unfold find_result.
  change (512 <=? 0) with false. cbv iota.
  rewrite (h_root_type _ _ Hold), (root_lookup m slots Hold). cbn [negb].
  change (negb (FSSO_TYPE_DIR =? FSSO_TYPE_DIR)) with false. cbv iota.
  pose proof (slot_search slots name) as Hs.
  destruct (fs_lookup name (map slot_file slots)) as [data|]; [|rewrite Hs; by apply wp_ret].
  destruct Hs as (k & s & Hs & <- & ->). cbn [negb Z.eqb].
  pose proof (h_files _ _ Hold _ _ Hs) as Hok. pose proof (so_ino _ _ _ Hok) as Hino.
  apply (wp_read_file_on (mget m) has junk Hj); [done|lia|done|done| | |].
  { intros _. apply Hhas. rewrite Z.div_small by lia. lia. }
  { intros _ _. unfold data_blocks. rewrite (so_direct _ _ _ Hok).
    apply has_array_image; [done|apply (so_max _ _ _ Hok)|apply (so_range _ _ _ Hok)]. }
  cbn [fs_superblock]. rewrite Etotal. intros d3 Hd3. split; [done|]. unfold read_result.
  destruct (Z.leb_spec 512 (sl_ino s)); [lia|]. rewrite (so_type _ _ _ Hok).
  change (negb (FSSO_TYPE_FILE =? FSSO_TYPE_FILE)) with false. cbn [fst snd]. cbv iota zeta.
  pose proof (slot_content m slots Hold k s Hs) as Hc.
  pose proof (length_slot_content m slots Hold k s Hs) as Hlc.
  set (fc := file_content _ _) in *. cbn [fst snd]. rewrite length_take. split; [lia|].
  rewrite take_app_le by (rewrite length_take; lia).
  transitivity (take (Z.to_nat max_size) (take (length (sl_data s)) fc)); [|by rewrite Hc].
  rewrite !take_take. f_equal. lia.
Qed.

Lemma wp_read_by_name {D} `{BlockDev D} m fs `{!BlockDevOk D (mget m)} junk fs0 name uninit out
    max_size (d : D) :
  Repr m fs -> (forall s, length (junk s) = 1024%nat) -> dev_ok d ->
  Forall (fun c => c <> 0) name ->
  0 <= max_size <= Z.of_nat (length out) -> max_size < 2 ^ 32 ->
  wp (read_by_name junk fs0 name uninit out max_size) (fun r d' => dev_ok d' /\
    match fs_lookup name fs with
    | Some data =>
        let n := Z.min max_size (Z.of_nat (length data)) in
        n <= r.1 /\ take (Z.to_nat n) r.2 = take (Z.to_nat max_size) data
    | None => r = (-3, out)
    end) d.
Proof. intros. by apply (wp_read_by_name_on m fs everywhere (BlockDevOn0 := dev_on (mget m))). Qed.

(** ** The image [main] builds *)

Lemma mem_ok_forall (m : mem) : map_Forall (fun _ b => is_byte b) m -> mem_ok m.
Proof.
  intros H a. unfold mget. destruct (m !! a) as [b|] eqn:E; [by apply (H a)|].
  unfold is_byte. simpl. lia.
Qed.

Definition formatted : mem := match format_disk ∅ with Done (_, m) => m | _ => ∅ end.

Lemma format_run : format_disk ∅ = Done (tt, formatted).
Proof. vm_compute. reflexivity. Qed.

Lemma forall_range lo n (p : Z -> bool) :
  forallb p (seqZ lo n) = true -> forall i, lo <= i < lo + n -> p i = true.
Proof.
  rewrite forallb_forall. intros Hp i Hi. apply Hp, list_elem_of_In, elem_of_seqZ. lia.
Qed.

Lemma formatted_holds : Holds formatted [].
Proof.
  split; [by vm_compute| |simpl; lia|by vm_compute..|done| |].
  - split; [|by vm_compute..]. apply mem_ok_forall, (bool_decide_unpack _). by vm_compute.
  - intros k Hk. apply Z.eqb_eq.
    apply (forall_range 0 3 (fun k => mld 4 formatted (root_bytes + 260 * k) =? 0));
      [by vm_compute|done].
  - intros i Hi _. pose proof (forall_range 1 12
      (fun i => bool_decide (i_direct (inode_at (mget formatted) i) = block_array []))
      ltac:(by vm_compute) i ltac:(lia)) as Hb.
    by apply bool_decide_eq_true in Hb.
Qed.

Lemma formatted_repr : Repr formatted [].
Proof. exists []. split; [apply formatted_holds|done]. Qed.

(** The files of the shipped image. *)
Definition shipped_files : list (list Z * list Z) :=
  [(hello_txt, test_data); (hello_py, py_script)].

#[export] Instance name_ok_dec s : Decision (name_ok s).
Proof. unfold name_ok. apply _. Defined.

(** The disk after the first file. *)
Definition with_hello_txt : mem :=
  match fsso_add_file hello_txt test_data 18 formatted with Done (_, m) => m | _ => ∅ end.

Definition shipped : mem :=
  match fsso_add_file hello_py py_script 31 with_hello_txt with Done (_, m) => m | _ => ∅ end.

Lemma wp_run {A} (c : St mem A) (Q : A -> mem -> Prop) m r m' :
  c m = Done (r, m') -> wp c Q m -> Q r m'.
Proof. unfold wp. by intros ->. Qed.

Lemma with_hello_txt_run : fsso_add_file hello_txt test_data 18 formatted = Done (0, with_hello_txt).
Proof. vm_compute. reflexivity. Qed.

Lemma shipped_run : fsso_add_file hello_py py_script 31 with_hello_txt = Done (0, shipped).
Proof. vm_compute. reflexivity. Qed.

Lemma with_hello_txt_repr : Repr with_hello_txt [(hello_txt, test_data)].
Proof.
  apply (wp_run _ (fun _ m => Repr m [(hello_txt, test_data)]) _ _ _ with_hello_txt_run).
  apply (wp_add_file_repr _ _ _ _ _ _ 1 formatted_repr); [simpl; lia|..];
    try (by apply (bool_decide_unpack _); vm_compute); by vm_compute.
Qed.

Lemma shipped_repr : Repr shipped shipped_files.
Proof.
  apply (wp_run _ (fun _ m => Repr m shipped_files) _ _ _ shipped_run).
  apply (wp_add_file_repr _ _ _ _ _ _ 2 with_hello_txt_repr); [simpl; lia|..];
    try (by apply (bool_decide_unpack _); vm_compute); by vm_compute.
Qed.

(** ** Properties *)

(** C1: Adding a file refines appending to the list of files the image
    represents: on an image of fewer than three files with enough free blocks
    and a free inode among the first 13, [fsso_add_file] returns 0 and the new
    image represents the old files followed by the new one. *)
Theorem fsso_add_file_refines m fs name data size ino :
  Repr m fs -> (length fs < 3)%nat -> name_ok name -> Forall is_byte data ->
  0 <= size <= Z.of_nat (length data) -> size <= 12 * 1024 ->
  head (free_in m inode_bitmap 1 511) = Some ino -> ino < 13 ->
  blocks_for size <= Z.of_nat (length (free_blocks m)) ->
  wp (fsso_add_file name data size) (fun r m' =>
    r = 0 /\ Repr m' (fs ++ [(name, take (Z.to_nat size) data)])) m.
Proof. intros. eapply wp_add_file_repr; eauto. Qed.

(** C2: Every file of a represented image can be read back by the kernel: on a
    device that serves the image, mounting, looking the name up in the root
    directory and reading gives the file's bytes, as many as the buffer
    allows, and an unknown name gives -3 with the buffer untouched. *)
Theorem image_files_readable {D} `{BlockDev D} m fs `{!BlockDevOk D (mget m)} junk fs0 name uninit
    out max_size (d : D) :
  Repr m fs -> (forall s, length (junk s) = 1024%nat) -> dev_ok d ->
  Forall (fun c => c <> 0) name ->
  0 <= max_size <= Z.of_nat (length out) -> max_size < 2 ^ 32 ->
  wp (read_by_name junk fs0 name uninit out max_size) (fun r d' =>
    match fs_lookup name fs with
    | Some data =>
        let n := Z.min max_size (Z.of_nat (length data)) in
        n <= r.1 /\ take (Z.to_nat n) r.2 = take (Z.to_nat max_size) data
    | None => r = (-3, out)
    end) d.
Proof. intros. eapply wp_mono; [by eapply wp_read_by_name|]. by intros r d' [_ ?]. Qed.

(** C36: For files of up to 12 KiB, on a disk with the formatted sizes and root
    directory, [fsso_add_file] stays inside the disk image and its result and
    final image are those of [add_outcome] on every branch: no free inode
    (image unchanged), too few free blocks or a full root directory (-1, but
    the inode and the blocks found stay claimed in the bitmaps), success. *)
Theorem fsso_add_file_outcome name data size m :
  disk_wf m -> Forall is_byte data -> Forall is_byte name ->
  0 <= size <= Z.of_nat (length data) -> size <= 12 * 1024 ->
  fsso_add_file name data size m = Done (add_outcome name (take (Z.to_nat size) data) m).
Proof.
  intros Hm Hd Hn Hs Hs'. set (o := add_outcome _ _ _).
  pose proof (wp_add_file name data size (fun r m' => r = o.1 /\ m' = o.2) m Hm Hd Hn Hs Hs'
    ltac:(done)) as (r & m' & -> & -> & ->)%wp_done.
  by destruct o.
Qed.

(** C38: For files of more than 12 KiB, when 13 blocks are free, the block
    search writes past the end of its 12-entry local array. *)
Theorem fsso_add_file_overruns name data size m ino :
  disk_wf m -> head (free_in m inode_bitmap 1 511) = Some ino ->
  (12 < length (free_blocks m))%nat -> 12 * 1024 < size <= 2 ^ 32 - 1024 ->
  fsso_add_file name data size m = Undef.
Proof.
  intros [Hm Hti Htb _] Hino Hf Hs. unfold fsso_add_file.
  pose proof (wp_find_free_inode (fun r w => r = ino /\ w = mark inode_bitmap ino m) m Hm Hti
    ltac:(by rewrite Hino)) as (r & w & Hrun & -> & ->)%wp_done.
  rewrite (bind_done _ _ _ _ _ Hrun). apply free_inode_range in Hino as [Hr _].
  destruct (Z.eqb_spec ino 0) as [|_]; [lia|]. change FSSO_BLOCK_SIZE with 1024.
  assert (Hix : bit_ix ino) by (unfold bit_ix; lia).
  rewrite u32_small by lia. unfold bind at 1. rewrite alloc_blocks_run.
  - rewrite free_blocks_mark_inode by done. rewrite decide_True; [done|]. rewrite length_take.
    pose proof (Z.div_le_lower_bound (size + 1024 - 1) 1024 13). lia.
  - by apply mem_ok_mark.
  - rewrite <- Htb. apply mld_ext. intros x Hx. apply mget_mark_out. apply bit_ix_bounds in Hix.
    revert Hx. unfold inode_bitmap, FSSO_BLOCK_SIZE. offsets. lia.
  - apply Z.div_pos; lia.
Qed.

(** C37: [mkfsso] fails with status 1 without arguments, without its output
    file or without memory; otherwise it hands [fwrite] one image, which
    represents exactly "hello.txt" and "hello.py" with their texts, and its
    status says whether all the blocks were written. *)
Theorem mkfsso_main_spec argc open_ok alloc_ok fwrite :
  exists disk, Repr disk shipped_files /\
    main argc open_ok alloc_ok fwrite =
      Done (if (argc <? 2) || negb open_ok || negb alloc_ok then (1, None)
            else (if fwrite disk =? TOTAL_BLOCKS then 0 else 1, Some disk)).
Proof.
  exists shipped. split; [apply shipped_repr|]. unfold main.
  destruct (argc <? 2), open_ok, alloc_ok; cbn [negb orb]; try done.
  assert (E : build_image ∅ = Done (0, shipped)).
  { unfold build_image. rewrite (bind_done _ _ _ _ _ format_run).
    rewrite (bind_done _ _ _ _ _ with_hello_txt_run). cbn [negb Z.eqb].
    by rewrite (bind_done _ _ _ _ _ shipped_run). }
  rewrite E. cbn [negb Z.eqb]. by destruct (fwrite shipped =? TOTAL_BLOCKS).
Qed.

(** Writer and reader agree on where an inode is stored only for the first
    13: the writer's table is contiguous, the reader skips the last 36 bytes
    of each block. *)
Theorem inode_tables_agree n : 0 <= n -> inode_slot n = inode_addr n <-> n < 13.
Proof.
  intros Hn. rewrite inode_slot_eq. unfold inode_addr.
  pose proof (Z.div_mod n 13). pose proof (Z.mod_pos_bound n 13). lia.
Qed.

(** The inode table the writer uses runs into the root directory's block
    for every inode from 107 on, of the TOTAL_INODES the superblock
    announces. *)
Theorem inode_table_overlaps n :
  0 <= n < TOTAL_INODES -> root_bytes < inode_slot n + sizeof FSSO_Inode <-> 107 <= n.
Proof.
  rewrite inode_slot_eq. unfold root_bytes, FSSO_FIRST_DATA_BLOCK, TOTAL_INODES. offsets. lia.
Qed.

(** The free-block count of a fresh image is one too high: the root
    directory's block is claimed in the bitmap but still counted. *)
Theorem format_counts_root_free :
  exists m, format_disk ∅ = Done (tt, m) /\
    mld 4 m (off FSSO_Superblock "free_blocks") = Z.of_nat (length (free_blocks m)) + 1.
Proof. exists formatted. split; [apply format_run|]. by vm_compute. Qed.

(** ** Witnesses *)

Lemma fsso_add_file_refines_witness :
  wp (fsso_add_file hello_py py_script 31) (fun r m' => r = 0 /\ Repr m' shipped_files) with_hello_txt.
Proof.
  apply (fsso_add_file_refines with_hello_txt [(hello_txt, test_data)] hello_py py_script 31 2
    with_hello_txt_repr); [simpl; lia|..];
    try (by apply (bool_decide_unpack _); vm_compute); by vm_compute.
Defined.

Lemma image_files_readable_witness :
  wp (@read_by_name unit (mem_dev shipped) zero_junk demo_fs hello_py no_inode (replicate 16 0) 5)
    (fun r _ => take 5 r.2 = text "print") tt.
Proof.
  assert (Hok : mem_ok shipped) by (apply mem_ok_forall, (bool_decide_unpack _); by vm_compute).
  eapply wp_mono; [exact (@image_files_readable unit (mem_dev shipped) shipped shipped_files
    (mem_dev_ok _ Hok) zero_junk demo_fs hello_py no_inode (replicate 16 0) 5 tt shipped_repr
    zero_junk_length I ltac:(apply (bool_decide_unpack _); by vm_compute)
    ltac:(simpl; lia) ltac:(lia))|].
  cbv beta. intros r w Hr.
  assert (Hl : fs_lookup hello_py shipped_files = Some py_script) by (by vm_compute).
  rewrite Hl in Hr. destruct Hr as [_ Hr].
  assert (Hn : Z.to_nat (Z.min 5 (Z.of_nat (length py_script))) = 5%nat) by (by vm_compute).
  cbv zeta in Hr. rewrite Hn in Hr. rewrite Hr. by vm_compute.
Defined.

Lemma fsso_add_file_outcome_witness :
  fsso_add_file (text "a") [1] 1 formatted = Done (add_outcome (text "a") [1] formatted) /\
  (add_outcome (text "a") [1] formatted).1 = 0.
Proof.
  split; [|by vm_compute].
  apply (fsso_add_file_outcome (text "a") [1] 1 formatted);
    [apply (h_wf _ _ formatted_holds)|..|simpl; lia|lia];
    apply (bool_decide_unpack _); by vm_compute.
Defined.

Lemma fsso_add_file_overruns_witness :
  fsso_add_file hello_txt (replicate 13312 7) 13312 formatted = Undef.
Proof.
  apply (fsso_add_file_overruns _ _ _ _ 1); [apply (h_wf _ _ formatted_holds)|by vm_compute| |lia].
  apply Nat.ltb_lt. by vm_compute.
Defined.

Lemma inode_tables_agree_witness : inode_slot 13 <> inode_addr 13.
Proof. intros E. apply (inode_tables_agree 13) in E; lia. Defined.

Lemma inode_table_overlaps_witness : root_bytes < inode_slot 107 + sizeof FSSO_Inode.
Proof. apply (inode_table_overlaps 107); [unfold TOTAL_INODES|]; lia. Defined.
