(* ===== verification/TestFsso.v ===== *)
(** The test driver [tools/test_fsso.c]: it loads an image, mounts it through
    the kernel's reader and reads "hello.txt" into a 1024-byte buffer. *)
From stdpp Require Import strings.
From S2P Require Import Prelude Bytes Layout Fsso Mkfsso.

(** [char file_buffer[1024]] *)
Definition FILE_BUFFER : Z := 1024.

Section driver.
Context {D : Type} `{BlockDev D}.
Variable junk : site -> list Z.

(** The image in memory: its bytes and its size. *)
Record image_file := ImageFile { if_bytes : mem; if_size : Z }.

(** A read of the byte at [a] of the loaded image. *)
Definition disk_byte (f : image_file) (a : Z) : St D Z :=
  if (0 <=? a) && (a <? if_size f) then ret (mget (if_bytes f) a) else undef.

(** [printf ("%s", p)]: reads up to the NUL. *)
Fixpoint print_str (fuel : nat) (f : image_file) (a : Z) : St D unit :=
  match fuel with
  | O => undef
  | S fuel' =>
      c <- disk_byte f a ;;
      if c =? 0 then ret tt else print_str fuel' f (a + 1)
  end.

(** The string must end before the loaded bytes do. *)
Definition print_name (f : image_file) (a : Z) : St D unit :=
  print_str (Z.to_nat (if_size f - a)) f a.

Definition test_main (file : option image_file) (fs0 : filesystem) (uninit : inode)
    (file_buffer : list Z) : St D Z :=
  match file with
  | None => ret 1
  | Some f =>
      let block11 := 11 * FSSO_BLOCK_SIZE in
      cfor_ 32 0 (fun i => disk_byte f (block11 + i) ;;; ret tt) ;;;
      '(r, fs) <- fsso_mount junk fs0 ;;
      if negb (r =? 0) then ret 1
      else
        '(_, root_inode) <- fsso_read_inode junk fs 0 uninit ;;
        cfor_ 4 0 (fun i => disk_byte f (block11 + i) ;;; ret tt) ;;;
        print_name f (block11 + off FSSO_DirEntry "name") ;;;
        '(r, inode_num) <- fsso_find_in_dir junk fs 0 hello_txt uninit 0 ;;
        if negb (r =? 0) then ret 1
        else
          '(bytes, file_buffer) <- fsso_read_file junk fs inode_num uninit file_buffer FILE_BUFFER ;;
          if bytes <? 0 then ret 1
          else if FILE_BUFFER <=? bytes then undef
          else ret 0
  end.
End driver.

(** ** The driver on a represented image *)

Section run.
Context {D : Type} `{BlockDev D} (m : mem) (size : Z) `{!BlockDevOk D (mget m)}.
Let f : image_file := ImageFile m size.

Lemma disk_byte_run a (d : D) : 0 <= a < size -> disk_byte f a d = Done (mget m a, d).
Proof.
  intros Ha. unfold disk_byte. cbn [if_size f].
  destruct (Z.leb_spec 0 a), (Z.ltb_spec a size); try lia. done.
Qed.

Lemma dump_run n a lo (d : D) : 0 <= a + lo -> a + lo + Z.of_nat n <= size ->
  cfor_ n lo (fun i => disk_byte f (a + i) ;;; ret tt) d = Done (tt, d).
Proof.
  intros H1 H2.
  assert (Hw : wp (cfor_ n lo (fun i => disk_byte f (a + i) ;;; ret tt)) (fun r w => r = tt /\ w = d) d).
  { apply (wp_cfor_ (fun _ w => w = d)); [done| |done].
    intros i w Hi ->. apply wp_bind. eapply wp_eq; [apply disk_byte_run; lia|]. by apply wp_ret. }
  apply wp_done in Hw as (r & w & -> & -> & ->). done.
Qed.

Lemma print_str_run n a (d : D) fuel :
  0 <= a -> a + Z.of_nat fuel <= size -> (n <= fuel)%nat -> 0 ∈ mgets m a n ->
  print_str fuel f a d = Done (tt, d).
Proof.
  revert a n. induction fuel as [|fuel IH]; intros a n Ha Hs Hn Hz.
  - destruct n; [|lia]. by apply not_elem_of_nil in Hz.
  - cbn [print_str]. rewrite (bind_done _ _ _ _ _ (disk_byte_run a d ltac:(lia))).
    destruct n as [|n]; [by apply not_elem_of_nil in Hz|]. cbn [mgets] in Hz.
    destruct (Z.eqb_spec (mget m a) 0); [done|].
    apply (IH (a + 1) n); [lia..|]. apply elem_of_cons in Hz as [Hz|Hz]; [congruence|done].
Qed.

Lemma first_name_nul slots s0 :
  Holds m slots -> slots !! 0%nat = Some s0 ->
  0 ∈ mgets m (root_bytes + 4) 256.
Proof.
  intros Hold Hs. pose proof (so_nul _ _ _ (h_files _ _ Hold _ _ Hs)) as Hn.
  rewrite entry_name in Hn. replace (root_bytes + 4) with (root_bytes + 260 * Z.of_nat 0 + 4) by lia.
  done.
Qed.
End run.

(** The driver overruns its buffer: on an image that holds a non-empty
    "hello.txt", [fsso_read_file] reports 1024 bytes whatever the file's size,
    and the driver then stores its terminating NUL at [file_buffer[1024]]. *)
Theorem test_main_overruns {D} `{BlockDev D} m fs `{!BlockDevOk D (mget m)} junk fs0 uninit buf
    data size (d : D) :
  Repr m fs -> fs_lookup hello_txt fs = Some data -> data <> [] ->
  (forall s, length (junk s) = 1024%nat) -> dev_ok d -> length buf = 1024%nat ->
  12 * 1024 <= size ->
  test_main junk (Some (ImageFile m size)) fs0 uninit buf d = Undef.
Proof.
  intros (slots & Hold & <-) Hlk Hne Hj Hd Hb Hsz.
  pose proof (slot_search slots hello_txt) as Hs. rewrite Hlk in Hs.
  destruct Hs as (k & s & Hs & <- & Hhead).
  destruct slots as [|s0 slots']; [done|]. set (slots := s0 :: slots') in *.
  pose proof (h_files _ _ Hold _ _ Hs) as Hok. pose proof (so_ino _ _ _ Hok) as Hino.
  unfold test_main. cbv zeta. change FSSO_BLOCK_SIZE with 1024.
  rewrite (bind_done _ _ _ _ _ (dump_run m size 32 (11 * 1024) 0 d ltac:(lia) ltac:(lia))).
  destruct (proj1 (wp_done _ _ _) (wp_mount (mget m) junk Hj fs0 d Hd)) as (rf & d1 & E1 & Hd1 & ->).
  rewrite (bind_done _ _ _ _ _ E1).
  cbv zeta. rewrite (superblock_magic m slots Hold), Z.eqb_refl. cbn [negb Z.eqb].
  set (fs := Filesystem _ _).
  assert (Etotal : sb_total_inodes (fs_superblock fs) = 512) by apply (superblock_inodes m slots Hold).
  pose proof (wp_read_inode (mget m) junk Hj fs 0 uninit (fun _ w => dev_ok w) d1 Hd1 ltac:(lia)
    (fun d' Hd' => Hd')) as ([r0 root] & d2 & E2 & Hd2)%wp_done.
  rewrite (bind_done _ _ _ _ _ E2).
  rewrite (bind_done _ _ _ _ _ (dump_run m size 4 (11 * 1024) 0 d2 ltac:(lia) ltac:(lia))).
  assert (E3 : print_name (ImageFile m size) (11 * 1024 + off FSSO_DirEntry "name") d2 = Done (tt, d2)).
  { unfold print_name. offsets. cbn [if_size]. apply (print_str_run m size 256); [lia..|].
    by apply (first_name_nul m slots s0). }
  rewrite (bind_done _ _ _ _ _ E3).
  pose proof (wp_find_in_dir (mget m) junk Hj fs 0 hello_txt uninit 0
    (fun r w => r = (0, sl_ino s) /\ dev_ok w) d2 Hd2 ltac:(lia)
    ltac:(apply (bool_decide_unpack _); by vm_compute)
    ltac:(intros _ _; by eapply root_names_ok)) as Hf.
  rewrite Etotal in Hf. unfold find_result in Hf. change (512 <=? 0) with false in Hf. cbv iota in Hf.
  rewrite (h_root_type _ _ Hold), (root_lookup m slots Hold), Hhead in Hf.
  change (negb (FSSO_TYPE_DIR =? FSSO_TYPE_DIR)) with false in Hf. cbv iota in Hf.
  specialize (Hf ltac:(done)). apply wp_done in Hf as (rf & d3 & E4 & -> & Hd3).
  rewrite (bind_done _ _ _ _ _ E4). cbn [negb Z.eqb].
  pose proof (wp_read_file (mget m) junk Hj fs (sl_ino s) uninit buf FILE_BUFFER
    (fun r w => r.1 = 1024) d3 Hd3 ltac:(lia) ltac:(unfold FILE_BUFFER; lia)
    ltac:(unfold FILE_BUFFER; lia)) as Hr.
  rewrite Etotal in Hr.
  assert (E5 : (read_result 512 (mget m) (sl_ino s) buf FILE_BUFFER).1 = 1024).
  { unfold read_result. destruct (Z.leb_spec 512 (sl_ino s)); [lia|]. rewrite (so_type _ _ _ Hok).
    change (negb (FSSO_TYPE_FILE =? FSSO_TYPE_FILE)) with false. cbv iota zeta. cbn [fst].
    unfold file_content. rewrite length_take, length_flat_blk, (slot_blocks m slots Hold k s Hs).
    pose proof (so_len _ _ _ Hok) as Hl. unfold blocks_for in Hl. unfold FILE_BUFFER.
    assert (0 < length (sl_data s))%nat by (destruct (sl_data s); [done|simpl; lia]).
    pose proof (Z.div_le_lower_bound (Z.of_nat (length (sl_data s)) + 1023) 1024 1). lia. }
  apply wp_done in Hr as ([bytes out] & d4 & E6 & Eb); [|done]. cbn [fst] in Eb. subst bytes.
  by rewrite (bind_done _ _ _ _ _ E6).
Qed.

Lemma test_main_overruns_witness :
  @test_main unit (mem_dev shipped) zero_junk (Some (ImageFile shipped DISK_BYTES)) demo_fs no_inode
    (replicate 1024 0) tt = Undef.
Proof.
  assert (Hok : mem_ok shipped) by (apply mem_ok_forall, (bool_decide_unpack _); by vm_compute).
  apply (@test_main_overruns unit (mem_dev shipped) shipped shipped_files (mem_dev_ok _ Hok)
    zero_junk demo_fs no_inode (replicate 1024 0) test_data DISK_BYTES tt shipped_repr);
    [by vm_compute|by vm_compute|exact zero_junk_length|exact I|done|].
  by apply Z.leb_le.
Defined.
