(* ===== verification/Storage.v ===== *)
(** The block device of the kernel: [ahci_read] of [kernel/ahci.c] in the place
    where [kernel/fsso.c] expects a sector device, and the file system running
    on it. *)
From S2P Require Import Prelude Bytes Pci Layout Ahci Fsso Mkfsso.

Section storage.
Context {P A : Type} `{Hba A}.

(** Where the block buffer lies in memory. *)
Variable buffer : Z.

(** [ahci_read (lba, count, buf)] for a local array [buf] placed at [buffer]:
    the array's contents go in and come out of memory. *)
#[local] Instance ahci_dev : BlockDev (drv P A) := {|
  sector_read lba count buf :=
    on_ram (fun m => mputs m buffer buf) ;;;
    r <- ahci_read lba count buffer ;;
    m <- gets (fun d => ram (hw d)) ;;
    ret (r, mgets m buffer (length buf))
|}.

Context (base port : Z) (img : Z -> Z) (cap : Z) (lat : nat) `{!HbaModel A base port img cap lat}.
Hypothesis Hport : 0 <= port < 32.
Hypothesis Hbuf : 0 <= buffer < 2 ^ 32.
Hypothesis Heven : Z.even buffer = true.
Hypothesis Hapart : buffer_apart port buffer 1024.
Hypothesis Hlat : (lat <= POLL_LIMIT)%nat.
Hypothesis Himg : forall a, is_byte (img a).

(** The driver is attached to a started, idle port. *)
Definition attached_port (d : drv P A) : Prop :=
  bound base port d /\ hba_ready (clb_of port) (hw d) /\ header_clean (ram (hw d)) (clb_of port).

Lemma buffer_apart_sub n : n <= 1024 -> buffer_apart port buffer n.
Proof.
  intros Hn. eapply Forall_impl; [exact Hapart|]. intros [r1 r2]. unfold region_disj. simpl. lia.
Qed.

Lemma header_clean_store m bs :
  (length bs <= 1024)%nat -> header_clean m (clb_of port) ->
  header_clean (mputs m buffer bs) (clb_of port).
Proof.
  intros Hl [H0 H1]. destruct (buffer_apart_3 _ _ _ Hapart) as (A1 & _).
  unfold region_disj in A1. cbn [fst snd] in A1. unfold header_clean. revert H0 H1. offsets.
  intros H0 H1. by rewrite !mget_mputs_out by lia.
Qed.

(** The sectors of the disk. *)
Definition on_disk (s : Z) : Prop := s < cap.

(** The AHCI driver meets the file system's contract for its device, on the
    sectors the disk has. *)
#[local] Instance ahci_dev_on : BlockDevOn (drv P A) img on_disk.
Proof.
  refine {| on_ok := attached_port; on_img_byte := Himg |}.
  intros lba count buf d (Hb & Hr & Hc) Hlba Hcount Hhas Hlen.
  pose proof (Hhas (lba + count - 1) ltac:(lia)) as Hcap. unfold on_disk in Hcap.
  unfold sector_read, ahci_dev. apply wp_bind, wp_on_ram. apply wp_bind.
  eapply wp_mono.
  - apply (wp_ahci_read base port img cap lat);
      [done|by apply bound_with_hw| | |done|lia|done|done| |done|lia].
    + by apply hba_ready_ram.
    + cbn [hw with_hw]. rewrite hba_ram. apply header_clean_store; [lia|done].
    + apply buffer_apart_sub. lia.
  - cbv beta. intros r d' (-> & Hb' & Hr' & Hm & Hc' & _).
    apply wp_bind, wp_gets. apply wp_ret. by rewrite Hlen, Hm.
Defined.

End storage.

(** C3: The storage stack, end to end: with a port started by the driver, a
    disk of at least the image's 8192 sectors that holds an image representing
    [files], and an even-addressed buffer apart from the driver's DMA
    structures, mounting, directory lookup and reading through
    [ahci_read] return the file's bytes; an unknown name gives -3; the port is
    ready again afterwards. *)
Theorem read_through_ahci {P A} `{Hba A} buffer base port m cap lat
    `{!HbaModel A base port (mget m) cap lat} files junk fs0 name uninit out max_size (d : drv P A) :
  0 <= port < 32 -> 0 <= buffer < 2 ^ 32 -> Z.even buffer = true ->
  buffer_apart port buffer 1024 -> (lat <= POLL_LIMIT)%nat -> 2 * TOTAL_BLOCKS <= cap ->
  Repr m files -> attached_port base port (mget m) cap lat d ->
  (forall s, length (junk s) = 1024%nat) -> Forall (fun c => c <> 0) name ->
  0 <= max_size <= Z.of_nat (length out) -> max_size < 2 ^ 32 ->
  wp (@read_by_name _ (ahci_dev buffer) junk fs0 name uninit out max_size) (fun r d' =>
    attached_port base port (mget m) cap lat d' /\
    match fs_lookup name files with
    | Some data =>
        let n := Z.min max_size (Z.of_nat (length data)) in
        n <= r.1 /\ take (Z.to_nat n) r.2 = take (Z.to_nat max_size) data
    | None => r = (-3, out)
    end) d.
Proof.
  intros Hp Hb He Ha Hl Hcap Hrepr Hd Hj Hn Hm1 Hm2.
  assert (Hok : mem_ok m) by (destruct Hrepr as (slots & Hold & _); apply (wf_bytes _ (h_wf _ _ Hold))).
  assert (Hi : holds_image (on_disk cap)) by (intros s Hs; unfold on_disk; lia).
  exact (@wp_read_by_name_on _ (ahci_dev buffer) m files (on_disk cap)
    (ahci_dev_on buffer base port (mget m) cap lat Hp Hb He Ha Hl Hok)
    junk fs0 name uninit out max_size d Hrepr Hi Hj Hd Hn Hm1 Hm2).
Qed.

(** The shipped image on the simulated controller, its port 1 started. *)
Definition stack_base : Z := 0xFEBF1000.

Definition stack_drv : drv Z sim :=
  Drv stack_base 1 0 (Sim {[ s_reg stack_base 1 PORT_CLB := clb_of 1 ]} ∅ None 0).

Lemma read_through_ahci_witness :
  wp (@read_by_name _ (@ahci_dev Z sim (sim_hba stack_base 1 (mget shipped) 8192 3) 0x200000)
        zero_junk demo_fs hello_py no_inode (replicate 16 0) 5)
    (fun r _ => take 5 r.2 = firstn 5 py_script) stack_drv.
Proof.
  eapply wp_mono.
  - apply (@read_through_ahci Z sim (sim_hba stack_base 1 (mget shipped) 8192 3) 0x200000 stack_base 1
      shipped 8192 3 (sim_model stack_base 1 (mget shipped) 8192 3 ltac:(lia)) shipped_files zero_junk demo_fs
      hello_py no_inode (replicate 16 0) 5); try lia.
    + reflexivity.
    + apply (bool_decide_unpack _). vm_compute. exact I.
    + unfold POLL_LIMIT. lia.
    + unfold TOTAL_BLOCKS. lia.
    + exact shipped_repr.
    + split_and!; [by split| |by split].
      change (sim_ready stack_base 1 (clb_of 1) (hw stack_drv)). by repeat split.
    + exact zero_junk_length.
    + apply (bool_decide_unpack _). vm_compute. exact I.
    + simpl. lia.
  - cbv beta. intros r w [_ Hr].
    assert (Hl : fs_lookup hello_py shipped_files = Some py_script) by (by vm_compute).
    rewrite Hl in Hr. destruct Hr as [_ Hr].
    assert (Hn : Z.to_nat (Z.min 5 (Z.of_nat (length py_script))) = 5%nat) by (by vm_compute).
    cbv zeta in Hr. rewrite Hn in Hr. exact Hr.
Defined.
