(* ===== verification/Console.v ===== *)
(** The text console of the kernel: the font of [kernel/font.h], [draw_char]
    and [draw_string] of [kernel/kernel.c], [shell_putchar] and [shell_print]
    of [kernel/shell.c], on a linear framebuffer. *)
From S2P Require Import Prelude Bytes.

(** ** The font *)

(** The designated initialisers of [font]: character code and 8 rows. *)
Definition font_entries : list (Z * list Z) :=
  [
   (0, [0x00; 0x00; 0x00; 0x00; 0x00; 0x00; 0x00; 0x00]);
   (32, [0x00; 0x00; 0x00; 0x00; 0x00; 0x00; 0x00; 0x00]);
   (33, [0x18; 0x18; 0x18; 0x18; 0x00; 0x18; 0x00; 0x00]);
   (34, [0x6C; 0x6C; 0x00; 0x00; 0x00; 0x00; 0x00; 0x00]);
   (35, [0x6C; 0x6C; 0xFE; 0x6C; 0xFE; 0x6C; 0x6C; 0x00]);
   (36, [0x18; 0x3E; 0x60; 0x3C; 0x06; 0x7C; 0x18; 0x00]);
   (37, [0x00; 0x66; 0xAC; 0xD8; 0x36; 0x6A; 0xCC; 0x00]);
   (38, [0x38; 0x6C; 0x68; 0x76; 0xDC; 0xCC; 0x76; 0x00]);
   (39, [0x18; 0x18; 0x30; 0x00; 0x00; 0x00; 0x00; 0x00]);
   (40, [0x0C; 0x18; 0x30; 0x30; 0x30; 0x18; 0x0C; 0x00]);
   (41, [0x30; 0x18; 0x0C; 0x0C; 0x0C; 0x18; 0x30; 0x00]);
   (42, [0x00; 0x66; 0x3C; 0xFF; 0x3C; 0x66; 0x00; 0x00]);
   (43, [0x00; 0x18; 0x18; 0x7E; 0x18; 0x18; 0x00; 0x00]);
   (44, [0x00; 0x00; 0x00; 0x00; 0x18; 0x18; 0x30; 0x00]);
   (45, [0x00; 0x00; 0x00; 0x7E; 0x00; 0x00; 0x00; 0x00]);
   (46, [0x00; 0x00; 0x00; 0x00; 0x00; 0x18; 0x00; 0x00]);
   (47, [0x06; 0x0C; 0x18; 0x30; 0x60; 0xC0; 0x00; 0x00]);
   (48, [0x3C; 0x66; 0x6E; 0x76; 0x66; 0x3C; 0x00; 0x00]);
   (49, [0x18; 0x38; 0x18; 0x18; 0x18; 0x7E; 0x00; 0x00]);
   (50, [0x3C; 0x66; 0x06; 0x1C; 0x30; 0x7E; 0x00; 0x00]);
   (51, [0x3C; 0x66; 0x06; 0x1C; 0x06; 0x66; 0x3C; 0x00]);
   (52, [0x0C; 0x1C; 0x3C; 0x6C; 0x7E; 0x0C; 0x00; 0x00]);
   (53, [0x7E; 0x60; 0x7C; 0x06; 0x06; 0x66; 0x3C; 0x00]);
   (54, [0x1C; 0x30; 0x60; 0x7C; 0x66; 0x66; 0x3C; 0x00]);
   (55, [0x7E; 0x06; 0x0C; 0x18; 0x30; 0x30; 0x00; 0x00]);
   (56, [0x3C; 0x66; 0x66; 0x3C; 0x66; 0x66; 0x3C; 0x00]);
   (57, [0x3C; 0x66; 0x66; 0x3E; 0x06; 0x0C; 0x38; 0x00]);
   (58, [0x00; 0x18; 0x00; 0x00; 0x18; 0x00; 0x00; 0x00]);
   (59, [0x00; 0x18; 0x00; 0x00; 0x18; 0x18; 0x30; 0x00]);
   (60, [0x0C; 0x18; 0x30; 0x60; 0x30; 0x18; 0x0C; 0x00]);
   (61, [0x00; 0x00; 0x7E; 0x00; 0x7E; 0x00; 0x00; 0x00]);
   (62, [0x30; 0x18; 0x0C; 0x06; 0x0C; 0x18; 0x30; 0x00]);
   (63, [0x3C; 0x66; 0x06; 0x1C; 0x18; 0x00; 0x18; 0x00]);
   (64, [0x3C; 0x66; 0x6E; 0x6E; 0x60; 0x62; 0x3C; 0x00]);
   (65, [0x18; 0x3C; 0x66; 0x7E; 0x66; 0x66; 0x00; 0x00]);
   (66, [0x7C; 0x66; 0x66; 0x7C; 0x66; 0x7C; 0x00; 0x00]);
   (67, [0x3C; 0x66; 0x60; 0x60; 0x66; 0x3C; 0x00; 0x00]);
   (68, [0x78; 0x6C; 0x66; 0x66; 0x6C; 0x78; 0x00; 0x00]);
   (69, [0x7E; 0x60; 0x60; 0x78; 0x60; 0x7E; 0x00; 0x00]);
   (70, [0x7E; 0x60; 0x60; 0x78; 0x60; 0x60; 0x00; 0x00]);
   (71, [0x3C; 0x66; 0x60; 0x6E; 0x66; 0x3C; 0x00; 0x00]);
   (72, [0x66; 0x66; 0x66; 0x7E; 0x66; 0x66; 0x00; 0x00]);
   (73, [0x7E; 0x18; 0x18; 0x18; 0x18; 0x7E; 0x00; 0x00]);
   (74, [0x06; 0x06; 0x06; 0x06; 0x66; 0x3C; 0x00; 0x00]);
   (75, [0x66; 0x6C; 0x78; 0x70; 0x78; 0x6C; 0x66; 0x00]);
   (76, [0x60; 0x60; 0x60; 0x60; 0x60; 0x7E; 0x00; 0x00]);
   (77, [0x63; 0x77; 0x7F; 0x6B; 0x63; 0x63; 0x00; 0x00]);
   (78, [0x66; 0x76; 0x7E; 0x7E; 0x6E; 0x66; 0x00; 0x00]);
   (79, [0x3C; 0x66; 0x66; 0x66; 0x66; 0x3C; 0x00; 0x00]);
   (80, [0x7C; 0x66; 0x66; 0x7C; 0x60; 0x60; 0x00; 0x00]);
   (81, [0x3C; 0x66; 0x66; 0x66; 0x6C; 0x36; 0x00; 0x00]);
   (82, [0x7C; 0x66; 0x66; 0x7C; 0x6C; 0x66; 0x00; 0x00]);
   (83, [0x3C; 0x66; 0x60; 0x3C; 0x06; 0x66; 0x3C; 0x00]);
   (84, [0x7E; 0x18; 0x18; 0x18; 0x18; 0x18; 0x00; 0x00]);
   (85, [0x66; 0x66; 0x66; 0x66; 0x66; 0x3C; 0x00; 0x00]);
   (86, [0x66; 0x66; 0x66; 0x66; 0x3C; 0x18; 0x00; 0x00]);
   (87, [0x63; 0x63; 0x6B; 0x7F; 0x77; 0x63; 0x00; 0x00]);
   (88, [0x66; 0x66; 0x3C; 0x18; 0x3C; 0x66; 0x66; 0x00]);
   (89, [0x66; 0x66; 0x3C; 0x18; 0x18; 0x18; 0x00; 0x00]);
   (90, [0x7E; 0x06; 0x0C; 0x18; 0x30; 0x7E; 0x00; 0x00]);
   (91, [0x3C; 0x30; 0x30; 0x30; 0x30; 0x3C; 0x00; 0x00]);
   (92, [0xC0; 0x60; 0x30; 0x18; 0x0C; 0x06; 0x00; 0x00]);
   (93, [0x3C; 0x0C; 0x0C; 0x0C; 0x0C; 0x3C; 0x00; 0x00]);
   (94, [0x18; 0x3C; 0x66; 0x00; 0x00; 0x00; 0x00; 0x00]);
   (95, [0x00; 0x00; 0x00; 0x00; 0x00; 0x00; 0xFF; 0x00]);
   (96, [0x18; 0x18; 0x0C; 0x00; 0x00; 0x00; 0x00; 0x00]);
   (97, [0x00; 0x3C; 0x06; 0x3E; 0x66; 0x3E; 0x00; 0x00]);
   (98, [0x60; 0x60; 0x7C; 0x66; 0x66; 0x7C; 0x00; 0x00]);
   (99, [0x00; 0x3C; 0x60; 0x60; 0x60; 0x3C; 0x00; 0x00]);
   (100, [0x06; 0x06; 0x3E; 0x66; 0x66; 0x3E; 0x00; 0x00]);
   (101, [0x00; 0x3C; 0x66; 0x7E; 0x60; 0x3C; 0x00; 0x00]);
   (102, [0x1C; 0x30; 0x7C; 0x30; 0x30; 0x30; 0x00; 0x00]);
   (103, [0x00; 0x3E; 0x66; 0x66; 0x3E; 0x06; 0x3C; 0x00]);
   (104, [0x60; 0x60; 0x7C; 0x66; 0x66; 0x66; 0x00; 0x00]);
   (105, [0x18; 0x00; 0x38; 0x18; 0x18; 0x3C; 0x00; 0x00]);
   (106, [0x06; 0x00; 0x06; 0x06; 0x06; 0x06; 0x3C; 0x00]);
   (107, [0x60; 0x60; 0x66; 0x6C; 0x78; 0x6C; 0x66; 0x00]);
   (108, [0x38; 0x18; 0x18; 0x18; 0x18; 0x3C; 0x00; 0x00]);
   (109, [0x00; 0x66; 0x7F; 0x7F; 0x6B; 0x63; 0x00; 0x00]);
   (110, [0x00; 0x7C; 0x66; 0x66; 0x66; 0x66; 0x00; 0x00]);
   (111, [0x00; 0x3C; 0x66; 0x66; 0x66; 0x3C; 0x00; 0x00]);
   (112, [0x00; 0x7C; 0x66; 0x66; 0x7C; 0x60; 0x60; 0x00]);
   (113, [0x00; 0x3E; 0x66; 0x66; 0x3E; 0x06; 0x06; 0x00]);
   (114, [0x00; 0x7C; 0x66; 0x60; 0x60; 0x60; 0x00; 0x00]);
   (115, [0x00; 0x3C; 0x60; 0x3C; 0x06; 0x3C; 0x00; 0x00]);
   (116, [0x30; 0x30; 0x7C; 0x30; 0x30; 0x1C; 0x00; 0x00]);
   (117, [0x00; 0x66; 0x66; 0x66; 0x66; 0x3C; 0x00; 0x00]);
   (118, [0x00; 0x66; 0x66; 0x66; 0x3C; 0x18; 0x00; 0x00]);
   (119, [0x00; 0x63; 0x6B; 0x7F; 0x3E; 0x36; 0x00; 0x00]);
   (120, [0x00; 0x66; 0x3C; 0x18; 0x3C; 0x66; 0x00; 0x00]);
   (121, [0x00; 0x66; 0x66; 0x3E; 0x06; 0x3C; 0x00; 0x00]);
   (122, [0x00; 0x7E; 0x0C; 0x18; 0x30; 0x7E; 0x00; 0x00]);
   (123, [0x0E; 0x18; 0x18; 0x70; 0x18; 0x18; 0x0E; 0x00]);
   (124, [0x18; 0x18; 0x18; 0x00; 0x18; 0x18; 0x18; 0x00]);
   (125, [0x70; 0x18; 0x18; 0x0E; 0x18; 0x18; 0x70; 0x00]);
   (126, [0x76; 0xDC; 0x00; 0x00; 0x00; 0x00; 0x00; 0x00]);
   (127, [0xFF; 0xFF; 0xFF; 0xFF; 0xFF; 0xFF; 0xFF; 0xFF]) ].

(** [font[c]], for a code inside the table of 128 glyphs; a glyph without an
    initialiser is blank. *)
Definition font (c : Z) : option (list Z) :=
  if (0 <=? c) && (c <? 128) then
    Some (match find (fun e => e.1 =? c) font_entries with
          | Some (_, rows) => rows
          | None => replicate 8 0
          end)
  else None.

(** ** The framebuffer *)

(** Pixels by index, and the cursor: [cur_x] in columns, [cur_y] in pixels. *)
Record con := Con { pixels : mem; cur_x : Z; cur_y : Z }.

Section console.
(** Pixels per scan line, and the number of pixels of the framebuffer. *)
Context (pps fb_len : Z).

(** [fb[i] = v], undefined outside the framebuffer. *)
Definition fb_store (i v : Z) : St con unit := fun s =>
  if (0 <=? i) && (i <? fb_len) then Done (tt, Con (mput (pixels s) i v) (cur_x s) (cur_y s))
  else Undef.

(** [(y + row) * pixels_per_scanline + (x + col)] in unsigned arithmetic. *)
Definition pixel_index (x y : Z) : Z := u32 (u32 y * pps + u32 x).

Definition draw_char (x y c color : Z) : St con unit :=
  match font (u8 c) with
  | None => undef
  | Some glyph =>
      cfor_ 8 0 (fun row =>
        cfor_ 8 0 (fun col =>
          if Z.land (glyph !!! Z.to_nat row) (Z.shiftr 0x80 col) =? 0 then ret tt
          else fb_store (pixel_index (x + col) (y + row)) color))
  end.

(** [for (i = 0; str[i]; i++)]. *)
Fixpoint draw_string_from (i x y : Z) (str : list Z) (color : Z) : St con unit :=
  match str with
  | [] => ret tt
  | c :: str' => draw_char (i32 (x + i * 9)) y c color ;;; draw_string_from (i + 1) x y str' color
  end.

Definition draw_string (x y : Z) (str : list Z) (color : Z) : St con unit :=
  draw_string_from 0 x y str color.

Definition set_cursor (x y : Z) : St con unit := modify (fun s => Con (pixels s) x y).

Definition shell_putchar (c : Z) : St con unit :=
  s <- get ;;
  if c =? 10 then set_cursor 0 (i32 (cur_y s + 10))
  else
    draw_char (i32 (cur_x s * 9)) (cur_y s) c 0xFFFFFF ;;;
    s <- get ;;
    set_cursor (i32 (cur_x s + 1)) (cur_y s) ;;;
    s <- get ;;
    if 80 <? cur_x s then set_cursor 0 (i32 (cur_y s + 10)) else ret tt.

Fixpoint shell_print (str : list Z) : St con unit :=
  match str with
  | [] => ret tt
  | c :: str' => shell_putchar c ;;; shell_print str'
  end.
End console.

(** ** Specification *)

(** Does pixel [i] lie on the glyph of [c] drawn at [(x, y)]? *)
Definition char_on (pps x y c i : Z) : bool :=
  let row := i / pps - y in
  let col := i mod pps - x in
  match font (u8 c) with
  | Some glyph =>
      (0 <=? row) && (row <? 8) && (0 <=? col) && (col <? 8) &&
      Z.testbit (glyph !!! Z.to_nat row) (7 - col)
  | None => false
  end.

(** A character cell: position and character. *)
Definition cell : Type := Z * Z * Z.

Definition cells_on (pps : Z) (cs : list cell) (i : Z) : bool :=
  existsb (fun '(x, y, c) => char_on pps x y c i) cs.

(** The pixels of [m] with the cells painted over them. *)
Definition painted (pps color : Z) (cs : list cell) (m m' : mem) : Prop :=
  forall i, mget m' i = if cells_on pps cs i then color else mget m i.

(** The cell fits the framebuffer. *)
Definition cell_fits (pps fb_len : Z) (ce : cell) : Prop :=
  let '(x, y, c) := ce in
  0 <= x /\ x + 8 <= pps /\ 0 <= y /\ (y + 8) * pps <= fb_len /\ 0 <= u8 c < 128.

Lemma font_lookup c : 0 <= c < 128 -> exists glyph, font c = Some glyph /\ length glyph = 8%nat.
Proof.
  intros Hc.
  assert (H : forallb (fun c => match font c with Some g => (length g =? 8)%nat | None => false end)
                (seqZ 0 128) = true) by (vm_compute; reflexivity).
  rewrite forallb_forall in H. specialize (H c). rewrite <- list_elem_of_In, elem_of_seqZ in H.
  specialize (H ltac:(lia)). destruct (font c) as [g|]; [|done].
  exists g. split; [done|]. by apply Nat.eqb_eq.
Qed.

Lemma font_none c : ~ (0 <= c < 128) -> font c = None.
Proof.
  intros Hc. unfold font. destruct (Z.leb_spec 0 c), (Z.ltb_spec c 128); cbn [andb]; try done. lia.
Qed.

(** The mask [0x80 >> col] selects bit [7 - col]. *)
Lemma land_mask v col : 0 <= col < 8 -> (Z.land v (Z.shiftr 0x80 col) =? 0) = negb (Z.testbit v (7 - col)).
Proof.
  intros Hc. rewrite <- land_bit by lia. do 2 f_equal.
  rewrite Z.shiftl_mul_pow2, Z.shiftr_div_pow2, Z.mul_1_l by lia. change 0x80 with (2 ^ 7).
  by rewrite <- Z.pow_sub_r by lia.
Qed.

Lemma index_split pps r c : 0 <= c < pps -> (r * pps + c) / pps = r /\ (r * pps + c) mod pps = c.
Proof.
  intros Hc. split.
  - rewrite Z.div_add_l by lia. rewrite Z.div_small by lia. lia.
  - rewrite Z.add_comm, Z.mod_add, Z.mod_small by lia. done.
Qed.

Section draw.
Context (pps fb_len : Z).
Hypothesis Hlen : fb_len <= 2 ^ 32.

Lemma wp_fb_store i v (Q : unit -> con -> Prop) s :
  0 <= i < fb_len -> Q tt (Con (mput (pixels s) i v) (cur_x s) (cur_y s)) ->
  wp (fb_store fb_len i v) Q s.
Proof.
  intros Hi HQ. unfold wp, fb_store.
  destruct (Z.leb_spec 0 i), (Z.ltb_spec i fb_len); try lia. exact HQ.
Qed.

(** The part of a glyph drawn when the loops stand at [(row, col)]. *)
Definition char_upto (x y c row col i : Z) : bool :=
  char_on pps x y c i &&
  ((i / pps - y <? row) || ((i / pps - y =? row) && (i mod pps - x <? col))).

Lemma pixel_index_in x y : 0 <= x < pps -> 0 <= y -> (y + 1) * pps <= fb_len ->
  pixel_index pps x y = y * pps + x /\ 0 <= y * pps + x < fb_len.
Proof.
  intros Hx Hy Hb. unfold pixel_index.
  assert (y <= y * pps) by nia. rewrite (u32_small y), (u32_small x), u32_small by lia. lia.
Qed.

Lemma char_on_range x y c i : char_on pps x y c i = true ->
  0 <= i / pps - y < 8 /\ 0 <= i mod pps - x < 8.
Proof. unfold char_on. destruct (font (u8 c)); [|done]. rewrite !andb_true_iff. lia. Qed.

(** The pixel the loops look at. *)
Lemma char_on_at x y c glyph row col :
  font (u8 c) = Some glyph -> 0 <= row < 8 -> 0 <= col < 8 -> 0 <= x -> x + 8 <= pps ->
  char_on pps x y c ((y + row) * pps + (x + col)) = Z.testbit (glyph !!! Z.to_nat row) (7 - col).
Proof.
  intros Eg Hr Hc Hx1 Hx2.
  destruct (index_split pps (y + row) (x + col) ltac:(lia)) as [Ed Em].
  unfold char_on. rewrite Eg, Ed, Em. replace (y + row - y) with row by lia.
  replace (x + col - x) with col by lia.
  destruct (Z.leb_spec 0 row), (Z.ltb_spec row 8), (Z.leb_spec 0 col), (Z.ltb_spec col 8);
    (lia || done).
Qed.

Ltac z_cases :=
  repeat match goal with
    | |- context [?a <? ?b] => destruct (Z.ltb_spec a b)
    | |- context [?a =? ?b] => destruct (Z.eqb_spec a b)
    end; cbn [andb orb]; try lia; try done.

Lemma char_upto_start x y c i : char_upto x y c 0 0 i = false.
Proof.
  unfold char_upto. destruct (char_on pps x y c i) eqn:Eo; [|done].
  apply char_on_range in Eo. cbn [andb]. z_cases.
Qed.

Lemma char_upto_end x y c i : char_upto x y c 8 0 i = char_on pps x y c i.
Proof.
  unfold char_upto. destruct (char_on pps x y c i) eqn:Eo; [|done].
  apply char_on_range in Eo. cbn [andb]. z_cases.
Qed.

Lemma char_upto_row x y c row i : char_upto x y c row 8 i = char_upto x y c (row + 1) 0 i.
Proof.
  unfold char_upto. destruct (char_on pps x y c i) eqn:Eo; [|done].
  apply char_on_range in Eo. cbn [andb]. z_cases.
Qed.

Lemma char_upto_step x y c row col i :
  0 <= col -> 0 <= x + col < pps -> char_upto x y c row (col + 1) i =
    char_upto x y c row col i || (char_on pps x y c i && (i =? (y + row) * pps + (x + col))).
Proof.
  intros Hc Hp. unfold char_upto. destruct (char_on pps x y c i) eqn:Eo; [|done].
  apply char_on_range in Eo. cbn [andb]. pose proof (Z.div_mod i pps ltac:(lia)).
  assert (i = (y + row) * pps + (x + col) <-> i / pps - y = row /\ i mod pps - x = col).
  { split; [|intros [<- <-]; lia]. intros ->.
    destruct (index_split pps (y + row) (x + col) Hp) as [-> ->]. lia. }
  z_cases.
Qed.

Lemma wp_draw_char x y c color (Q : unit -> con -> Prop) s :
  cell_fits pps fb_len (x, y, c) ->
  (forall m, painted pps color [(x, y, c)] (pixels s) m -> Q tt (Con m (cur_x s) (cur_y s))) ->
  wp (draw_char pps fb_len x y c color) Q s.
Proof.
  intros (Hx1 & Hx2 & Hy1 & Hy2 & Hc) HQ. unfold draw_char.
  destruct (font_lookup (u8 c) Hc) as (glyph & Eg & _). rewrite Eg.
  set (I row col w := cur_x w = cur_x s /\ cur_y w = cur_y s /\
    forall i, mget (pixels w) i = if char_upto x y c row col i then color else mget (pixels s) i).
  apply (wp_cfor_ (fun row w => I row 0 w)).
  - split_and!; [done..|]. intros i. by rewrite char_upto_start.
  - intros row w Hrow Hw. apply (wp_cfor_ (fun col w => I row col w)); [done| |].
    + intros col w' Hcol (H1 & H2 & H3). rewrite land_mask by lia.
      destruct (pixel_index_in (x + col) (y + row)) as [Ei Hi]; [lia..|nia|].
      pose proof (char_on_at x y c glyph row col Eg ltac:(lia) ltac:(lia) Hx1 Hx2) as Hbit.
      destruct (Z.testbit _ (7 - col)); cbn [negb].
      * rewrite Ei. apply wp_fb_store; [done|]. split_and!; [done..|]. intros i. cbn [pixels].
        rewrite mget_mput, H3, char_upto_step by lia.
        destruct (decide (i = (y + row) * pps + (x + col))) as [->|Hne].
        -- rewrite Hbit, Z.eqb_refl. by rewrite orb_true_r.
        -- apply Z.eqb_neq in Hne. by rewrite Hne, andb_false_r, orb_false_r.
      * apply wp_ret. split_and!; [done..|]. intros i. rewrite H3, char_upto_step by lia.
        destruct (Z.eqb_spec i ((y + row) * pps + (x + col))) as [->|Hne].
        -- by rewrite Hbit, orb_false_r.
        -- by rewrite andb_false_r, orb_false_r.
    + intros w' (H1 & H2 & H3). split_and!; [done..|]. intros i. by rewrite H3, char_upto_row.
  - intros [p cx cy] (H1 & H2 & H3). cbn in H1, H2. subst. apply HQ. intros i. rewrite H3.
    rewrite char_upto_end. unfold cells_on. cbn [existsb]. by rewrite orb_false_r.
Qed.
End draw.

(** ** Strings and the cursor *)

(** The cells of a string drawn from [(x, y)], 9 pixels apart. *)
Fixpoint string_cells (x y : Z) (str : list Z) : list cell :=
  match str with
  | [] => []
  | c :: str' => (x, y, c) :: string_cells (x + 9) y str'
  end.

(** The cursor after one character: new line at a newline or after column 80. *)
Definition advance (x y c : Z) : Z * Z :=
  if c =? 10 then (0, y + 10) else if 80 <? x + 1 then (0, y + 10) else (x + 1, y).

(** The cells a text occupies on the console and the cursor after it. *)
Fixpoint layout (x y : Z) (str : list Z) : list cell :=
  match str with
  | [] => []
  | c :: str' =>
      (if c =? 10 then [] else [(x * 9, y, c)]) ++
      layout (advance x y c).1 (advance x y c).2 str'
  end.

Fixpoint cursor_end (x y : Z) (str : list Z) : Z * Z :=
  match str with
  | [] => (x, y)
  | c :: str' => cursor_end (advance x y c).1 (advance x y c).2 str'
  end.

Definition white : Z := 0xFFFFFF.

Lemma painted_nil pps color m : painted pps color [] m m.
Proof. by intros i. Qed.

Lemma cells_on_app pps cs1 cs2 i :
  cells_on pps (cs1 ++ cs2) i = cells_on pps cs1 i || cells_on pps cs2 i.
Proof. apply existsb_app. Qed.

Lemma painted_app pps color cs1 cs2 m m1 m2 :
  painted pps color cs1 m m1 -> painted pps color cs2 m1 m2 -> painted pps color (cs1 ++ cs2) m m2.
Proof.
  intros H1 H2 i. rewrite H2, H1, cells_on_app.
  by destruct (cells_on pps cs1 i), (cells_on pps cs2 i).
Qed.

Lemma advance_range x y c : 0 <= x <= 80 -> 0 <= (advance x y c).1 <= 80 /\
  y <= (advance x y c).2 <= y + 10.
Proof.
  intros Hx. unfold advance. destruct (c =? 10); [simpl; lia|].
  destruct (Z.ltb_spec 80 (x + 1)); simpl; lia.
Qed.

Lemma cursor_end_range x y str : 0 <= x <= 80 ->
  0 <= (cursor_end x y str).1 <= 80 /\
  y <= (cursor_end x y str).2 <= y + 10 * Z.of_nat (length str).
Proof.
  revert x y. induction str as [|c str IH]; intros x y Hx; cbn [cursor_end length]; [simpl; lia|].
  pose proof (advance_range x y c Hx) as [H1 H2]. specialize (IH _ (advance x y c).2 H1). lia.
Qed.

Lemma layout_fits pps fb_len x y str :
  0 <= x <= 80 -> 0 <= y -> 728 <= pps -> Forall (fun c => 0 <= u8 c < 128) str ->
  ((cursor_end x y str).2 + 8) * pps <= fb_len ->
  Forall (cell_fits pps fb_len) (layout x y str).
Proof.
  revert x y. induction str as [|c str IH]; intros x y Hx Hy Hp Hs Hb; cbn [layout]; [constructor|].
  apply Forall_cons_1 in Hs as [Hc Hs]. cbn [cursor_end] in Hb.
  pose proof (advance_range x y c Hx) as [H1 H2].
  pose proof (cursor_end_range _ (advance x y c).2 str H1) as [_ H3].
  apply Forall_app. split; [|apply IH; (done || lia)].
  destruct (c =? 10); [constructor|]. repeat constructor; try lia. nia.
Qed.

Section text.
Context (pps fb_len : Z).
Hypothesis Hlen : fb_len <= 2 ^ 32.

Lemma wp_draw_string_from i x y str color (Q : unit -> con -> Prop) s :
  0 <= i -> 0 <= x -> x + (i + Z.of_nat (length str)) * 9 < 2 ^ 31 ->
  Forall (cell_fits pps fb_len) (string_cells (x + i * 9) y str) ->
  (forall m, painted pps color (string_cells (x + i * 9) y str) (pixels s) m ->
     Q tt (Con m (cur_x s) (cur_y s))) ->
  wp (draw_string_from pps fb_len i x y str color) Q s.
Proof.
  revert i s. induction str as [|c str IH]; intros i s Hi Hx Hb Hf HQ; cbn [draw_string_from].
  - apply wp_ret. destruct s as [p cx cy]. by apply HQ.
  - cbn [string_cells] in *. apply Forall_cons_1 in Hf as [Hc Hf]. cbn [length] in Hb.
    rewrite i32_small by lia. apply wp_bind, (wp_draw_char pps fb_len Hlen); [done|].
    intros m1 Hm1. replace (x + i * 9 + 9) with (x + (i + 1) * 9) in * by lia.
    apply IH; [lia..|done|]. cbn [pixels cur_x cur_y]. intros m2 Hm2. apply HQ.
    by apply (painted_app _ _ [_] _ _ m1).
Qed.

Lemma wp_draw_string x y str color (Q : unit -> con -> Prop) s :
  0 <= x -> x + Z.of_nat (length str) * 9 < 2 ^ 31 ->
  Forall (cell_fits pps fb_len) (string_cells x y str) ->
  (forall m, painted pps color (string_cells x y str) (pixels s) m ->
     Q tt (Con m (cur_x s) (cur_y s))) ->
  wp (draw_string pps fb_len x y str color) Q s.
Proof.
  intros Hx Hb Hf HQ. pose proof (wp_draw_string_from 0 x y str color Q s) as Hw.
  replace (x + 0 * 9) with x in Hw by lia. apply Hw; [lia..|exact Hf|exact HQ].
Qed.

Lemma wp_putchar c (Q : unit -> con -> Prop) s :
  0 <= cur_x s <= 80 -> 0 <= cur_y s -> (advance (cur_x s) (cur_y s) c).2 < 2 ^ 31 ->
  Forall (cell_fits pps fb_len) (layout (cur_x s) (cur_y s) [c]) ->
  (forall m, painted pps white (layout (cur_x s) (cur_y s) [c]) (pixels s) m ->
     Q tt (Con m (advance (cur_x s) (cur_y s) c).1 (advance (cur_x s) (cur_y s) c).2)) ->
  wp (shell_putchar pps fb_len c) Q s.
Proof.
  destruct s as [p x y]. cbn [cur_x cur_y pixels layout]. intros Hx Hy Hb Hf HQ.
  unfold shell_putchar, advance in *. apply wp_bind, wp_get. cbn [cur_x cur_y].
  destruct (c =? 10); cbn [app] in *.
  - apply wp_modify. cbn [pixels]. cbn [snd] in Hb. rewrite i32_small by lia. by apply HQ.
  - rewrite (i32_small (x * 9)) by lia. apply Forall_cons_1 in Hf as [Hf _].
    apply wp_bind, (wp_draw_char pps fb_len Hlen); [done|]. intros m Hm. cbn [cur_x cur_y].
    specialize (HQ m Hm). apply wp_bind, wp_get. apply wp_bind, wp_modify. cbn [pixels cur_x cur_y].
    rewrite (i32_small (x + 1)) by lia. apply wp_bind, wp_get. cbn [cur_x cur_y].
    destruct (80 <? x + 1); [|by apply wp_ret].
    apply wp_modify. cbn [pixels snd] in *. by rewrite i32_small by lia.
Qed.

Lemma wp_shell_print str (Q : unit -> con -> Prop) s :
  0 <= cur_x s <= 80 -> 0 <= cur_y s -> (cursor_end (cur_x s) (cur_y s) str).2 < 2 ^ 31 ->
  Forall (cell_fits pps fb_len) (layout (cur_x s) (cur_y s) str) ->
  (forall m, painted pps white (layout (cur_x s) (cur_y s) str) (pixels s) m ->
     Q tt (Con m (cursor_end (cur_x s) (cur_y s) str).1 (cursor_end (cur_x s) (cur_y s) str).2)) ->
  wp (shell_print pps fb_len str) Q s.
Proof.
  revert s. induction str as [|c str IH]; intros [p x y] Hx Hy Hb Hf HQ; cbn [shell_print].
  - apply wp_ret. by apply HQ, painted_nil.
  - cbn [cur_x cur_y pixels length] in *. cbn [layout cursor_end] in *.
    apply Forall_app in Hf as [Hf1 Hf2]. pose proof (advance_range x y c Hx) as [H1 H2].
    pose proof (cursor_end_range _ (advance x y c).2 str H1) as [_ H3].
    apply wp_bind, wp_putchar; cbn [cur_x cur_y pixels]; [done|lia|lia| |].
    + cbn [layout]. by rewrite app_nil_r.
    + intros m1 Hm1. cbn [layout] in Hm1. rewrite app_nil_r in Hm1.
      apply IH; cbn [cur_x cur_y pixels]; [done|lia|done|done|].
      intros m2 Hm2. by apply HQ, (painted_app _ _ _ _ _ m1).
Qed.
End text.

(** ** Drawing anywhere inside the framebuffer *)

Section anywhere.
Context (pps fb_len : Z).
Hypothesis Hlen : fb_len <= 2 ^ 32.

Lemma pixel_index_mod x y : pixel_index pps x y = (y * pps + x) mod 2 ^ 32.
Proof.
  unfold pixel_index, wrap. rewrite <- Z.add_mod_idemp_l by done.
  rewrite Z.mul_mod_idemp_l by done. rewrite Z.add_mod_idemp_l, Z.add_mod_idemp_r by done. done.
Qed.

(** Also when the cell starts left of the first column. *)
Definition cell_inside (x y : Z) : Prop :=
  0 <= y * pps + x /\ x + 8 <= pps /\ 0 <= y /\ (y + 8) * pps <= fb_len.

Lemma pixel_inside x y col row : cell_inside x y -> 0 <= col < 8 -> 0 <= row < 8 ->
  0 <= pixel_index pps (x + col) (y + row) < fb_len.
Proof.
  intros (H1 & H2 & H3 & H4) Hc Hr. rewrite pixel_index_mod.
  assert (0 <= (y + row) * pps + (x + col) < fb_len).
  { destruct (decide (0 <= pps)); nia. }
  rewrite Z.mod_small by lia. done.
Qed.

(** The pixel at [(row, col)] of a cell at [(x, y)]; left of the first column
    it falls on the scan line above. *)
Definition cell_px (x y row col : Z) : Z := (y + row) * pps + (x + col).

(** Is [i] one of the pixels of the 8 by 8 cell at [(x, y)] that [test]
    selects? *)
Definition px_of (test : Z -> Z -> bool) (x y i : Z) : bool :=
  existsb (fun row => existsb (fun col => test row col && (i =? cell_px x y row col))
    (seqZ 0 8)) (seqZ 0 8).

(** Is it one of the whole cell, of the glyph of [c]? *)
Definition block_px (x y i : Z) : bool := px_of (fun _ _ => true) x y i.

Definition char_px (x y c i : Z) : bool :=
  match font (u8 c) with
  | Some glyph => px_of (fun row col => Z.testbit (glyph !!! Z.to_nat row) (7 - col)) x y i
  | None => false
  end.

Lemma pixel_index_cell x y col row : cell_inside x y -> 0 <= col < 8 -> 0 <= row < 8 ->
  pixel_index pps (x + col) (y + row) = cell_px x y row col.
Proof.
  intros (H1 & H2 & H3 & H4) Hc Hr. rewrite pixel_index_mod. unfold cell_px.
  assert (0 <= (y + row) * pps + (x + col) < fb_len) by (destruct (decide (0 <= pps)); nia).
  by rewrite Z.mod_small by lia.
Qed.

Lemma existsb_next (f : Z -> bool) i : 0 <= i ->
  existsb f (seqZ 0 (i + 1)) = existsb f (seqZ 0 i) || f i.
Proof.
  intros Hi. replace (i + 1) with (Z.of_nat (S (Z.to_nat i))) by lia.
  rewrite seqZ_S, existsb_app, Z2Nat.id by lia. cbn [existsb]. by rewrite orb_false_r, Z.add_0_l.
Qed.

(** Two loops over a cell, storing [v] in the pixels that [test] selects. *)
Lemma wp_each_pixel test x y v body (Q : unit -> con -> Prop) s :
  (forall row col w (Q' : unit -> con -> Prop), 0 <= row < 8 -> 0 <= col < 8 ->
     cur_x w = cur_x s -> cur_y w = cur_y s ->
     Q' tt (Con (if test row col : bool then mput (pixels w) (cell_px x y row col) v else pixels w)
              (cur_x w) (cur_y w)) ->
     wp (body row col) Q' w) ->
  (forall m, (forall i, mget m i = if px_of test x y i then v else mget (pixels s) i) ->
     Q tt (Con m (cur_x s) (cur_y s))) ->
  wp (cfor_ 8 0 (fun row => cfor_ 8 0 (body row))) Q s.
Proof.
  intros Hbody HQ. set (sel i row col := test row col && (i =? cell_px x y row col)).
  set (rows n i := existsb (fun row => existsb (sel i row) (seqZ 0 8)) (seqZ 0 n)).
  set (I row col w := cur_x w = cur_x s /\ cur_y w = cur_y s /\ forall i, mget (pixels w) i =
    if rows row i || existsb (sel i row) (seqZ 0 col) then v else mget (pixels s) i).
  apply (wp_cfor_ (fun row w => I row 0 w)).
  - split_and!; [done..|]. intros i. by rewrite orb_false_r.
  - intros row w Hrow Hw. apply (wp_cfor_ (fun col w => I row col w)); [done| |].
    + intros col w' Hcol (H1 & H2 & H3). apply Hbody; [lia..|done|done|].
      split_and!; [done..|]. intros i. cbn [pixels]. rewrite existsb_next, orb_assoc by lia.
      change (sel i row col) with (test row col && (i =? cell_px x y row col)). destruct (test row col); cbn [andb]; [|by rewrite orb_false_r].
      rewrite mget_mput, H3. destruct (decide (i = cell_px x y row col)) as [->|Hne].
      * by rewrite Z.eqb_refl, orb_true_r.
      * apply Z.eqb_neq in Hne. by rewrite Hne, orb_false_r.
    + intros w' (H1 & H2 & H3). split_and!; [done..|]. intros i. rewrite H3.
      unfold rows at 2. rewrite existsb_next by lia. by rewrite orb_false_r.
  - intros [p cx cy] (H1 & H2 & H3). cbn in H1, H2. subst. apply HQ. intros i. rewrite H3.
    by rewrite orb_false_r.
Qed.

Lemma wp_draw_char_inside x y c color (Q : unit -> con -> Prop) s :
  cell_inside x y -> 0 <= u8 c < 128 ->
  (forall m, (forall i, mget m i = if char_px x y c i then color else mget (pixels s) i) ->
     Q tt (Con m (cur_x s) (cur_y s))) ->
  wp (draw_char pps fb_len x y c color) Q s.
Proof.
  intros Hin Hc HQ. unfold draw_char, char_px in *.
  destruct (font_lookup (u8 c) Hc) as (glyph & Eg & _). rewrite Eg in *.
  eapply wp_each_pixel; [|exact HQ]. intros row col w Q' Hrow Hcol _ _. rewrite land_mask by lia.
  destruct (Z.testbit _ _); cbn [negb]; intros HQ'; [|apply wp_ret; by destruct w].
  apply wp_fb_store; [by apply pixel_inside|]. by rewrite pixel_index_cell.
Qed.

Lemma wp_putchar_inside c (Q : unit -> con -> Prop) s :
  -1000 <= cur_x s <= 80 -> 0 <= cur_y s < 2 ^ 30 -> cell_inside (cur_x s * 9) (cur_y s) ->
  0 <= c < 128 -> c <> 10 ->
  (forall m, (forall i, mget m i =
       if char_px (cur_x s * 9) (cur_y s) c i then white else mget (pixels s) i) ->
     Q tt (Con m (advance (cur_x s) (cur_y s) c).1 (advance (cur_x s) (cur_y s) c).2)) ->
  wp (shell_putchar pps fb_len c) Q s.
Proof.
  destruct s as [p x y]. cbn [cur_x cur_y pixels]. intros Hx Hy Hin Hc Hc' HQ.
  unfold shell_putchar, advance in *. apply wp_bind, wp_get. cbn [cur_x cur_y].
  destruct (Z.eqb_spec c 10); [done|]. rewrite (i32_small (x * 9)) by lia.
  apply wp_bind, wp_draw_char_inside; [done|rewrite u8_small; lia|]. intros m Hm. cbn [cur_x cur_y].
  specialize (HQ m Hm). apply wp_bind, wp_get. apply wp_bind, wp_modify. cbn [pixels cur_x cur_y].
  rewrite (i32_small (x + 1)) by lia. apply wp_bind, wp_get. cbn [cur_x cur_y].
  destruct (80 <? x + 1); [|by apply wp_ret].
  apply wp_modify. cbn [pixels]. by rewrite i32_small by lia.
Qed.

(** On the screen proper the row and column of a pixel tell. *)
Lemma px_of_on test x y i : 0 <= x -> x + 8 <= pps ->
  px_of test x y i = (0 <=? i / pps - y) && (i / pps - y <? 8) && (0 <=? i mod pps - x) &&
                     (i mod pps - x <? 8) && test (i / pps - y) (i mod pps - x).
Proof.
  intros Hx Hp. apply eq_true_iff_eq. unfold px_of, cell_px. rewrite existsb_exists.
  rewrite !andb_true_iff, !Z.leb_le, !Z.ltb_lt. split.
  - intros (row & Hr%list_elem_of_In%elem_of_seqZ & (col & Hc%list_elem_of_In%elem_of_seqZ &
      [Ht Hi%Z.eqb_eq]%andb_true_iff)%existsb_exists).
    destruct (index_split pps (y + row) (x + col) ltac:(lia)) as [Ed Em]. rewrite <- Hi in Ed, Em.
    rewrite Ed, Em. replace (y + row - y) with row by lia. replace (x + col - x) with col by lia.
    split; [lia|done].
  - intros ((((H1 & H2) & H3) & H4) & Ht). exists (i / pps - y). split; [apply list_elem_of_In, elem_of_seqZ; lia|].
    apply existsb_exists. exists (i mod pps - x). split; [apply list_elem_of_In, elem_of_seqZ; lia|].
    rewrite Ht. apply Z.eqb_eq. pose proof (Z.div_mod i pps ltac:(lia)). lia.
Qed.

Lemma char_px_on x y c i : 0 <= x -> x + 8 <= pps -> char_px x y c i = char_on pps x y c i.
Proof.
  intros Hx Hp. unfold char_px, char_on. destruct (font (u8 c)); [|done]. by apply px_of_on.
Qed.
End anywhere.

(** *** Where the cells of a text lie *)

Lemma layout_app x y s1 s2 :
  layout x y (s1 ++ s2) = layout x y s1 ++ layout (cursor_end x y s1).1 (cursor_end x y s1).2 s2.
Proof.
  revert x y. induction s1 as [|c s1 IH]; intros x y; [done|]. cbn [app layout cursor_end].
  by rewrite IH, app_assoc.
Qed.

Lemma cursor_end_app x y s1 s2 :
  cursor_end x y (s1 ++ s2) = cursor_end (cursor_end x y s1).1 (cursor_end x y s1).2 s2.
Proof. revert x y. induction s1 as [|c s1 IH]; intros x y; [done|]. apply IH. Qed.

(** The cursor goes right and down. *)
Lemma cursor_end_after x y s :
  y + 10 <= (cursor_end x y s).2 \/ (cursor_end x y s).2 = y /\ x <= (cursor_end x y s).1.
Proof.
  revert x y. induction s as [|c s IH]; intros x y; cbn [cursor_end]; [right; simpl; lia|].
  specialize (IH (advance x y c).1 (advance x y c).2). revert IH. unfold advance.
  destruct (c =? 10); [|destruct (80 <? x + 1)]; cbn [fst snd]; lia.
Qed.

(** The cells of a text lie above the line of the cursor or left of it. *)
Lemma layout_before x y s :
  Forall (fun ce : cell => let '(cx, cy, _) := ce in
    cy + 10 <= (cursor_end x y s).2 \/
    cy = (cursor_end x y s).2 /\ cx + 9 <= (cursor_end x y s).1 * 9) (layout x y s).
Proof.
  revert x y. induction s as [|c s IH]; intros x y; cbn [layout cursor_end]; [constructor|].
  apply Forall_app. split; [|apply IH].
  pose proof (cursor_end_after (advance x y c).1 (advance x y c).2 s) as Ha. revert Ha.
  unfold advance. destruct (c =? 10); [constructor|].
  destruct (80 <? x + 1); cbn [fst snd]; intros Ha; (constructor; [lia|constructor]).
Qed.

(** ** Properties *)

(** C33: [shell_print] of ASCII text on a framebuffer at least 728 pixels wide
    and tall enough for the lines the text takes paints exactly the glyphs of
    its layout, white on what was there, changes no other pixel, and leaves the
    cursor after the text, wrapped after column 80. *)
Theorem shell_print_spec pps fb_len str s :
  fb_len <= 2 ^ 32 -> 728 <= pps -> 0 <= cur_x s <= 80 -> 0 <= cur_y s ->
  Forall (fun c => 0 <= c < 128) str ->
  ((cursor_end (cur_x s) (cur_y s) str).2 + 8) * pps <= fb_len ->
  wp (shell_print pps fb_len str) (fun _ s' =>
    painted pps white (layout (cur_x s) (cur_y s) str) (pixels s) (pixels s') /\
    (cur_x s', cur_y s') = cursor_end (cur_x s) (cur_y s) str /\ 0 <= cur_x s' <= 80) s.
Proof.
  intros Hl Hp Hx Hy Hs Hb.
  assert (Hs' : Forall (fun c => 0 <= u8 c < 128) str).
  { eapply Forall_impl; [exact Hs|]. intros c Hc. cbv beta in *. rewrite u8_small; lia. }
  pose proof (cursor_end_range (cur_x s) (cur_y s) str Hx) as [He1 He2].
  apply wp_shell_print; [done..| |by apply layout_fits|]; [nia|].
  intros m Hm. cbn [pixels cur_x cur_y]. split_and!; [done|by destruct (cursor_end _ _ _)|lia..].
Qed.

(** Pixel [(col, row)] of the glyph is set. *)
Definition lit (c col row : Z) : bool :=
  match font (u8 c) with
  | Some glyph => Z.testbit (glyph !!! Z.to_nat row) (7 - col)
  | None => false
  end.

(** The glyph has a set pixel. *)
Definition visible (c : Z) : bool :=
  existsb (fun row => existsb (fun col => lit c col row) (seqZ 0 8)) (seqZ 0 8).

Lemma fb_store_out fb_len i v s r : fb_len <= i -> fb_store fb_len i v s <> Done r.
Proof.
  intros Hi. unfold fb_store. destruct (Z.ltb_spec i fb_len); [lia|]. by rewrite andb_false_r.
Qed.

Lemma draw_char_undefined pps fb_len x y c color s r col row :
  0 <= col < 8 -> 0 <= row < 8 -> lit c col row = true ->
  fb_len <= pixel_index pps (x + col) (y + row) ->
  draw_char pps fb_len x y c color s <> Done r.
Proof.
  intros Hc Hr Hl Hi Hrun. unfold draw_char, lit in *.
  destruct (font (u8 c)) as [glyph|]; [|done].
  apply (cfor__iter _ _ _ _ _ row) in Hrun as (w1 & r1 & Hrun); [|lia].
  apply (cfor__iter _ _ _ _ _ col) in Hrun as (w2 & r2 & Hrun); [|lia].
  rewrite land_mask, Hl in Hrun by done. cbn [negb] in Hrun.
  by eapply fb_store_out in Hrun.
Qed.

(** The console never scrolls: once the cursor has moved below the last
    line of the screen, putting any visible character writes outside the
    framebuffer. *)
Theorem putchar_off_screen pps height c s r :
  0 < pps -> 0 <= cur_x s <= 80 -> 728 <= pps -> height <= cur_y s -> 0 <= height ->
  (cur_y s + 8) * pps <= 2 ^ 32 -> visible c = true -> c <> 10 ->
  shell_putchar pps (height * pps) c s <> Done r.
Proof.
  intros Hp Hx Hw Hy Hh Hb Hv Hc Hrun. unfold shell_putchar in Hrun.
  unfold bind at 1, get in Hrun. destruct (Z.eqb_spec c 10); [done|].
  unfold bind at 1 in Hrun. destruct (draw_char _ _ _ _ _ _ s) as [[u s1]| |] eqn:E; [|done..].
  unfold visible in Hv. apply existsb_exists in Hv as (row & Hrow & Hv).
  apply existsb_exists in Hv as (col & Hcol & Hv).
  apply list_elem_of_In, elem_of_seqZ in Hrow, Hcol.
  eapply draw_char_undefined in E; [done| | |exact Hv|]; [lia..|].
  rewrite i32_small by lia. unfold pixel_index.
  assert (cur_y s <= cur_y s * pps) by nia.
  rewrite (u32_small (cur_y s + row)), (u32_small (cur_x s * 9 + col)), u32_small by nia. nia.
Qed.

(** The font has 128 glyphs: drawing a byte of 128 or more reads past it. *)
Theorem draw_char_non_ascii pps fb_len x y c color s :
  draw_char pps fb_len x y c color s = Undef \/ 0 <= u8 c < 128.
Proof.
  destruct (decide (0 <= u8 c < 128)) as [|Hn]; [by right|left].
  unfold draw_char. by rewrite font_none.
Qed.

(** Every printable ASCII character but the space has a visible glyph, so a
    printed text is legible. *)
Theorem printable_visible c : 33 <= c < 127 -> visible c = true.
Proof.
  assert (H : forallb visible (seqZ 33 94) = true) by (vm_compute; reflexivity).
  rewrite forallb_forall in H. intros Hc. apply H, list_elem_of_In, elem_of_seqZ. lia.
Qed.

(** [draw_string] of ASCII text that fits the framebuffer sets exactly the
    pixels of its glyphs, 9 pixels apart, to the colour, and moves no
    cursor. *)
Theorem draw_string_spec pps fb_len x y str color s :
  fb_len <= 2 ^ 32 -> 0 <= x -> 0 <= y -> Forall (fun c => 0 <= c < 128) str ->
  x + 9 * Z.of_nat (length str) <= pps -> pps < 2 ^ 31 -> (y + 8) * pps <= fb_len ->
  wp (draw_string pps fb_len x y str color) (fun _ s' =>
    painted pps color (string_cells x y str) (pixels s) (pixels s') /\
    cur_x s' = cur_x s /\ cur_y s' = cur_y s) s.
Proof.
  intros Hl Hx Hy Hs Hw Hp Hh. apply wp_draw_string; [done..|lia| |by intros m Hm].
  clear s Hp. revert x Hx Hw. induction Hs as [|c str Hc Hs IH]; intros x Hx Hw; cbn [string_cells length] in *;
    constructor; [|apply IH; lia]. unfold cell_fits. rewrite u8_small by lia. lia.
Qed.

(** ** Witnesses *)

Definition screen0 : con := Con ∅ 0 0.
Definition screen_bottom : con := Con ∅ 0 768.

Lemma shell_print_spec_witness :
  wp (shell_print 1024 (768 * 1024) [72; 105; 10]) (fun _ s' =>
    painted 1024 white [(0, 0, 72); (9, 0, 105)] ∅ (pixels s') /\ (cur_x s', cur_y s') = (0, 10)) screen0.
Proof.
  eapply wp_mono.
  - apply (shell_print_spec 1024 (768 * 1024) [72; 105; 10] screen0); try (simpl; lia).
    repeat constructor; lia.
  - cbv beta. intros r s' (H1 & H2 & _). split; [exact H1|exact H2].
Defined.

Lemma putchar_off_screen_witness r :
  shell_putchar 1024 (768 * 1024) 65 screen_bottom <> Done r.
Proof. apply putchar_off_screen; try (simpl; lia); by vm_compute. Defined.

Lemma printable_visible_witness : visible 65 = true.
Proof. apply printable_visible. lia. Defined.

Lemma draw_string_spec_witness :
  wp (draw_string 1024 (768 * 1024) 0 10 [79; 75] 0x00FF00) (fun _ s' =>
    painted 1024 0x00FF00 [(0, 10, 79); (9, 10, 75)] ∅ (pixels s')) screen0.
Proof.
  eapply wp_mono.
  - apply (draw_string_spec 1024 (768 * 1024) 0 10 [79; 75] 0x00FF00 screen0); try (simpl; lia).
    repeat constructor; lia.
  - cbv beta. by intros r s' (H1 & _).
Defined.
