(* ===== verification/Keyboard.v ===== *)
(** The PS/2 keyboard input of [kernel/kernel.c]: the scancode tables and
    [read_key], over a keyboard controller reached by port input. *)
From S2P Require Import Prelude.

(** ** The controller *)

(** [inb]: a read of a port, which may change the controller's state. *)
Class PortIn (K : Type) := {
  port_in8 : Z -> K -> Z * K
}.

(** Documented behaviour of the controller (8042): bit 0 of the status port
    0x64 says a byte is ready at the data port 0x60; [kbd_wait n codes k] says
    that [codes] are the bytes still to come and the next one is ready after
    [n] more status reads; every wait is at most [lat] reads. *)
Class KbdModel (K : Type) `{PortIn K} (lat : nat) := {
  kbd_wait : nat -> list Z -> K -> Prop;
  kbd_not_ready n codes k :
    kbd_wait (S n) codes k ->
    let '(v, k') := port_in8 0x64 k in Z.testbit v 0 = false /\ kbd_wait n codes k';
  kbd_ready code codes k :
    kbd_wait 0 (code :: codes) k ->
    let '(v, k') := port_in8 0x64 k in Z.testbit v 0 = true /\ kbd_wait 0 (code :: codes) k';
  kbd_data code codes k :
    kbd_wait 0 (code :: codes) k ->
    let '(v, k') := port_in8 0x60 k in
    v = code /\ exists n, (n <= lat)%nat /\ kbd_wait n codes k'
}.

(** ** The scancode tables *)

Definition pad128 (l : list Z) : list Z := l ++ replicate (128 - length l) 0.

Definition scancode_map : list Z := pad128
  [0; 0; 49; 50; 51; 52; 53; 54; 55; 56; 57; 48; 45; 61; 8;
   0; 113; 119; 101; 114; 116; 121; 117; 105; 111; 112; 91; 93; 10;
   0; 97; 115; 100; 102; 103; 104; 106; 107; 108; 59; 39; 96;
   0; 92; 122; 120; 99; 118; 98; 110; 109; 44; 46; 47; 0;
   42; 0; 32].

Definition scancode_map_shift : list Z := pad128
  [0; 0; 33; 64; 35; 36; 37; 94; 38; 42; 40; 41; 95; 43; 8;
   0; 81; 87; 69; 82; 84; 89; 85; 73; 79; 80; 123; 125; 10;
   0; 65; 83; 68; 70; 71; 72; 74; 75; 76; 58; 34; 126;
   0; 124; 90; 88; 67; 86; 66; 78; 77; 60; 62; 63; 0;
   42; 0; 32].

(** ** [read_key] *)

(** The controller and [shift_pressed]. *)
Record kst (K : Type) := Kst { kbd : K; shift_pressed : Z }.
Arguments Kst {K} kbd shift_pressed.
Arguments kbd {K} k.
Arguments shift_pressed {K} k.

Section keyboard.
Context {K : Type} `{PortIn K}.

Definition inb (port : Z) : St (kst K) Z := fun s =>
  let '(v, k) := port_in8 port (kbd s) in Done (v, Kst k (shift_pressed s)).

Definition set_shift (b : Z) : St (kst K) unit := modify (fun s => Kst (kbd s) b).

(** [do status = inb (0x64); while ((status & 0x01) == 0);] *)
Definition wait_key (fuel : nat) : St (kst K) unit :=
  cloop fuel (fun _ : unit =>
    status <- inb 0x64 ;;
    if Z.land status 0x01 =? 0 then ret (Next tt) else ret (Exit tt)) tt.

Definition read_key (fuel : nat) : St (kst K) Z :=
  wait_key fuel ;;;
  scancode <- inb 0x60 ;;
  if (scancode =? 0x2A) || (scancode =? 0x36) then set_shift 1 ;;; ret 0
  else if (scancode =? 0xAA) || (scancode =? 0xB6) then set_shift 0 ;;; ret 0
  else if negb (Z.land scancode 0x80 =? 0) then ret 0
  else if scancode <? 128 then
    shift <- gets shift_pressed ;;
    if negb (shift =? 0) then ret (scancode_map_shift !!! Z.to_nat scancode)
    else ret (scancode_map !!! Z.to_nat scancode)
  else ret 0.
End keyboard.

(** ** Specification: decoding a stream of scancodes *)

(** The character a scancode stands for and the shift state after it. *)
Definition key_step (shift : bool) (code : Z) : Z * bool :=
  if bool_decide (code ∈ [0x2A; 0x36]) then (0, true)
  else if bool_decide (code ∈ [0xAA; 0xB6]) then (0, false)
  else if 128 <=? code then (0, shift)
  else ((if shift then scancode_map_shift else scancode_map) !!! Z.to_nat code, shift).

(** The characters of a stream, key releases and dead keys left out. *)
Fixpoint typed (shift : bool) (codes : list Z) : list Z :=
  match codes with
  | [] => []
  | code :: codes' =>
      let '(c, shift') := key_step shift code in
      (if c =? 0 then [] else [c]) ++ typed shift' codes'
  end.

Definition shift_val (b : bool) : Z := if b then 1 else 0.

Section spec.
Context {K : Type} `{PortIn K} (lat : nat) `{!KbdModel K lat}.

Lemma wp_inb port (Q : Z -> kst K -> Prop) s :
  (let '(v, k) := port_in8 port (kbd s) in Q v (Kst k (shift_pressed s))) -> wp (inb port) Q s.
Proof. unfold wp, inb. by destruct (port_in8 port (kbd s)). Qed.

Lemma wp_wait_key fuel n code codes (Q : unit -> kst K -> Prop) s :
  kbd_wait n (code :: codes) (kbd s) -> (n < fuel)%nat ->
  (forall k, kbd_wait 0 (code :: codes) k -> Q tt (Kst k (shift_pressed s))) ->
  wp (wait_key fuel) Q s.
Proof.
  intros Hw Hf HQ. unfold wait_key. revert n s Hw Hf HQ.
  induction fuel as [|fuel IH]; intros n s Hw Hf HQ; [lia|].
  cbn [cloop]. apply wp_bind, wp_bind, wp_inb. destruct n as [|n].
  - pose proof (kbd_ready _ _ _ Hw) as Hr. destruct (port_in8 0x64 (kbd s)) as [v k].
    destruct Hr as [Hv Hw']. change 0x01 with (Z.shiftl 1 0). rewrite land_bit, Hv by lia.
    cbn [negb]. by apply wp_ret, wp_ret, HQ.
  - pose proof (kbd_not_ready _ _ _ Hw) as Hr. destruct (port_in8 0x64 (kbd s)) as [v k].
    destruct Hr as [Hv Hw']. change 0x01 with (Z.shiftl 1 0). rewrite land_bit, Hv by lia.
    cbn [negb]. apply wp_ret. by apply (IH n); [|lia|].
Qed.

(** One call of [read_key] consumes one scancode. *)
Lemma wp_read_key fuel n code codes sh (Q : Z -> kst K -> Prop) s :
  kbd_wait n (code :: codes) (kbd s) -> (n < fuel)%nat -> 0 <= code < 256 ->
  shift_pressed s = shift_val sh ->
  (forall k m, (m <= lat)%nat -> kbd_wait m codes k ->
     Q (key_step sh code).1 (Kst k (shift_val (key_step sh code).2))) ->
  wp (read_key fuel) Q s.
Proof.
  intros Hw Hf Hc Hs HQ. unfold read_key.
  apply wp_bind, (wp_wait_key fuel n code codes); [done..|]. intros k Hk.
  apply wp_bind, wp_inb. cbn [kbd shift_pressed]. pose proof (kbd_data _ _ _ Hk) as Hd.
  destruct (port_in8 0x60 k) as [v k']. destruct Hd as (-> & m & Hm & Hk').
  specialize (HQ k' m Hm Hk'). rewrite Hs.
  unfold key_step in HQ. rewrite (bool_decide_ext _ (code = 0x2A \/ code = 0x36)) in HQ by set_solver.
  destruct (Z.eqb_spec code 0x2A), (Z.eqb_spec code 0x36); cbn [orb];
    try (rewrite bool_decide_eq_true_2 in HQ by lia; by apply wp_bind, wp_modify, wp_ret).
  rewrite bool_decide_eq_false_2 in HQ by lia.
  rewrite (bool_decide_ext _ (code = 0xAA \/ code = 0xB6)) in HQ by set_solver.
  destruct (Z.eqb_spec code 0xAA), (Z.eqb_spec code 0xB6); cbn [orb];
    try (rewrite bool_decide_eq_true_2 in HQ by lia; by apply wp_bind, wp_modify, wp_ret).
  rewrite bool_decide_eq_false_2 in HQ by lia.
  change (Z.land code 0x80) with (Z.land code (Z.shiftl 1 7)). rewrite land_bit, negb_involutive by lia.
  assert (Hbit : Z.testbit code 7 = (128 <=? code)).
  { rewrite Z.testbit_eqb by lia. change (2 ^ 7) with 128.
    destruct (Z.leb_spec 128 code).
    - assert (code / 128 = 1) as -> by (symmetry; apply (Z.div_unique_pos _ _ _ (code - 128)); lia). done.
    - by rewrite Z.div_small by lia. }
  rewrite Hbit. destruct (Z.leb_spec 128 code); [by apply wp_ret|].
  destruct (Z.ltb_spec code 128); [|lia].
  apply wp_bind, wp_gets. cbn [shift_pressed]. destruct sh; by apply wp_ret.
Qed.
End spec.

(** ** Properties *)

(** [read_key] waits for the controller, consumes exactly one scancode and
    returns the character [key_step] gives for it under the current shift
    state, recording the new shift state; it terminates whenever the next
    scancode arrives within the fuel. *)
Theorem read_key_spec {K} `{PortIn K} lat `{!KbdModel K lat} fuel n code codes sh s :
  kbd_wait n (code :: codes) (kbd s) -> (n < fuel)%nat -> 0 <= code < 256 ->
  shift_pressed s = shift_val sh ->
  wp (read_key fuel) (fun c s' => c = (key_step sh code).1 /\
    shift_pressed s' = shift_val (key_step sh code).2 /\
    exists m, (m <= lat)%nat /\ kbd_wait m codes (kbd s')) s.
Proof. intros. eapply wp_read_key; [done..|]. intros k m Hm Hk. by eauto. Qed.

(** Every printable ASCII character, newline and backspace can be typed: a
    scancode, with or without a shift key held, makes [read_key] return it. *)
Theorem every_key_typable c :
  32 <= c < 127 \/ c = 10 \/ c = 8 ->
  exists sh code, 0 <= code < 128 /\ key_step sh code = (c, sh).
Proof.
  assert (H : forallb (fun c => existsb (fun code =>
      bool_decide (key_step false code = (c, false)) || bool_decide (key_step true code = (c, true)))
      (seqZ 0 128)) ([10; 8] ++ seqZ 32 95) = true) by (vm_compute; reflexivity).
  rewrite forallb_forall in H. intros Hc. specialize (H c).
  rewrite <- list_elem_of_In, elem_of_app, elem_of_seqZ in H. specialize (H ltac:(rewrite !elem_of_cons; lia)).
  apply existsb_exists in H as (code & Hin & H).
  apply list_elem_of_In, elem_of_seqZ in Hin.
  apply orb_prop in H as [H%bool_decide_eq_true|H%bool_decide_eq_true]; [exists false, code|exists true, code];
    (split; [lia|done]).
Qed.

(** ** A simulated keyboard *)

(** The bytes to come and the status reads before the next one is ready. *)
Definition sim_kbd : Type := list Z * nat.

Definition sim_in8 (lat : nat) (port : Z) (k : sim_kbd) : Z * sim_kbd :=
  let '(codes, n) := k in
  match n with
  | S n' => (0, (codes, if port =? 0x64 then n' else n))
  | O =>
      match codes with
      | [] => (0, k)
      | code :: codes' => if port =? 0x64 then (1, k) else (code, (codes', lat))
      end
  end.

Definition sim_port_in (lat : nat) : PortIn sim_kbd := {| port_in8 := sim_in8 lat |}.

Lemma sim_kbd_model lat : @KbdModel sim_kbd (sim_port_in lat) lat.
Proof.
  refine (Build_KbdModel _ (sim_port_in lat) lat (fun n codes k => k = (codes, n)) _ _ _).
  - intros n codes k ->. by cbn.
  - intros code codes k ->. by cbn.
  - intros code codes k ->. split; [done|]. by exists lat.
Defined.

(** ** Witnesses *)

Lemma read_key_spec_witness :
  wp (@read_key sim_kbd (sim_port_in 3) 5) (fun c s' => c = 97 /\ shift_pressed s' = 0)
    (Kst ([0x1E; 0x1C], 2%nat) 0).
Proof.
  eapply wp_mono.
  - apply (@read_key_spec sim_kbd (sim_port_in 3) 3 (sim_kbd_model 3) 5 2 0x1E [0x1C] false);
      [reflexivity|lia|lia|reflexivity].
  - cbv beta. intros c s' (-> & -> & _). by vm_compute.
Defined.

Lemma every_key_typable_witness :
  exists sh code, 0 <= code < 128 /\ key_step sh code = (126, sh).
Proof. apply every_key_typable. lia. Defined.
