(* ===== verification/Shell.v ===== *)
(** The command shell, [kernel/shell.h] and [kernel/shell.c]: line editing,
    tokenisation in place, the commands and the command loop, on the console,
    the keyboard and the file system. *)
From stdpp Require Import strings.
From S2P Require Import Prelude Bytes Layout Fsso Console Keyboard.

Definition SHELL_MAX_INPUT : Z := 256.
Definition SHELL_MAX_ARGS : Z := 16.

(** Characters of a string literal. *)
Definition lit_text (s : string) : list Z :=
  map (fun c => Z.of_N (Ascii.N_of_ascii c)) (String.list_ascii_of_string s).

Definition nl : list Z := [10].

(** ** Tokenising a line in place *)

(** [*p] of a pointer into the input buffer. *)
Definition bget (buf : list Z) (p : nat) : res Z :=
  match buf !! p with Some c => Done c | None => Undef end.

(** [while ( *p == ' ') p++;] *)
Fixpoint skip_spaces (fuel : nat) (buf : list Z) (p : nat) : res nat :=
  match fuel with
  | O => Hang
  | S fuel' =>
      rbind (bget buf p) (fun c =>
      if c =? 32 then skip_spaces fuel' buf (S p) else Done p)
  end.

(** [while ( *p && *p != ' ') p++;] *)
Fixpoint skip_token (fuel : nat) (buf : list Z) (p : nat) : res nat :=
  match fuel with
  | O => Hang
  | S fuel' =>
      rbind (bget buf p) (fun c =>
      if (c =? 0) || (c =? 32) then Done p else skip_token fuel' buf (S p))
  end.

(** The outer loop, for at most [k] more arguments; [argv] holds pointers into
    the buffer. *)
Fixpoint parse_loop (k : nat) (buf : list Z) (p : nat) (argv : list nat) : res (list nat * list Z) :=
  rbind (bget buf p) (fun c =>
  if c =? 0 then Done (argv, buf)
  else
    match k with
    | O => Done (argv, buf)
    | S k' =>
        rbind (skip_spaces (S (length buf)) buf p) (fun p =>
        rbind (bget buf p) (fun c =>
        if c =? 0 then Done (argv, buf)
        else
          let argv := argv ++ [p] in
          rbind (skip_token (S (length buf)) buf p) (fun p =>
          rbind (bget buf p) (fun c =>
          if c =? 32 then parse_loop k' (<[p := 0]> buf) (S p) argv
          else parse_loop k' buf p argv))))
    end).

(** The pointers stored in [argv] and the input with its tokens terminated. *)
Definition shell_parse (input : list Z) (max_args : Z) : res (list nat * list Z) :=
  parse_loop (Z.to_nat max_args) input 0 [].

(** The C string a pointer into the buffer denotes. *)
Definition string_at (buf : list Z) (p : nat) : list Z := cstr (drop p buf).

(** [str_eq], on the characters before the NUL. *)
Fixpoint str_eq (a b : list Z) : Z :=
  match a with
  | c :: a' =>
      let d := match b with [] => 0 | d :: _ => d end in
      if c =? d then str_eq a' (tail b) else 0
  | [] => match b with [] => 1 | _ => 0 end
  end.

(** ** The shell *)

(** The console, the keyboard and the disk. *)
Record sys (K D : Type) := Sys { s_con : con; s_kst : kst K; s_dev : D }.
Arguments Sys {K D} s_con s_kst s_dev.
Arguments s_con {K D} s.
Arguments s_kst {K D} s.
Arguments s_dev {K D} s.

Section shell.
Context {K D : Type} `{PortIn K} `{BlockDev D}.

Definition on_con {A} : St con A -> St (sys K D) A :=
  zoom s_con (fun c s => Sys c (s_kst s) (s_dev s)).
Definition on_kbd {A} : St (kst K) A -> St (sys K D) A :=
  zoom s_kst (fun k s => Sys (s_con s) k (s_dev s)).
Definition on_dev {A} : St D A -> St (sys K D) A :=
  zoom s_dev (fun d s => Sys (s_con s) (s_kst s) d).

(** [ctx->fb], [ctx->pps] and [ctx->fs]; [fb_len] is the size of the
    framebuffer, [junk] and [uninit] the contents of uninitialised locals. *)
Context (pps fb_len : Z) (fs : filesystem) (junk : site -> list Z) (uninit : inode).

Definition putchar (c : Z) : St (sys K D) unit := on_con (shell_putchar pps fb_len c).
Definition print (str : list Z) : St (sys K D) unit := on_con (shell_print pps fb_len str).

(** *** Line editing *)

(** The erasure of a character cell at the cursor. *)
Definition erase_cell : St con unit :=
  cfor_ 8 0 (fun row =>
    cfor_ 8 0 (fun col =>
      s <- get ;;
      fb_store fb_len (pixel_index pps (i32 (i32 (cur_x s * 9) + col)) (i32 (cur_y s + row))) 0)).

(** [buffer[i] = v] *)
Definition buffer_set (buf : list Z) (i v : Z) : res (list Z) :=
  if (0 <=? i) && (i <? Z.of_nat (length buf)) then Done (<[Z.to_nat i := v]> buf) else Undef.

(** One pass of the [while (1)] loop; the state is [len] and the buffer. *)
Definition readline_step (kfuel : nat) (max : Z) (st : Z * list Z)
  : St (sys K D) (ctl (Z * list Z) (Z * list Z)) :=
  let '(len, buffer) := st in
  c <- on_kbd (read_key kfuel) ;;
  if c =? 0 then ret (Next (len, buffer))
  else if c =? 10 then
    buffer <- lift (buffer_set buffer len 0) ;;
    putchar 10 ;;;
    ret (Exit (len, buffer))
  else if c =? 8 then
    if 0 <? len then
      let len := len - 1 in
      on_con (s <- get ;; set_cursor (i32 (cur_x s - 1)) (cur_y s)) ;;;
      on_con erase_cell ;;;
      ret (Next (len, buffer))
    else ret (Next (len, buffer))
  else if len <? max - 1 then
    buffer <- lift (buffer_set buffer len c) ;;
    putchar c ;;;
    ret (Next (len + 1, buffer))
  else ret (Next (len, buffer)).

Definition shell_readline (fuel kfuel : nat) (buffer : list Z) (max : Z)
  : St (sys K D) (Z * list Z) :=
  cloop fuel (readline_step kfuel max) (0, buffer).

(** *** The commands *)

(** [for (i = 1; i < argc; i++)] of [cmd_echo]; [args] are [argv[i..]]. *)
Fixpoint echo_args (args : list (list Z)) : St (sys K D) unit :=
  match args with
  | [] => ret tt
  | [a] => print a
  | a :: args' => print a ;;; putchar 32 ;;; echo_args args'
  end.

Definition cmd_echo (argv : list (list Z)) : St (sys K D) unit :=
  echo_args (tail argv) ;;; putchar 10.

Definition cmd_clear : St (sys K D) unit :=
  on_con (
    cfor_ (Z.to_nat (u32 (768 * pps))) 0 (fun i => fb_store fb_len i 0) ;;;
    set_cursor 0 0).

(** The C string at byte [a] of a block buffer; it must end inside. *)
Definition buffer_string (buf : list Z) (a : Z) : res (list Z) :=
  let s := drop (Z.to_nat a) buf in
  if bool_decide (0 ∈ s) then Done (cstr s) else Undef.

Definition ls_entry (buffer : list Z) (j : Z) : St (sys K D) unit :=
  let e := sizeof FSSO_DirEntry * j in
  if ld (sub buffer) 4 (e + off FSSO_DirEntry "inode") =? 0 then ret tt
  else
    name <- lift (buffer_string buffer (e + off FSSO_DirEntry "name")) ;;
    print name ;;; putchar 10.

Definition ls_step (root : inode) (i : Z) (buffer : list Z)
  : St (sys K D) (ctl (list Z) unit) :=
  let b := i_direct root !!! Z.to_nat i in
  if b =? 0 then ret (Exit tt)
  else
    buffer <- on_dev (read_block b buffer) ;;
    cfor_ (Z.to_nat entries_per_block) 0 (ls_entry buffer) ;;;
    ret (Next buffer).

Definition cmd_ls : St (sys K D) unit :=
  '(_, root) <- on_dev (fsso_read_inode junk fs 0 uninit) ;;
  cfor (Z.to_nat FSSO_DIRECT_BLOCKS) 0 (ls_step root) (junk AtLs) ;;;
  ret tt.

(** [file_buf] is the uninitialised [file_buf[4096]]. *)
Definition cmd_cat (file_buf : list Z) (argv : list (list Z)) : St (sys K D) unit :=
  match argv !! 1%nat with
  | None => print (lit_text "Usage: cat <filename>" ++ nl)
  | Some name =>
      '(r, inode_num) <- on_dev (fsso_find_in_dir junk fs 0 name uninit 0) ;;
      if negb (r =? 0) then
        print (lit_text "File not found: ") ;;; print name ;;; putchar 10
      else
        '(bytes, file_buf) <- on_dev (fsso_read_file junk fs inode_num uninit file_buf 4096) ;;
        if bytes <? 0 then print (lit_text "Error reading file" ++ nl)
        else
          cfor_ (Z.to_nat bytes) 0 (fun i =>
            c <- lift (bget file_buf (Z.to_nat i)) ;; putchar c) ;;;
          putchar 10
  end.

Definition help_text : list (list Z) :=
  [lit_text "SimplrOS commands:" ++ nl;
   lit_text "  echo <text>     - print text" ++ nl;
   lit_text "  clear           - clear screen" ++ nl;
   lit_text "  ls              - list files" ++ nl;
   lit_text "  cat <file>      - read file" ++ nl;
   lit_text "  help            - this message" ++ nl].

Fixpoint print_all (texts : list (list Z)) : St (sys K D) unit :=
  match texts with
  | [] => ret tt
  | t :: texts' => print t ;;; print_all texts'
  end.

Definition cmd_help : St (sys K D) unit := print_all help_text.

(** The dispatch on [argv[0]]. *)
Definition shell_exec (file_buf : list Z) (argv : list (list Z)) : St (sys K D) unit :=
  let cmd := head argv in
  match cmd with
  | None => undef
  | Some name =>
      if negb (str_eq name (lit_text "echo") =? 0) then cmd_echo argv
      else if negb (str_eq name (lit_text "clear") =? 0) then cmd_clear
      else if negb (str_eq name (lit_text "ls") =? 0) then cmd_ls
      else if negb (str_eq name (lit_text "cat") =? 0) then cmd_cat file_buf argv
      else if negb (str_eq name (lit_text "help") =? 0) then cmd_help
      else print (lit_text "Unknown command: ") ;;; print name ;;; putchar 10
  end.

(** One pass of the command loop; the state is the input buffer. *)
Definition shell_iter (fuel kfuel : nat) (file_buf input : list Z) : St (sys K D) (list Z) :=
  print (lit_text "SimplrOS> ") ;;;
  '(_, input) <- shell_readline fuel kfuel input SHELL_MAX_INPUT ;;
  c <- lift (bget input 0) ;;
  if c =? 0 then ret input
  else
    '(argv, input) <- lift (shell_parse input SHELL_MAX_ARGS) ;;
    if (length argv =? 0)%nat then ret input
    else shell_exec file_buf (map (string_at input) argv) ;;; ret input.

(** [while (1)]: the loop never exits. *)
Definition shell_run (fuel rfuel kfuel : nat) (file_buf input : list Z)
  : St (sys K D) Empty_set :=
  cloop fuel (fun input =>
    input <- shell_iter rfuel kfuel file_buf input ;; ret (Next input)) input.
End shell.

(** ** Tokens *)

(** The words of a line. *)
Definition words (line : list Z) : list (list Z) :=
  filter (fun w => w <> []) (segments 32 line).

Lemma words_space line : words (32 :: line) = words line.
Proof. unfold words. cbn [segments]. by rewrite Z.eqb_refl, filter_cons, decide_False by auto. Qed.

Lemma words_spaces n line : words (replicate n 32 ++ line) = words line.
Proof. induction n as [|n IH]; [done|]. cbn [replicate app]. by rewrite words_space. Qed.

Lemma segments_token t rest : 32 ∉ t ->
  segments 32 (t ++ rest) =
  match segments 32 rest with s :: ss => (t ++ s) :: ss | [] => [t] end.
Proof.
  induction t as [|c t IH]; intros Ht; cbn [app].
  - by destruct (segments_cons 32 rest) as (s & ss & ->).
  - apply not_elem_of_cons in Ht as [Hc Ht]. cbn [segments].
    destruct (Z.eqb_spec c 32); [congruence|]. rewrite IH by done.
    by destruct (segments_cons 32 rest) as (s & ss & ->).
Qed.

Lemma words_token t : t <> [] -> 32 ∉ t -> words t = [t].
Proof.
  intros Hne Ht. unfold words. rewrite <- (app_nil_r t) at 1. rewrite segments_token by done.
  cbn [segments]. rewrite app_nil_r. by rewrite filter_cons, decide_True by done.
Qed.

Lemma words_token_space t rest : t <> [] -> 32 ∉ t -> words (t ++ 32 :: rest) = t :: words rest.
Proof.
  intros Hne Ht. unfold words. rewrite segments_token by done. cbn [segments].
  rewrite Z.eqb_refl, app_nil_r. by rewrite filter_cons, decide_True by done.
Qed.

(** A line is spaces followed by a token and the rest. *)
Lemma line_spaces line : exists n l, line = replicate n 32 ++ l /\ (l = [] \/ exists c l', l = c :: l' /\ c <> 32).
Proof.
  induction line as [|c line (n & l & -> & Hl)]; [exists 0%nat, []; by auto|].
  destruct (decide (c = 32)) as [->|Hc].
  - by exists (S n), l.
  - exists 0%nat, (c :: replicate n 32 ++ l). split; [done|]. right. by eauto.
Qed.

Lemma line_token line : exists t r, line = t ++ r /\ 32 ∉ t /\ (r = [] \/ exists r', r = 32 :: r').
Proof.
  induction line as [|c line (t & r & -> & Ht & Hr)].
  - exists [], []. split_and!; [done|apply not_elem_of_nil|by left].
  - destruct (decide (c = 32)) as [->|Hc].
    + exists [], (32 :: t ++ r). split_and!; [done|apply not_elem_of_nil|by eauto].
    + exists (c :: t), r. split_and!; [done|set_solver|done].
Qed.

Lemma bget_app pre c post p : p = length pre -> bget (pre ++ c :: post) p = Done c.
Proof. intros ->. unfold bget. by rewrite list_lookup_middle. Qed.

Lemma skip_spaces_run fuel pre n c post p :
  p = length pre -> c <> 32 -> (n < fuel)%nat ->
  skip_spaces fuel (pre ++ replicate n 32 ++ c :: post) p = Done (p + n)%nat.
Proof.
  revert pre n p. induction fuel as [|fuel IH]; intros pre n p Hp Hc Hn; [lia|]. cbn [skip_spaces].
  destruct n as [|n]; cbn [replicate app].
  - rewrite bget_app by done. cbn [rbind]. destruct (Z.eqb_spec c 32); [done|]. f_equal. lia.
  - rewrite bget_app by done. cbn [rbind]. change (32 =? 32) with true. cbv iota.
    rewrite cons_middle, app_assoc.
    rewrite IH by (rewrite ?length_app; simpl; (done || lia)). f_equal. lia.
Qed.

Lemma skip_token_run fuel pre t c post p :
  p = length pre -> Forall (fun x => x <> 0) t -> 32 ∉ t -> c = 0 \/ c = 32 -> (length t < fuel)%nat ->
  skip_token fuel (pre ++ t ++ c :: post) p = Done (p + length t)%nat.
Proof.
  revert pre t p. induction fuel as [|fuel IH]; intros pre t p Hp H0 Hsp Hc Hn; [lia|]. cbn [skip_token].
  destruct t as [|x t]; cbn [app length].
  - rewrite bget_app by done. cbn [rbind].
    destruct (Z.eqb_spec c 0), (Z.eqb_spec c 32); try lia; cbn [orb]; f_equal; lia.
  - apply Forall_cons_1 in H0 as [Hx H0]. apply not_elem_of_cons in Hsp as [Hx' Hsp].
    rewrite bget_app by done. cbn [rbind].
    destruct (Z.eqb_spec x 0), (Z.eqb_spec x 32); try congruence; cbn [orb].
    rewrite cons_middle, app_assoc. simpl in Hn.
    rewrite IH by (rewrite ?length_app; simpl; (done || lia)). f_equal. lia.
Qed.

Lemma string_at_app pre t post p : p = length pre -> Forall (fun x => x <> 0) t ->
  string_at (pre ++ t ++ 0 :: post) p = t.
Proof.
  intros -> Ht. unfold string_at. rewrite drop_app_length.
  induction Ht as [|x t Hx _ IH]; [done|]. cbn [app cstr].
  destruct (Z.eqb_spec x 0); [done|]. by rewrite IH.
Qed.

(** What the pointer reads first. *)
Lemma bget_spaces pre n c post p : p = length pre ->
  bget (pre ++ replicate n 32 ++ c :: post) p = Done (if (n =? 0)%nat then c else 32).
Proof. intros Hp. destruct n; cbn [replicate app]; by rewrite bget_app. Qed.

Lemma bget_app2 pre l c post p : p = (length pre + length l)%nat ->
  bget (pre ++ l ++ c :: post) p = Done c.
Proof. intros Hp. rewrite app_assoc. apply bget_app. by rewrite length_app. Qed.

Lemma parse_blank k pre n post argv p : p = length pre ->
  parse_loop k (pre ++ replicate n 32 ++ 0 :: post) p argv =
  Done (argv, pre ++ replicate n 32 ++ 0 :: post).
Proof.
  intros Hp. set (buf := pre ++ _). destruct k as [|k]; cbn [parse_loop].
  - unfold buf at 1. rewrite bget_spaces by done. cbn [rbind]. by destruct (_ =? 0).
  - unfold buf at 1. rewrite bget_spaces by done. cbn [rbind]. destruct (_ =? 0); [done|].
    assert (Hl : (n < S (length buf))%nat)
      by (unfold buf; rewrite !length_app, length_replicate; lia).
    unfold buf at 2. rewrite skip_spaces_run by done. cbn [rbind].
    unfold buf at 1. rewrite bget_app2 by (rewrite length_replicate; lia). done.
Qed.

Lemma parse_word k pre n t c post argv p :
  p = length pre -> t <> [] -> Forall (fun x => x <> 0) t -> 32 ∉ t -> c = 0 \/ c = 32 ->
  parse_loop (S k) (pre ++ replicate n 32 ++ t ++ c :: post) p argv =
  if c =? 32
  then parse_loop k (pre ++ replicate n 32 ++ t ++ 0 :: post) (S (p + n + length t)) (argv ++ [(p + n)%nat])
  else parse_loop k (pre ++ replicate n 32 ++ t ++ c :: post) (p + n + length t) (argv ++ [(p + n)%nat]).
Proof.
  intros Hp Hne Ht0 Hsp Hc. destruct t as [|x t1]; [done|].
  assert (Hx : x <> 0 /\ x <> 32) by (apply Forall_cons_1 in Ht0; set_solver).
  set (t := x :: t1) in *. set (buf := pre ++ replicate n 32 ++ t ++ c :: post).
  assert (Hl : (n + length t < length buf)%nat)
    by (unfold buf; rewrite !length_app, length_replicate; simpl; lia).
  cbn [parse_loop]. unfold buf at 1. unfold t at 1. cbn [app]. rewrite bget_spaces by done. cbn [rbind].
  destruct (Z.eqb_spec (if (n =? 0)%nat then x else 32) 0); [destruct (n =? 0)%nat; lia|].
  unfold buf at 2. unfold t at 1. cbn [app]. rewrite skip_spaces_run by (tauto || lia). cbn [rbind].
  unfold buf at 1. unfold t at 1. cbn [app]. rewrite bget_app2 by (rewrite length_replicate; lia).
  cbn [rbind]. destruct (Z.eqb_spec x 0); [tauto|].
  unfold buf at 2. rewrite (app_assoc pre). rewrite skip_token_run
    by (rewrite ?length_app, ?length_replicate; (done || lia)). cbn [rbind].
  unfold buf at 1. rewrite (app_assoc pre), bget_app2 by (rewrite length_app, length_replicate; lia).
  cbn [rbind]. destruct (Z.eqb_spec c 32) as [->|]; [|done]. f_equal.
  unfold buf. rewrite !app_assoc. rewrite insert_app_r_alt
    by (rewrite !length_app, length_replicate; lia).
  rewrite !length_app, length_replicate. replace (_ - _)%nat with O by lia. done.
Qed.

(** The tokeniser finds the first [k] words and leaves a terminator after each
    of them, touching nothing outside the line. *)
Lemma parse_loop_spec k pre line post argv p :
  p = length pre -> Forall (fun x => x <> 0) line ->
  exists ps line', parse_loop k (pre ++ line ++ 0 :: post) p argv =
      Done (argv ++ ps, pre ++ line' ++ 0 :: post) /\
    length line' = length line /\
    map (string_at (pre ++ line' ++ 0 :: post)) ps = take k (words line).
Proof.
  revert pre line argv p. induction k as [|k IH]; intros pre line argv p Hp H0.
  { exists [], line. rewrite app_nil_r. split_and!; [|done|done]. cbn [parse_loop].
    destruct line as [|x line]; cbn [app]; rewrite bget_app by done; cbn [rbind]; by destruct (_ =? 0). }
  destruct (line_spaces line) as (n & l & -> & Hl). rewrite words_spaces.
  apply Forall_app in H0 as [_ H0]. destruct Hl as [-> |(c & l' & -> & Hc)].
  { exists [], (replicate n 32). rewrite !app_nil_r. by rewrite parse_blank. }
  destruct (line_token (c :: l')) as (t & r & El & Ht & Hr). rewrite El in *.
  apply Forall_app in H0 as [Ht0 Hr0].
  assert (Hne : t <> []).
  { intros ->. destruct Hr as [-> |(r' & ->)]; [done|]. by injection El. }
  rewrite <- !app_assoc. destruct Hr as [-> |(r' & ->)].
  - cbn [app]. rewrite parse_word by auto. change (0 =? 32) with false. cbv iota.
    destruct (IH (pre ++ replicate n 32 ++ t) [] (argv ++ [(p + n)%nat]) (p + n + length t)%nat)
      as (ps & line' & E & El' & Ew).
    { rewrite !length_app, length_replicate. lia. } { constructor. }
    apply nil_length_inv in El' as ->. cbn [app] in E, Ew. rewrite <- !app_assoc in E, Ew.
    change (words []) with (@nil (list Z)) in Ew. rewrite take_nil in Ew.
    destruct ps; [|done]. rewrite app_nil_r in E.
    exists [(p + n)%nat], (replicate n 32 ++ t). rewrite <- !app_assoc, E, app_nil_r.
    split_and!; [done|done|]. rewrite words_token by done. cbn [map take]. rewrite take_nil. f_equal.
    rewrite app_assoc. apply string_at_app; [|done]. rewrite length_app, length_replicate. lia.
  - cbn [app]. rewrite parse_word by auto. change (32 =? 32) with true. cbv iota.
    apply Forall_cons_1 in Hr0 as [_ Hr0].
    destruct (IH (pre ++ replicate n 32 ++ t ++ [0]) r' (argv ++ [(p + n)%nat]) (S (p + n + length t)))
      as (ps & line' & E & El' & Ew); [|done|].
    { rewrite !length_app, length_replicate. simpl. lia. }
    rewrite <- !app_assoc in E, Ew. cbn [app] in E, Ew.
    exists ((p + n)%nat :: ps), (replicate n 32 ++ t ++ 0 :: line'). rewrite <- !app_assoc. cbn [app].
    rewrite E. split_and!; [by rewrite <- !app_assoc|rewrite !length_app; simpl; lia|].
    rewrite words_token_space by done. cbn [map take]. rewrite Ew. f_equal.
    rewrite app_assoc. apply string_at_app; [|done]. rewrite length_app, length_replicate. lia.
Qed.

Lemma str_eq_spec a b : Forall (fun c => c <> 0) a -> Forall (fun c => c <> 0) b ->
  str_eq a b = if decide (a = b) then 1 else 0.
Proof.
  intros Ha. revert b. induction Ha as [|c a Hc _ IH]; intros b Hb; cbn [str_eq].
  - destruct b; [by rewrite decide_True|by rewrite decide_False].
  - destruct Hb as [|d b Hd Hb].
    + destruct (Z.eqb_spec c 0); [done|]. by rewrite decide_False.
    + cbn [tail]. destruct (Z.eqb_spec c d) as [->|Hne].
      * rewrite IH by done. destruct (decide (a = b)) as [->|Hab]; [by rewrite decide_True|].
        rewrite decide_False; [done|]. by intros [= ?].
      * rewrite decide_False; [done|]. by intros [= ?].
Qed.

(** ** What the commands print *)

Lemma shell_print_app pps fb_len t1 t2 w :
  shell_print pps fb_len (t1 ++ t2) w = (shell_print pps fb_len t1 ;;; shell_print pps fb_len t2) w.
Proof.
  revert w. induction t1 as [|c t1 IH]; intros w; [done|]. cbn [app shell_print].
  unfold bind in *. destruct (shell_putchar pps fb_len c w) as [[u w']| |]; [|done..]. apply IH.
Qed.

Section text.
Variables (img : Z -> Z) (total : Z).

(** [ls]: the names of the used entries of the root directory. *)
Definition entry_line (e : dirent) : list Z :=
  if de_inode e =? 0 then [] else cstr (de_name e) ++ nl.

Definition ls_text : list Z := flat_map entry_line (dirents img (inode_at img 0)).

(** [cat]: the blocks of the file, up to 4096 bytes. *)
Definition cat_text (argv : list (list Z)) : list Z :=
  match argv !! 1%nat with
  | None => lit_text "Usage: cat <filename>" ++ nl
  | Some name =>
      let '(r, n) := find_result total img 0 name 0 in
      if negb (r =? 0) then lit_text "File not found: " ++ name ++ nl
      else if (total <=? n) || negb (i_type (inode_at img n) =? FSSO_TYPE_FILE)
      then lit_text "Error reading file" ++ nl
      else take 4096 (file_content img (inode_at img n)) ++ nl
  end.

Fixpoint join (args : list (list Z)) : list Z :=
  match args with
  | [] => []
  | [a] => a
  | a :: args' => a ++ 32 :: join args'
  end.

(** What a command line prints; [clear] is the only command that does not
    print. *)
Definition command_text (argv : list (list Z)) : option (list Z) :=
  match argv with
  | [] => None
  | name :: _ =>
      if decide (name = lit_text "echo") then Some (join (tail argv) ++ nl)
      else if decide (name = lit_text "clear") then None
      else if decide (name = lit_text "ls") then Some ls_text
      else if decide (name = lit_text "cat") then Some (cat_text argv)
      else if decide (name = lit_text "help") then Some (concat help_text)
      else Some (lit_text "Unknown command: " ++ name ++ nl)
  end.
End text.

Section exec.
Context {K D : Type} `{PortIn K} `{BlockDev D} (img : Z -> Z) `{!BlockDevOk D img}.
Context (pps fb_len : Z) (fs : filesystem) (junk : site -> list Z) (uninit : inode).
Hypothesis Hjunk : forall s, length (junk s) = 1024%nat.

(** The command prints [t] on the console and otherwise only uses the disk. *)
Definition outputs {A} (t : list Z) (a : A) (m : St (sys K D) A) : Prop :=
  forall (Q : A -> sys K D -> Prop) s,
    dev_ok (s_dev s) ->
    wp (shell_print pps fb_len t)
      (fun _ c => forall d, dev_ok d -> Q a (Sys c (s_kst s) d)) (s_con s) ->
    wp m Q s.

Lemma outputs_ret {A} (a : A) : outputs [] a (ret a).
Proof. intros Q [c k d] Hd HQ. by apply HQ. Qed.

Lemma outputs_bind {A B} t1 t2 (a : A) (b : B) m f :
  outputs t1 a m -> outputs t2 b (f a) -> outputs (t1 ++ t2) b (bind m f).
Proof.
  intros Hm Hf Q s Hd HQ. apply wp_bind, Hm; [done|].
  unfold wp in HQ |- *. rewrite shell_print_app in HQ. unfold bind in HQ.
  destruct (shell_print pps fb_len t1 (s_con s)) as [[u c]| |]; [|done..].
  intros d Hd'. by apply Hf.
Qed.

Lemma outputs_bind_r {A B} t (a : A) (b : B) m f :
  outputs [] a m -> outputs t b (f a) -> outputs t b (bind m f).
Proof. apply (outputs_bind [] t). Qed.

Lemma outputs_print t : outputs t tt (print pps fb_len t).
Proof.
  intros Q s Hd HQ. apply wp_zoom. eapply wp_mono; [exact HQ|]. cbv beta.
  intros [] c Hc. by apply Hc.
Qed.

Lemma outputs_putchar c : outputs [c] tt (putchar pps fb_len c).
Proof.
  intros Q s Hd HQ. apply wp_zoom. apply wp_bind_inv in HQ. eapply wp_mono; [exact HQ|]. cbv beta.
  intros [] con Hc. by apply Hc.
Qed.

Lemma outputs_dev {A} (a : A) (m : St D A) :
  (forall d, dev_ok d -> wp m (fun a' d' => dev_ok d' /\ a' = a) d) -> outputs [] a (on_dev m).
Proof.
  intros Hm Q s Hd HQ. apply wp_zoom. eapply wp_mono; [by apply Hm|]. cbv beta.
  intros a' d' [Hd' ->]. by apply HQ.
Qed.

Lemma outputs_lift {A} (a : A) (r : res A) : r = Done a -> outputs [] a (lift r).
Proof. intros -> . apply outputs_ret. Qed.

Lemma outputs_for t n lo (body : Z -> St (sys K D) unit) :
  (forall i, lo <= i < lo + Z.of_nat n -> outputs (t i) tt (body i)) ->
  outputs (flat_map t (seqZ lo (Z.of_nat n))) tt (cfor_ n lo body).
Proof.
  intros Hb. unfold cfor_. rewrite <- (app_nil_r (flat_map _ _)).
  apply (outputs_bind _ [] (Next tt : ctl unit Empty_set)); [|apply outputs_ret].
  revert lo Hb. induction n as [|n IH]; intros lo Hb; cbn [cfor].
  - apply outputs_ret.
  - rewrite seqZ_cons by lia. replace (Z.pred (Z.of_nat (S n))) with (Z.of_nat n) by lia.
    rewrite <- Z.add_1_r. cbn [flat_map].
    eapply (outputs_bind _ _ (Next tt)).
    + rewrite <- (app_nil_r (t lo)). eapply outputs_bind; [apply Hb; lia|apply outputs_ret].
    + apply IH. intros i Hi. apply Hb. lia.
Qed.

(** [echo]. *)
Lemma outputs_echo argv : outputs (join (tail argv) ++ nl) tt (cmd_echo pps fb_len argv).
Proof.
  apply (outputs_bind _ _ tt); [|apply outputs_putchar].
  induction (tail argv) as [|a args IH]; [apply outputs_ret|]. cbn [echo_args join].
  destruct args as [|a2 args]; [apply outputs_print|].
  apply (outputs_bind _ _ tt); [apply outputs_print|].
  apply (outputs_bind [32] _ tt); [apply outputs_putchar|exact IH].
Qed.

(** [help]. *)
Lemma outputs_help : outputs (concat help_text) tt (cmd_help pps fb_len).
Proof.
  unfold cmd_help. induction help_text as [|t l IH]; [apply outputs_ret|].
  apply (outputs_bind _ _ tt); [apply outputs_print|exact IH].
Qed.

(** [ls]. *)
Lemma cstr_app l r : 0 ∈ l -> cstr (l ++ r) = cstr l.
Proof.
  induction l as [|c l IH]; intros Hz; [by apply not_elem_of_nil in Hz|]. cbn [app cstr].
  destruct (Z.eqb_spec c 0); [done|]. rewrite IH; [done|].
  apply elem_of_cons in Hz as [|]; [congruence|done].
Qed.

Lemma outputs_ls_entry b j : 0 <= j < 3 ->
  (de_inode (get_dirent (img_bytes img) (1024 * b + 260 * j)) <> 0 ->
   0 ∈ de_name (get_dirent (img_bytes img) (1024 * b + 260 * j))) ->
  outputs (entry_line (get_dirent (img_bytes img) (1024 * b + 260 * j))) tt
    (ls_entry pps fb_len (blk img b) j).
Proof.
  intros Hj Hn. unfold ls_entry, entry_line. cbv zeta. offsets.
  rewrite <- (get_dirent_blk img b (260 * j)) in * by lia.
  set (e := get_dirent (sub (blk img b)) (260 * j)) in *.
  assert (Ei : ld (sub (blk img b)) 4 (260 * j + 0) = de_inode e) by (unfold e, get_dirent; by offsets).
  rewrite Ei. destruct (Z.eqb_spec (de_inode e) 0) as [|Hu]; [apply outputs_ret|]. specialize (Hn Hu).
  apply (outputs_bind_r _ (cstr (de_name e))).
  - apply outputs_lift. unfold buffer_string.
    assert (Ed : drop (Z.to_nat (260 * j + 4)) (blk img b) =
      de_name e ++ drop (Z.to_nat (260 * j + 4) + 256) (blk img b)).
    { unfold e, get_dirent. cbv zeta. cbn [de_name]. offsets.
      change (Z.to_nat (field_size FSSO_DirEntry "name")) with 256%nat.
      unfold sub. rewrite <- drop_drop. by rewrite take_drop. }
    rewrite Ed. rewrite bool_decide_eq_true_2 by (apply elem_of_app; by left). by rewrite cstr_app.
  - apply (outputs_bind _ _ tt); [apply outputs_print|apply outputs_putchar].
Qed.

Lemma outputs_ls_blocks root n i buf :
  Z.of_nat n + i = 12 -> 0 <= i -> length (i_direct root) = 12%nat ->
  Forall (fun b => 0 <= b < 2 ^ 32) (i_direct root) -> length buf = 1024%nat ->
  Forall (fun e => de_inode e <> 0 -> 0 ∈ de_name e)
    (flat_map (block_entries img) (until0 (drop (Z.to_nat i) (i_direct root)))) ->
  exists x, outputs (flat_map entry_line
      (flat_map (block_entries img) (until0 (drop (Z.to_nat i) (i_direct root))))) x
    (cfor n i (ls_step pps fb_len root) buf).
Proof.
  revert i buf. induction n as [|n IH]; intros i buf Hni Hi Hl Hb Hbuf Hok; cbn [cfor].
  { rewrite drop_ge by lia. exists (Next buf). apply outputs_ret. }
  destruct (lookup_lt_is_Some_2 (i_direct root) (Z.to_nat i)) as [b Eb]; [lia|].
  pose proof (drop_S _ _ _ Eb) as Ed. rewrite Ed in *.
  pose proof (list_lookup_total_correct _ _ _ Eb) as Et. unfold ls_step at 1.
  cbn [until0] in *. destruct (Z.eqb_spec b 0) as [Hb0|Hb0].
  { exists (Exit tt). apply (outputs_bind_r _ (Exit tt)); [|apply outputs_ret].
    rewrite Et, Hb0. apply outputs_ret. }
  cbn [flat_map] in *. apply Forall_app in Hok as [Hok1 Hok2].
  replace (S (Z.to_nat i)) with (Z.to_nat (i + 1)) in * by lia.
  destruct (IH (i + 1) (blk img b)) as [x Hx]; [lia..|done|done|apply length_img_bytes|done|].
  exists x. rewrite flat_map_app.
  apply (outputs_bind _ _ (Next (blk img b))); [|exact Hx].
  rewrite Et. destruct (Z.eqb_spec b 0); [done|].
  apply (outputs_bind_r _ (blk img b)).
  - apply outputs_dev. intros d Hd. apply (wp_read_block img); [done|by apply (Forall_lookup_1 _ _ _ _ Hb Eb)|done|].
    by intros d' Hd'.
  - rewrite <- (app_nil_r (flat_map _ _)). apply (outputs_bind _ [] tt); [|apply outputs_ret].
    unfold block_entries. change (Z.to_nat entries_per_block) with 3%nat.
    assert (Efm : flat_map entry_line (map (fun j => get_dirent (img_bytes img) (1024 * b + 260 * j)) (seqZ 0 3)) =
      flat_map (fun j => entry_line (get_dirent (img_bytes img) (1024 * b + 260 * j))) (seqZ 0 3)).
    { rewrite !flat_map_concat_map, map_map. done. }
    rewrite Efm. apply (outputs_for _ 3). intros j Hj. apply outputs_ls_entry; [lia|].
    rewrite Forall_forall in Hok1. apply Hok1. unfold block_entries.
    apply list_elem_of_In, in_map_iff. exists j. split; [done|]. apply list_elem_of_In, elem_of_seqZ. lia.
Qed.

Hypothesis Htotal : 0 < sb_total_inodes (fs_superblock fs).
Hypothesis Hroot : names_ok img (inode_at img 0).

Lemma root_direct_range : Forall (fun b => 0 <= b < 2 ^ 32) (i_direct (inode_at img 0)).
Proof.
  apply Forall_lookup. intros k b Hb. pose proof (lookup_lt_Some _ _ _ Hb) as Hk.
  unfold inode_at in Hk. rewrite length_inode_direct in Hk.
  apply (direct_range img everywhere 0 (Z.of_nat k)); [lia|]. by rewrite Nat2Z.id.
Qed.

Lemma outputs_ls : outputs (ls_text img) tt (cmd_ls pps fb_len fs junk uninit).
Proof.
  unfold cmd_ls. apply (outputs_bind_r _ (0, inode_at img 0)).
  - apply outputs_dev. intros d Hd. apply (wp_read_inode img junk Hjunk); [done|lia|].
    intros d' Hd'. destruct (Z.leb_spec (sb_total_inodes (fs_superblock fs)) 0); [lia|done].
  - destruct (outputs_ls_blocks (inode_at img 0) 12 0 (junk AtLs)) as [x Hx];
      [lia..|unfold inode_at; by rewrite length_inode_direct|exact root_direct_range|apply Hjunk|exact Hroot|].
    unfold ls_text. rewrite <- (app_nil_r (flat_map _ _)).
    apply (outputs_bind _ _ x); [exact Hx|]. destruct x; apply outputs_ret.
Qed.

(** [cat]. *)
Lemma flat_map_singletons (l : list Z) (n : nat) : (n <= length l)%nat ->
  flat_map (fun i => match l !! Z.to_nat i with Some c => [c] | None => [] end) (seqZ 0 (Z.of_nat n)) =
  take n l.
Proof.
  induction n as [|n IH]; intros Hn; [done|].
  rewrite Nat2Z.inj_succ, <- Z.add_1_r, seqZ_app, flat_map_app, IH by lia.
  destruct (lookup_lt_is_Some_2 l n) as [c Hc]; [lia|]. rewrite (take_S_r _ _ _ Hc). f_equal.
  change (seqZ (0 + Z.of_nat n) 1) with [0 + Z.of_nat n]. cbn [flat_map].
  by rewrite Z.add_0_l, Nat2Z.id, Hc.
Qed.

Lemma outputs_cat file_buf argv :
  length file_buf = Z.to_nat 4096 -> Forall (Forall (fun c => c <> 0)) argv ->
  outputs (cat_text img (sb_total_inodes (fs_superblock fs)) argv) tt
    (cmd_cat pps fb_len fs junk uninit file_buf argv).
Proof.
  intros Hl Hargs. unfold cmd_cat, cat_text. set (total := sb_total_inodes _).
  destruct (argv !! 1%nat) as [name|] eqn:En; [|apply outputs_print].
  assert (Hname : Forall (fun c => c <> 0) name) by (by apply (Forall_lookup_1 _ _ _ _ Hargs En)).
  apply (outputs_bind_r _ (find_result total img 0 name 0)).
  { apply outputs_dev. intros d Hd. apply (wp_find_in_dir img junk Hjunk); [done|lia|done|by intros _|].
    by intros d' Hd'. }
  pose proof (find_result_range img total 0 name 0 ltac:(lia)) as Hrg.
  destruct (find_result total img 0 name 0) as [r n]. cbn [snd] in Hrg.
  destruct (negb (r =? 0)).
  { apply (outputs_bind _ _ tt); [apply outputs_print|].
    apply (outputs_bind _ _ tt); [apply outputs_print|apply outputs_putchar]. }
  apply (outputs_bind_r _ (read_result total img n file_buf 4096)).
  { apply outputs_dev. intros d Hd. apply (wp_read_file img junk Hjunk); [done|lia|lia|lia|].
    by intros d' Hd'. }
  unfold read_result. destruct (total <=? n); cbn [orb]; [apply outputs_print|].
  destruct (negb _); [apply outputs_print|].
  set (content := take (Z.to_nat 4096) _). cbv iota.
  destruct (Z.ltb_spec (Z.of_nat (length content)) 0); [lia|]. rewrite Nat2Z.id.
  set (out := content ++ drop (length content) file_buf).
  change (take 4096 (file_content img (inode_at img n))) with content.
  apply (outputs_bind _ _ tt); [|apply outputs_putchar].
  assert (Ec : content = flat_map (fun i => match out !! Z.to_nat i with Some c => [c] | None => [] end)
      (seqZ 0 (Z.of_nat (length content)))).
  { rewrite flat_map_singletons by (unfold out; rewrite length_app; lia).
    unfold out. by rewrite take_app_length. }
  rewrite Ec at 1. apply outputs_for. intros i Hi.
  destruct (lookup_lt_is_Some_2 out (Z.to_nat i)) as [c Hc]; [unfold out; rewrite length_app; lia|].
  rewrite Hc. apply (outputs_bind_r _ c); [|apply outputs_putchar].
  apply outputs_lift. unfold bget. by rewrite Hc.
Qed.

(** The dispatch. *)
Lemma str_eq_lit name s : Forall (fun c => c <> 0) name -> Forall (fun c => c <> 0) (lit_text s) ->
  negb (str_eq name (lit_text s) =? 0) = bool_decide (name = lit_text s).
Proof. intros H1 H2. rewrite str_eq_spec by done. by case_bool_decide; case_decide. Qed.

Lemma outputs_exec file_buf argv t :
  length file_buf = Z.to_nat 4096 -> Forall (Forall (fun c => c <> 0)) argv ->
  command_text img (sb_total_inodes (fs_superblock fs)) argv = Some t ->
  outputs t tt (shell_exec pps fb_len fs junk uninit file_buf argv).
Proof.
  intros Hl Hargs Ht. unfold shell_exec, command_text in *.
  destruct argv as [|name args]; [done|]. cbn [head].
  pose proof (Forall_inv Hargs) as Hname. cbv beta in Hname.
  rewrite !str_eq_lit by (done || (apply (bool_decide_unpack _); by vm_compute)).
  repeat match type of Ht with
    | (if decide ?P then _ else _) = _ => let E := fresh "E" in destruct (decide P) as [E|E];
        [rewrite (bool_decide_eq_true_2 P E)|rewrite (bool_decide_eq_false_2 P E)]
    end; try (injection Ht as <-).
  - exact (outputs_echo (name :: args)).
  - done.
  - apply outputs_ls.
  - by apply outputs_cat.
  - apply outputs_help.
  - refine (outputs_bind (lit_text "Unknown command: ") (name ++ nl) tt tt _ _ (outputs_print _) _).
    exact (outputs_bind name nl tt tt _ _ (outputs_print _) (outputs_putchar 10)).
Qed.
End exec.

(** ** Line editing *)

(** The line a stream of scancodes enters into a buffer for [max] characters:
    the line, the shift state and the scancodes after the newline. *)
Fixpoint edit (max : nat) (sh : bool) (line codes : list Z) : option (list Z * bool * list Z) :=
  match codes with
  | [] => None
  | code :: codes' =>
      let '(c, sh') := key_step sh code in
      if c =? 0 then edit max sh' line codes'
      else if c =? 10 then Some (line, sh', codes')
      else if c =? 8 then edit max sh' (take (length line - 1) line) codes'
      else edit max sh' (if (length line <? max)%nat then line ++ [c] else line) codes'
  end.

(** A change of the screen: a character painted or a cell made black, at a
    pixel position. *)
Inductive stroke := Paint (x y c : Z) | Erase (x y : Z).

(** What a stream of scancodes does to the screen when [n] characters are on
    the line and the cursor is at [(x, y)], up to the newline: the strokes in
    order, and the line the cursor is on at the end. *)
Fixpoint echo (max : nat) (sh : bool) (n : nat) (x y : Z) (codes : list Z) : list stroke * Z :=
  match codes with
  | [] => ([], y)
  | code :: codes' =>
      let '(c, sh') := key_step sh code in
      if c =? 0 then echo max sh' n x y codes'
      else if c =? 10 then ([], y)
      else if c =? 8 then
        if (n =? 0)%nat then echo max sh' n x y codes'
        else let '(ss, ye) := echo max sh' (n - 1) (x - 1) y codes' in (Erase ((x - 1) * 9) y :: ss, ye)
      else if (n <? max)%nat then
        let '(ss, ye) := echo max sh' (S n) (advance x y c).1 (advance x y c).2 codes' in
        (Paint (x * 9) y c :: ss, ye)
      else echo max sh' n x y codes'
  end.

(** The value [v] of pixel [i] after a stroke, and after all. *)
Definition stroke_px (pps : Z) (i v : Z) (st : stroke) : Z :=
  match st with
  | Paint x y c => if char_px pps x y c i then white else v
  | Erase x y => if block_px pps x y i then 0 else v
  end.

Definition drawn (pps : Z) (ss : list stroke) (i v : Z) : Z := foldl (stroke_px pps i) v ss.

(** No cell left of the first column is made black: no backspace goes back
    over a line wrap. *)
Definition straight (ss : list stroke) : bool :=
  forallb (fun st => match st with Erase x _ => 0 <=? x | Paint _ _ _ => true end) ss.

(** Pixel [i] is in a cell that was made black. *)
Definition wiped (pps : Z) (ss : list stroke) (i : Z) : bool :=
  existsb (fun st => match st with Erase x y => block_px pps x y i | Paint _ _ _ => false end) ss.

(** The cell at the cursor shows nothing of the text before it. *)
Lemma block_apart pps x y s i :
  0 <= x <= 80 -> 728 <= pps ->
  let '(xe, ye) := cursor_end x y s in
  cells_on pps (layout x y s) i = true -> block_px pps (xe * 9) ye i = false.
Proof.
  intros Hx Hp. pose proof (layout_before x y s) as Hb. pose proof (cursor_end_range x y s Hx) as [He _].
  destruct (cursor_end x y s) as [xe ye]. cbn [fst snd] in *. intros Hon. apply not_true_is_false. intros Hbl.
  unfold cells_on in Hon. apply existsb_exists in Hon as ([[cx cy] c] & Hin & Hon).
  rewrite Forall_forall in Hb. specialize (Hb _ (proj2 (list_elem_of_In _ _) Hin)). cbv beta iota in Hb.
  apply char_on_range in Hon. unfold block_px in Hbl. rewrite px_of_on in Hbl by lia.
  rewrite !andb_true_iff, !Z.leb_le, !Z.ltb_lt in Hbl. lia.
Qed.

(** Without a backspace over a wrap the strokes leave the text of the line. *)
Lemma echo_text pps max x0 y0 i m0 codes : forall sh line line' sh' codes' v w,
  0 <= x0 <= 80 -> 728 <= pps -> Forall (fun c => c <> 10) line ->
  edit max sh line codes = Some (line', sh', codes') ->
  v = (if cells_on pps (layout x0 y0 line) i then white else if w : bool then 0 else m0) ->
  let '(ss, ye) := echo max sh (length line) (cursor_end x0 y0 line).1 (cursor_end x0 y0 line).2 codes in
  straight ss = true ->
  ye = (cursor_end x0 y0 line').2 /\
  drawn pps ss i v = if cells_on pps (layout x0 y0 line') i then white
                     else if w || wiped pps ss i then 0 else m0.
Proof.
  induction codes as [|code codes IH]; intros sh line line' sh' codes' v w Hx0 Hp Hn Hed Hv; [done|].
  cbn [edit echo] in *. destruct (key_step sh code) as [c sh1].
  destruct (Z.eqb_spec c 0); [by eapply IH|]. destruct (Z.eqb_spec c 10) as [|Hc10].
  { injection Hed as -> -> ->. intros _. split; [done|]. cbn. by rewrite orb_false_r. }
  pose proof (cursor_end_range x0 y0 line Hx0) as [Hxr _].
  destruct (Z.eqb_spec c 8) as [_|_].
  - destruct (decide (line = [])) as [->|Hne].
    { cbn [length Nat.eqb]. eapply (IH sh1 []); done. }
    destruct (exists_last Hne) as (l & a & ->). rewrite length_app in *. cbn [length] in *.
    replace (length l + 1 - 1)%nat with (length l) in * by lia. rewrite take_app_length in Hed.
    destruct (Nat.eqb_spec (length l + 1) 0); [lia|].
    apply Forall_app in Hn as [Hl [Ha _]%Forall_cons_1].
    rewrite cursor_end_app, layout_app in *. pose proof (cursor_end_range x0 y0 l Hx0) as [Hxl _].
    pose proof (block_apart pps x0 y0 l i Hx0 Hp) as Hap.
    specialize (IH sh1 l line' sh' codes').
    destruct (cursor_end x0 y0 l) as [xe ye]. cbn [cursor_end layout fst snd] in *.
    revert IH Hv Hxr. unfold advance. rewrite (proj2 (Z.eqb_neq a 10)) by done.
    destruct (Z.ltb_spec 80 (xe + 1)); cbn [fst snd]; intros IH Hv Hxr.
    { clear IH. destruct (echo _ _ _ _ _ _) as [ss yl].
      cbn [straight forallb]. intros [Hs _]%andb_true_iff. apply Z.leb_le in Hs. lia. }
    replace (xe + 1 - 1) with xe by lia. replace ((xe + 1 - 1) * 9) with (xe * 9) by lia.
    specialize (IH (if block_px pps (xe * 9) ye i then 0 else v) (w || block_px pps (xe * 9) ye i)
      Hx0 Hp Hl Hed).
    destruct (echo max sh1 (length l) xe ye codes) as [ss yl]. intros [_ Hs]%andb_true_iff.
    change (drawn pps (Erase (xe * 9) ye :: ss) i v)
      with (drawn pps ss i (if block_px pps (xe * 9) ye i then 0 else v)).
    change (wiped pps (Erase (xe * 9) ye :: ss) i) with (block_px pps (xe * 9) ye i || wiped pps ss i).
    destruct IH as [E1 E2]; [|done|split; [done|]].
    + rewrite Hv. rewrite cells_on_app. destruct (cells_on pps (layout x0 y0 l) i); cbn [orb].
      * by rewrite Hap.
      * destruct (block_px pps (xe * 9) ye i) eqn:Eb; [by rewrite orb_true_r|]. rewrite orb_false_r.
        unfold cells_on. cbn [app existsb]. rewrite orb_false_r, <- char_px_on by lia.
        assert (Ec : char_px pps (xe * 9) ye a i = false); [|by rewrite Ec].
        apply not_true_is_false. intros Ec. rewrite char_px_on in Ec by lia. apply char_on_range in Ec.
        unfold block_px in Eb. rewrite px_of_on in Eb by lia. apply not_true_iff_false in Eb. apply Eb.
        rewrite !andb_true_iff, !Z.leb_le, !Z.ltb_lt. lia.
    + rewrite E2. by rewrite orb_assoc.
  - destruct (Nat.ltb_spec (length line) max) as [Hm|Hm]; [|by eapply IH].
    specialize (IH sh1 (line ++ [c]) line' sh' codes').
    rewrite length_app, cursor_end_app, layout_app in IH. cbn [length] in IH.
    replace (length line + 1)%nat with (S (length line)) in IH by lia.
    destruct (cursor_end x0 y0 line) as [x y]. cbn [cursor_end layout fst snd] in *.
    rewrite (proj2 (Z.eqb_neq c 10)) in IH by done.
    specialize (IH (if char_px pps (x * 9) y c i then white else v) w Hx0 Hp).
    destruct (echo _ _ _ _ _ _) as [ss yl].
    apply IH; [apply Forall_app; by repeat constructor|done|].
    rewrite Hv, cells_on_app. rewrite (char_px_on pps) by lia. unfold cells_on at 3. cbn [app existsb].
    rewrite orb_false_r. by destruct (cells_on pps (layout x0 y0 line) i), (char_on pps (x * 9) y c i).
Qed.

Lemma key_step_char sh code : 0 <= code < 256 -> 0 <= (key_step sh code).1 < 128.
Proof.
  assert (Hall : forallb (fun code => let f sh := (0 <=? (key_step sh code).1) && ((key_step sh code).1 <? 128) in
    f true && f false) (seqZ 0 256) = true) by (vm_compute; reflexivity).
  rewrite forallb_forall in Hall. intros Hc. specialize (Hall code).
  rewrite <- list_elem_of_In, elem_of_seqZ in Hall. specialize (Hall ltac:(lia)).
  apply andb_prop in Hall as [H1 H2]. destruct sh; lia.
Qed.

Section readline.
Context {K D : Type} `{PortIn K} `{BlockDev D} (lat : nat) `{!KbdModel K lat}.
Context (pps fb_len : Z).
Hypothesis Hlen : fb_len <= 2 ^ 32.
Hypothesis Hpps : 728 <= pps < 2 ^ 31.

Lemma wp_erase_cell (Q : unit -> con -> Prop) s :
  -1000 <= cur_x s <= 80 -> 0 <= cur_y s < 2 ^ 30 ->
  cell_inside pps fb_len (cur_x s * 9) (cur_y s) ->
  (forall m, (forall i, mget m i =
       if block_px pps (cur_x s * 9) (cur_y s) i then 0 else mget (pixels s) i) ->
     Q tt (Con m (cur_x s) (cur_y s))) ->
  wp (erase_cell pps fb_len) Q s.
Proof.
  intros Hx Hy Hin HQ. unfold erase_cell.
  eapply (wp_each_pixel pps (fun _ _ => true)); [|exact HQ].
  intros row col w Q' Hrow Hcol E1 E2 HQ'. apply wp_bind, wp_get. rewrite E1, E2.
  rewrite (i32_small (cur_x s * 9)), !i32_small by lia.
  apply wp_fb_store; [by apply pixel_inside|]. by rewrite (pixel_index_cell pps fb_len).
Qed.

(** Where the cursor stands when [n] characters are on the line that began at
    [(x0, y0)], after [w] wraps. *)
Definition cursor_at (x0 y0 : Z) (n : nat) (c : con) : Prop :=
  exists w, 0 <= w /\ 81 * w <= x0 + 255 /\ cur_x c = x0 + Z.of_nat n - 81 * w /\ cur_x c <= 80 /\
    cur_y c = y0 + 10 * w.

Lemma cursor_at_inside x0 y0 n c :
  0 <= x0 <= 80 -> 0 <= y0 -> (y0 + 48) * pps <= fb_len -> (n <= 255)%nat -> cursor_at x0 y0 n c ->
  -1000 <= cur_x c <= 80 /\ y0 <= cur_y c <= y0 + 40 /\ cur_y c < 2 ^ 30 /\
  cell_inside pps fb_len (cur_x c * 9) (cur_y c).
Proof.
  intros Hx0 Hy0 Hb Hn (w & Hw & Hw2 & Hx & Hx80 & Hy).
  assert (w <= 4) by lia. assert (y0 < 2 ^ 29) by nia.
  unfold cell_inside. split_and!; try lia; try nia.
Qed.

Lemma cursor_at_advance x0 y0 n c m ch :
  ch <> 10 -> (n < 255)%nat -> cursor_at x0 y0 n c ->
  cursor_at x0 y0 (S n) (Con m (advance (cur_x c) (cur_y c) ch).1 (advance (cur_x c) (cur_y c) ch).2).
Proof.
  intros Hch Hn (w & Hw & Hw2 & Hx & Hx80 & Hy). unfold advance.
  destruct (Z.eqb_spec ch 10); [done|]. destruct (Z.ltb_spec 80 (cur_x c + 1)); cbn [fst snd].
  - exists (w + 1). cbn [cur_x cur_y]. lia.
  - exists w. cbn [cur_x cur_y]. lia.
Qed.

Context (x0 y0 : Z).
Hypothesis Hx0 : 0 <= x0 <= 80.
Hypothesis Hy0 : 0 <= y0.
Hypothesis Hfit : (y0 + 48) * pps <= fb_len.

(** What [shell_readline] leaves: the line with its terminator, the cursor at
    the start of a line below, the keyboard after the newline. *)
Definition line_read (line : list Z) (sh : bool) (codes : list Z) (d : D)
    (r : Z * list Z) (s : sys K D) : Prop :=
  r.1 = Z.of_nat (length line) /\ length r.2 = 256%nat /\
  (exists rest, r.2 = line ++ 0 :: rest) /\
  cur_x (s_con s) = 0 /\ y0 + 10 <= cur_y (s_con s) <= y0 + 50 /\
  shift_pressed (s_kst s) = shift_val sh /\
  (exists m, (m <= lat)%nat /\ kbd_wait m codes (kbd (s_kst s))) /\ s_dev s = d.

(** The state of the editing loop with [line] typed so far. *)
Definition editing (line : list Z) (sh : bool) (codes : list Z) (d : D) (buffer : list Z)
    (s : sys K D) : Prop :=
  (length line <= 255)%nat /\ length buffer = 256%nat /\ take (length line) buffer = line /\
  cursor_at x0 y0 (length line) (s_con s) /\ shift_pressed (s_kst s) = shift_val sh /\
  (exists n, (n <= lat)%nat /\ kbd_wait n codes (kbd (s_kst s))) /\ s_dev s = d.

Lemma wp_buffer_set {W} buf i v (Q : list Z -> W -> Prop) w :
  0 <= i < Z.of_nat (length buf) -> Q (<[Z.to_nat i := v]> buf) w ->
  wp (lift (buffer_set buf i v)) Q w.
Proof.
  intros Hi HQ. unfold buffer_set.
  destruct (Z.leb_spec 0 i), (Z.ltb_spec i (Z.of_nat (length buf))); try lia. exact HQ.
Qed.

Lemma take_insert_next (line buffer : list Z) c :
  (length line < length buffer)%nat -> take (length line) buffer = line ->
  exists rest, <[length line := c]> buffer = line ++ c :: rest.
Proof.
  intros Hl Ht. exists (drop (S (length line)) buffer).
  rewrite <- Ht at 2. rewrite insert_take_drop by done. done.
Qed.

(** What a character does to the console when [n] are on the line. *)
Definition con_step (n : nat) (c : Z) (k k' : con) : Prop :=
  if c =? 0 then k' = k
  else if c =? 10 then k' = Con (pixels k) 0 (cur_y k + 10)
  else if c =? 8 then
    if (n =? 0)%nat then k' = k
    else (forall i, mget (pixels k') i = stroke_px pps i (mget (pixels k) i) (Erase ((cur_x k - 1) * 9) (cur_y k))) /\
         cur_x k' = cur_x k - 1 /\ cur_y k' = cur_y k
  else if (n <? 255)%nat then
    (forall i, mget (pixels k') i = stroke_px pps i (mget (pixels k) i) (Paint (cur_x k * 9) (cur_y k) c)) /\
    cur_x k' = (advance (cur_x k) (cur_y k) c).1 /\ cur_y k' = (advance (cur_x k) (cur_y k) c).2
  else k' = k.

(** One scancode. *)
Lemma wp_readline_step kfuel line sh code codes d buffer s (Q : _ -> sys K D -> Prop) :
  editing line sh (code :: codes) d buffer s -> (lat < kfuel)%nat -> 0 <= code < 256 ->
  (let '(c, sh') := key_step sh code in
   forall buffer' s', con_step (length line) c (s_con s) (s_con s') ->
     (if c =? 0 then editing line sh' codes d buffer' s' -> Q (Next (Z.of_nat (length line), buffer')) s'
      else if c =? 10 then line_read line sh' codes d (Z.of_nat (length line), buffer') s' ->
        Q (Exit (Z.of_nat (length line), buffer')) s'
      else
        let line' := if c =? 8 then take (length line - 1) line
                     else if (length line <? 255)%nat then line ++ [c] else line in
        editing line' sh' codes d buffer' s' -> Q (Next (Z.of_nat (length line'), buffer')) s')) ->
  wp (readline_step pps fb_len kfuel 256 (Z.of_nat (length line), buffer)) Q s.
Proof.
  intros (Hl & Hb & Ht & Hcur & Hsh & (n & Hn & Hk) & Hd) Hkf Hc HQ. unfold readline_step.
  pose proof (key_step_char sh code Hc) as Hch.
  apply wp_bind, wp_zoom, (wp_read_key lat kfuel n code codes sh); [done|lia|done|done|].
  intros k m Hm Hkm. destruct (key_step sh code) as [c sh']. cbn [fst snd] in *.
  set (s1 := Sys (s_con s) (Kst k (shift_val sh')) (s_dev s)).
  assert (He : editing line sh' codes d buffer s1) by (split_and!; [done..|by exists m|done]).
  destruct (cursor_at_inside x0 y0 _ _ Hx0 Hy0 Hfit Hl Hcur) as (I1 & I2 & I3 & I4).
  unfold con_step in HQ.
  destruct (Z.eqb_spec c 0) as [|Hc0]; [by apply wp_ret, HQ|].
  destruct (Z.eqb_spec c 10) as [->|Hc10].
  { apply wp_bind, wp_buffer_set; [lia|]. rewrite Nat2Z.id.
    apply wp_bind, wp_zoom. cbn [s_con s1]. apply wp_bind, wp_get. change (10 =? 10) with true.
    cbv iota. apply wp_modify, wp_ret. apply HQ; [cbn [s_con]; by rewrite i32_small by lia|].
    destruct (take_insert_next line buffer 0) as [rest Er]; [lia|done|].
    split_and!; cbn [fst snd s_con cur_x cur_y s_kst s_dev s1 shift_pressed kbd];
      [done|by rewrite length_insert|by exists rest|done|rewrite i32_small; lia..|done|by exists m|done]. }
  destruct (Z.eqb_spec c 8) as [->|Hc8].
  { destruct (Z.ltb_spec 0 (Z.of_nat (length line))) as [Hpos|Hzero].
    - apply wp_bind, wp_zoom. cbn [s_con s1]. apply wp_bind, wp_get, wp_modify. cbn [s_con s_kst s_dev].
      rewrite i32_small by lia.
      assert (Hcur' : cursor_at x0 y0 (length line - 1)
        (Con (pixels (s_con s)) (cur_x (s_con s) - 1) (cur_y (s_con s)))).
      { destruct Hcur as (w & ? & ? & ? & ? & ?). exists w. cbn [cur_x cur_y]. lia. }
      destruct (cursor_at_inside x0 y0 (length line - 1) _ Hx0 Hy0 Hfit ltac:(lia) Hcur')
        as (J1 & J2 & J3 & J4).
      apply wp_bind, wp_zoom. cbn [s_con]. apply wp_erase_cell; [done|lia|done|].
      intros pm Hpm. cbn [cur_x cur_y pixels s_con s_kst s_dev] in *. apply wp_ret.
      assert (El : length (take (length line - 1) line) = (length line - 1)%nat)
        by (rewrite length_take; lia).
      replace (Z.of_nat (length line) - 1) with (Z.of_nat (length (take (length line - 1) line))) by lia.
      apply HQ; [destruct (Nat.eqb_spec (length line) 0); [lia|done]|].
      unfold editing. rewrite El. cbn [s_con s_kst s_dev shift_pressed kbd].
      split_and!; [lia|done| |done|done|by exists m|done].
      transitivity (take (length line - 1) (take (length line) buffer)); [|by rewrite Ht].
      rewrite take_take. f_equal. lia.
    - apply wp_ret. assert (line = []) as -> by (destruct line; [done|simpl in *; lia]).
      apply (HQ buffer s1); [done|exact He]. }
  change (256 - 1) with 255. destruct (Z.ltb_spec (Z.of_nat (length line)) 255) as [Hroom|Hfull].
  - apply wp_bind, wp_buffer_set; [lia|]. rewrite Nat2Z.id. apply wp_bind, wp_zoom. cbn [s_con s1].
    apply wp_putchar_inside; [done|done|lia|done|done|done|]. intros pm Hpm. apply wp_ret.
    destruct (Nat.ltb_spec (length line) 255); [|lia].
    replace (Z.of_nat (length line) + 1) with (Z.of_nat (length (line ++ [c])))
      by (rewrite length_app; simpl; lia).
    apply HQ; [done|]. destruct (take_insert_next line buffer c) as [rest Er]; [lia|done|].
    assert (El : length (line ++ [c]) = S (length line)) by (rewrite length_app; simpl; lia).
    unfold editing. rewrite El. cbn [s_con s_kst s_dev shift_pressed kbd].
    split_and!; [lia|by rewrite length_insert| |by apply cursor_at_advance; [|lia|]|done|by exists m|done].
    rewrite Er, (cons_middle c), app_assoc, <- El. apply take_app_length.
  - apply wp_ret. destruct (Nat.ltb_spec (length line) 255); [lia|]. apply (HQ buffer s1); [done|exact He].
Qed.

(** The screen after the strokes [ss], the cursor below line [ye]. *)
Definition stroked (ss : list stroke) (ye : Z) (k k' : con) : Prop :=
  cur_y k' = ye + 10 /\ forall i, mget (pixels k') i = drawn pps ss i (mget (pixels k) i).

Lemma wp_readline_loop kfuel codes : forall fuel line sh d buffer s line' sh' codes' (Q : _ -> sys K D -> Prop),
  editing line sh codes d buffer s -> (lat < kfuel)%nat -> (length codes <= fuel)%nat ->
  Forall (fun code => 0 <= code < 256) codes ->
  edit 255 sh line codes = Some (line', sh', codes') ->
  (let '(ss, ye) := echo 255 sh (length line) (cur_x (s_con s)) (cur_y (s_con s)) codes in
   forall r s', stroked ss ye (s_con s) (s_con s') -> line_read line' sh' codes' d r s' -> Q r s') ->
  wp (cloop fuel (readline_step pps fb_len kfuel 256) (Z.of_nat (length line), buffer)) Q s.
Proof.
  induction codes as [|code codes IH]; intros fuel line sh d buffer s line' sh' codes' Q He Hkf Hf Hc Hed HQ;
    [done|].
  apply Forall_cons_1 in Hc as [Hc1 Hc]. destruct fuel as [|fuel]; [simpl in Hf; lia|].
  cbn [cloop]. apply wp_bind, (wp_readline_step kfuel line sh code codes d); [done..|].
  cbn [edit echo] in Hed, HQ. destruct (key_step sh code) as [c sh1]. intros buffer' s'. unfold con_step.
  simpl in Hf. destruct (c =? 0).
  { intros Ek He'. eapply IH; eauto; [lia|]. by rewrite Ek. }
  destruct (c =? 10).
  { injection Hed as -> -> ->. intros Ek Hr. apply wp_ret, HQ; [|done]. by rewrite Ek. }
  cbv zeta. destruct (c =? 8).
  - destruct (Nat.eqb_spec (length line) 0) as [E0|E0].
    { apply nil_length_inv in E0 as ->. intros Ek He'. eapply (IH fuel []); eauto; [lia|]. by rewrite Ek. }
    intros (Hp & Ex & Ey) He'. eapply IH; eauto; [lia|].
    rewrite length_take, Nat.min_l, Ex, Ey by lia.
    destruct (echo _ _ _ _ _ _) as [ss ye]. intros r s2 [Hy2 Hp2] Hr. apply HQ; [|done].
    split; [done|]. intros i. by rewrite Hp2, Hp.
  - destruct (Nat.ltb_spec (length line) 255).
    2: { intros Ek He'. eapply IH; eauto; [lia|]. by rewrite Ek. }
    intros (Hp & Ex & Ey) He'. eapply IH; eauto; [lia|].
    rewrite length_app, Ex, Ey. cbn [length]. replace (length line + 1)%nat with (S (length line)) by lia.
    destruct (echo _ _ _ _ _ _) as [ss ye]. intros r s2 [Hy2 Hp2] Hr. apply HQ; [|done].
    split; [done|]. intros i. by rewrite Hp2, Hp.
Qed.
End readline.

(** Typed characters are ASCII and neither NUL, newline nor backspace. *)
Lemma edit_chars max codes : forall sh line line' sh' codes',
  Forall (fun code => 0 <= code < 256) codes ->
  Forall (fun c => 0 < c < 128) line ->
  edit max sh line codes = Some (line', sh', codes') -> Forall (fun c => 0 < c < 128) line'.
Proof.
  induction codes as [|code codes IH]; intros sh line line' sh' codes' Hc Hl He; [done|].
  apply Forall_cons_1 in Hc as [Hc1 Hc]. pose proof (key_step_char sh code Hc1) as Hch.
  cbn [edit] in He. destruct (key_step sh code) as [c sh1]. cbn [fst] in Hch.
  destruct (Z.eqb_spec c 0); [by eapply IH|]. destruct (c =? 10); [by injection He as -> -> ->|].
  destruct (c =? 8); [eapply IH; [exact Hc| |exact He]; by apply Forall_take|].
  eapply IH; [exact Hc| |exact He]. destruct (_ <? _)%nat; [|done].
  apply Forall_app; split; [done|]. constructor; [lia|done].
Qed.

Lemma words_chars (P : Z -> Prop) line : Forall P line -> Forall (Forall P) (words line).
Proof.
  intros Hl. apply Forall_forall. intros w [_ Hw]%list_elem_of_filter.
  revert w Hw. rewrite <- Forall_forall. induction Hl as [|c line Hc Hl IH]; cbn [segments].
  - by repeat constructor.
  - destruct (c =? 32); [by constructor|]. destruct (segments 32 line) as [|s ss].
    + by repeat constructor.
    + apply Forall_cons_1 in IH as [H1 H2]. by repeat constructor.
Qed.

Definition prompt : list Z := lit_text "SimplrOS> ".

Section iteration.
Context {K D : Type} `{PortIn K} `{BlockDev D} (lat : nat) `{!KbdModel K lat}.
Context (img : Z -> Z) `{!BlockDevOk D img}.
Context (pps fb_len : Z) (fs : filesystem) (junk : site -> list Z) (uninit : inode).
Hypothesis Hlen : fb_len <= 2 ^ 32.
Hypothesis Hpps : 728 <= pps < 2 ^ 31.
Hypothesis Hjunk : forall s, length (junk s) = 1024%nat.
Hypothesis Htotal : 0 < sb_total_inodes (fs_superblock fs).
Hypothesis Hroot : names_ok img (inode_at img 0).

(** The shell stands at the start of line [y] with these scancodes to come. *)
Definition at_prompt (y : Z) (sh : bool) (codes : list Z) (s : sys K D) : Prop :=
  cur_x (s_con s) = 0 /\ cur_y (s_con s) = y /\ shift_pressed (s_kst s) = shift_val sh /\
  (exists n, (n <= lat)%nat /\ kbd_wait n codes (kbd (s_kst s))) /\ dev_ok (s_dev s).

(** The text [t] stands on the screen from line [y], with the cursor after
    it. *)
Definition shows (t : list Z) (y : Z) (c : con) : Prop :=
  exists m, painted pps white (layout 0 y t) m (pixels c) /\
    (cur_x c, cur_y c) = cursor_end 0 y t.

(** The arguments of a line. *)
Definition arguments (line : list Z) : list (list Z) := take 16 (words line).

(** Text that fits the screen wherever the line entered before it ends. *)
Definition text_fits (y : Z) (t : list Z) : Prop :=
  Forall (fun c => 0 <= c < 128) t /\
  forall y', y + 10 <= y' <= y + 50 -> ((cursor_end 0 y' t).2 + 8) * pps <= fb_len.

Lemma wp_text y' t (Q : unit -> con -> Prop) c :
  cur_x c = 0 -> cur_y c = y' -> 0 <= y' -> Forall (fun ch => 0 <= ch < 128) t ->
  ((cursor_end 0 y' t).2 + 8) * pps <= fb_len ->
  (forall c', shows t y' c' -> Q tt c') -> wp (shell_print pps fb_len t) Q c.
Proof.
  intros Hx Hy Hy0 Ht Hb HQ.
  assert (Ht' : Forall (fun ch => 0 <= u8 ch < 128) t).
  { eapply Forall_impl; [exact Ht|]. intros ch Hch. cbv beta in *. rewrite u8_small; lia. }
  pose proof (cursor_end_range 0 y' t ltac:(lia)) as [He1 He2].
  apply wp_shell_print; rewrite ?Hx, ?Hy; [done|lia|lia|nia|by apply layout_fits; [lia..| |]|].
  intros m Hm. apply HQ. exists (pixels c). split; [done|]. cbn [cur_x cur_y].
  by destruct (cursor_end 0 y' t).
Qed.

(** The prompt and the line. *)
Lemma wp_prompt_line fuel kfuel input y sh codes line sh' codes' s
    (Q : Z * list Z -> sys K D -> Prop) :
  at_prompt y sh codes s -> 0 <= y -> (y + 48) * pps <= fb_len -> length input = 256%nat ->
  (lat < kfuel)%nat -> (length codes <= fuel)%nat -> Forall (fun code => 0 <= code < 256) codes ->
  edit 255 sh [] codes = Some (line, sh', codes') ->
  (forall r s', line_read lat y line sh' codes' (s_dev s) r s' -> Q r s') ->
  wp (print pps fb_len prompt ;;; shell_readline pps fb_len fuel kfuel input SHELL_MAX_INPUT) Q s.
Proof.
  intros (Hx & Hy & Hsh & (n & Hn & Hk) & Hd) Hy0 Hroom Hin Hkf Hf Hc He HQ.
  apply wp_bind, wp_zoom. apply (wp_text y); [done|done|done|by apply (bool_decide_unpack _); vm_compute|
    change (cursor_end 0 y prompt) with (10, y); cbn [snd]; nia|].
  intros c (m & Hm & Hcur). cbn [s_con s_kst s_dev].
  change (cursor_end 0 y prompt) with (10, y) in Hcur. injection Hcur as Hcx Hcy.
  unfold shell_readline. change 0 with (Z.of_nat (length (@nil Z))).
  apply (wp_readline_loop lat pps fb_len Hlen Hpps 10 y ltac:(lia) Hy0 Hroom kfuel codes fuel [] sh
    (s_dev s)) with (line' := line) (sh' := sh') (codes' := codes'); try done.
  2: { destruct (echo _ _ _ _ _ _) as [ss ye]. intros r s' _. apply HQ. }
  unfold editing. cbn [length s_con s_kst s_dev]. split_and!; [lia|done|done| |done|by exists n|done].
  exists 0. lia.
Qed.

(** What a line typed at the prompt prints; [None] for [clear]. *)
Definition printed (line : list Z) : option (list Z) :=
  match arguments line with
  | [] => Some []
  | argv => command_text img (sb_total_inodes (fs_superblock fs)) argv
  end.

(** The state after the command. *)
Definition answered (text : list Z) (y : Z) (sh : bool) (codes : list Z) (input : list Z)
    (s : sys K D) : Prop :=
  length input = 256%nat /\ (exists y', y + 10 <= y' <= y + 50 /\ shows text y' (s_con s)) /\
  shift_pressed (s_kst s) = shift_val sh /\
  (exists n, (n <= lat)%nat /\ kbd_wait n codes (kbd (s_kst s))) /\ dev_ok (s_dev s).

Lemma shows_nil c y : cur_x c = 0 -> cur_y c = y -> shows [] y c.
Proof. intros Hx Hy. exists (pixels c). split; [apply painted_nil|]. cbn. by rewrite Hx, Hy. Qed.

(** The line entered, from the terminated buffer to the command's output. *)
Lemma wp_run_line file_buf line sh codes y d r s text (Q : list Z -> sys K D -> Prop) :
  line_read lat y line sh codes d r s -> dev_ok d -> 0 <= y ->
  Forall (fun c => 0 < c < 128) line -> length file_buf = Z.to_nat 4096 ->
  printed line = Some text -> text_fits y text ->
  (forall input' s', answered text y sh codes input' s' -> Q input' s') ->
  wp (c <- lift (bget r.2 0) ;;
      if c =? 0 then ret r.2
      else
        '(argv, input) <- lift (shell_parse r.2 SHELL_MAX_ARGS) ;;
        if (length argv =? 0)%nat then ret input
        else shell_exec pps fb_len fs junk uninit file_buf (map (string_at input) argv) ;;; ret input) Q s.
Proof.
  intros (_ & Hl & (rest & Er) & Hx & Hy & Hsh & Hk & Hd') Hd Hy0 Hline Hfb Ht [Hta Htf] HQ.
  destruct r as [len input]. cbn [snd] in *. subst input.
  assert (Hnil : forall input', length input' = 256%nat -> printed line = Some [] -> Q input' s).
  { intros input' Hi Hp. rewrite Hp in Ht. injection Ht as <-. apply HQ. split_and!; [done| |done|done|by rewrite Hd'].
    exists (cur_y (s_con s)). split; [lia|]. by apply shows_nil. }
  destruct line as [|c0 line1]; [by apply Hnil|]. set (line := c0 :: line1) in *.
  pose proof (Forall_inv Hline) as Hc0. cbv beta in Hc0.
  apply wp_bind. change (bget (line ++ 0 :: rest) 0) with (Done c0). unfold lift at 1.
  change (wp (fun w => Done (c0, w)) ?P s) with (P c0 s). cbv beta.
  destruct (Z.eqb_spec c0 0); [lia|].
  assert (Hne : Forall (fun x => x <> 0) line) by (eapply Forall_impl; [exact Hline|]; simpl; lia).
  destruct (parse_loop_spec 16 [] line rest [] 0 eq_refl Hne) as (ps & line' & E & El & Ew).
  cbn [app] in E, Ew. apply wp_bind. unfold shell_parse. change (Z.to_nat SHELL_MAX_ARGS) with 16%nat.
  rewrite E. unfold lift. change (wp (fun w => Done (?v, w)) ?P s) with (P v s). cbv beta iota.
  fold (arguments line) in Ew.
  assert (Hlen' : length (line' ++ 0 :: rest) = 256%nat)
    by (rewrite <- Hl, !length_app, El; done).
  destruct (Nat.eqb_spec (length ps) 0) as [E0|E0].
  { apply wp_ret, Hnil; [done|]. apply nil_length_inv in E0 as ->. cbn [map] in Ew.
    unfold printed. by rewrite <- Ew. }
  rewrite Ew. unfold printed in Ht. apply wp_bind.
  destruct (arguments line) as [|a args] eqn:Ea; [by destruct ps|].
  apply (outputs_exec img pps fb_len fs junk uninit Hjunk Htotal Hroot file_buf _ text Hfb); [|done|by rewrite Hd'|].
  { rewrite <- Ea. apply Forall_take, words_chars, Hne. }
  apply (wp_text (cur_y (s_con s))); [done|done|lia|done|by apply Htf|].
  intros c' Hc' d' Hok. apply wp_ret, HQ. split_and!; [done| |done|done|done].
  exists (cur_y (s_con s)). by split.
Qed.

(** One pass of the command loop: the line typed is edited, split into
    arguments and run, and what the command prints is on the screen. *)
Lemma wp_shell_iter fuel kfuel file_buf input y sh codes line sh' codes' text s
    (Q : list Z -> sys K D -> Prop) :
  at_prompt y sh codes s -> 0 <= y -> (y + 48) * pps <= fb_len -> length input = 256%nat ->
  length file_buf = Z.to_nat 4096 -> (lat < kfuel)%nat -> (length codes <= fuel)%nat ->
  Forall (fun code => 0 <= code < 256) codes ->
  edit 255 sh [] codes = Some (line, sh', codes') ->
  printed line = Some text -> text_fits y text ->
  (forall input' s', answered text y sh' codes' input' s' -> Q input' s') ->
  wp (shell_iter pps fb_len fs junk uninit fuel kfuel file_buf input) Q s.
Proof.
  intros Hp Hy0 Hroom Hin Hfb Hkf Hf Hc He Ht Hfit HQ. unfold shell_iter.
  pose proof (edit_chars 255 codes sh [] line sh' codes' Hc ltac:(constructor) He) as Hchars.
  pose proof (wp_prompt_line fuel kfuel input y sh codes line sh' codes' s
    (line_read lat y line sh' codes' (s_dev s)) Hp Hy0 Hroom Hin Hkf Hf Hc He ltac:(done)) as Hw.
  apply wp_bind_inv in Hw. apply wp_bind. eapply wp_mono; [exact Hw|]. clear Hw.
  cbv beta. intros [] s1 Hw. apply wp_bind. eapply wp_mono; [exact Hw|]. cbv beta.
  intros [len input1] s2 Hr. apply (wp_run_line file_buf line sh' codes' y (s_dev s) (len, input1) s2 text);
    (done || apply Hp).
Qed.
End iteration.

(** ** Properties *)

(** C31: [shell_parse] splits the input buffer in place into its words: on a
    buffer that holds a NUL-terminated line it terminates inside the buffer,
    and the C strings its pointers denote in the modified buffer are the first
    [max_args] space-separated words, in order; the line's length and the bytes
    after it are unchanged. *)
Theorem shell_parse_spec line rest max_args :
  Forall (fun c => c <> 0) line ->
  exists argv line', shell_parse (line ++ 0 :: rest) max_args = Done (argv, line' ++ 0 :: rest) /\
    length line' = length line /\
    map (string_at (line' ++ 0 :: rest)) argv = take (Z.to_nat max_args) (words line).
Proof.
  intros Hl. destruct (parse_loop_spec (Z.to_nat max_args) [] line rest [] 0 eq_refl Hl)
    as (ps & line' & E & El & Ew). by exists ps, line'.
Qed.

(** C30: [shell_readline] performs the line editing of [edit] on the stream of
    scancodes up to the newline (characters appended while there is room,
    backspace removing the last one), terminates the line in the buffer,
    returns its length and stays inside the framebuffer, on a screen with 48
    pixel rows below the line it starts on. Each character accepted is painted
    at the cursor and each one removed is made black, in order ([echo]), and
    nothing else is drawn; so, unless a backspace goes back over a line wrap,
    the text of the line stands on the screen from where the cursor was, the
    other cells that were erased are black and all other pixels are as before.
    The cursor is left at the start of the next line. *)
Theorem shell_readline_spec {K D} `{PortIn K} lat `{!KbdModel K lat} pps fb_len x0 y0 fuel kfuel n
    buffer sh codes line sh' codes' (s : sys K D) :
  fb_len <= 2 ^ 32 -> 728 <= pps < 2 ^ 31 -> 0 <= x0 <= 80 -> 0 <= y0 -> (y0 + 48) * pps <= fb_len ->
  cur_x (s_con s) = x0 -> cur_y (s_con s) = y0 -> length buffer = 256%nat ->
  (n <= lat)%nat -> kbd_wait n codes (kbd (s_kst s)) -> shift_pressed (s_kst s) = shift_val sh ->
  (lat < kfuel)%nat -> (length codes <= fuel)%nat -> Forall (fun code => 0 <= code < 256) codes ->
  edit 255 sh [] codes = Some (line, sh', codes') ->
  wp (shell_readline pps fb_len fuel kfuel buffer SHELL_MAX_INPUT) (fun r s' =>
    r.1 = Z.of_nat (length line) /\ length r.2 = 256%nat /\
    (exists rest, r.2 = line ++ 0 :: rest) /\
    cur_x (s_con s') = 0 /\ y0 + 10 <= cur_y (s_con s') <= y0 + 50 /\
    shift_pressed (s_kst s') = shift_val sh' /\
    (exists m, (m <= lat)%nat /\ kbd_wait m codes' (kbd (s_kst s'))) /\ s_dev s' = s_dev s /\
    let '(ss, ye) := echo 255 sh 0 x0 y0 codes in
    cur_y (s_con s') = ye + 10 /\
    (forall i, mget (pixels (s_con s')) i = drawn pps ss i (mget (pixels (s_con s)) i)) /\
    (straight ss = true -> ye = (cursor_end x0 y0 line).2 /\
       forall i, mget (pixels (s_con s')) i =
         if cells_on pps (layout x0 y0 line) i then white
         else if wiped pps ss i then 0 else mget (pixels (s_con s)) i)) s.
Proof.
  intros Hl Hp Hx0 Hy0 Hfit Hx Hy Hb Hn Hk Hsh Hkf Hf Hc He.
  unfold shell_readline. change 0 with (Z.of_nat (length (@nil Z))) at 1.
  apply (wp_readline_loop lat pps fb_len Hl Hp x0 y0 Hx0 Hy0 Hfit kfuel codes fuel [] sh (s_dev s))
    with (line' := line) (sh' := sh') (codes' := codes'); try done.
  { split_and!; [simpl; lia|done|done| |done|by exists n|done]. exists 0. simpl length. lia. }
  rewrite Hx, Hy. cbn [length].
  pose proof (fun i v => echo_text pps 255 x0 y0 i v codes sh [] line sh' codes' v false Hx0 ltac:(lia)
    ltac:(constructor) He eq_refl) as Ht. cbn [cursor_end fst snd length] in Ht.
  destruct (echo 255 sh 0 x0 y0 codes) as [ss ye].
  intros r s' [Hye Hd] (R1 & R2 & R3 & R4 & R5 & R6 & R7 & R8).
  do 8 (split; [done|]). split; [done|]. split; [exact Hd|].
  intros Hs. split; [by apply (Ht 0 0)|]. intros i. rewrite Hd. by apply (Ht i (mget (pixels (s_con s)) i)).
Qed.

(** C32: Every command but [clear] prints exactly the text of [command_text] (the
    joined arguments, the names in the root directory, the blocks of the file
    or the error messages of [cat], the help text, the unknown command), and
    otherwise only reads the disk. *)
Theorem shell_exec_output {K D} `{BlockDev D} (img : Z -> Z) `{!BlockDevOk D img}
    pps fb_len fs junk uninit file_buf argv text (s : sys K D) (Q : con -> Prop) :
  (forall s, length (junk s) = 1024%nat) -> 0 < sb_total_inodes (fs_superblock fs) ->
  names_ok img (inode_at img 0) -> length file_buf = Z.to_nat 4096 ->
  Forall (Forall (fun c => c <> 0)) argv ->
  command_text img (sb_total_inodes (fs_superblock fs)) argv = Some text ->
  dev_ok (s_dev s) -> wp (shell_print pps fb_len text) (fun _ c => Q c) (s_con s) ->
  wp (shell_exec pps fb_len fs junk uninit file_buf argv) (fun _ s' =>
    Q (s_con s') /\ s_kst s' = s_kst s /\ dev_ok (s_dev s')) s.
Proof.
  intros Hj Ht Hr Hf Ha Hc Hd Hw.
  apply (outputs_exec img pps fb_len fs junk uninit Hj Ht Hr file_buf argv text Hf Ha Hc); [done|].
  eapply wp_mono; [exact Hw|]. cbv beta. by intros [] c Hq d Hd'.
Qed.

(** C6: One pass of the command loop, from scancodes to pixels: with the cursor
    at the start of a line, the shell reads and edits the line typed, splits it
    into at most 16 arguments and runs the command; the command's text stands
    on the screen below, the newline has consumed its scancodes and the shell
    is ready for the next pass. *)
Theorem shell_iter_spec {K D} `{PortIn K} `{BlockDev D} lat `{!KbdModel K lat} (img : Z -> Z)
    `{!BlockDevOk D img} pps fb_len fs junk uninit fuel kfuel file_buf input y sh codes line sh'
    codes' text (s : sys K D) :
  fb_len <= 2 ^ 32 -> 728 <= pps < 2 ^ 31 -> (forall s, length (junk s) = 1024%nat) ->
  0 < sb_total_inodes (fs_superblock fs) -> names_ok img (inode_at img 0) ->
  at_prompt lat img y sh codes s -> 0 <= y -> (y + 48) * pps <= fb_len -> length input = 256%nat ->
  length file_buf = Z.to_nat 4096 -> (lat < kfuel)%nat -> (length codes <= fuel)%nat ->
  Forall (fun code => 0 <= code < 256) codes ->
  edit 255 sh [] codes = Some (line, sh', codes') ->
  printed img fs line = Some text -> text_fits pps fb_len y text ->
  wp (shell_iter pps fb_len fs junk uninit fuel kfuel file_buf input) (fun input' s' =>
    length input' = 256%nat /\
    (exists y', y + 10 <= y' <= y + 50 /\ shows pps text y' (s_con s')) /\
    shift_pressed (s_kst s') = shift_val sh' /\
    (exists n, (n <= lat)%nat /\ kbd_wait n codes' (kbd (s_kst s'))) /\ dev_ok (s_dev s')) s.
Proof.
  intros Hl Hp Hj Ht Hr Hs Hy Hroom Hi Hf Hkf Hfu Hc He Hpr Hfit.
  by apply (wp_shell_iter lat img pps fb_len fs junk uninit Hl Hp Hj Ht Hr fuel kfuel file_buf input
    y sh codes line sh' codes' text).
Qed.

(** [clear] blanks 768 scan lines whatever the screen's height: on a
    framebuffer that has them it leaves every pixel of them black and the cursor
    at the origin, and on a smaller one it writes outside the framebuffer. *)
Theorem cmd_clear_spec {K D} pps fb_len (s : sys K D) :
  0 < pps -> 768 * pps < 2 ^ 32 ->
  (768 * pps <= fb_len ->
   wp (cmd_clear pps fb_len) (fun _ s' =>
     (forall i, 0 <= i < 768 * pps -> mget (pixels (s_con s')) i = 0) /\
     cur_x (s_con s') = 0 /\ cur_y (s_con s') = 0 /\ s_kst s' = s_kst s /\ s_dev s' = s_dev s) s) /\
  (fb_len < 768 * pps -> forall r, cmd_clear pps fb_len s <> Done r).
Proof.
  intros Hp Hw. unfold cmd_clear. rewrite u32_small by lia. split.
  - intros Hf. apply wp_zoom, wp_bind.
    apply (wp_cfor_ (fun i c => forall j, 0 <= j < i -> mget (pixels c) j = 0)).
    + lia.
    + intros i c Hi Hc. apply wp_fb_store; [lia|]. cbn [pixels]. intros j Hj. rewrite mget_mput.
      case_decide; [done|]. apply Hc. lia.
    + intros c Hc. apply wp_modify. cbn [s_con s_kst s_dev pixels cur_x cur_y].
      split_and!; [|done..]. intros i Hi. apply Hc. lia.
  - intros Hf r Hr. unfold on_con, zoom in Hr.
    destruct ((cfor_ _ _ _ ;;; _) (s_con s)) as [[u c]| |] eqn:E; [|done..].
    unfold bind in E. destruct (cfor_ _ _ _ (s_con s)) as [[u1 c1]| |] eqn:E1; [|done..].
    apply (cfor__iter _ _ _ _ _ (768 * pps - 1)) in E1 as (w1 & r1 & E1); [|lia].
    by eapply fb_store_out in E1; [|lia].
Qed.

(** ** Witnesses *)

(** A 1024 x 768 screen, a keyboard about to send the given scancodes, the
    small image of [Fsso]. *)
Definition demo_sys (codes : list Z) : sys sim_kbd unit :=
  Sys (Con ∅ 0 40) (Kst (codes, 2%nat) 0) tt.

(** "ls" and Enter. *)
Definition type_ls : list Z := [0x26; 0x1F; 0x1C].

Lemma shell_parse_spec_witness :
  exists argv line', shell_parse ([32; 97; 98; 32; 32; 99] ++ 0 :: [7]) 16 = Done (argv, line' ++ 0 :: [7]) /\
    map (string_at (line' ++ 0 :: [7])) argv = [[97; 98]; [99]].
Proof.
  destruct (shell_parse_spec [32; 97; 98; 32; 32; 99] [7] 16) as (argv & line' & E & _ & Ew).
  - by repeat constructor.
  - exists argv, line'. split; [exact E|]. rewrite Ew. by vm_compute.
Defined.

Lemma demo_edit : edit 255 false [] type_ls = Some ([108; 115], false, []).
Proof. by vm_compute. Qed.

Lemma demo_codes : Forall (fun code => 0 <= code < 256) type_ls.
Proof. by repeat constructor. Qed.

(** The line is in the buffer, and on the screen its pixels are white. *)
Lemma shell_readline_spec_witness :
  wp (@shell_readline sim_kbd unit (sim_port_in 3) 1024 (768 * 1024) 8 4 (replicate 256 0) SHELL_MAX_INPUT)
    (fun r s' => (exists rest, r.2 = [108; 115] ++ 0 :: rest) /\
       forall i, cells_on 1024 (layout 0 40 [108; 115]) i = true -> mget (pixels (s_con s')) i = white)
    (demo_sys type_ls).
Proof.
  eapply wp_mono.
  - apply (@shell_readline_spec sim_kbd unit (sim_port_in 3) 3 (sim_kbd_model 3) 1024 (768 * 1024) 0 40
      8 4 2 (replicate 256 0) false type_ls [108; 115] false []); try lia; try reflexivity.
    + simpl. lia.
    + apply demo_codes.
  - cbv beta. intros r s' (_ & _ & H1 & _ & _ & _ & _ & _ & H2). split; [exact H1|].
    destruct H2 as (_ & _ & H2). intros i Hi. rewrite (proj2 (H2 eq_refl) i), Hi. reflexivity.
Defined.

Lemma demo_root : names_ok (mget demo_img) (inode_at (mget demo_img) 0).
Proof. apply demo_wf; [lia|by vm_compute]. Qed.

Lemma shell_exec_output_witness :
  wp (@shell_exec sim_kbd unit (mem_dev demo_img) 1024 (768 * 1024) demo_fs zero_junk no_inode
        (replicate (Z.to_nat 4096) 0) [lit_text "ls"])
    (fun _ s' => cur_y (s_con s') = 50) (demo_sys []).
Proof.
  eapply wp_mono.
  - apply (@shell_exec_output sim_kbd unit (mem_dev demo_img) (mget demo_img) (mem_dev_ok _ demo_ok)
      1024 (768 * 1024) demo_fs zero_junk no_inode (replicate (Z.to_nat 4096) 0) [lit_text "ls"] [97; 10]
      (demo_sys []) (fun c => cur_y c = 50) zero_junk_length).
    + by vm_compute.
    + exact demo_root.
    + by rewrite length_replicate.
    + apply (bool_decide_unpack _). by vm_compute.
    + by vm_compute.
    + exact I.
    + apply wp_shell_print; [lia|simpl; lia..| |by intros m _].
      apply (bool_decide_unpack _). by vm_compute.
  - by intros [] s' (H1 & _).
Defined.

(** Typing "ls" lists the file "a". *)
Lemma shell_iter_spec_witness :
  wp (@shell_iter sim_kbd unit (sim_port_in 3) (mem_dev demo_img) 1024 (768 * 1024) demo_fs zero_junk
        no_inode 8 4 (replicate (Z.to_nat 4096) 0) (replicate 256 0))
    (fun _ s' => exists y', shows 1024 [97; 10] y' (s_con s')) (demo_sys type_ls).
Proof.
  eapply wp_mono.
  - apply (@shell_iter_spec sim_kbd unit (sim_port_in 3) (mem_dev demo_img) 3 (sim_kbd_model 3)
      (mget demo_img) (mem_dev_ok _ demo_ok) 1024 (768 * 1024) demo_fs zero_junk no_inode 8 4
      (replicate (Z.to_nat 4096) 0) (replicate 256 0) 40 false type_ls [108; 115] false [] [97; 10]);
      try lia; try reflexivity.
    + exact demo_root.
    + split_and!; [done|done|done|by exists 2%nat; split; [lia|]|exact I].
    + simpl. lia.
    + apply demo_codes.
    + split; [by repeat constructor|]. intros y' Hy.
      pose proof (cursor_end_range 0 y' [97; 10] ltac:(lia)) as [_ Hc]. simpl length in Hc. lia.
  - cbv beta. intros r s' (_ & (y' & _ & Hs) & _). by exists y'.
Defined.

Lemma cmd_clear_spec_witness :
  wp (@cmd_clear sim_kbd unit 1024 (768 * 1024)) (fun _ s' => cur_y (s_con s') = 0) (demo_sys []) /\
  (forall r, @cmd_clear sim_kbd unit 800 (600 * 800) (demo_sys []) <> Done r).
Proof.
  split.
  - eapply wp_mono.
    + apply (proj1 (@cmd_clear_spec sim_kbd unit 1024 (768 * 1024) (demo_sys []) ltac:(lia) ltac:(lia))). lia.
    + cbv beta. by intros r s' (_ & _ & Hy & _).
  - apply (proj2 (@cmd_clear_spec sim_kbd unit 800 (600 * 800) (demo_sys []) ltac:(lia) ltac:(lia))). lia.
Defined.
