(* ===== verification/Kernel.v ===== *)
(** The kernel's entry point, [kernel_main] of [kernel/kernel.c]: screen and
    heap set-up, disk and file system bring-up with its status lines, and the
    shell; first over an abstract disk driver, then on the AHCI driver. *)
From stdpp Require Import strings.
From S2P Require Import Prelude Bytes Memory Layout Fsso Console Keyboard Shell.

(** What the bootloader passes. *)
Record BootInfo := {
  framebuffer : Z; width : Z; height : Z; pixels_per_scanline : Z
}.

(** The disk driver as the kernel sees it: [ahci_init] besides [ahci_read]. *)
Class DiskDriver (D : Type) `{BlockDev D} := {
  disk_init : St D Z
}.

Definition green : Z := 0x00FF00.
Definition red : Z := 0xFF0000.

(** How far the kernel gets: into the shell with a mounted file system, or into
    one of the two [while (1)] loops. *)
Inductive boot_result := Booted (fs : filesystem) | NoDisk | NoFilesystem.

Record machine (K D : Type) := Machine { m_heap : heap_st; m_sys : sys K D }.
Arguments Machine {K D} m_heap m_sys.
Arguments m_heap {K D} m.
Arguments m_sys {K D} m.

Section kernel.
Context {K D : Type} `{PortIn K} `{DiskDriver D}.
Context (info : BootInfo) (fb_len : Z) (junk : site -> list Z) (fs0 : filesystem) (uninit : inode).

Definition on_heap {A} : St heap_st A -> St (machine K D) A :=
  zoom m_heap (fun h m => Machine h (m_sys m)).
Definition on_sys {A} : St (sys K D) A -> St (machine K D) A :=
  zoom m_sys (fun s m => Machine (m_heap m) s).

Abbreviation pps := (pixels_per_scanline info).

(** The black screen. *)
Definition clear_screen : St con unit :=
  cfor_ (Z.to_nat (u32 (height info * pps))) 0 (fun i => fb_store fb_len i 0).

Definition banner (y : Z) (text : list Z) (color : Z) : St (sys K D) unit :=
  on_con (draw_string pps fb_len 0 y text color).

(** [kernel_main] up to the call of [shell_run]. *)
Definition kernel_boot : St (machine K D) boot_result :=
  on_heap memory_init ;;;
  on_sys (
    on_con clear_screen ;;;
    banner 0 (lit_text "SimplrOS") 0xFFFFFF ;;;
    r <- on_dev disk_init ;;
    if r =? 0 then
      banner 10 (lit_text "AHCI: OK") green ;;;
      '(r, fs) <- on_dev (fsso_mount junk fs0) ;;
      if r =? 0 then
        banner 20 (lit_text "FSSO: OK") green ;;;
        on_con (set_cursor 0 40) ;;;
        ret (Booted fs)
      else
        banner 20 (lit_text "FSSO: FAIL") red ;;;
        ret NoFilesystem
    else
      banner 10 (lit_text "AHCI: FAIL") red ;;;
      ret NoDisk).

(** [kernel_main]: it never returns. *)
Definition kernel_main (fuel rfuel kfuel : nat) (file_buf input : list Z)
  : St (machine K D) Empty_set :=
  r <- kernel_boot ;;
  match r with
  | Booted fs => on_sys (shell_run pps fb_len fs junk uninit fuel rfuel kfuel file_buf input)
  | NoDisk | NoFilesystem => hang
  end.
End kernel.

(** ** What the screen shows *)

(** Coloured text cells over a black screen. *)
Definition drawn (pps : Z) (texts : list (Z * Z * list Z * Z)) (i : Z) : Z :=
  foldl (fun v '(x, y, t, color) => if cells_on pps (string_cells x y t) i then color else v) 0 texts.

Definition screen_is (pps n : Z) (texts : list (Z * Z * list Z * Z)) (m : mem) : Prop :=
  forall i, 0 <= i < n -> mget m i = drawn pps texts i.

Definition title : Z * Z * list Z * Z := (0, 0, lit_text "SimplrOS", 0xFFFFFF).
Definition disk_line (ok : bool) : Z * Z * list Z * Z :=
  if ok then (0, 10, lit_text "AHCI: OK", green) else (0, 10, lit_text "AHCI: FAIL", red).
Definition fs_line (ok : bool) : Z * Z * list Z * Z :=
  if ok then (0, 20, lit_text "FSSO: OK", green) else (0, 20, lit_text "FSSO: FAIL", red).

Section boot.
Context {K D : Type} `{DiskDriver D}.
Context (info : BootInfo) (fb_len : Z) (junk : site -> list Z) (fs0 : filesystem).
Abbreviation pps := (pixels_per_scanline info).
Abbreviation npix := (height info * pixels_per_scanline info).
Hypothesis Hfb : npix <= fb_len <= 2 ^ 32.
Hypothesis Hsmall : npix < 2 ^ 32.
Hypothesis Hw : 90 <= pps < 2 ^ 31.
Hypothesis Hh : 28 <= height info.

Lemma screen_step texts text y color m m' :
  painted pps color (string_cells 0 y text) m m' -> screen_is pps npix texts m ->
  screen_is pps npix (texts ++ [(0, y, text, color)]) m'.
Proof.
  intros Hp Hs i Hi. rewrite Hp, Hs by done. unfold drawn. by rewrite foldl_app.
Qed.

Lemma wp_banner texts y text color (Q : unit -> sys K D -> Prop) s :
  Forall (fun c => 0 <= c < 128) text -> (length text <= 10)%nat -> 0 <= y <= 20 ->
  screen_is pps npix texts (pixels (s_con s)) ->
  (forall m, screen_is pps npix (texts ++ [(0, y, text, color)]) m ->
     Q tt (Sys (Con m (cur_x (s_con s)) (cur_y (s_con s))) (s_kst s) (s_dev s))) ->
  wp (banner info fb_len y text color) Q s.
Proof.
  intros Ht Hl Hy Hs HQ. unfold banner. apply wp_zoom.
  apply wp_draw_string; [lia..| |].
  - assert (Hc : forall x, 0 <= x -> x + 9 * Z.of_nat (length text) <= pps ->
      Forall (cell_fits pps fb_len) (string_cells x y text)); [|apply Hc; lia].
    clear Hl Hs HQ. induction Ht as [|c text Hc Ht IH]; intros x Hx Hr; cbn [string_cells length] in *;
      constructor; [|apply IH; lia].
    unfold cell_fits. rewrite u8_small by lia. split_and!; try lia. nia.
  - intros m Hm. apply HQ. by eapply screen_step.
Qed.

Lemma wp_clear_screen (Q : unit -> con -> Prop) c :
  (forall m, screen_is pps npix [] m -> Q tt (Con m (cur_x c) (cur_y c))) ->
  wp (clear_screen info fb_len) Q c.
Proof.
  intros HQ. unfold clear_screen. rewrite u32_small by nia.
  apply (wp_cfor_ (fun i w => cur_x w = cur_x c /\ cur_y w = cur_y c /\
    forall j, 0 <= j < i -> mget (pixels w) j = 0)).
  - split_and!; [done..|lia].
  - intros i w Hi (H1 & H2 & H3). apply wp_fb_store; [nia|]. split_and!; [done..|].
    intros j Hj. cbn [pixels]. rewrite mget_mput. case_decide; [done|]. apply H3. lia.
  - intros [p x y] (H1 & H2 & H3). cbn in H1, H2. subst. apply HQ. intros i Hi. apply H3. nia.
Qed.

Lemma wp_banner_on {B} y texts text color x0 y0 (k : unit -> St (sys K D) B) (Q : B -> sys K D -> Prop) m kst d :
  Forall (fun c => 0 <= c < 128) text -> (length text <= 10)%nat -> 0 <= y <= 20 ->
  screen_is pps npix texts m ->
  (forall m, screen_is pps npix (texts ++ [(0, y, text, color)]) m ->
     wp (k tt) Q (Sys (Con m x0 y0) kst d)) ->
  wp (bind (banner info fb_len y text color) k) Q (Sys (Con m x0 y0) kst d).
Proof. intros. apply wp_bind. by apply (wp_banner texts). Qed.

(** The screen and the rest of the machine after booting over the device [d1]
    that [ahci_init] left, having returned [r]. *)
Definition boot_end (img : Z -> Z) (r : Z) (d1 : D) (kst : kst K) `{!BlockDevOk D img}
    (x : boot_result) (m : machine K D) : Prop :=
  let sb := get_superblock (img_bytes img) 0 in
  let shown t := screen_is pps npix t (pixels (s_con (m_sys m))) in
  heap_offset (m_heap m) = 0 /\ s_kst (m_sys m) = kst /\
  if r =? 0 then
    dev_ok (s_dev (m_sys m)) /\
    if sb_magic sb =? FSSO_MAGIC then
      x = Booted (Filesystem sb 0) /\ shown [title; disk_line true; fs_line true] /\
      cur_x (s_con (m_sys m)) = 0 /\ cur_y (s_con (m_sys m)) = 40
    else x = NoFilesystem /\ shown [title; disk_line true; fs_line false]
  else x = NoDisk /\ s_dev (m_sys m) = d1 /\ shown [title; disk_line false].

Lemma wp_kernel_boot img `{!BlockDevOk D img} r d1 (m : machine K D) :
  (forall s, length (junk s) = 1024%nat) ->
  disk_init (s_dev (m_sys m)) = Done (r, d1) -> (r = 0 -> dev_ok d1) ->
  wp (kernel_boot info fb_len junk fs0) (boot_end img r d1 (s_kst (m_sys m))) m.
Proof.
  intros Hj Hi Hd. unfold kernel_boot. destruct m as [h [[px x0 y0] kst d]]. cbn in Hi |- *.
  apply wp_bind, wp_zoom, wp_put. cbn [m_heap m_sys]. apply wp_zoom. cbn [m_sys].
  apply wp_bind, wp_zoom, wp_clear_screen. cbn [s_con s_kst s_dev cur_x cur_y]. intros m0 Hm0.
  apply (wp_banner_on 0 []); [by apply (bool_decide_unpack _); vm_compute|cbn; lia|lia|done|].
  intros m1 Hm1. apply wp_bind, wp_zoom. eapply wp_eq; [exact Hi|]. cbn [s_con s_kst].
  unfold boot_end. cbv zeta. destruct (Z.eqb_spec r 0) as [Hr|Hr].
  2: { apply (wp_banner_on 10 [title]); [by apply (bool_decide_unpack _); vm_compute|cbn; lia|lia|done|].
       intros m2 Hm2. apply wp_ret. cbn. by split_and!. }
  apply (wp_banner_on 10 [title]); [by apply (bool_decide_unpack _); vm_compute|cbn; lia|lia|done|].
  intros m2 Hm2. apply wp_bind, wp_zoom. cbn [s_dev].
  eapply wp_mono; [by apply (wp_mount img junk Hj), Hd|]. cbv beta zeta. intros rfs d2 [Hd2 ->].
  cbn [s_con s_kst]. destruct (sb_magic _ =? FSSO_MAGIC).
  - change (0 =? 0) with true. cbv iota.
    apply (wp_banner_on 20 [title; disk_line true]);
      [by apply (bool_decide_unpack _); vm_compute|cbn; lia|lia|done|].
    intros m3 Hm3. apply wp_bind, wp_zoom, wp_modify. apply wp_ret. cbn. by split_and!.
  - change (-1 =? 0) with false. cbv iota.
    apply (wp_banner_on 20 [title; disk_line true]);
      [by apply (bool_decide_unpack _); vm_compute|cbn; lia|lia|done|].
    intros m3 Hm3. apply wp_ret. cbn. by split_and!.
Qed.
End boot.

(** ** Properties *)

(** Bring-up runs to its end on every disk: whatever [ahci_init] returned,
    the heap is empty and the screen shows exactly the status lines of the
    steps reached; the result is a mounted file system with the cursor on the
    shell's first line precisely when initialisation returned 0 and the image
    carries the magic number, and otherwise the failed step. *)
Theorem kernel_boot_spec {K D} `{DiskDriver D} (img : Z -> Z) `{!BlockDevOk D img} info fb_len junk fs0
    r d1 (m : machine K D) :
  height info * pixels_per_scanline info <= fb_len <= 2 ^ 32 ->
  height info * pixels_per_scanline info < 2 ^ 32 ->
  90 <= pixels_per_scanline info < 2 ^ 31 -> 28 <= height info ->
  (forall s, length (junk s) = 1024%nat) ->
  disk_init (s_dev (m_sys m)) = Done (r, d1) -> (r = 0 -> dev_ok d1) ->
  wp (kernel_boot info fb_len junk fs0) (boot_end info img r d1 (s_kst (m_sys m))) m.
Proof. intros Hn Hw Hp Hh. by apply wp_kernel_boot. Qed.

(** C4: [kernel_main] reaches the command loop only over a mounted file system:
    when the disk or the mount fails it never returns, with any fuel, and
    otherwise it is [shell_run] from a machine that stands at the prompt of
    line 40 with the scancodes still to come. *)
Theorem kernel_main_spec {K D} `{PortIn K} `{DiskDriver D} lat `{!KbdModel K lat} (img : Z -> Z)
    `{!BlockDevOk D img} info fb_len junk fs0 uninit fuel rfuel kfuel file_buf input n codes
    r d1 (m : machine K D) :
  height info * pixels_per_scanline info <= fb_len <= 2 ^ 32 ->
  height info * pixels_per_scanline info < 2 ^ 32 ->
  90 <= pixels_per_scanline info < 2 ^ 31 -> 28 <= height info ->
  (forall s, length (junk s) = 1024%nat) ->
  disk_init (s_dev (m_sys m)) = Done (r, d1) -> (r = 0 -> dev_ok d1) ->
  s_kst (m_sys m) = Kst (kbd (s_kst (m_sys m))) 0 -> (n <= lat)%nat ->
  kbd_wait n codes (kbd (s_kst (m_sys m))) ->
  let main := kernel_main info fb_len junk fs0 uninit fuel rfuel kfuel file_buf input in
  let sb := get_superblock (img_bytes img) 0 in
  (r <> 0 \/ sb_magic sb <> FSSO_MAGIC -> main m = Hang) /\
  (r = 0 /\ sb_magic sb = FSSO_MAGIC -> exists m',
     at_prompt lat img 40 false codes (m_sys m') /\
     main m = on_sys (shell_run (pixels_per_scanline info) fb_len (Filesystem sb 0) junk uninit fuel
                        rfuel kfuel file_buf input) m').
Proof.
  intros Ha Hb1 Hc He Hj Hi Hd Hk Hn Hw main sb.
  pose proof (wp_kernel_boot info fb_len junk fs0 Ha Hb1 Hc He img r d1 m Hj Hi Hd) as Hb.
  apply wp_done in Hb as (x & m' & Ex & Hend).
  assert (Em : main m = match x with
    | Booted fs => on_sys (shell_run (pixels_per_scanline info) fb_len fs junk uninit fuel rfuel kfuel
                             file_buf input) m'
    | _ => Hang end).
  { unfold main, kernel_main. rewrite (bind_done _ _ _ _ _ Ex). by destruct x. }
  rewrite Em. clear Em Ex. destruct Hend as (Hh & Hs & Hend). split.
  - destruct (Z.eqb_spec r 0) as [Hr|Hr]; [|by destruct Hend as (-> & _)]. intros [Hf|Hf]; [done|].
    destruct Hend as [_ Hend]. destruct (Z.eqb_spec (sb_magic (get_superblock (img_bytes img) 0)) FSSO_MAGIC);
      [done|by destruct Hend as (-> & _)].
  - intros [-> Hm]. fold sb in Hend. rewrite Hm in Hend. change (0 =? 0) with true in Hend.
    rewrite Z.eqb_refl in Hend. destruct Hend as (Hdev & -> & _ & Hx & Hy). exists m'.
    split; [|done]. unfold at_prompt. rewrite Hs. split_and!; [done|done| |by exists n|done].
    by rewrite Hk.
Qed.

(** ** Witnesses *)

Definition demo_info : BootInfo := {|
  framebuffer := 0x80000000; width := 1024; height := 768; pixels_per_scanline := 1024
|}.

Definition demo_driver (r : Z) : @DiskDriver unit (mem_dev demo_img) := {| disk_init := ret r |}.

Definition demo_machine : machine sim_kbd unit := Machine (Heap 24) (demo_sys type_ls).

Lemma kernel_boot_spec_witness :
  wp (@kernel_boot sim_kbd unit _ (demo_driver 0) demo_info (768 * 1024) zero_junk demo_fs)
    (fun x m => x = Booted demo_fs /\
       screen_is 1024 (768 * 1024) [title; disk_line true; fs_line true] (pixels (s_con (m_sys m))))
    demo_machine.
Proof.
  eapply wp_mono.
  - apply (@kernel_boot_spec sim_kbd unit _ (demo_driver 0) (mget demo_img) (mem_dev_ok _ demo_ok)
      demo_info (768 * 1024) zero_junk demo_fs 0 tt demo_machine); try (cbn; lia); [|done].
    exact zero_junk_length.
  - intros x m (_ & _ & Hx). change (0 =? 0) with true in Hx. cbv iota in Hx.
    assert (Hm : (sb_magic (get_superblock (img_bytes (mget demo_img)) 0) =? FSSO_MAGIC) = true)
      by (by vm_compute).
    rewrite Hm in Hx. destruct Hx as (_ & -> & Hx & _). split; [by vm_compute|exact Hx].
Defined.

Lemma kernel_main_spec_witness :
  (exists m', at_prompt (H0 := mem_dev demo_img) 3 (mget demo_img)
     (BlockDevOk0 := mem_dev_ok _ demo_ok) (KbdModel0 := sim_kbd_model 3) 40 false type_ls (m_sys m')) /\
  @kernel_main sim_kbd unit (sim_port_in 3) _ (demo_driver (-1)) demo_info (768 * 1024) zero_junk demo_fs
    no_inode 5 5 5 (replicate (Z.to_nat 4096) 0) (replicate 256 0) demo_machine = Hang.
Proof.
  pose (spec r := @kernel_main_spec sim_kbd unit (sim_port_in 3) _ (demo_driver r) 3 (sim_kbd_model 3)
    (mget demo_img) (mem_dev_ok _ demo_ok) demo_info (768 * 1024) zero_junk demo_fs no_inode 5 5 5
    (replicate (Z.to_nat 4096) 0) (replicate 256 0) 2 type_ls r tt demo_machine).
  split.
  - destruct (proj2 (spec 0 ltac:(cbn; lia) ltac:(cbn; lia) ltac:(cbn; lia) ltac:(cbn; lia)
      zero_junk_length eq_refl (fun _ => I) eq_refl ltac:(lia) eq_refl))
      as (m' & Hm & _); [by vm_compute|by exists m'].
  - apply (proj1 (spec (-1) ltac:(cbn; lia) ltac:(cbn; lia) ltac:(cbn; lia) ltac:(cbn; lia)
      zero_junk_length eq_refl (fun _ => I) eq_refl ltac:(lia) eq_refl)). by left.
Defined.
