(* ===== verification/Boot.v ===== *)
(** The bootloader, [bootloader/bootloader.c] and its copy under
    [SimplrOsPkg/]: a UEFI application that reads [kernel.elf], checks its
    magic, copies its loadable segments and enters it with the frame buffer's
    description.  The firmware is a parameter: a class of services. *)
From stdpp Require Import strings.
From S2P Require Import Prelude Bytes Layout Fsso Kernel.

(** ** ELF structures *)

Definition Elf64_Ehdr : layout :=
  [("e_ident", 16); ("e_type", 2); ("e_machine", 2); ("e_version", 4); ("e_entry", 8);
   ("e_phoff", 8); ("e_shoff", 8); ("e_flags", 4); ("e_ehsize", 2); ("e_phentsize", 2);
   ("e_phnum", 2); ("e_shentsize", 2); ("e_shnum", 2); ("e_shstrndx", 2)].

Definition Elf64_Phdr : layout :=
  [("p_type", 4); ("p_flags", 4); ("p_offset", 8); ("p_vaddr", 8); ("p_paddr", 8);
   ("p_filesz", 8); ("p_memsz", 8); ("p_align", 8)].

(** ** Firmware services *)

(** The protocols and files the bootloader names. *)
Inductive guid := LoadedImageProtocol | SimpleFileSystemProtocol | GraphicsOutputProtocol | FileInfoGuid.

(** A status is a 64-bit number whose top bit marks an error. *)
Definition EFI_ERROR (status : Z) : bool := Z.testbit status 63.
Definition EFI_LOAD_ERROR : Z := 2 ^ 63 + 1.
Definition EFI_OUT_OF_RESOURCES : Z := 2 ^ 63 + 9.

(** UEFI services and the accessors of the structures UEFI defines.  Handles,
    interfaces and buffers are addresses; results are a status and the values
    stored through the out-parameters. *)
Class Uefi (F : Type) := {
  fw_mem : F -> mem;
  fw_set_mem : mem -> F -> F;
  Print : string -> list Z -> St F unit;
  HandleProtocol : Z -> guid -> St F (Z * Z);
  LocateProtocol : guid -> St F (Z * Z);
  OpenVolume : Z -> St F (Z * Z);
  File_Open : Z -> string -> St F (Z * Z);
  GetInfo : Z -> guid -> Z -> Z -> St F (Z * Z);
  File_Read : Z -> Z -> Z -> St F (Z * Z);
  File_Close : Z -> St F unit;
  AllocatePool : Z -> St F Z;
  FreePool : Z -> St F unit;
  SetMode : Z -> Z -> St F Z;
  (** status, size, map key, descriptor size *)
  GetMemoryMap : Z -> Z -> St F (Z * Z * Z * Z);
  ExitBootServices : Z -> Z -> St F Z;
  sizeof_EFI_FILE_INFO : Z;
  DeviceHandle : Z -> St F Z;
  FileSize : Z -> St F Z;
  FrameBufferBase : Z -> St F Z;
  HorizontalResolution : Z -> St F Z;
  VerticalResolution : Z -> St F Z;
  PixelsPerScanLine : Z -> St F Z
}.

(** What [efi_main] comes to: it returns a status, or calls the kernel. *)
Inductive boot_exit := Returned (status : Z) | Entered (entry : Z) (info : BootInfo).

Section boot.
Context {F : Type} `{Uefi F}.

Definition fail {A} (msg : string) (status : Z) : St F (Z + A) :=
  Print msg [] ;;; ret (inl status).

(** Lines up to the closing of the file: the buffer that holds the file and
    its size, or the status to return. *)
Definition read_kernel (ImageHandle : Z) : St F (Z + Z * Z) :=
  '(Status, LoadedImage) <- HandleProtocol ImageHandle LoadedImageProtocol ;;
  if EFI_ERROR Status then fail "Failed to get loaded image protocol\n" Status else
  handle <- DeviceHandle LoadedImage ;;
  '(Status, FileSystem) <- HandleProtocol handle SimpleFileSystemProtocol ;;
  if EFI_ERROR Status then fail "Failed to get filesystem protocol\n" Status else
  '(Status, Root) <- OpenVolume FileSystem ;;
  if EFI_ERROR Status then fail "Failed to open volume\n" Status else
  '(Status, KernelFile) <- File_Open Root "kernel.elf" ;;
  if EFI_ERROR Status then fail "Failed to open kernel.elf\n" Status else
  let FileInfoSize := sizeof_EFI_FILE_INFO + 2 * 256 in
  FileInfo <- AllocatePool FileInfoSize ;;
  '(Status, _) <- GetInfo KernelFile FileInfoGuid FileInfoSize FileInfo ;;
  if EFI_ERROR Status then fail "Failed to get kernel file info\n" Status else
  KernelSize <- FileSize FileInfo ;;
  FreePool FileInfo ;;;
  KernelBuffer <- AllocatePool KernelSize ;;
  if KernelBuffer =? 0 then
    fail "Failed to allocate memory for kernel\n" EFI_OUT_OF_RESOURCES
  else
  '(Status, _) <- File_Read KernelFile KernelSize KernelBuffer ;;
  if EFI_ERROR Status then fail "Failed to read kernel\n" Status else
  File_Close KernelFile ;;;
  ret (inr (KernelBuffer, KernelSize)).

(** ** The loader *)

Section loader.
Variables KernelBuffer KernelSize : Z.

(** An [n]-byte load inside the file's buffer; outside it is undefined. *)
Definition kb_ld (n : nat) (a : Z) : St F Z :=
  if (KernelBuffer <=? a) && (a + Z.of_nat n <=? KernelBuffer + KernelSize)
  then gets (fun f => mld n (fw_mem f) a)
  else undef.

(** A store to physical memory. *)
Definition poke (a v : Z) : St F unit :=
  modify (fun f => fw_set_mem (mput (fw_mem f) a v) f).

Definition ehdr (n : nat) (field : string) : St F Z := kb_ld n (KernelBuffer + off Elf64_Ehdr field).
Definition phdr (ph : Z) (n : nat) (field : string) : St F Z := kb_ld n (u64 (ph + off Elf64_Phdr field)).

(** The four [||] conditions on [e_ident]; [true]: not an ELF file. *)
Fixpoint bad_ident (i : Z) (magic : list Z) : St F bool :=
  match magic with
  | [] => ret false
  | c :: magic' =>
      b <- kb_ld 1 (KernelBuffer + off Elf64_Ehdr "e_ident" + i) ;;
      if b =? c then bad_ident (i + 1) magic' else ret true
  end.

(** [for (j = 0; j < phdr->p_filesz; j++) dest[j] = src[j];] *)
Definition copy_loop (fuel : nat) (ph dest src : Z) : St F unit :=
  cloop fuel (fun j =>
    filesz <- phdr ph 8 "p_filesz" ;;
    if j <? filesz then
      b <- kb_ld 1 (u64 (src + j)) ;;
      poke (u64 (dest + j)) b ;;;
      ret (Next (u64 (j + 1)))
    else ret (Exit tt)) 0.

(** [for (j = phdr->p_filesz; j < phdr->p_memsz; j++) dest[j] = 0;] *)
Definition zero_loop (fuel : nat) (ph dest : Z) : St F unit :=
  j <- phdr ph 8 "p_filesz" ;;
  cloop fuel (fun j =>
    memsz <- phdr ph 8 "p_memsz" ;;
    if j <? memsz then
      poke (u64 (dest + j)) 0 ;;;
      ret (Next (u64 (j + 1)))
    else ret (Exit tt)) j.

(** One program header; [i * e_phentsize] is an [int] product. *)
Definition load_phdr (fuel : nat) (i : Z) : St F unit :=
  phoff <- ehdr 8 "e_phoff" ;;
  phentsize <- ehdr 2 "e_phentsize" ;;
  if 2 ^ 31 <=? i * phentsize then undef else
  let ph := u64 (KernelBuffer + phoff + i * phentsize) in
  p_type <- phdr ph 4 "p_type" ;;
  if p_type =? 1 then
    dest <- phdr ph 8 "p_vaddr" ;;
    p_offset <- phdr ph 8 "p_offset" ;;
    let src := u64 (KernelBuffer + p_offset) in
    copy_loop fuel ph dest src ;;;
    zero_loop fuel ph dest
  else ret tt.

Definition load_segments (fuel : nat) : St F unit :=
  cloop fuel (fun i =>
    phnum <- ehdr 2 "e_phnum" ;;
    if i <? phnum then
      load_phdr fuel i ;;;
      ret (Next (u16 (i + 1)))
    else ret (Exit tt)) 0.

(** From the graphics protocol to the jump.  [Gop] is set only by a successful
    [LocateProtocol]; it is used in any case. *)
Definition enter_kernel (ImageHandle : Z) (before_info : St F unit) : St F boot_exit :=
  '(Status, Gop) <- LocateProtocol GraphicsOutputProtocol ;;
  (if EFI_ERROR Status then ret tt else _ <- SetMode Gop 0 ;; ret tt) ;;;
  before_info ;;;
  (if EFI_ERROR Status then undef else ret tt) ;;;
  fb <- FrameBufferBase Gop ;;
  w <- HorizontalResolution Gop ;;
  h <- VerticalResolution Gop ;;
  pps <- PixelsPerScanLine Gop ;;
  let info := {| framebuffer := fb; width := w; height := h; pixels_per_scanline := pps |} in
  KernelStart <- ehdr 8 "e_entry" ;;
  '(_, MemoryMapSize, _, DescriptorSize) <- GetMemoryMap 0 0 ;;
  let MemoryMapSize := u64 (MemoryMapSize + 2 * DescriptorSize) in
  MemoryMap <- AllocatePool MemoryMapSize ;;
  '(Status, _, MapKey, _) <- GetMemoryMap MemoryMapSize MemoryMap ;;
  if EFI_ERROR Status then
    Print "Failed to get memory map\n" [] ;;; ret (Returned Status)
  else
  Status <- ExitBootServices ImageHandle MapKey ;;
  if EFI_ERROR Status then
    Print "Failed to exit boot services\n" [] ;;; ret (Returned Status)
  else ret (Entered KernelStart info).
End loader.

Definition ELF_MAGIC : list Z := [0x7F; 69; 76; 70].

Definition efi_main (fuel : nat) (ImageHandle : Z) : St F boot_exit :=
  Print "SimplrOS bootloader starting...\n" [] ;;;
  Print "Hello from Simplr!\n" [] ;;;
  r <- read_kernel ImageHandle ;;
  match r with
  | inl Status => ret (Returned Status)
  | inr (KernelBuffer, KernelSize) =>
      bad <- bad_ident KernelBuffer KernelSize 0 ELF_MAGIC ;;
      if bad then
        Print "kernel.elf is not a valid ELF file\n" [] ;;; ret (Returned EFI_LOAD_ERROR)
      else
      load_segments KernelBuffer KernelSize fuel ;;;
      entry <- ehdr KernelBuffer KernelSize 8 "e_entry" ;;
      Print "Kernel ELF valid. Entry point: 0x%lx\n" [entry] ;;;
      enter_kernel KernelBuffer KernelSize ImageHandle (ret tt)
  end.

(** The copy under [SimplrOsPkg/]: it reports the entry point before loading,
    and prints the first bytes of the loaded kernel. *)
Definition pkg_efi_main (fuel : nat) (ImageHandle : Z) : St F boot_exit :=
  Print "SimplrOS bootloader starting...\n" [] ;;;
  Print "Hello from Simplr!\n" [] ;;;
  r <- read_kernel ImageHandle ;;
  match r with
  | inl Status => ret (Returned Status)
  | inr (KernelBuffer, KernelSize) =>
      bad <- bad_ident KernelBuffer KernelSize 0 ELF_MAGIC ;;
      if bad then
        Print "kernel.elf is not a valid ELF file\n" [] ;;; ret (Returned EFI_LOAD_ERROR)
      else
      entry <- ehdr KernelBuffer KernelSize 8 "e_entry" ;;
      Print "Kernel ELF valid. Entry point: 0x%lx\n" [entry] ;;;
      load_segments KernelBuffer KernelSize fuel ;;;
      enter_kernel KernelBuffer KernelSize ImageHandle
        (bs <- gets (fun f => mgets (fw_mem f) 0x100000 4) ;;
         Print "Bytes at 0x100000: %02x %02x %02x %02x\n" bs)
  end.
End boot.

(** ** What loading means *)

(** The program headers and segments of a file, given by its bytes. *)
Section elf.
Variable elf : Z -> Z.

Definition eld (n : nat) (a : Z) : Z := le_dec (img_bytes elf a n).
Definition e_field (n : nat) (field : string) : Z := eld n (off Elf64_Ehdr field).
Definition p_at (i : Z) : Z := e_field 8 "e_phoff" + i * e_field 2 "e_phentsize".
Definition p_field (n : nat) (field : string) (i : Z) : Z := eld n (p_at i + off Elf64_Phdr field).

Abbreviation vaddr := (p_field 8 "p_vaddr").
Abbreviation offset := (p_field 8 "p_offset").
Abbreviation filesz := (p_field 8 "p_filesz").
Abbreviation memsz := (p_field 8 "p_memsz").
Abbreviation phnum := (e_field 2 "e_phnum").

(** What segment [i] puts at address [x]: file bytes, then zeros. *)
Definition seg_at (x i : Z) : option Z :=
  if (p_field 4 "p_type" i =? 1) && (vaddr i <=? x) && (x <? vaddr i + Z.max (filesz i) (memsz i))
  then Some (if x <? vaddr i + filesz i then elf (offset i + (x - vaddr i)) else 0)
  else None.

(** The loaded image of the file over [m]: later segments win. *)
Definition loaded_byte (m : mem) (x : Z) : Z :=
  default (mget m x) (last (omap (seg_at x) (seqZ 0 phnum))).

(** A file of [size] bytes at [buf] whose headers and segments lie inside it,
    and whose segments go to addresses outside it. *)
Record elf_ok (buf size : Z) : Prop := {
  ok_bytes a : is_byte (elf a);
  ok_buf : 0 <= buf /\ buf + size <= 2 ^ 64;
  ok_ehdr : sizeof Elf64_Ehdr <= size;
  ok_int : phnum * e_field 2 "e_phentsize" <= 2 ^ 31;
  ok_phdr i : 0 <= i < phnum -> p_at i + sizeof Elf64_Phdr <= size;
  ok_load i : 0 <= i < phnum -> p_field 4 "p_type" i = 1 ->
    offset i + filesz i <= size /\ vaddr i + Z.max (filesz i) (memsz i) <= 2 ^ 64 /\
    (vaddr i + Z.max (filesz i) (memsz i) <= buf \/ buf + size <= vaddr i)
}.

(** Enough iterations for every loop of the loader. *)
Definition elf_fuel (fuel : nat) : Prop :=
  phnum < Z.of_nat fuel /\
  forall i, 0 <= i < phnum -> p_field 4 "p_type" i = 1 ->
    Z.max (filesz i) (memsz i) < Z.of_nat fuel.
End elf.

(** The firmware's memory is a component of its state. *)
Class UefiMem (F : Type) `{Uefi F} := {
  fw_get_set m f : fw_mem (fw_set_mem m f) = m;
  fw_set_set m1 m2 f : fw_set_mem m1 (fw_set_mem m2 f) = fw_set_mem m1 f;
  fw_set_get f : fw_set_mem (fw_mem f) f = f
}.

Section load.
Context {F : Type} {UF : Uefi F} {UM : UefiMem F} (elf : Z -> Z) (buf size : Z) (Hok : elf_ok elf buf size).

Abbreviation vaddr := (p_field elf 8 "p_vaddr").
Abbreviation offset := (p_field elf 8 "p_offset").
Abbreviation filesz := (p_field elf 8 "p_filesz").
Abbreviation memsz := (p_field elf 8 "p_memsz").
Abbreviation phnum := (e_field elf 2 "e_phnum").

Definition holds (m : mem) : Prop := forall a, 0 <= a < size -> mget m (buf + a) = elf a.

Lemma eld_range n a : 0 <= eld elf n a < 256 ^ Z.of_nat n.
Proof.
  unfold eld. pose proof (le_dec_bound (img_bytes elf a n)) as Hb.
  rewrite length_img_bytes in Hb. apply Hb, img_bytes_bytes, (ok_bytes _ _ _ Hok).
Qed.

Lemma eld_1 a : eld elf 1 a = elf a.
Proof. change (elf a + 256 * 0 = elf a). lia. Qed.

Lemma p_at_range i : 0 <= i < phnum ->
  0 <= p_at elf i /\ p_at elf i + 56 <= size /\ 0 <= i * e_field elf 2 "e_phentsize" < 2 ^ 31 /\
  0 <= e_field elf 8 "e_phoff" /\ 0 <= buf /\ buf + size <= 2 ^ 64.
Proof.
  intros Hi. pose proof (ok_phdr _ _ _ Hok i Hi). pose proof (ok_int _ _ _ Hok) as Hint.
  pose proof (ok_buf _ _ _ Hok). change (sizeof Elf64_Phdr) with 56 in *.
  unfold p_at in *. pose proof (eld_range 8 (off Elf64_Ehdr "e_phoff")) as H1.
  pose proof (eld_range 2 (off Elf64_Ehdr "e_phentsize")) as H2.
  fold (e_field elf 8 "e_phoff") in *. fold (e_field elf 2 "e_phentsize") in *.
  split_and!; nia.
Qed.

Lemma wp_kb_ld n a (Q : Z -> F -> Prop) f :
  holds (fw_mem f) -> 0 <= a -> a + Z.of_nat n <= size -> Q (eld elf n a) f ->
  wp (kb_ld buf size n (buf + a)) Q f.
Proof.
  intros Hf Ha Hn HQ. unfold kb_ld.
  destruct (Z.leb_spec buf (buf + a)); [|lia].
  destruct (Z.leb_spec (buf + a + Z.of_nat n) (buf + size)); [|lia].
  apply wp_gets. unfold mld. rewrite <- img_bytes_mget.
  replace (img_bytes (mget (fw_mem f)) (buf + a) n) with (img_bytes elf a n); [exact HQ|].
  apply img_bytes_ext. intros i Hi. rewrite <- Hf by lia. f_equal. lia.
Qed.

Lemma wp_ehdr n field (Q : Z -> F -> Prop) f :
  holds (fw_mem f) -> 0 <= off Elf64_Ehdr field -> off Elf64_Ehdr field + Z.of_nat n <= 64 ->
  Q (e_field elf n field) f -> wp (ehdr buf size n field) Q f.
Proof.
  intros Hf H1 H2 HQ. pose proof (ok_ehdr _ _ _ Hok). change (sizeof Elf64_Ehdr) with 64 in *.
  apply wp_kb_ld; [done|lia|lia|done].
Qed.

Lemma wp_phdr i n field (Q : Z -> F -> Prop) f :
  holds (fw_mem f) -> 0 <= i < phnum ->
  (0 <=? off Elf64_Phdr field) && (off Elf64_Phdr field + Z.of_nat n <=? 56) && (0 <? Z.of_nat n) = true ->
  Q (p_field elf n field i) f -> wp (phdr buf size (buf + p_at elf i) n field) Q f.
Proof.
  intros Hf Hi Ho HQ. pose proof (p_at_range i Hi). unfold phdr. rewrite u64_small by lia.
  rewrite <- Z.add_assoc. apply wp_kb_ld; [done|lia|lia|done].
Qed.

(** The machine [f] with the memory changed to one that satisfies [P]. *)
Definition only_mem (f : F) (P : mem -> Prop) (f' : F) : Prop :=
  exists m, f' = fw_set_mem m f /\ P m.

Lemma only_mem_poke (f f' : F) P P' a v (Q : unit -> F -> Prop) :
  only_mem f P f' -> (forall m, P m -> P' (mput m a v)) ->
  (only_mem f P' (fw_set_mem (mput (fw_mem f') a v) f') -> Q tt (fw_set_mem (mput (fw_mem f') a v) f')) ->
  wp (poke a v) Q f'.
Proof.
  intros (m & -> & Hm) HP HQ. apply wp_modify, HQ. rewrite fw_get_set, fw_set_set.
  exists (mput m a v). split; [done|by apply HP].
Qed.

(** [m'] is [m] with the bytes [g] at the addresses of [lo, hi). *)
Definition overlaid (lo hi : Z) (g : Z -> Z) (m m' : mem) : Prop :=
  forall x, mget m' x = if decide (lo <= x < hi) then g x else mget m x.

Lemma overlaid_step lo hi g m m' v :
  overlaid lo hi g m m' -> lo <= hi -> v = g hi -> overlaid lo (hi + 1) g m (mput m' hi v).
Proof.
  intros Ho Hl -> x. rewrite mget_mput, Ho.
  destruct (decide (x = hi)) as [-> |]; [by rewrite decide_True by lia|].
  destruct (decide (lo <= x < hi)); [by rewrite decide_True by lia|by rewrite decide_False by lia].
Qed.

Lemma holds_overlaid lo hi g m m' :
  holds m -> overlaid lo hi g m m' -> hi <= buf \/ buf + size <= lo -> holds m'.
Proof. intros Hm Ho Ha a Hr. rewrite Ho, decide_False by lia. by apply Hm. Qed.

Lemma load_ranges i : 0 <= i < phnum -> p_field elf 4 "p_type" i = 1 ->
  0 <= filesz i < 2 ^ 64 /\ 0 <= memsz i < 2 ^ 64 /\ 0 <= vaddr i /\ 0 <= offset i /\
  offset i + filesz i <= size /\ vaddr i + Z.max (filesz i) (memsz i) <= 2 ^ 64 /\
  (vaddr i + Z.max (filesz i) (memsz i) <= buf \/ buf + size <= vaddr i).
Proof.
  intros Hi Ht. destruct (ok_load _ _ _ Hok i Hi Ht) as (H1 & H2 & H3).
  pose proof (eld_range 8). unfold p_field in *. split_and!; try done; by apply eld_range.
Qed.

Lemma wp_copy_loop fuel i f :
  holds (fw_mem f) -> 0 <= i < phnum -> p_field elf 4 "p_type" i = 1 ->
  filesz i < Z.of_nat fuel ->
  wp (copy_loop buf size fuel (buf + p_at elf i) (vaddr i) (u64 (buf + offset i)))
    (fun _ f' => only_mem f (overlaid (vaddr i) (vaddr i + filesz i)
       (fun x => elf (offset i + (x - vaddr i))) (fw_mem f)) f') f.
Proof.
  intros Hf Hi Ht Hfu. destruct (load_ranges i Hi Ht) as (F1 & F2 & F3 & F4 & F5 & F6 & F7).
  pose proof (p_at_range i Hi) as (_ & _ & _ & _ & B1 & B2).
  apply (wp_cloop (fun j f' => 0 <= j <= filesz i /\ only_mem f (overlaid (vaddr i) (vaddr i + j)
       (fun x => elf (offset i + (x - vaddr i))) (fw_mem f)) f')
    (fun j _ => Z.to_nat (filesz i - j))).
  - split; [lia|]. exists (fw_mem f). split; [by rewrite fw_set_get|].
    intros x. by rewrite decide_False by lia.
  - lia.
  - intros j f1 (Hj & m & -> & Hm).
    assert (Hh : holds m) by (eapply holds_overlaid; [exact Hf|exact Hm|lia]).
    apply wp_bind, wp_phdr; [by rewrite fw_get_set|done|done|].
    destruct (Z.ltb_spec j (filesz i)) as [Hlt|Hge].
    + rewrite (u64_small (buf + offset i)) by lia. rewrite (u64_small (_ + j)) by lia.
      rewrite <- Z.add_assoc. apply wp_bind, wp_kb_ld; [by rewrite fw_get_set|lia|lia|].
      apply wp_bind. rewrite (u64_small (vaddr i + j)) by lia.
      eapply only_mem_poke; [exists m; split; [done|exact Hm]| |].
      * intros m1 Hm1. apply overlaid_step; [exact Hm1|lia|].
        rewrite eld_1. f_equal. lia.
      * intros Ho. apply wp_ret. rewrite u64_small by lia.
        replace (vaddr i + (j + 1)) with (vaddr i + j + 1) by lia. split; [split; [lia|exact Ho]|lia].
    + apply wp_ret. assert (j = filesz i) as -> by lia. by exists m.
Qed.

Lemma wp_zero_loop fuel i f :
  holds (fw_mem f) -> 0 <= i < phnum -> p_field elf 4 "p_type" i = 1 ->
  memsz i < Z.of_nat fuel ->
  wp (zero_loop buf size fuel (buf + p_at elf i) (vaddr i))
    (fun _ f' => only_mem f (overlaid (vaddr i + filesz i) (vaddr i + memsz i)
       (fun _ => 0) (fw_mem f)) f') f.
Proof.
  intros Hf Hi Ht Hfu. destruct (load_ranges i Hi Ht) as (F1 & F2 & F3 & F4 & F5 & F6 & F7).
  unfold zero_loop. apply wp_bind, wp_phdr; [done..|].
  apply (wp_cloop (fun j f' => filesz i <= j /\ (j <= memsz i \/ j = filesz i) /\
       only_mem f (overlaid (vaddr i + filesz i) (vaddr i + j) (fun _ => 0) (fw_mem f)) f')
    (fun j _ => Z.to_nat (memsz i - j))).
  - split_and!; [lia|by right|]. exists (fw_mem f). split; [by rewrite fw_set_get|].
    intros x. by rewrite decide_False by lia.
  - lia.
  - intros j f1 (Hj & Hj2 & m & -> & Hm).
    assert (Hh : holds m) by (eapply holds_overlaid; [exact Hf|exact Hm|lia]).
    apply wp_bind, wp_phdr; [by rewrite fw_get_set|done|done|].
    destruct (Z.ltb_spec j (memsz i)) as [Hlt|Hge].
    + apply wp_bind. rewrite (u64_small (vaddr i + j)) by lia.
      eapply only_mem_poke; [exists m; split; [done|exact Hm]| |].
      * intros m1 Hm1. apply overlaid_step; [exact Hm1|lia|done].
      * intros Ho. apply wp_ret. rewrite u64_small by lia.
        replace (vaddr i + (j + 1)) with (vaddr i + j + 1) by lia.
        split; [split_and!; [lia|lia|exact Ho]|lia].
    + apply wp_ret. exists m. split; [done|]. intros x. rewrite Hm.
      destruct (decide (vaddr i + filesz i <= x < vaddr i + j)), (decide (_ <= x < vaddr i + memsz i));
        done || lia.
Qed.

Lemma wp_load_phdr fuel i f :
  holds (fw_mem f) -> 0 <= i < phnum -> elf_fuel elf fuel ->
  wp (load_phdr buf size fuel i) (fun _ f' => only_mem f (fun m' => forall x,
       mget m' x = default (mget (fw_mem f) x) (seg_at elf x i)) f') f.
Proof.
  intros Hf Hi [_ Hfu]. pose proof (p_at_range i Hi) as (A1 & A2 & A3 & A4 & A5 & A6).
  unfold load_phdr. apply wp_bind, wp_ehdr; [done..|]. apply wp_bind, wp_ehdr; [done..|].
  destruct (Z.leb_spec (2 ^ 31) (i * e_field elf 2 "e_phentsize")); [lia|].
  replace (buf + e_field elf 8 "e_phoff" + i * e_field elf 2 "e_phentsize")
    with (buf + p_at elf i) by (unfold p_at; lia).
  rewrite u64_small by lia. apply wp_bind, wp_phdr; [done..|].
  destruct (Z.eqb_spec (p_field elf 4 "p_type" i) 1) as [Ht|Ht].
  2: { apply wp_ret. exists (fw_mem f). split; [by rewrite fw_set_get|]. intros x.
       unfold seg_at. by destruct (Z.eqb_spec (p_field elf 4 "p_type" i) 1). }
  specialize (Hfu i Hi Ht).
  destruct (load_ranges i Hi Ht) as (F1 & F2 & F3 & F4 & F5 & F6 & F7).
  apply wp_bind, wp_phdr; [done..|]. apply wp_bind, wp_phdr; [done..|].
  apply wp_bind. eapply wp_mono; [apply wp_copy_loop; [done..|lia]|].
  intros [] f1 (m1 & -> & Hm1). 
  assert (Hh : holds m1) by (eapply holds_overlaid; [exact Hf|exact Hm1|lia]).
  eapply wp_mono; [apply wp_zero_loop; [by rewrite fw_get_set|done..|lia]|].
  intros [] f2 (m2 & -> & Hm2). rewrite fw_set_set. exists m2. split; [done|].
  rewrite fw_get_set in Hm2. intros x. rewrite Hm2, Hm1. unfold seg_at. rewrite Ht, Z.eqb_refl.
  destruct (Z.leb_spec (vaddr i) x), (Z.ltb_spec x (vaddr i + filesz i `max` memsz i)),
    (Z.ltb_spec x (vaddr i + filesz i)); cbn [andb default];
    repeat case_decide; lia || done.
Qed.

Lemma seg_at_apart a i : 0 <= a < size -> 0 <= i < phnum -> seg_at elf (buf + a) i = None.
Proof.
  intros Ha Hi. unfold seg_at. destruct (Z.eqb_spec (p_field elf 4 "p_type" i) 1) as [Ht|]; [|done].
  destruct (load_ranges i Hi Ht) as (_ & _ & _ & _ & _ & _ & F7).
  destruct (Z.leb_spec (vaddr i) (buf + a)), (Z.ltb_spec (buf + a) (vaddr i + filesz i `max` memsz i));
    done || lia.
Qed.

(** The bytes after the first [n] segments. *)
Definition loaded_upto (n : Z) (m : mem) (x : Z) : Z :=
  default (mget m x) (last (omap (seg_at elf x) (seqZ 0 n))).

Lemma loaded_upto_S n m x : 0 <= n ->
  loaded_upto (n + 1) m x = default (loaded_upto n m x) (seg_at elf x n).
Proof.
  intros Hn. unfold loaded_upto. replace (n + 1) with (Z.of_nat (S (Z.to_nat n))) by lia.
  rewrite seqZ_S, omap_app, Z2Nat.id by lia. cbn [omap list_omap]. rewrite Z.add_0_l.
  destruct (seg_at elf x n); [by rewrite last_snoc|by rewrite app_nil_r].
Qed.

Lemma wp_load_segments fuel f :
  holds (fw_mem f) -> elf_fuel elf fuel ->
  wp (load_segments buf size fuel) (fun _ f' => only_mem f (fun m' =>
    holds m' /\ forall x, mget m' x = loaded_byte elf (fw_mem f) x) f') f.
Proof.
  intros Hf Hfu. pose proof (eld_range 2 (off Elf64_Ehdr "e_phnum")) as Hn.
  fold phnum in Hn. change (256 ^ Z.of_nat 2) with 65536 in Hn. unfold load_segments.
  apply (wp_cloop (fun i f' => 0 <= i <= phnum /\ only_mem f (fun m' =>
       holds m' /\ forall x, mget m' x = loaded_upto i (fw_mem f) x) f')
    (fun i _ => Z.to_nat (phnum - i))).
  - split; [lia|]. exists (fw_mem f). split; [by rewrite fw_set_get|done].
  - destruct Hfu. lia.
  - intros i f1 (Hi & m & -> & Hh & Hm). apply wp_bind, wp_ehdr; [by rewrite fw_get_set|done..|].
    destruct (Z.ltb_spec i phnum) as [Hlt|Hge].
    + apply wp_bind. eapply wp_mono; [apply wp_load_phdr; [by rewrite fw_get_set|lia|done]|].
      intros [] f2 (m2 & -> & Hm2). rewrite fw_get_set in Hm2. apply wp_ret.
      rewrite (wrap_small 16) by lia. split; [|lia]. split; [lia|]. rewrite fw_set_set. exists m2.
      split; [done|]. split.
      * intros a Ha. rewrite Hm2, seg_at_apart by lia. by apply Hh.
      * intros x. by rewrite Hm2, loaded_upto_S, Hm by lia.
    + apply wp_ret. assert (i = phnum) as -> by lia. by exists m.
Qed.
End load.

(** ** Properties *)

Section outcome.
Context {F : Type} {UF : Uefi F}.

(** Whatever state it runs from, code that returns does so with a value in [P]. *)
Definition ensures {A} (m : St F A) (P : A -> Prop) : Prop :=
  forall f a f', m f = Done (a, f') -> P a.

Lemma ensures_ret {A} (a : A) (P : A -> Prop) : P a -> ensures (ret a) P.
Proof. by intros Hp f b f' [= -> _]. Qed.

Lemma ensures_bind {A B} (m : St F A) (k : A -> St F B) (Pm : A -> Prop) P :
  ensures m Pm -> (forall a, Pm a -> ensures (k a) P) -> ensures (bind m k) P.
Proof.
  intros Hm Hk f b f'. unfold bind. destruct (m f) as [[a f1]| |] eqn:E; [|done..].
  apply Hk. by eapply Hm.
Qed.

Lemma ensures_any {A B} (m : St F A) (k : A -> St F B) P :
  (forall a, ensures (k a) P) -> ensures (bind m k) P.
Proof. intros Hk. by apply (ensures_bind m k (fun _ => True)); [|auto]. Qed.

Lemma read_kernel_errors h :
  ensures (read_kernel h) (fun r => match r with inl s => EFI_ERROR s = true | inr (b, _) => b <> 0 end).
Proof.
  unfold read_kernel, fail.
  repeat first
    [ apply ensures_ret; done
    | apply ensures_any; intros ?
    | match goal with
      | |- ensures (match ?x with _ => _ end) _ => destruct x eqn:?
      end ].
  apply ensures_ret. by apply Z.eqb_neq.
Qed.

Lemma enter_kernel_errors b n h k :
  ensures (enter_kernel b n h k) (fun r => match r with Returned s => EFI_ERROR s = true | _ => True end).
Proof.
  unfold enter_kernel.
  repeat first
    [ apply ensures_ret; done
    | apply ensures_any; intros ?
    | match goal with
      | |- ensures (match ?x with _ => _ end) _ => destruct x eqn:?
      end ].
Qed.

(** The magic check, on a file held in memory. *)
Lemma bad_ident_run (elf : Z -> Z) buf size (Hok : elf_ok elf buf size) f :
  holds elf buf size (fw_mem f) ->
  bad_ident buf size 0 ELF_MAGIC f = Done (negb (bool_decide (img_bytes elf 0 4 = ELF_MAGIC)), f).
Proof.
  intros Hf. pose proof (ok_ehdr _ _ _ Hok) as Hs. change (sizeof Elf64_Ehdr) with 64 in Hs.
  assert (Hb : forall i, 0 <= i < 4 -> kb_ld buf size 1 (buf + off Elf64_Ehdr "e_ident" + i) f = Done (elf i, f)).
  { intros i Hi. change (off Elf64_Ehdr "e_ident") with 0. rewrite Z.add_0_r.
    pose proof (wp_kb_ld elf buf size 1 i (fun v f' => v = elf i /\ f' = f) f Hf ltac:(lia) ltac:(lia)
      (conj (eld_1 elf i) eq_refl)) as Hw.
    apply wp_done in Hw as (v & f' & E & -> & ->). exact E. }
  change (img_bytes elf 0 4) with [elf 0; elf 1; elf 2; elf 3]. unfold ELF_MAGIC. cbn [bad_ident].
  rewrite (bind_done _ _ _ _ _ (Hb 0 ltac:(lia))).
  destruct (Z.eqb_spec (elf 0) 0x7F) as [->|]; [|by rewrite bool_decide_eq_false_2 by congruence].
  rewrite (bind_done _ _ _ _ _ (Hb 1 ltac:(lia))).
  destruct (Z.eqb_spec (elf 1) 69) as [->|]; [|by rewrite bool_decide_eq_false_2 by congruence].
  rewrite (bind_done _ _ _ _ _ (Hb 2 ltac:(lia))).
  destruct (Z.eqb_spec (elf 2) 76) as [->|]; [|by rewrite bool_decide_eq_false_2 by congruence].
  rewrite (bind_done _ _ _ _ _ (Hb 3 ltac:(lia))).
  destruct (Z.eqb_spec (elf 3) 70) as [->|]; [|by rewrite bool_decide_eq_false_2 by congruence].
  done.
Qed.

Lemma bind_ext {A B} (m : St F A) (k1 k2 : A -> St F B) f :
  (forall a f', k1 a f' = k2 a f') -> bind m k1 f = bind m k2 f.
Proof. intros Hk. unfold bind. by destruct (m f) as [[a f']| |]. Qed.

(** [Print] only reaches the console. *)
Definition silent : Prop := forall t args (f : F), Print t args f = Done (tt, f).
End outcome.

(** C5: The bootloader loads the kernel as its ELF file says.  With a
    well-formed file in the buffer and segments that go elsewhere, it rejects a
    wrong magic with EFI_LOAD_ERROR and otherwise terminates its loops and
    reaches the hand-over with memory changed at the segments' addresses only:
    each byte is the last covering segment's file byte, or zero past its file
    size. *)
Theorem efi_main_loads {F} `{UefiMem F} elf buf size fuel h (f f1 : F) :
  silent -> read_kernel h f = Done (inr (buf, size), f1) -> elf_ok elf buf size ->
  holds elf buf size (fw_mem f1) -> elf_fuel elf fuel ->
  if bool_decide (img_bytes elf 0 4 = ELF_MAGIC)
  then exists m, (forall x, mget m x = loaded_byte elf (fw_mem f1) x) /\
    efi_main fuel h f = enter_kernel buf size h (ret tt) (fw_set_mem m f1)
  else efi_main fuel h f = Done (Returned EFI_LOAD_ERROR, f1).
Proof.
  intros Hp Hr Hok Hf Hfu. unfold efi_main. rewrite !(bind_done _ _ _ _ _ (Hp _ _ _)).
  rewrite (bind_done _ _ _ _ _ Hr), (bind_done _ _ _ _ _ (bad_ident_run elf buf size Hok f1 Hf)).
  case_bool_decide; cbn [negb]; [|by rewrite (bind_done _ _ _ _ _ (Hp _ _ _))].
  pose proof (wp_load_segments elf buf size Hok fuel f1 Hf Hfu) as Hl.
  apply wp_done in Hl as ([] & f2 & El & m & -> & Hh & Hm). exists m. split; [done|].
  rewrite (bind_done _ _ _ _ _ El).
  pose proof (wp_ehdr elf buf size Hok 8 "e_entry" (fun _ f' => f' = fw_set_mem m f1) (fw_set_mem m f1)
    ltac:(by rewrite fw_get_set) ltac:(by vm_compute) ltac:(by vm_compute) eq_refl) as He.
  apply wp_done in He as (v & f2 & Ee & ->).
  by rewrite (bind_done _ _ _ _ _ Ee), (bind_done _ _ _ _ _ (Hp _ _ _)).
Qed.

(** On any firmware, the bootloader never returns success: a status it
    returns is an error. *)
Theorem efi_main_errors {F} `{Uefi F} fuel h (f f' : F) status :
  efi_main fuel h f = Done (Returned status, f') \/ pkg_efi_main fuel h f = Done (Returned status, f') ->
  EFI_ERROR status = true.
Proof.
  set (P r := match r with Returned s => EFI_ERROR s = true | Entered _ _ => True end).
  assert (He : ensures (efi_main fuel h) P /\ ensures (pkg_efi_main fuel h) P).
  { unfold efi_main, pkg_efi_main. split.
    all: do 2 (apply ensures_any; intros _).
    all: eapply ensures_bind; [apply read_kernel_errors|]; intros [s|[b n]] Hs; [by apply ensures_ret|].
    all: apply ensures_any; intros [|]; [apply ensures_any; intros _; by apply ensures_ret|].
    all: do 3 (apply ensures_any; intros ?); apply enter_kernel_errors. }
  destruct He as [H1 H2]. intros [E|E]; [exact (H1 _ _ _ E)|exact (H2 _ _ _ E)].
Qed.

(** The two copies of the bootloader do the same, on any firmware whose
    console leaves the machine alone. *)
Theorem efi_main_copies {F} `{Uefi F} fuel h (f : F) :
  silent -> pkg_efi_main (S fuel) h f = efi_main (S fuel) h f.
Proof.
  intros Hp. unfold efi_main, pkg_efi_main. rewrite !(bind_done _ _ _ _ _ (Hp _ _ _)).
  apply bind_ext. intros [s|[buf size]] f1; [done|]. apply bind_ext. intros [|] f2; [done|].
  assert (Hk : forall g, enter_kernel buf size h (bs <- gets (fun f => mgets (fw_mem f) 0x100000 4) ;;
      Print "Bytes at 0x100000: %02x %02x %02x %02x\n" bs) g = enter_kernel buf size h (ret tt) g).
  { intros g. unfold enter_kernel. apply bind_ext. intros [s gop] g1. apply bind_ext. intros _ g2.
    erewrite (bind_done (bind _ _)); [by erewrite (bind_done (ret tt)) by reflexivity|].
    unfold bind, gets. apply Hp. }
  destruct (decide (32 <= size)) as [Hs|Hs].
  - assert (He : forall g, exists v, ehdr buf size 8 "e_entry" g = Done (v, g)).
    { intros g. unfold ehdr, kb_ld. change (off Elf64_Ehdr "e_entry") with 24.
      destruct (Z.leb_spec buf (buf + 24)), (Z.leb_spec (buf + 24 + Z.of_nat 8) (buf + size)); try lia.
      by eexists. }
    destruct (He f2) as [v Ev]. rewrite (bind_done _ _ _ _ _ Ev), (bind_done _ _ _ _ _ (Hp _ _ _)).
    apply bind_ext. intros _ f3. destruct (He f3) as [v' Ev'].
    by rewrite (bind_done _ _ _ _ _ Ev'), (bind_done _ _ _ _ _ (Hp _ _ _)).
  - assert (Hu : forall n o g, 32 <= o + Z.of_nat n -> kb_ld buf size n (buf + o) g = Undef).
    { intros n o g Ho. unfold kb_ld. destruct (Z.leb_spec (buf + o + Z.of_nat n) (buf + size)); [lia|].
      by rewrite andb_false_r. }
    unfold load_segments. cbn [cloop]. unfold bind, ehdr.
    by rewrite !Hu by by vm_compute.
Qed.

(** The program header table is used unchecked: when an entry the header
    announces does not lie in the file, the loader reads outside its buffer. *)
Theorem load_phdr_unchecked {F} `{UefiMem F} elf buf size fuel i (f : F) :
  (forall a, is_byte (elf a)) -> sizeof Elf64_Ehdr <= size -> 0 <= buf -> buf + size <= 2 ^ 64 ->
  holds elf buf size (fw_mem f) -> 0 <= i -> i * e_field elf 2 "e_phentsize" < 2 ^ 31 ->
  size < p_at elf i + 4 -> p_at elf i < 2 ^ 64 - buf ->
  load_phdr buf size fuel i f = Undef.
Proof.
  intros Hb Hs H1 H2 Hf Hi Hint Hp1 Hp2. change (sizeof Elf64_Ehdr) with 64 in Hs.
  assert (He : forall n field, off Elf64_Ehdr field + Z.of_nat n <= 64 -> 0 <= off Elf64_Ehdr field ->
    0 <= e_field elf n field /\ ehdr buf size n field f = Done (e_field elf n field, f)).
  { intros n field Hn Ho. split.
    - unfold e_field, eld. by apply le_dec_bound, img_bytes_bytes.
    - pose proof (wp_kb_ld elf buf size n (off Elf64_Ehdr field) (fun v f' => v = e_field elf n field /\ f' = f)
        f Hf Ho ltac:(lia) (conj eq_refl eq_refl)) as Hw.
      apply wp_done in Hw as (v & f' & E & -> & ->). exact E. }
  destruct (He 8%nat "e_phoff") as [P1 E1]; [by vm_compute..|].
  destruct (He 2%nat "e_phentsize") as [P2 E2]; [by vm_compute..|].
  unfold load_phdr. rewrite (bind_done _ _ _ _ _ E1), (bind_done _ _ _ _ _ E2).
  destruct (Z.leb_spec (2 ^ 31) (i * e_field elf 2 "e_phentsize")); [lia|].
  unfold p_at in *. rewrite (u64_small (_ + _ + _)) by nia.
  unfold bind, phdr, kb_ld. change (off Elf64_Phdr "p_type") with 0. rewrite Z.add_0_r.
  rewrite u64_small by nia. change (Z.of_nat 4) with 4.
  destruct (Z.leb_spec (buf + e_field elf 8 "e_phoff" + i * e_field elf 2 "e_phentsize" + 4) (buf + size));
    [lia|]. by rewrite andb_false_r.
Qed.

(** ** Witnesses: a firmware serving a small kernel *)

(** 64 bytes of ELF header, one program header, four bytes of code that go to
    0x100000 with four zero bytes after them. *)
Definition demo_elf : mem :=
  mputs (mst 8 (mst 8 (mst 8 (mst 8 (mst 4 (mst 2 (mst 2 (mst 8 (mst 8
    (mputs ∅ 0 ELF_MAGIC) 24 0x100000) 32 64) 54 56) 56 1) 64 1) 72 120) 80 0x100000) 96 4) 104 8)
    120 [0xF3; 0x90; 0xEB; 0xFC].

Definition demo_size : Z := 124.
Definition demo_buf : Z := 0x400000.

Definition sim_uefi (gop_status : Z) : Uefi mem := {|
  fw_mem m := m;
  fw_set_mem m _ := m;
  Print _ _ := ret tt;
  HandleProtocol _ _ := ret (0, 1);
  LocateProtocol _ := ret (gop_status, 2);
  OpenVolume _ := ret (0, 3);
  File_Open _ _ := ret (0, 4);
  GetInfo _ _ n _ := ret (0, n);
  File_Read _ n b := modify (fun m => mputs m b (mgets demo_elf 0 (Z.to_nat n))) ;;; ret (0, n);
  File_Close _ := ret tt;
  AllocatePool _ := ret demo_buf;
  FreePool _ := ret tt;
  SetMode _ _ := ret 0;
  GetMemoryMap n _ := ret (0, n, 7, 48);
  ExitBootServices _ _ := ret 0;
  sizeof_EFI_FILE_INFO := 80;
  DeviceHandle _ := ret 5;
  FileSize _ := ret demo_size;
  FrameBufferBase _ := ret 0x80000000;
  HorizontalResolution _ := ret 1024;
  VerticalResolution _ := ret 768;
  PixelsPerScanLine _ := ret 1024
|}.

Definition sim_uefi_mem s : @UefiMem mem (sim_uefi s).
Proof. by split. Defined.

Definition demo_file (a : Z) : Z := mget demo_elf a.

Lemma demo_elf_bytes a : is_byte (demo_file a).
Proof.
  assert (Hm : mem_ok demo_elf); [|exact (Hm a)]. unfold demo_elf.
  repeat first [apply mem_ok_mst | apply mem_ok_mputs | apply mem_ok_empty
    | apply Forall_nil_2 | apply Forall_cons_2; [unfold is_byte; lia|]].
Qed.

Lemma demo_elf_ok : elf_ok demo_file demo_buf demo_size.
Proof.
  assert (Hn : e_field demo_file 2 "e_phnum" = 1) by (by vm_compute).
  split; [exact demo_elf_bytes|by vm_compute|by vm_compute|by vm_compute| |].
  - intros i Hi. assert (i = 0) as -> by lia. by vm_compute.
  - intros i Hi _. assert (i = 0) as -> by lia. split_and!; [by vm_compute..|]. left. by vm_compute.
Qed.

Lemma demo_holds :
  holds demo_file demo_buf demo_size (mputs ∅ demo_buf (mgets demo_elf 0 (Z.to_nat demo_size))).
Proof.
  intros a Ha. unfold demo_size in *. rewrite mget_mputs, decide_True by (rewrite length_mgets; lia).
  apply list_lookup_total_correct. rewrite mgets_lookup by lia. unfold demo_file. do 2 f_equal. lia.
Qed.

Lemma efi_main_loads_witness :
  exists m, mgets m 0x100000 8 = [0xF3; 0x90; 0xEB; 0xFC; 0; 0; 0; 0] /\
    @efi_main mem (sim_uefi 0) 10 1 ∅ =
    Done (Entered 0x100000 {| framebuffer := 0x80000000; width := 1024; height := 768;
                              pixels_per_scanline := 1024 |}, m).
Proof.
  pose (m1 := mputs ∅ demo_buf (mgets demo_elf 0 (Z.to_nat demo_size))).
  pose proof (@efi_main_loads mem (sim_uefi 0) (sim_uefi_mem 0) demo_file demo_buf demo_size 10 1 ∅ m1
    (fun _ _ _ => eq_refl) eq_refl demo_elf_ok demo_holds) as Hm.
  rewrite bool_decide_eq_true_2 in Hm by (by vm_compute).
  destruct Hm as (m & Hm & E).
  { split; [by vm_compute|]. intros i Hi _. 
    assert (Hn : e_field demo_file 2 "e_phnum" = 1) by (by vm_compute).
    assert (i = 0) as -> by lia. by vm_compute. }
  assert (Hg : forall a n, mgets m a n = img_bytes (loaded_byte demo_file m1) a n).
  { intros a n. rewrite <- img_bytes_mget. by apply img_bytes_ext. }
  exists m. split; [rewrite Hg; by vm_compute|]. rewrite E.
  assert (Ee : @ehdr mem (sim_uefi 0) demo_buf demo_size 8 "e_entry" m = Done (0x100000, m)).
  { change (Done (mld 8 m (demo_buf + 24), m) = Done (0x100000, m)). unfold mld. rewrite Hg. by vm_compute. }
  unfold enter_kernel. revert Ee. cbn [fw_set_mem sim_uefi].
  generalize (@ehdr mem (sim_uefi 0) demo_buf demo_size 8 "e_entry"). intros g Ee.
  lazy -[demo_buf demo_size] in Ee |- *. by rewrite Ee.
Defined.

(** A firmware that finds no file system on the boot device. *)
Definition no_fs_uefi : Uefi mem := {|
  fw_mem m := m;
  fw_set_mem m _ := m;
  Print _ _ := ret tt;
  HandleProtocol _ g := ret (match g with LoadedImageProtocol => 0 | _ => 2 ^ 63 + 14 end, 1);
  LocateProtocol _ := ret (0, 2);
  OpenVolume _ := ret (0, 3);
  File_Open _ _ := ret (0, 4);
  GetInfo _ _ n _ := ret (0, n);
  File_Read _ n _ := ret (0, n);
  File_Close _ := ret tt;
  AllocatePool _ := ret demo_buf;
  FreePool _ := ret tt;
  SetMode _ _ := ret 0;
  GetMemoryMap n _ := ret (0, n, 7, 48);
  ExitBootServices _ _ := ret 0;
  sizeof_EFI_FILE_INFO := 80;
  DeviceHandle _ := ret 5;
  FileSize _ := ret demo_size;
  FrameBufferBase _ := ret 0;
  HorizontalResolution _ := ret 0;
  VerticalResolution _ := ret 0;
  PixelsPerScanLine _ := ret 0
|}.

Lemma efi_main_errors_witness :
  @efi_main mem no_fs_uefi 10 1 ∅ = Done (Returned (2 ^ 63 + 14), ∅) /\ EFI_ERROR (2 ^ 63 + 14) = true.
Proof.
  split; [reflexivity|].
  apply (@efi_main_errors mem no_fs_uefi 10 1 ∅ ∅). left. reflexivity.
Defined.

Lemma efi_main_copies_witness :
  @pkg_efi_main mem (sim_uefi 0) 10 1 ∅ = @efi_main mem (sim_uefi 0) 10 1 ∅.
Proof. apply (@efi_main_copies mem (sim_uefi 0) 9 1 ∅). by intros t args f. Defined.

(** The same file announcing a third program header, past its end. *)
Lemma load_phdr_unchecked_witness :
  @load_phdr mem (sim_uefi 0) demo_buf demo_size 10 2 (mputs ∅ demo_buf (mgets demo_elf 0 (Z.to_nat demo_size)))
  = Undef.
Proof.
  apply (@load_phdr_unchecked mem (sim_uefi 0) (sim_uefi_mem 0) demo_file demo_buf demo_size).
  - exact demo_elf_bytes.
  - by vm_compute.
  - by vm_compute.
  - by vm_compute.
  - exact demo_holds.
  - lia.
  - by vm_compute.
  - by vm_compute.
  - by vm_compute.
Defined.
