(* ===== verification/Digest.v ===== *)
(** What the message digests of [binutils-2.42/libiberty] share: the streaming
    context of [md5.h] and [sha1.h], the byte count, block-wise processing, and
    the specification that a context has absorbed a message. *)
From S2P Require Import Prelude Bytes.

(** [struct md5_ctx] and [struct sha1_ctx]: chaining words, 64-bit byte count in
    two halves, fill level and contents of the 128-byte buffer. *)
Record ctx (W : Type) := Ctx {
  words : W; total0 : Z; total1 : Z; buflen : Z; buffer : list Z
}.
Arguments Ctx {W} _ _ _ _ _.
Arguments words {W} _.
Arguments total0 {W} _.
Arguments total1 {W} _.
Arguments buflen {W} _.
Arguments buffer {W} _.

(** [memcpy (&buf[pos], bs, n)]; outside [buf] it is undefined. *)
Definition blit (buf : list Z) (pos : Z) (bs : list Z) : res (list Z) :=
  if (0 <=? pos) && (pos + Z.of_nat (length bs) <=? Z.of_nat (length buf))
  then Done (take (Z.to_nat pos) buf ++ bs ++ drop (Z.to_nat pos + length bs) buf)
  else Undef.

(** [n] bytes of [buf] from [pos]. *)
Definition slice (buf : list Z) (pos n : Z) : list Z :=
  take (Z.to_nat n) (drop (Z.to_nat pos) buf).

(** [total[0] += len; total[1] += ((len >> 31) >> 1) + (total[0] < len);] *)
Definition add_total (t0 t1 len : Z) : Z * Z :=
  let t0' := u32 (t0 + len) in
  (t0', u32 (t1 + (Z.shiftr (Z.shiftr len 31) 1 + (if t0' <? len then 1 else 0)))).

(** 32-bit rotation [(w << s) | (w >> (32 - s))]. *)
Definition rol (w s : Z) : Z := Z.lor (u32 (Z.shiftl w s)) (Z.shiftr w (32 - s)).

(** The bytes [0x80, 0, 0, ...] of [fillbuf]. *)
Definition fillbuf : list Z := 0x80 :: replicate 63 0.

Section process.
Context {W : Type} (compress : W -> list Z -> W).

(** The loop over 64-byte blocks; reading past the buffer is undefined. *)
Fixpoint compress_loop (n : nat) (buf : list Z) (w : W) : res W :=
  match n with
  | O => Done w
  | S n' =>
      if (length buf <? 64)%nat then Undef
      else compress_loop n' (drop 64 buf) (compress w (take 64 buf))
  end.

(** [process_block (buf, len, ctx)]. *)
Definition process_block (buf : list Z) (len : Z) (c : ctx W) : res (ctx W) :=
  let nwords := len / 4 in
  let t := add_total (total0 c) (total1 c) len in
  rbind (compress_loop (Z.to_nat ((nwords + 15) / 16)) buf (words c)) (fun w =>
  Done (Ctx w t.1 t.2 (buflen c) (buffer c))).

(** ** Specification *)

(** The chaining words after [n] blocks of [msg]. *)
Fixpoint absorb (n : nat) (msg : list Z) (w : W) : W :=
  match n with
  | O => w
  | S n' => absorb n' (drop 64 msg) (compress w (take 64 msg))
  end.

(** A context that has absorbed [msg], starting from [w0]: whole blocks went
    into the words and the count, at most one block's worth waits. *)
Definition absorbed (w0 : W) (msg : list Z) (c : ctx W) : Prop :=
  exists n, (64 * n <= length msg)%nat /\
    words c = absorb n (take (64 * n) msg) w0 /\
    0 <= total0 c < 2 ^ 32 /\ 0 <= total1 c < 2 ^ 32 /\
    total0 c + 2 ^ 32 * total1 c = Z.of_nat (64 * n) mod 2 ^ 64 /\
    buflen c = Z.of_nat (length msg - 64 * n) /\ 0 <= buflen c <= 64 /\
    length (buffer c) = 128%nat /\
    take (length msg - 64 * n) (buffer c) = drop (64 * n) msg.

(** The padded message: a 1 bit, zeros up to 56 bytes modulo 64, and the
    64-bit length in bits, written by [enc]. *)
Definition padded (enc : Z -> list Z) (msg : list Z) : list Z :=
  msg ++ 0x80 :: replicate (Z.to_nat ((55 - Z.of_nat (length msg)) mod 64)) 0
      ++ enc (8 * Z.of_nat (length msg) mod 2 ^ 64).

Definition digest_words (enc : Z -> list Z) (w0 : W) (msg : list Z) : W :=
  absorb (length (padded enc msg) / 64) (padded enc msg) w0.

(** ** Lemmas *)

Lemma absorb_app n m a b w :
  length a = (64 * n)%nat -> absorb (n + m) (a ++ b) w = absorb m b (absorb n a w).
Proof.
  revert a w. induction n as [|n IH]; intros a w Ha.
  - by destruct a.
  - cbn [absorb Nat.add]. rewrite take_app_le, drop_app_le by lia.
    apply IH. rewrite length_drop. lia.
Qed.

Lemma absorb_take n msg w : absorb n (take (64 * n) msg) w = absorb n msg w.
Proof.
  revert msg w. induction n as [|n IH]; intros msg w; [done|]. cbn [absorb].
  rewrite take_take, skipn_firstn_comm. replace (64 `min` (64 * S n))%nat with 64%nat by lia.
  replace (64 * S n - 64)%nat with (64 * n)%nat by lia. apply IH.
Qed.

Lemma absorb_prefix n k msg w : (64 * n <= k)%nat -> absorb n (take k msg) w = absorb n msg w.
Proof.
  intros Hk. rewrite <- (absorb_take n (take k msg)), take_take, Nat.min_l by done. apply absorb_take.
Qed.

Lemma compress_loop_run n buf w :
  (64 * n <= length buf)%nat -> compress_loop n buf w = Done (absorb n buf w).
Proof.
  revert buf w. induction n as [|n IH]; intros buf w Hl; [done|]. cbn [compress_loop absorb].
  destruct (Nat.ltb_spec (length buf) 64); [lia|]. apply IH. rewrite length_drop. lia.
Qed.

(** A block of [64 * n] bytes, less than 4 GiB. *)
Lemma process_block_run n buf c len :
  len = Z.of_nat (64 * n) -> (64 * n <= length buf)%nat ->
  process_block buf len c =
  let t := add_total (total0 c) (total1 c) len in
  Done (Ctx (absorb n buf (words c)) t.1 t.2 (buflen c) (buffer c)).
Proof.
  intros -> Hl. unfold process_block.
  replace (Z.to_nat ((Z.of_nat (64 * n) / 4 + 15) / 16)) with n.
  - by rewrite compress_loop_run.
  - replace (Z.of_nat (64 * n)) with (Z.of_nat n * 16 * 4) by lia.
    rewrite Z.div_mul by lia. rewrite Z.div_add_l by lia. change (15 / 16) with 0. lia.
Qed.
End process.

Lemma absorb_ext {W} (f g : W -> list Z -> W) n msg w :
  (forall w b, f w b = g w b) -> absorb f n msg w = absorb g n msg w.
Proof.
  intros Hfg. revert msg w. induction n as [|n IH]; intros msg w; [done|]. cbn [absorb].
  by rewrite Hfg, IH.
Qed.

Lemma process_block_ext {W} (f g : W -> list Z -> W) buf len c :
  (forall w b, f w b = g w b) -> process_block f buf len c = process_block g buf len c.
Proof.
  intros Hfg. unfold process_block. f_equal.
  generalize (Z.to_nat ((len / 4 + 15) / 16)) as n, (words c) as w. intros n.
  revert buf. induction n as [|n IH]; intros buf w; [done|]. cbn [compress_loop].
  by rewrite Hfg, IH.
Qed.

(** The 64-bit count of a call of less than 4 GiB. *)
Lemma add_total_ok t0 t1 len v :
  0 <= t0 < 2 ^ 32 -> 0 <= t1 < 2 ^ 32 -> t0 + 2 ^ 32 * t1 = v mod 2 ^ 64 -> 0 <= len < 2 ^ 32 ->
  let t := add_total t0 t1 len in
  0 <= t.1 < 2 ^ 32 /\ 0 <= t.2 < 2 ^ 32 /\ t.1 + 2 ^ 32 * t.2 = (v + len) mod 2 ^ 64.
Proof.
  intros H0 H1 Hv Hl t. unfold t, add_total. cbn [fst snd].
  pose proof (wrap_range 32 (t0 + len)). 
  rewrite !Z.shiftr_div_pow2 by lia. rewrite Z.div_div by lia. change (2 ^ 31 * 2 ^ 1) with (2 ^ 32).
  rewrite (Z.div_small len) by lia. rewrite Z.add_0_l.
  set (k := if u32 (t0 + len) <? len then 1 else 0).
  pose proof (wrap_range 32 (t1 + k)). split_and!; [lia..|].
  rewrite <- Z.add_mod_idemp_l, <- Hv by lia.
  assert (Ek : t0 + len = u32 (t0 + len) + 2 ^ 32 * k).
  { unfold k. destruct (decide (t0 + len < 2 ^ 32)).
    - rewrite u32_small by lia. destruct (Z.ltb_spec (t0 + len) len); lia.
    - assert (E : u32 (t0 + len) = t0 + len - 2 ^ 32)
        by (symmetry; apply (Z.mod_unique_pos _ _ 1); lia).
      rewrite E. destruct (Z.ltb_spec (t0 + len - 2 ^ 32) len); lia. }
  apply (Z.mod_unique_pos _ _ ((t1 + k) / 2 ^ 32)); [lia|].
  unfold wrap at 2. pose proof (Z.div_mod (t1 + k) (2 ^ 32)). lia.
Qed.

(** From 4 GiB on, the comparison with the full [len] adds one to the upper
    half whatever the carry. *)
Lemma add_total_large len :
  2 ^ 32 <= len < 2 ^ 63 ->
  let t := add_total 0 0 len in t.1 + 2 ^ 32 * t.2 = len + 2 ^ 32.
Proof.
  intros Hl. unfold add_total. cbn [fst snd]. rewrite !Z.add_0_l.
  rewrite !Z.shiftr_div_pow2, Z.div_div by lia. change (2 ^ 31 * 2 ^ 1) with (2 ^ 32).
  pose proof (wrap_range 32 len ltac:(lia)). destruct (Z.ltb_spec (u32 len) len); [|lia].
  unfold wrap at 2. rewrite Z.mod_small by (Z.div_mod_to_equations; lia).
  unfold wrap. pose proof (Z.div_mod len (2 ^ 32)). lia.
Qed.

Lemma blit_run (buf : list Z) pos (bs : list Z) :
  0 <= pos -> pos + Z.of_nat (length bs) <= Z.of_nat (length buf) ->
  blit buf pos bs = Done (take (Z.to_nat pos) buf ++ bs ++ drop (Z.to_nat pos + length bs) buf).
Proof.
  intros Hp Hl. unfold blit. destruct (Z.leb_spec 0 pos), (Z.leb_spec (pos + Z.of_nat (length bs)) (Z.of_nat (length buf))); done || lia.
Qed.

Lemma length_blit (buf : list Z) pos (bs : list Z) :
  0 <= pos -> pos + Z.of_nat (length bs) <= Z.of_nat (length buf) ->
  length (take (Z.to_nat pos) buf ++ bs ++ drop (Z.to_nat pos + length bs) buf) = length buf.
Proof. intros. rewrite !length_app, length_take, length_drop. lia. Qed.

(** Appending to what the front of a buffer holds. *)
Lemma blit_grow (buf pre bs : list Z) pos :
  pos = Z.of_nat (length pre) -> take (length pre) buf = pre ->
  (length pre + length bs <= length buf)%nat ->
  exists b, blit buf pos bs = Done b /\ take (length (pre ++ bs)) b = pre ++ bs /\ length b = length buf.
Proof.
  intros -> Hpre Hl. rewrite blit_run by lia. eexists. split; [reflexivity|]. split.
  - rewrite Nat2Z.id, Hpre, app_assoc. apply take_app_length.
  - apply length_blit; lia.
Qed.

(** The three parts of a buffer after a copy. *)
Lemma blit_parts (buf : list Z) (pos : nat) (bs : list Z) :
  (pos + length bs <= length buf)%nat ->
  exists b, blit buf (Z.of_nat pos) bs = Done b /\ length b = length buf /\
    (forall n, (n <= pos)%nat -> take n b = take n buf) /\
    take (length bs) (drop pos b) = bs /\
    (forall n, (pos + length bs <= n)%nat -> drop n b = drop n buf).
Proof.
  intros Hl. rewrite blit_run by lia. eexists. split; [reflexivity|]. split; [apply length_blit; lia|].
  rewrite Nat2Z.id. split_and!.
  - intros n Hn. rewrite take_app_le by (rewrite length_take; lia). by rewrite take_take, Nat.min_l.
  - rewrite drop_app_length' by (rewrite length_take; lia). by rewrite take_app_length.
  - intros n Hn. rewrite app_assoc, drop_app_ge by (rewrite length_app, length_take; lia).
    rewrite drop_drop. f_equal. rewrite length_app, length_take. lia.
Qed.

Lemma take_split {A} (l : list A) n m : take (n + m) l = take n l ++ take m (drop n l).
Proof. by rewrite take_take_drop. Qed.

(** [x & ~63] and [x & 63]. *)
Lemma land_not63 x : 0 <= x -> Z.land x (Z.lnot 63) = 64 * (x / 64).
Proof.
  intros Hx. change 63 with (Z.ones 6). rewrite <- Z.ldiff_land, Z.ldiff_ones_r by lia.
  rewrite Z.shiftr_div_pow2, Z.shiftl_mul_pow2 by lia. change (2 ^ 6) with 64. lia.
Qed.

Lemma land_63 x : Z.land x 63 = x mod 64.
Proof. change 63 with (Z.ones 6). by rewrite Z.land_ones. Qed.

Section absorbing.
Context {W : Type} (compress : W -> list Z -> W) (w0 : W).
Abbreviation absorbed := (absorbed compress w0).
Abbreviation absorb := (absorb compress).

(** The one step every path of [process_bytes] takes: [n] blocks of what was
    waiting followed by [bs] go in, the rest waits. *)
Lemma absorbed_process msg c bs n buf' :
  absorbed msg c ->
  let p := take (Z.to_nat (buflen c)) (buffer c) ++ bs in
  let t := add_total (total0 c) (total1 c) (Z.of_nat (64 * n)) in
  (64 * n <= length p <= 64 * n + 64)%nat -> Z.of_nat (64 * n) < 2 ^ 32 ->
  length buf' = 128%nat -> take (length p - 64 * n) buf' = drop (64 * n) p ->
  absorbed (msg ++ bs) (Ctx (absorb n p (words c)) t.1 t.2 (Z.of_nat (length p - 64 * n)) buf').
Proof.
  intros (m & Hm & Hw & Ht0 & Ht1 & Ht & Hb & Hb64 & Hlen & Hbuf) p t Hp Hn Hl' Hr.
  assert (Hrest : take (Z.to_nat (buflen c)) (buffer c) = drop (64 * m) msg).
  { rewrite Hb, Nat2Z.id. exact Hbuf. }
  assert (Hmsg : msg ++ bs = take (64 * m) msg ++ p).
  { unfold p. rewrite Hrest, app_assoc, take_drop. done. }
  assert (Hlp : length (msg ++ bs) = (64 * m + length p)%nat).
  { rewrite Hmsg, length_app, length_take. lia. }
  pose proof (add_total_ok _ _ (Z.of_nat (64 * n)) _ Ht0 Ht1 Ht ltac:(lia)) as Hadd.
  fold t in Hadd. cbv zeta in Hadd. destruct Hadd as (A1 & A2 & A3).
  exists (m + n)%nat. cbn [words total0 total1 buflen buffer]. split_and!; try lia.
  - rewrite absorb_take, Hmsg, absorb_app by (rewrite length_take; lia). by rewrite <- Hw.
  - rewrite A3. f_equal. lia.
  - replace (length (msg ++ bs) - 64 * (m + n))%nat with (length p - 64 * n)%nat by lia.
    rewrite Hr, Hmsg, drop_app_ge by (rewrite length_take; lia). f_equal. rewrite length_take. lia.
Qed.

Lemma add_total_0 t0 t1 : 0 <= t0 < 2 ^ 32 -> 0 <= t1 < 2 ^ 32 -> add_total t0 t1 0 = (t0, t1).
Proof.
  intros H0 H1. unfold add_total. rewrite Z.add_0_r, u32_small by lia. destruct (Z.ltb_spec t0 0); [lia|].
  change (Z.shiftr (Z.shiftr 0 31) 1 + 0) with 0. by rewrite Z.add_0_r, u32_small by lia.
Qed.

(** Storing bytes that still fit a block. *)
Lemma absorbed_store msg c bs :
  absorbed msg c -> buflen c + Z.of_nat (length bs) <= 64 ->
  absorbed (msg ++ bs) (Ctx (words c) (total0 c) (total1 c) (buflen c + Z.of_nat (length bs))
    (take (Z.to_nat (buflen c)) (buffer c) ++ bs ++ drop (Z.to_nat (buflen c) + length bs) (buffer c))).
Proof.
  intros Ha Hb. pose proof Ha as (m & Hm & Hw & Ht0 & Ht1 & Ht & Hb' & Hb64 & Hlen & Hbuf).
  pose proof (absorbed_process msg c bs 0 (take (Z.to_nat (buflen c)) (buffer c) ++ bs ++
    drop (Z.to_nat (buflen c) + length bs) (buffer c)) Ha) as Hs.
  cbv zeta in Hs. change (Z.of_nat (64 * 0)) with 0 in Hs. rewrite add_total_0 in Hs by done.
  rewrite length_app, length_take in Hs. cbn [fst snd Digest.absorb] in Hs.
  replace (buflen c + Z.of_nat (length bs))
    with (Z.of_nat (Z.to_nat (buflen c) `min` length (buffer c) + length bs - 64 * 0)) by lia.
  apply Hs; [lia|lia|rewrite length_blit; lia|].
  rewrite app_assoc. change (drop (64 * 0) ?l) with l. rewrite take_app_le by (rewrite length_app, length_take; lia).
  apply take_ge. rewrite length_app, length_take. lia.
Qed.

(** A context that waits for nothing, fed whole blocks from outside. *)
Lemma absorbed_direct msg c bs n buf' :
  absorbed msg c -> buflen c = 0 -> length bs = (64 * n)%nat -> Z.of_nat (64 * n) < 2 ^ 32 ->
  length buf' = 128%nat ->
  let t := add_total (total0 c) (total1 c) (Z.of_nat (64 * n)) in
  absorbed (msg ++ bs) (Ctx (absorb n bs (words c)) t.1 t.2 (buflen c) buf').
Proof.
  intros Ha Hb Hl Hn Hl' t. pose proof (absorbed_process msg c bs n buf' Ha) as Hs.
  cbv zeta in Hs. fold t in Hs. rewrite Hb in *. change (take (Z.to_nat 0) (buffer c)) with (@nil Z) in Hs.
  rewrite app_nil_l, Hl in Hs. replace (64 * n - 64 * n)%nat with 0%nat in Hs by lia.
  apply Hs; [lia|done|done|]. symmetry. apply drop_ge. lia.
Qed.

(** With nothing waiting the buffer's contents do not matter. *)
Lemma absorbed_rebuffer msg c b :
  absorbed msg c -> buflen c = 0 -> length b = 128%nat ->
  absorbed msg (Ctx (words c) (total0 c) (total1 c) 0 b).
Proof.
  intros (m & Hm & Hw & Ht0 & Ht1 & Ht & Hb & Hb64 & Hlen & Hbuf) Hz Hl. exists m.
  cbn [words total0 total1 buflen buffer]. rewrite Hz in Hb.
  assert (length msg - 64 * m = 0)%nat as E by lia. rewrite E in Hbuf |- *.
  split_and!; first [done | lia | exact Hbuf].
Qed.

Lemma absorbed_len msg c : absorbed msg c -> length (buffer c) = 128%nat /\ 0 <= buflen c <= 64.
Proof. by intros (m & _ & _ & _ & _ & _ & _ & ? & ? & _). Qed.
End absorbing.

(** ** The common paths of [process_bytes] *)

Section paths.
Context {W : Type} (compress : W -> list Z -> W) (w0 : W).
Abbreviation absorbed := (absorbed compress w0).

(** Whole blocks copied one by one into the buffer. *)
Fixpoint unaligned (fuel : nat) (buf : list Z) (c : ctx W) : res (list Z * ctx W) :=
  match fuel with
  | O => Hang
  | S fuel =>
      if 64 <? Z.of_nat (length buf) then
        let? b := blit (buffer c) 0 (take 64 buf) in
        let? c := process_block compress b 64 (Ctx (words c) (total0 c) (total1 c) (buflen c) b) in
        unaligned fuel (drop 64 buf) c
      else Done (buf, c)
  end.

(** The bytes already waiting are completed first. *)
Definition fill (buf : list Z) (c : ctx W) : res (list Z * ctx W) :=
  let len := Z.of_nat (length buf) in
  let left_over := buflen c in
  let add := if len <? 128 - left_over then len else 128 - left_over in
  let? b := blit (buffer c) left_over (take (Z.to_nat add) buf) in
  let c := Ctx (words c) (total0 c) (total1 c) (u32 (left_over + add)) b in
  let? c :=
    (if 64 <? left_over + add then
       let whole := Z.land (left_over + add) (Z.lnot 63) in
       let rest := Z.land (left_over + add) 63 in
       let? c := process_block compress b whole c in
       let? b := blit b 0 (slice b whole rest) in
       Done (Ctx (words c) (total0 c) (total1 c) rest b)
     else Done c) in
  Done (drop (Z.to_nat add) buf, c).

Lemma fill_ok msg buf c :
  absorbed msg c -> 
  exists add c', fill buf c = Done (drop add buf, c') /\ absorbed (msg ++ take add buf) c' /\
    ((length buf <= add)%nat \/ buflen c' = 0).
Proof.
  intros Ha. pose proof (absorbed_len _ _ _ _ Ha) as [Hlb Hb]. unfold fill.
  set (add := if Z.of_nat (length buf) <? 128 - buflen c then Z.of_nat (length buf) else 128 - buflen c).
  assert (Hadd : 0 <= add <= Z.of_nat (length buf) /\ add <= 128 - buflen c /\
    (add = Z.of_nat (length buf) \/ add = 128 - buflen c)).
  { unfold add. destruct (Z.ltb_spec (Z.of_nat (length buf)) (128 - buflen c)); lia. }
  clearbody add. exists (Z.to_nat add).
  assert (Hlt : length (take (Z.to_nat add) buf) = Z.to_nat add) by (rewrite length_take; lia).
  rewrite blit_run by lia. cbn [rbind words total0 total1 buflen buffer].
  rewrite u32_small by lia. destruct (Z.ltb_spec 64 (buflen c + add)) as [Hbig|Hsmall].
  - rewrite land_not63, land_63 by lia. set (tl := buflen c + add) in *.
    set (b := take (Z.to_nat (buflen c)) (buffer c) ++ _ ++ _).
    assert (Hbl : length b = 128%nat) by (unfold b; rewrite length_blit; lia).
    assert (Hp : take (Z.to_nat tl) b = take (Z.to_nat (buflen c)) (buffer c) ++ take (Z.to_nat add) buf).
    { unfold b. rewrite app_assoc, take_app_le by (rewrite length_app, length_take; lia).
      apply take_ge. rewrite length_app, length_take. lia. }
    rewrite (process_block_run _ (Z.to_nat (tl / 64)))
      by (Z.div_mod_to_equations; lia).
    cbn [rbind words total0 total1 buflen buffer]. rewrite blit_run.
    2, 3: unfold slice; rewrite ?length_take, ?length_drop; Z.div_mod_to_equations; lia.
    cbn [rbind words total0 total1 buflen buffer].
    eexists. split; [reflexivity|]. split.
    2: { cbn [buflen]. destruct Hadd as (_ & _ & [->|E]); [left; lia|right]. unfold tl. rewrite E.
         by replace (buflen c + (128 - buflen c)) with 128 by lia. }
    pose proof (absorbed_process compress w0 msg c (take (Z.to_nat add) buf) (Z.to_nat (tl / 64))
      (take (Z.to_nat 0) b ++ slice b (64 * (tl / 64)) (tl mod 64) ++
         drop (Z.to_nat 0 + length (slice b (64 * (tl / 64)) (tl mod 64))) b) Ha) as Hs.
    cbv zeta in Hs. rewrite <- Hp in Hs. rewrite length_take in Hs.
    replace (Z.of_nat (64 * Z.to_nat (tl / 64))) with (64 * (tl / 64)) in Hs by (Z.div_mod_to_equations; lia).
    rewrite absorb_prefix in Hs by (Z.div_mod_to_equations; lia).
    replace (Z.of_nat (Z.to_nat tl `min` length b - 64 * Z.to_nat (tl / 64))) with (tl mod 64) in Hs
      by (Z.div_mod_to_equations; lia).
    apply Hs; [Z.div_mod_to_equations; lia..| |].
    + rewrite length_blit; [done|lia|].
      unfold slice. rewrite length_take, length_drop. Z.div_mod_to_equations; lia.
    + rewrite app_nil_l, take_app_le by (unfold slice; rewrite length_take, length_drop; Z.div_mod_to_equations; lia).
      unfold slice. rewrite take_take, skipn_firstn_comm. f_equal; [Z.div_mod_to_equations; lia|].
      f_equal. Z.div_mod_to_equations; lia.
  - eexists. split; [reflexivity|]. split; [|left; lia].
    pose proof (absorbed_store compress w0 msg c (take (Z.to_nat add) buf) Ha) as Hs.
    rewrite Hlt in Hs. rewrite Z2Nat.id in Hs by lia. rewrite Hlt. apply Hs. lia.
Qed.

(** Whole blocks fed from the caller's buffer. *)
Lemma direct_ok msg buf c n b len :
  absorbed msg c -> buflen c = 0 -> length b = 128%nat ->
  len = Z.of_nat (64 * n) -> len < 2 ^ 32 -> (64 * n <= length buf)%nat ->
  exists c', process_block compress buf len (Ctx (words c) (total0 c) (total1 c) (buflen c) b) = Done c' /\
    absorbed (msg ++ take (64 * n) buf) c' /\ buflen c' = 0.
Proof.
  intros Ha Hb Hl -> Hn Hlen. 
  rewrite (process_block_run _ n) by done. eexists. split; [reflexivity|].
  cbn [words total0 total1 buflen buffer]. split; [|done].
  rewrite <- (absorb_prefix compress n (64 * n) buf) by lia.
  apply absorbed_direct; [done|done| |done|done]. rewrite length_take. lia.
Qed.

Lemma unaligned_ok fuel msg buf c :
  absorbed msg c -> buflen c = 0 -> (length buf < fuel)%nat ->
  exists n c', unaligned fuel buf c = Done (drop n buf, c') /\
    absorbed (msg ++ take n buf) c' /\ buflen c' = 0 /\ (length buf <= n + 64)%nat.
Proof.
  revert msg buf c. induction fuel as [|fuel IH]; intros msg buf c Ha Hb Hf; [lia|].
  cbn [unaligned]. destruct (Z.ltb_spec 64 (Z.of_nat (length buf))) as [Hl|Hl].
  2: { exists 0%nat, c. rewrite take_0, app_nil_r. split_and!; [done..|lia]. }
  pose proof (absorbed_len _ _ _ _ Ha) as [Hlb _].
  rewrite blit_run by (rewrite ?length_take; lia). cbn [rbind].
  set (b := take (Z.to_nat 0) _ ++ _ ++ _).
  assert (Hbl : length b = 128%nat) by (unfold b; rewrite length_blit; rewrite ?length_take; lia).
  destruct (direct_ok msg b c 1 b 64 Ha Hb Hbl) as (c1 & -> & Ha1 & Hb1); [done|lia|lia|].
  cbn [rbind]. change (64 * 1)%nat with 64%nat in Ha1.
  replace (take 64 b) with (take 64 buf) in Ha1.
  2: { unfold b. rewrite app_nil_l, take_app_le by (rewrite length_take; lia).
       by rewrite take_take. }
  destruct (IH _ (drop 64 buf) c1 Ha1 Hb1) as (n & c2 & -> & Ha2 & Hb2 & Hn).
  { rewrite length_drop. lia. }
  exists (64 + n)%nat, c2. rewrite length_drop in Hn. rewrite drop_drop. split_and!; [done| |done|lia].
  rewrite <- app_assoc in Ha2. by rewrite take_take_drop in Ha2.
Qed.

End paths.

(** ** Finishing *)

(** [total[0] += bytes; if (total[0] < bytes) ++total[1];] *)
Definition count_rest (t0 t1 bytes : Z) : Z * Z :=
  let t0' := u32 (t0 + bytes) in
  (t0', if t0' <? bytes then u32 (t1 + 1) else t1).

(** The 64-bit count times 8, as two 32-bit halves. *)
Definition bits_low (t0 : Z) : Z := u32 (Z.shiftl t0 3).
Definition bits_high (t0 t1 : Z) : Z := Z.lor (u32 (Z.shiftl t1 3)) (Z.shiftr t0 29).

Lemma count_rest_add t0 t1 bytes :
  0 <= t1 < 2 ^ 32 -> 0 <= bytes < 2 ^ 32 -> count_rest t0 t1 bytes = add_total t0 t1 bytes.
Proof.
  intros Ht Hb. unfold count_rest, add_total. f_equal.
  rewrite !Z.shiftr_div_pow2 by lia. rewrite Z.div_div by lia. change (2 ^ 31 * 2 ^ 1) with (2 ^ 32).
  rewrite (Z.div_small bytes) by lia. destruct (_ <? bytes); [done|].
  by rewrite !Z.add_0_r, u32_small by lia.
Qed.

Lemma bits_range t0 t1 : 0 <= t0 < 2 ^ 32 -> 0 <= t1 < 2 ^ 32 ->
  0 <= bits_low t0 < 2 ^ 32 /\ 0 <= bits_high t0 t1 < 2 ^ 32 /\
  bits_low t0 + 2 ^ 32 * bits_high t0 t1 = 8 * (t0 + 2 ^ 32 * t1) mod 2 ^ 64.
Proof.
  intros H0 H1. unfold bits_low, bits_high. pose proof (wrap_range 32 (Z.shiftl t0 3) ltac:(lia)) as Hl.
  assert (Eh : Z.lor (u32 (Z.shiftl t1 3)) (Z.shiftr t0 29) = u32 (Z.shiftl t1 3) + t0 / 2 ^ 29).
  { rewrite Z.shiftr_div_pow2 by lia. apply (lor_disj _ _ 3); [lia|Z.div_mod_to_equations; lia|].
    unfold wrap. rewrite Z.shiftl_mul_pow2 by lia. Z.div_mod_to_equations. lia. }
  rewrite Eh. unfold wrap in *. rewrite !Z.shiftl_mul_pow2 by lia. Z.div_mod_to_equations. lia.
Qed.

Lemma le_enc_split v : le_enc 8 v = le_enc 4 (v mod 2 ^ 32) ++ le_enc 4 (v / 2 ^ 32).
Proof.
  apply le_dec_inj; [apply le_enc_bytes|apply Forall_app; split; apply le_enc_bytes|done|].
  rewrite le_dec_app, !le_dec_enc, length_le_enc.
  change (256 ^ Z.of_nat 8) with (2 ^ 32 * 2 ^ 32). change (256 ^ Z.of_nat 4) with (2 ^ 32).
  rewrite Z.mod_mod by lia. by rewrite Z.rem_mul_r by lia.
Qed.

Section finishing.
Context {W : Type} (compress : W -> list Z -> W) (w0 : W).

(** The number of padding bytes before the length. *)
Definition pad_len (bytes : Z) : Z := if bytes <? 56 then 56 - bytes else 120 - bytes.

(** The bytes of the last one or two blocks. *)
Definition last_blocks (enc : Z -> list Z) (msg rest : list Z) : list Z :=
  rest ++ take (Z.to_nat (pad_len (Z.of_nat (length rest)))) fillbuf
    ++ enc (8 * Z.of_nat (length msg) mod 2 ^ 64).

Lemma take_fillbuf n : (0 < n <= 64)%nat -> take n fillbuf = 0x80 :: replicate (n - 1) 0.
Proof.
  intros Hn. unfold fillbuf. destruct n as [|n]; [lia|]. cbn [take]. f_equal.
  rewrite take_replicate. f_equal. lia.
Qed.

Lemma absorbed_finish enc msg c :
  (forall v, length (enc v) = 8%nat) -> absorbed compress w0 msg c ->
  let rest := take (Z.to_nat (buflen c)) (buffer c) in
  let p := last_blocks enc msg rest in
  let t := count_rest (total0 c) (total1 c) (buflen c) in
  Z.of_nat (length rest) = buflen c /\ length p = (64 * (length p / 64))%nat /\
  absorb compress (length p / 64) p (words c) = digest_words compress enc w0 msg /\
  0 <= t.1 < 2 ^ 32 /\ 0 <= t.2 < 2 ^ 32 /\
  bits_low t.1 + 2 ^ 32 * bits_high t.1 t.2 = 8 * Z.of_nat (length msg) mod 2 ^ 64.
Proof.
  intros He (m & Hm & Hw & Ht0 & Ht1 & Ht & Hb & Hb64 & Hlen & Hbuf) rest p t.
  assert (Hr : rest = drop (64 * m) msg) by (unfold rest; rewrite Hb, Nat2Z.id; exact Hbuf).
  assert (Hlr : Z.of_nat (length rest) = buflen c) by (rewrite Hr, length_drop; lia).
  assert (Hk : (0 < Z.to_nat (pad_len (Z.of_nat (length rest))) <= 64)%nat).
  { unfold pad_len. destruct (Z.ltb_spec (Z.of_nat (length rest)) 56); lia. }
  assert (Hpad : padded enc msg = take (64 * m) msg ++ p).
  { unfold padded, p, last_blocks. rewrite take_fillbuf by done.
    rewrite <- (take_drop (64 * m) msg) at 1. rewrite <- Hr. rewrite <- app_assoc. cbn [app].
    do 3 f_equal. f_equal. f_equal. rewrite Hr, length_drop. unfold pad_len.
    destruct (Z.ltb_spec (Z.of_nat (length msg - 64 * m)) 56); Z.div_mod_to_equations; lia. }
  assert (Hlp : length p = (64 * (length p / 64))%nat).
  { unfold p, last_blocks. rewrite !length_app, length_take, He. unfold fillbuf. cbn [length].
    rewrite length_replicate. unfold pad_len in *.
    destruct (Z.ltb_spec (Z.of_nat (length rest)) 56).
    - replace (length rest + _)%nat with 64%nat by lia. done.
    - replace (length rest + _)%nat with 128%nat by lia. done. }
  pose proof (add_total_ok _ _ (buflen c) _ Ht0 Ht1 Ht ltac:(lia)) as Hadd.
  rewrite <- count_rest_add in Hadd by lia. fold t in Hadd. destruct Hadd as (A1 & A2 & A3).
  split_and!; try done; try lia.
  - unfold digest_words. rewrite Hpad, length_app, length_take, Nat.min_l by lia.
    rewrite Nat.mul_comm, Nat.div_add_l by lia. rewrite absorb_app by (rewrite length_take; lia).
    rewrite Nat.mul_comm. by rewrite Hw.
  - destruct (bits_range t.1 t.2 A1 A2) as (_ & _ & ->). rewrite A3.
    rewrite Z.mul_mod_idemp_r by lia. f_equal. f_equal. lia.
Qed.
End finishing.

(** ** Input streams *)

(** [fread (buf, 1, n, stream)] and [ferror]. *)
Class Stream (S : Type) := {
  fread : Z -> S -> list Z * S;
  ferror : S -> bool
}.

(** A stream delivers its content in order, in pieces of its choosing; an empty
    piece means an error or the end. *)
Class StreamOk (S : Type) `{Stream S} := {
  left_in : S -> list Z;
  fread_ok n s : 0 < n ->
    let '(bs, s') := fread n s in
    left_in s = bs ++ left_in s' /\ Z.of_nat (length bs) <= n /\
    (bs = [] -> ferror s' = false -> left_in s = [])
}.

Definition BLOCKSIZE : Z := 4096.

Section reading.
Context {S : Type} `{Stream S}.

(** [do { n = fread (buffer + sum, ...); sum += n; } while (sum < BLOCKSIZE && n != 0)]:
    the bytes read and the last [n]. *)
Fixpoint read_block (fuel : nat) (buf : list Z) (s : S) : res (list Z * Z * S) :=
  match fuel with
  | O => Hang
  | Datatypes.S fuel =>
      let '(bs, s) := fread (BLOCKSIZE - Z.of_nat (length buf)) s in
      let n := Z.of_nat (length bs) in
      let buf := buf ++ bs in
      if (Z.of_nat (length buf) <? BLOCKSIZE) && negb (n =? 0) then read_block fuel buf s
      else Done (buf, n, s)
  end.

Lemma read_block_ok `{!StreamOk S} fuel buf (s : S) :
  Z.of_nat (length buf) < BLOCKSIZE -> BLOCKSIZE - Z.of_nat (length buf) < Z.of_nat fuel ->
  exists bs n s', read_block fuel buf s = Done (bs, n, s') /\
    buf ++ left_in s = bs ++ left_in s' /\
    ((n <> 0 /\ Z.of_nat (length bs) = BLOCKSIZE) \/
     (n = 0 /\ Z.of_nat (length bs) < BLOCKSIZE /\ (ferror s' = false -> left_in s' = []))).
Proof.
  revert buf s. induction fuel as [|fuel IH]; intros buf s Hb Hf; [lia|]. cbn [read_block].
  pose proof (fread_ok (BLOCKSIZE - Z.of_nat (length buf)) s ltac:(lia)) as Hr.
  destruct (fread _ s) as [bs s1]. destruct Hr as (Hl & Hn & He).
  destruct (Z.eqb_spec (Z.of_nat (length bs)) 0) as [Ez|Enz].
  - rewrite andb_false_r. eexists _, _, s1. split; [by rewrite Ez|].
    assert (bs = []) as -> by (apply nil_length_inv; lia). rewrite app_nil_r, Hl. split; [done|].
    right. split_and!; [done|done|]. intros Hfe. specialize (He eq_refl Hfe). by rewrite Hl in He.
  - rewrite andb_true_r. destruct (Z.ltb_spec (Z.of_nat (length (buf ++ bs))) BLOCKSIZE) as [Hlt|Hge].
    + destruct (IH (buf ++ bs) s1) as (bs' & n & s' & E & E1 & E2); [done|rewrite length_app; lia|].
      exists bs', n, s'. rewrite E. split; [done|]. by rewrite Hl, app_assoc.
    + eexists _, _, s1. split; [done|]. rewrite Hl, <- app_assoc. split; [done|]. left. split; [done|].
      rewrite length_app in *. lia.
Qed.
End reading.

(** [feof]: true only when nothing is left. *)
Class EofStream (S : Type) `{Stream S} := { feof : S -> bool }.

Class EofStreamOk (S : Type) `{EofStream S} `{!StreamOk S} := {
  feof_ok s : feof s = true -> left_in s = []
}.
