(* ===== verification/Md5.v ===== *)
(** MD5, [libiberty/md5.c] and [include/md5.h]: the streaming interface and
    the unrolled rounds, against the digest of RFC 1321 written as a loop.
    Words are little-endian, as on the hosts where SWAP is the identity. *)
From S2P Require Import Prelude Bytes Digest.

(** ** State and rounds *)

(** The chaining variables. *)
Record md5_words := Md5Words { wA : Z; wB : Z; wC : Z; wD : Z }.

Abbreviation md5_ctx := (ctx md5_words).

Inductive reg := A | B | C | D.

Definition rd (r : reg) (w : md5_words) : Z :=
  match r with A => wA w | B => wB w | C => wC w | D => wD w end.

Definition upd (r : reg) (v : Z) (w : md5_words) : md5_words :=
  match r with
  | A => Md5Words v (wB w) (wC w) (wD w)
  | B => Md5Words (wA w) v (wC w) (wD w)
  | C => Md5Words (wA w) (wB w) v (wD w)
  | D => Md5Words (wA w) (wB w) (wC w) v
  end.

Definition FF (b c d : Z) : Z := Z.lxor d (Z.land b (Z.lxor c d)).
Definition FG (b c d : Z) : Z := FF d b c.
Definition FH (b c d : Z) : Z := Z.lxor (Z.lxor b c) d.
Definition FI (b c d : Z) : Z := Z.lxor c (Z.lor b (u32 (Z.lnot d))).

(** [a += f (b, c, d) + correct_words[k] + T; CYCLIC (a, s); a += b;] *)
Definition step_value (f : Z -> Z -> Z -> Z) (a b c d x s T : Z) : Z :=
  u32 (rol (u32 (a + (f b c d + x + T))) s + b).

Section block.
Variable correct_words : list Z.

Definition OP (f : Z -> Z -> Z -> Z) (a b c d : reg) (k : nat) (s T : Z) (w : md5_words) : md5_words :=
  upd a (step_value f (rd a w) (rd b w) (rd c w) (rd d w) (correct_words !!! k) s T) w.

(** The 64 operations of one block. *)
Definition md5_rounds : list (md5_words -> md5_words) :=
  [
   OP FF A B C D 0 7 0xd76aa478;
   OP FF D A B C 1 12 0xe8c7b756;
   OP FF C D A B 2 17 0x242070db;
   OP FF B C D A 3 22 0xc1bdceee;
   OP FF A B C D 4 7 0xf57c0faf;
   OP FF D A B C 5 12 0x4787c62a;
   OP FF C D A B 6 17 0xa8304613;
   OP FF B C D A 7 22 0xfd469501;
   OP FF A B C D 8 7 0x698098d8;
   OP FF D A B C 9 12 0x8b44f7af;
   OP FF C D A B 10 17 0xffff5bb1;
   OP FF B C D A 11 22 0x895cd7be;
   OP FF A B C D 12 7 0x6b901122;
   OP FF D A B C 13 12 0xfd987193;
   OP FF C D A B 14 17 0xa679438e;
   OP FF B C D A 15 22 0x49b40821;
   OP FG A B C D 1 5 0xf61e2562;
   OP FG D A B C 6 9 0xc040b340;
   OP FG C D A B 11 14 0x265e5a51;
   OP FG B C D A 0 20 0xe9b6c7aa;
   OP FG A B C D 5 5 0xd62f105d;
   OP FG D A B C 10 9 0x02441453;
   OP FG C D A B 15 14 0xd8a1e681;
   OP FG B C D A 4 20 0xe7d3fbc8;
   OP FG A B C D 9 5 0x21e1cde6;
   OP FG D A B C 14 9 0xc33707d6;
   OP FG C D A B 3 14 0xf4d50d87;
   OP FG B C D A 8 20 0x455a14ed;
   OP FG A B C D 13 5 0xa9e3e905;
   OP FG D A B C 2 9 0xfcefa3f8;
   OP FG C D A B 7 14 0x676f02d9;
   OP FG B C D A 12 20 0x8d2a4c8a;
   OP FH A B C D 5 4 0xfffa3942;
   OP FH D A B C 8 11 0x8771f681;
   OP FH C D A B 11 16 0x6d9d6122;
   OP FH B C D A 14 23 0xfde5380c;
   OP FH A B C D 1 4 0xa4beea44;
   OP FH D A B C 4 11 0x4bdecfa9;
   OP FH C D A B 7 16 0xf6bb4b60;
   OP FH B C D A 10 23 0xbebfbc70;
   OP FH A B C D 13 4 0x289b7ec6;
   OP FH D A B C 0 11 0xeaa127fa;
   OP FH C D A B 3 16 0xd4ef3085;
   OP FH B C D A 6 23 0x04881d05;
   OP FH A B C D 9 4 0xd9d4d039;
   OP FH D A B C 12 11 0xe6db99e5;
   OP FH C D A B 15 16 0x1fa27cf8;
   OP FH B C D A 2 23 0xc4ac5665;
   OP FI A B C D 0 6 0xf4292244;
   OP FI D A B C 7 10 0x432aff97;
   OP FI C D A B 14 15 0xab9423a7;
   OP FI B C D A 5 21 0xfc93a039;
   OP FI A B C D 12 6 0x655b59c3;
   OP FI D A B C 3 10 0x8f0ccc92;
   OP FI C D A B 10 15 0xffeff47d;
   OP FI B C D A 1 21 0x85845dd1;
   OP FI A B C D 8 6 0x6fa87e4f;
   OP FI D A B C 15 10 0xfe2ce6e0;
   OP FI C D A B 6 15 0xa3014314;
   OP FI B C D A 13 21 0x4e0811a1;
   OP FI A B C D 4 6 0xf7537e82;
   OP FI D A B C 11 10 0xbd3af235;
   OP FI C D A B 2 15 0x2ad7d2bb;
   OP FI B C D A 9 21 0xeb86d391].
End block.

(** The [k]-th little-endian word of a block. *)
Definition block_words (blk : list Z) : list Z :=
  map (fun k => le_dec (slice blk (4 * k) 4)) (seqZ 0 16).

(** One iteration of the loop of [md5_process_block]. *)
Definition md5_block (w : md5_words) (blk : list Z) : md5_words :=
  let r := foldl (fun w op => op w) w (md5_rounds (block_words blk)) in
  Md5Words (u32 (wA r + wA w)) (u32 (wB r + wB w)) (u32 (wC r + wC w)) (u32 (wD r + wD w)).

Definition md5_process_block (buf : list Z) (len : Z) (c : md5_ctx) : res md5_ctx :=
  process_block md5_block buf len c.

(** ** The interface *)

Definition md5_init_ctx (uninit : list Z) : md5_ctx :=
  Ctx (Md5Words 0x67452301 0xefcdab89 0x98badcfe 0x10325476) 0 0 0 uninit.

Definition md5_read_ctx (c : md5_ctx) : list Z :=
  let w := words c in
  le_enc 4 (wA w) ++ le_enc 4 (wB w) ++ le_enc 4 (wC w) ++ le_enc 4 (wD w).

Definition md5_finish_ctx (c : md5_ctx) : res (list Z) :=
  let bytes := buflen c in
  let t := count_rest (total0 c) (total1 c) bytes in
  let pad := if 56 <=? bytes then 64 + 56 - bytes else 56 - bytes in
  let? b := blit (buffer c) bytes (take (Z.to_nat pad) fillbuf) in
  let? b := blit b (bytes + pad) (le_enc 4 (bits_low t.1)) in
  let? b := blit b (bytes + pad + 4) (le_enc 4 (bits_high t.1 t.2)) in
  let? c := md5_process_block b (bytes + pad + 8) (Ctx (words c) t.1 t.2 bytes b) in
  Done (md5_read_ctx c).

(** The loop for buffers that are not word-aligned. *)
Fixpoint md5_unaligned (fuel : nat) (buf : list Z) (c : md5_ctx) : res (list Z * md5_ctx) :=
  match fuel with
  | O => Hang
  | S fuel =>
      if 64 <? Z.of_nat (length buf) then
        let? b := blit (buffer c) 0 (take 64 buf) in
        let? c := md5_process_block b 64 (Ctx (words c) (total0 c) (total1 c) (buflen c) b) in
        md5_unaligned fuel (drop 64 buf) c
      else Done (buf, c)
  end.

(** The bytes already waiting are completed first. *)
Definition md5_fill (buf : list Z) (c : md5_ctx) : res (list Z * md5_ctx) :=
  let len := Z.of_nat (length buf) in
  let left_over := buflen c in
  let add := if len <? 128 - left_over then len else 128 - left_over in
  let? b := blit (buffer c) left_over (take (Z.to_nat add) buf) in
  let c := Ctx (words c) (total0 c) (total1 c) (u32 (left_over + add)) b in
  let? c :=
    (if 64 <? left_over + add then
       let whole := Z.land (left_over + add) (Z.lnot 63) in
       let rest := Z.land (left_over + add) 63 in
       let? c := md5_process_block b whole c in
       let? b := blit b 0 (slice b whole rest) in
       Done (Ctx (words c) (total0 c) (total1 c) rest b)
     else Done c) in
  Done (drop (Z.to_nat add) buf, c).

(** [unaligned] is UNALIGNED_P of the buffer where its blocks start. *)
Definition md5_process_bytes (unaligned : bool) (buf : list Z) (c : md5_ctx) : res md5_ctx :=
  let? (buf, c) := (if buflen c =? 0 then Done (buf, c) else md5_fill buf c) in
  let len := Z.of_nat (length buf) in
  let? (buf, c) :=
    (if 64 <? len then
       if unaligned then md5_unaligned (S (length buf)) buf c
       else
         let whole := Z.land len (Z.lnot 63) in
         let? c := md5_process_block buf whole c in
         Done (drop (Z.to_nat whole) buf, c)
     else Done (buf, c)) in
  if 0 <? Z.of_nat (length buf) then
    let? b := blit (buffer c) 0 buf in
    Done (Ctx (words c) (total0 c) (total1 c) (Z.of_nat (length buf)) b)
  else Done c.

(** [uninit]: the context's buffer before the first use. *)
Definition md5_buffer (uninit : list Z) (unaligned : bool) (buf : list Z) : res (list Z) :=
  let? c := md5_process_bytes unaligned buf (md5_init_ctx uninit) in
  md5_finish_ctx c.

(** The loop over full blocks of a stream: the status 1, or the bytes of the
    last, partial block. *)
Section stream.
Context {S : Type} `{Stream S}.

Fixpoint md5_stream_loop (fuel : nat) (s : S) (c : md5_ctx) : res (Z + list Z * md5_ctx) :=
  match fuel with
  | O => Hang
  | Datatypes.S fuel =>
      let? (buf, n, s) := read_block (Datatypes.S (Z.to_nat BLOCKSIZE)) [] s in
      if (n =? 0) && ferror s then Done (inl 1)
      else if n =? 0 then Done (inr (buf, c))
      else
        let? c := md5_process_block buf BLOCKSIZE c in
        md5_stream_loop fuel s c
  end.

(** The status, and the digest when it is 0. *)
Definition md5_stream (uninit : list Z) (unaligned : bool) (fuel : nat) (s : S) : res (Z * list Z) :=
  let? r := md5_stream_loop fuel s (md5_init_ctx uninit) in
  match r with
  | inl e => Done (e, [])
  | inr (buf, c) =>
      let? c := (if 0 <? Z.of_nat (length buf) then md5_process_bytes unaligned buf c else Done c) in
      let? d := md5_finish_ctx c in
      Done (0, d)
  end.
End stream.

(** ** RFC 1321 *)

Definition rfc_F (x y z : Z) : Z := Z.lor (Z.land x y) (Z.land (Z.lnot x) z).
Definition rfc_G (x y z : Z) : Z := Z.lor (Z.land x z) (Z.land y (Z.lnot z)).
Definition rfc_H (x y z : Z) : Z := Z.lxor (Z.lxor x y) z.
Definition rfc_I (x y z : Z) : Z := Z.lxor y (Z.lor x (u32 (Z.lnot z))).

(** The table T of section 3.4. *)
Definition rfc_T : list Z :=
  [
   0xd76aa478; 0xe8c7b756; 0x242070db; 0xc1bdceee; 0xf57c0faf; 0x4787c62a; 0xa8304613; 0xfd469501;
   0x698098d8; 0x8b44f7af; 0xffff5bb1; 0x895cd7be; 0x6b901122; 0xfd987193; 0xa679438e; 0x49b40821;
   0xf61e2562; 0xc040b340; 0x265e5a51; 0xe9b6c7aa; 0xd62f105d; 0x02441453; 0xd8a1e681; 0xe7d3fbc8;
   0x21e1cde6; 0xc33707d6; 0xf4d50d87; 0x455a14ed; 0xa9e3e905; 0xfcefa3f8; 0x676f02d9; 0x8d2a4c8a;
   0xfffa3942; 0x8771f681; 0x6d9d6122; 0xfde5380c; 0xa4beea44; 0x4bdecfa9; 0xf6bb4b60; 0xbebfbc70;
   0x289b7ec6; 0xeaa127fa; 0xd4ef3085; 0x04881d05; 0xd9d4d039; 0xe6db99e5; 0x1fa27cf8; 0xc4ac5665;
   0xf4292244; 0x432aff97; 0xab9423a7; 0xfc93a039; 0x655b59c3; 0x8f0ccc92; 0xffeff47d; 0x85845dd1;
   0x6fa87e4f; 0xfe2ce6e0; 0xa3014314; 0x4e0811a1; 0xf7537e82; 0xbd3af235; 0x2ad7d2bb; 0xeb86d391].

Definition rfc_shift : list Z := [7; 12; 17; 22; 5; 9; 14; 20; 4; 11; 16; 23; 6; 10; 15; 21].

(** Step [i] of 64 on the rotating state [(a, b, c, d)]. *)
Definition rfc_step (x : list Z) (s : Z * Z * Z * Z) (i : nat) : Z * Z * Z * Z :=
  let '(a, b, c, d) := s in
  let '(f, k) :=
    match (i / 16)%nat with
    | 0%nat => (rfc_F, i)
    | 1%nat => (rfc_G, (5 * i + 1) mod 16)%nat
    | 2%nat => (rfc_H, (3 * i + 5) mod 16)%nat
    | _ => (rfc_I, (7 * i) mod 16)%nat
    end in
  let s := rfc_shift !!! (4 * (i / 16) + i mod 4)%nat in
  (d, step_value f a b c d (x !!! k) s (rfc_T !!! i), b, c).

Definition rfc_block (w : md5_words) (blk : list Z) : md5_words :=
  let '(a, b, c, d) := foldl (rfc_step (block_words blk)) (wA w, wB w, wC w, wD w) (seq 0 64) in
  Md5Words (u32 (a + wA w)) (u32 (b + wB w)) (u32 (c + wC w)) (u32 (d + wD w)).

Definition rfc_init : md5_words := Md5Words 0x67452301 0xefcdab89 0x98badcfe 0x10325476.

(** The digest of a message. *)
Definition rfc_md5 (msg : list Z) : list Z :=
  let w := digest_words rfc_block (le_enc 8) rfc_init msg in
  le_enc 4 (wA w) ++ le_enc 4 (wB w) ++ le_enc 4 (wC w) ++ le_enc 4 (wD w).

(** ** The rounds are RFC 1321's *)

Lemma FF_rfc b c d : FF b c d = rfc_F b c d.
Proof.
  apply Z.bits_inj'. intros i Hi. unfold FF, rfc_F.
  rewrite Z.lxor_spec, Z.lor_spec, !Z.land_spec, Z.lxor_spec, Z.lnot_spec by done.
  by destruct (Z.testbit b i), (Z.testbit c i), (Z.testbit d i).
Qed.

Lemma FG_rfc b c d : FG b c d = rfc_G b c d.
Proof.
  unfold FG. rewrite FF_rfc. unfold rfc_F, rfc_G.
  by rewrite (Z.land_comm d b), (Z.land_comm (Z.lnot d) c).
Qed.

Lemma step_value_ext f g a b c d x s T :
  f b c d = g b c d -> step_value f a b c d x s T = step_value g a b c d x s T.
Proof. unfold step_value. by intros ->. Qed.

Lemma step_tuple f g a b c d (p q r : Z) x s s' T T' :
  f b c d = g b c d -> s = s' -> T = T' ->
  (p, step_value f a b c d x s T, q, r) = (p, step_value g a b c d x s' T', q, r).
Proof. unfold step_value. by intros -> -> ->. Qed.

(** The chaining variables as the rotating state before step [i]. *)
Definition rotated (i : nat) (w : md5_words) : Z * Z * Z * Z :=
  match (i mod 4)%nat with
  | 0%nat => (wA w, wB w, wC w, wD w)
  | 1%nat => (wD w, wA w, wB w, wC w)
  | 2%nat => (wC w, wD w, wA w, wB w)
  | _ => (wB w, wC w, wD w, wA w)
  end.

Definition op_ok (x : list Z) (e : nat * (md5_words -> md5_words)) : Prop :=
  forall w, rotated (S e.1) (e.2 w) = rfc_step x (rotated e.1 w) e.1.

Lemma ops_ok x : Forall (op_ok x) (zip (seq 0 64) (md5_rounds x)).
Proof.
  unfold md5_rounds. cbn [seq zip zip_with].
  repeat first [apply Forall_nil_2 | apply Forall_cons_2].
  all: intros [a b c d]; unfold rfc_step, rotated, OP.
  all: cbn [Nat.modulo Nat.divmod fst snd Nat.sub Nat.div Nat.mul Nat.add rd upd wA wB wC wD].
  all: apply step_tuple; [first [apply FF_rfc | apply FG_rfc | reflexivity]|reflexivity..].
Qed.

Lemma rounds_run x n (ops : list (md5_words -> md5_words)) i w :
  length ops = n -> Forall (op_ok x) (zip (seq i n) ops) ->
  rotated (i + n) (foldl (fun w op => op w) w ops) = foldl (rfc_step x) (rotated i w) (seq i n).
Proof.
  revert ops i w. induction n as [|n IH]; intros [|op ops] i w Hl Ho; try done.
  - by rewrite Nat.add_0_r.
  - apply Forall_cons_1 in Ho as [H1 Ho]. cbn [seq foldl]. cbn in H1. specialize (H1 w). cbn in H1.
    rewrite <- H1, <- Nat.add_succ_comm. apply IH; [by injection Hl|exact Ho].
Qed.

Lemma rotated_0 w : rotated 0 w = (wA w, wB w, wC w, wD w).
Proof. done. Qed.

Lemma rotated_64 w : rotated (0 + 64) w = (wA w, wB w, wC w, wD w).
Proof. done. Qed.

Lemma rounds_rfc x w :
  let r := foldl (fun w op => op w) w (md5_rounds x) in
  foldl (rfc_step x) (wA w, wB w, wC w, wD w) (seq 0 64) = (wA r, wB r, wC r, wD r).
Proof.
  intros r. rewrite <- rotated_0, <- rotated_64. symmetry.
  apply rounds_run; [reflexivity|apply ops_ok].
Qed.

Lemma add_words_eq r w t :
  t = (wA r, wB r, wC r, wD r) ->
  Md5Words (u32 (wA r + wA w)) (u32 (wB r + wB w)) (u32 (wC r + wC w)) (u32 (wD r + wD w)) =
  (let '(a, b, c, d) := t in
   Md5Words (u32 (a + wA w)) (u32 (b + wB w)) (u32 (c + wC w)) (u32 (d + wD w))).
Proof. by intros ->. Qed.

Lemma md5_block_rfc w blk : md5_block w blk = rfc_block w blk.
Proof. exact (add_words_eq _ w _ (rounds_rfc (block_words blk) w)). Qed.

#[local] Strategy opaque [md5_block rfc_block].

(** ** Streaming *)

Abbreviation md5_absorbed := (absorbed md5_block rfc_init).

Lemma md5_init_absorbed uninit : length uninit = 128%nat -> md5_absorbed [] (md5_init_ctx uninit).
Proof. intros Hl. exists 0%nat. by split_and!. Qed.

Lemma md5_fill_eq buf c : md5_fill buf c = fill md5_block buf c.
Proof. reflexivity. Qed.

Lemma md5_unaligned_eq fuel buf c : md5_unaligned fuel buf c = unaligned md5_block fuel buf c.
Proof. reflexivity. Qed.

Lemma md5_process_bytes_ok un msg buf c :
  md5_absorbed msg c -> Z.of_nat (length buf) < 2 ^ 32 ->
  exists c', md5_process_bytes un buf c = Done c' /\ md5_absorbed (msg ++ buf) c'.
Proof.
  intros Ha Hlen. unfold md5_process_bytes.
  assert (H1 : exists k c1, (if buflen c =? 0 then Done (buf, c) else md5_fill buf c) = Done (drop k buf, c1) /\
      md5_absorbed (msg ++ take k buf) c1 /\ ((length buf <= k)%nat \/ buflen c1 = 0)).
  { destruct (Z.eqb_spec (buflen c) 0) as [E|_]; [|rewrite md5_fill_eq; by apply fill_ok].
    exists 0%nat, c. rewrite take_0, app_nil_r. by split_and!; [..|right]. }
  destruct H1 as (k & c1 & -> & Ha1 & Hk). cbn [rbind].
  set (buf1 := drop k buf) in *. assert (Hl1 : length buf1 = (length buf - k)%nat) by apply length_drop.
  assert (H2 : exists n c2, (if 64 <? Z.of_nat (length buf1) then
       if un then md5_unaligned (S (length buf1)) buf1 c1
       else
         let whole := Z.land (Z.of_nat (length buf1)) (Z.lnot 63) in
         let? c := md5_process_block buf1 whole c1 in
         Done (drop (Z.to_nat whole) buf1, c)
     else Done (buf1, c1)) = Done (drop n buf1, c2) /\
     md5_absorbed ((msg ++ take k buf) ++ take n buf1) c2 /\ (length buf1 <= n + 64)%nat /\
     ((length buf1 <= n)%nat \/ buflen c2 = 0)).
  { destruct (Z.ltb_spec 64 (Z.of_nat (length buf1))) as [Hl|Hl].
    - destruct Hk as [Hk|Hk]; [lia|]. destruct un.
      + rewrite md5_unaligned_eq. destruct (unaligned_ok md5_block rfc_init (S (length buf1)) _ buf1 c1 Ha1 Hk) as (n & c2 & ? & ? & ? & ?); [lia|].
        exists n, c2. by split_and!; [..|right].
      + rewrite land_not63 by lia. set (n := Z.to_nat (Z.of_nat (length buf1) / 64)).
        assert (Hn : 64 * (Z.of_nat (length buf1) / 64) = Z.of_nat (64 * n))
          by (unfold n; Z.div_mod_to_equations; lia).
        pose proof (absorbed_len _ _ _ _ Ha1) as [Hlb _].
        destruct (direct_ok md5_block rfc_init _ buf1 c1 n (buffer c1) _ Ha1 Hk Hlb Hn) as (c2 & E & Ha2 & Hb2);
          [Z.div_mod_to_equations; lia..|]. destruct c1 as [w t0 t1 bl bb]. cbn [words total0 total1 buflen buffer] in E.
        unfold md5_process_block. rewrite Hn in E |- *. cbv zeta. rewrite E. cbn [rbind]. exists (64 * n)%nat, c2.
        rewrite Nat2Z.id. split_and!; [done|done|unfold n; Z.div_mod_to_equations; lia|by right].
    - exists 0%nat, c1. rewrite take_0, app_nil_r. split_and!; [done..|lia|].
      destruct Hk as [Hk|Hk]; [left; lia|by right]. }
  destruct H2 as (n & c2 & E2 & Ha2 & Hn & Hk2). cbv zeta in E2 |- *. rewrite E2. cbn [rbind].
  assert (Hmsg : forall t, t = drop n buf1 -> ((msg ++ take k buf) ++ take n buf1) ++ t = msg ++ buf).
  { intros t ->. rewrite <- !app_assoc, take_drop. unfold buf1. by rewrite take_drop. }
  destruct (Z.ltb_spec 0 (Z.of_nat (length (drop n buf1)))) as [Hp|Hp].
  - destruct Hk2 as [Hk2|Hk2]; [rewrite length_drop in Hp; lia|].
    pose proof (absorbed_len _ _ _ _ Ha2) as [Hlb _].
    assert (Hld : (length (drop n buf1) <= 64)%nat) by (rewrite length_drop; lia).
    rewrite blit_run by lia. cbn [rbind]. eexists. split; [reflexivity|].
    pose proof (absorbed_store md5_block rfc_init _ c2 (drop n buf1) Ha2) as Hs.
    rewrite Hk2, (Hmsg _ eq_refl) in Hs. apply Hs. lia.
  - exists c2. split; [done|]. rewrite <- (Hmsg [] ); [by rewrite app_nil_r|].
    symmetry. apply nil_length_inv. lia.
Qed.

Lemma md5_finish_ok msg c :
  md5_absorbed msg c -> md5_finish_ctx c = Done (rfc_md5 msg).
Proof.
  intros Ha. pose proof (absorbed_len _ _ _ _ Ha) as [Hlb Hb].
  destruct (absorbed_finish md5_block rfc_init (le_enc 8) msg c (length_le_enc 8) Ha)
    as (Hr & Hlp & Hw & T1 & T2 & Hbits).
  set (t := count_rest (total0 c) (total1 c) (buflen c)) in *.
  destruct (bits_range t.1 t.2 T1 T2) as (B1 & B2 & _).
  assert (Henc : le_enc 4 (bits_low t.1) ++ le_enc 4 (bits_high t.1 t.2) =
                 le_enc 8 (8 * Z.of_nat (length msg) mod 2 ^ 64)).
  { rewrite <- Hbits, le_enc_split. f_equal; f_equal; Z.div_mod_to_equations; lia. }
  assert (Hpad : (if 56 <=? buflen c then 64 + 56 - buflen c else 56 - buflen c) = pad_len (buflen c)).
  { unfold pad_len. destruct (Z.leb_spec 56 (buflen c)), (Z.ltb_spec (buflen c) 56); lia. }
  unfold md5_finish_ctx. fold t. rewrite Hpad. clear Hpad.
  set (rest := take (Z.to_nat (buflen c)) (buffer c)) in *.
  assert (Hpl : 0 < pad_len (buflen c) <= 64 /\ buflen c + pad_len (buflen c) <= 120).
  { unfold pad_len. destruct (Z.ltb_spec (buflen c) 56); lia. }
  set (pad := pad_len (buflen c)) in *.
  set (fill := take (Z.to_nat pad) fillbuf).
  assert (Hfill : Z.of_nat (length fill) = pad).
  { unfold fill. rewrite length_take. unfold fillbuf. cbn [length]. rewrite length_replicate. lia. }
  destruct (blit_grow (buffer c) rest fill (buflen c)) as (b1 & -> & G1 & L1); [done|by f_equal; lia|lia|].
  cbn [rbind]. destruct (blit_grow b1 (rest ++ fill) (le_enc 4 (bits_low t.1)) (buflen c + pad))
    as (b2 & -> & G2 & L2); [rewrite length_app; lia|done|rewrite length_app, length_le_enc; lia|].
  cbn [rbind]. destruct (blit_grow b2 ((rest ++ fill) ++ le_enc 4 (bits_low t.1)) (le_enc 4 (bits_high t.1 t.2))
    (buflen c + pad + 4)) as (b3 & -> & G3 & L3);
    [rewrite !length_app, length_le_enc; lia|done|rewrite !length_app, !length_le_enc; lia|].
  cbn [rbind]. rewrite <- !app_assoc, Henc in G3.
  assert (Hp : rest ++ fill ++ le_enc 8 (8 * Z.of_nat (length msg) mod 2 ^ 64) = last_blocks (le_enc 8) msg rest).
  { unfold last_blocks. by rewrite Hr. }
  rewrite Hp in G3. set (p := last_blocks _ _ _) in *.
  assert (Hlen : Z.of_nat (length p) = buflen c + pad + 8).
  { rewrite <- Hp, !length_app, length_le_enc. lia. }
  unfold md5_process_block. rewrite (process_block_run _ (length p / 64)) by lia.
  cbn [rbind words]. unfold md5_read_ctx, rfc_md5. cbn [words].
  rewrite <- (absorb_prefix md5_block _ (length p)), G3, Hw by lia. unfold digest_words.
  by rewrite !(absorb_ext md5_block rfc_block _ _ _ md5_block_rfc).
Qed.

(** ** Streams *)

Section streams.
Context {S : Type} `{StreamOk S}.

Lemma md5_stream_loop_ok fuel (s : S) msg c :
  md5_absorbed msg c -> buflen c = 0 -> Z.of_nat (length (left_in s)) < BLOCKSIZE * Z.of_nat fuel ->
  exists r, md5_stream_loop fuel s c = Done r /\
    match r with
    | inl e => e = 1 /\ exists s', ferror s' = true
    | inr (buf, c') => exists done, md5_absorbed (msg ++ done) c' /\ done ++ buf = left_in s /\
        Z.of_nat (length buf) < BLOCKSIZE
    end.
Proof.
  revert s msg c. induction fuel as [|fuel IH]; intros s msg c Ha Hb Hf; [lia|].
  cbn [md5_stream_loop].
  destruct (read_block_ok (Datatypes.S (Z.to_nat BLOCKSIZE)) [] s) as (bs & n & s' & -> & Hl & Hn);
    [done|unfold BLOCKSIZE; cbn [length]; lia|]. cbn [rbind app] in *.
  destruct Hn as [(Hn & Hlen)|(-> & Hlen & He)].
  - destruct (Z.eqb_spec n 0) as [|_]; [done|]. cbn [andb]. unfold BLOCKSIZE in *.
    pose proof (absorbed_len _ _ _ _ Ha) as [Hlb _].
    destruct (direct_ok md5_block rfc_init msg bs c 64 (buffer c) 4096 Ha Hb Hlb) as (c1 & E & Ha1 & Hb1);
      [done|done|lia|]. destruct c as [w t0 t1 bl bb]. cbn [words total0 total1 buflen buffer] in E.
    unfold md5_process_block. rewrite E. cbn [rbind]. rewrite take_ge in Ha1 by lia.
    destruct (IH s' _ c1 Ha1 Hb1) as (r & Er & Hr); [rewrite Hl, length_app in Hf; lia|].
    exists r. split; [done|]. destruct r as [e|[buf c']]; [done|].
    destruct Hr as (dn & A1 & A2 & A3). exists (bs ++ dn). rewrite app_assoc, Hl, <- A2, app_assoc.
    by split_and!.
  - cbn [andb Z.eqb]. destruct (ferror s') eqn:Ef.
    + eexists. split; [done|]. by split; [|exists s'].
    + eexists. split; [done|]. exists []. rewrite app_nil_r, Hl, He, app_nil_r by done. by split_and!.
Qed.

Lemma md5_stream_ok uninit un fuel (s : S) :
  length uninit = 128%nat -> Z.of_nat (length (left_in s)) < BLOCKSIZE * Z.of_nat fuel ->
  md5_stream uninit un fuel s = Done (0, rfc_md5 (left_in s)) \/
  (md5_stream uninit un fuel s = Done (1, []) /\ exists s' : S, ferror s' = true).
Proof.
  intros Hu Hf. unfold md5_stream.
  destruct (md5_stream_loop_ok fuel s [] (md5_init_ctx uninit) (md5_init_absorbed _ Hu) eq_refl Hf)
    as (r & -> & Hr). cbn [rbind]. destruct r as [e|[buf c]].
  - destruct Hr as [-> He]. by right.
  - destruct Hr as (dn & Ha & Hl & Hb). left. cbn [app] in Ha.
    assert (Hc : exists c', (if 0 <? Z.of_nat (length buf) then md5_process_bytes un buf c else Done c) = Done c'
      /\ md5_absorbed (dn ++ buf) c').
    { destruct (Z.ltb_spec 0 (Z.of_nat (length buf))).
      - apply md5_process_bytes_ok; [done|unfold BLOCKSIZE in *; lia].
      - exists c. assert (buf = []) as -> by (apply nil_length_inv; lia). by rewrite app_nil_r. }
    destruct Hc as (c' & -> & Ha'). cbn [rbind]. by rewrite (md5_finish_ok _ _ Ha'), Hl.
Qed.
End streams.

(** ** Properties *)

(** Successive calls of [md5_process_bytes], each with its alignment. *)
Fixpoint md5_update_all (chunks : list (bool * list Z)) (c : md5_ctx) : res md5_ctx :=
  match chunks with
  | [] => Done c
  | (un, buf) :: chunks => let? c := md5_process_bytes un buf c in md5_update_all chunks c
  end.

Lemma md5_update_all_ok chunks msg c :
  Forall (fun x => Z.of_nat (length x.2) < 2 ^ 32) chunks -> md5_absorbed msg c ->
  exists c', md5_update_all chunks c = Done c' /\ md5_absorbed (msg ++ concat (map snd chunks)) c'.
Proof.
  intros Hc. revert msg c. induction Hc as [|[un buf] chunks Hl Hc IH]; intros msg c Ha.
  - exists c. by rewrite app_nil_r.
  - cbn [md5_update_all map concat snd]. destruct (md5_process_bytes_ok un msg buf c Ha Hl) as (c1 & -> & Ha1).
    cbn [rbind]. destruct (IH _ _ Ha1) as (c2 & -> & Ha2). exists c2. by rewrite app_assoc.
Qed.

(** C13: Hashing a message in any pieces of less than 4 GiB, at any alignment,
    over any initial buffer contents, stays inside the context's buffer and
    gives the RFC 1321 digest of their concatenation. *)
Theorem md5_incremental uninit chunks :
  length uninit = 128%nat -> Forall (fun x => Z.of_nat (length x.2) < 2 ^ 32) chunks ->
  (let? c := md5_update_all chunks (md5_init_ctx uninit) in md5_finish_ctx c) =
  Done (rfc_md5 (concat (map snd chunks))).
Proof.
  intros Hu Hc. destruct (md5_update_all_ok chunks [] _ Hc (md5_init_absorbed _ Hu)) as (c & -> & Ha).
  cbn [rbind]. by rewrite (md5_finish_ok _ _ Ha).
Qed.

(** The unrolled, register-renamed rounds of [md5_process_block] compute the
    64-step loop of RFC 1321, on every input. *)
Theorem md5_process_block_rfc1321 buf len c :
  md5_process_block buf len c = process_block rfc_block buf len c.
Proof. apply process_block_ext, md5_block_rfc. Qed.

(** [md5_stream] terminates on any stream that delivers its content in
    pieces of any size: it returns 0 and the digest of the whole content, or 1
    if the stream reports an error. *)
Theorem md5_stream_digest {S} `{StreamOk S} uninit un fuel (s : S) :
  length uninit = 128%nat -> Z.of_nat (length (left_in s)) < BLOCKSIZE * Z.of_nat fuel ->
  md5_stream uninit un fuel s = Done (0, rfc_md5 (left_in s)) \/
  (md5_stream uninit un fuel s = Done (1, []) /\ exists s' : S, ferror s' = true).
Proof. apply md5_stream_ok. Qed.

(** A call of [md5_process_block] with 4 GiB or more miscounts: the length
    recorded in the context, and so the padding of the digest, is 2^32 bytes too
    large. *)
Theorem md5_miscounts_4gib uninit buf len c :
  2 ^ 32 <= len < 2 ^ 63 -> md5_process_block buf len (md5_init_ctx uninit) = Done c ->
  total0 c + 2 ^ 32 * total1 c = len + 2 ^ 32.
Proof.
  intros Hl. unfold md5_process_block, process_block. cbn [total0 total1 words md5_init_ctx].
  destruct (compress_loop _ _ _ _) as [w| |]; [|done..]. intros [= <-]. cbn [total0 total1].
  by apply add_total_large.
Qed.

(** ** Witnesses *)

Definition abc : list Z := [97; 98; 99].

Lemma md5_incremental_witness :
  (let? c := md5_update_all [(true, [97]); (false, [98; 99])] (md5_init_ctx (replicate 128 7)) in
   md5_finish_ctx c) =
  Done [144; 1; 80; 152; 60; 210; 79; 176; 214; 150; 63; 125; 40; 225; 127; 114].
Proof.
  rewrite (md5_incremental (replicate 128 7) [(true, [97]); (false, [98; 99])]).
  - by vm_compute.
  - done.
  - by repeat constructor.
Defined.

(** A string delivered byte by byte. *)
Definition one_by_one : Stream (list Z) := {|
  fread _ s := (take 1 s, drop 1 s);
  ferror _ := false
|}.

Definition one_by_one_ok : @StreamOk (list Z) one_by_one.
Proof.
  refine {| left_in s := s |}. intros n s Hn. cbn. rewrite take_drop. split_and!; [done| |].
  - rewrite length_take. lia.
  - by destruct s.
Defined.

Lemma md5_stream_digest_witness :
  @md5_stream (list Z) one_by_one (replicate 128 7) false 1 abc = Done (0, rfc_md5 abc).
Proof.
  destruct (@md5_stream_digest (list Z) one_by_one one_by_one_ok (replicate 128 7) false 1 abc)
    as [E|(_ & s & Hs)]; [done|by vm_compute|exact E|discriminate].
Defined.

Lemma md5_miscounts_4gib_witness :
  exists c, md5_process_block (replicate (64 * Z.to_nat (2 ^ 26)) 0) (2 ^ 32) (md5_init_ctx []) = Done c /\
    total0 c + 2 ^ 32 * total1 c = 2 ^ 33.
Proof.
  assert (E : exists c, md5_process_block (replicate (64 * Z.to_nat (2 ^ 26)) 0) (2 ^ 32) (md5_init_ctx []) = Done c).
  { eexists. apply (process_block_run _ (Z.to_nat (2 ^ 26))); [lia|]. by rewrite length_replicate. }
  destruct E as [c E]. exists c. split; [exact E|].
  exact (md5_miscounts_4gib [] _ (2 ^ 32) c ltac:(lia) E).
Defined.
