(* ===== verification/Sha1.v ===== *)
(** SHA-1, [libiberty/sha1.c] and [include/sha1.h]: the streaming interface and
    the unrolled rounds over a 16-word circular schedule, against the digest of
    FIPS 180 written with the full 80-word schedule.  The path through the
    processor's SHA instructions is in [Sha1hw]. *)
From S2P Require Import Prelude Bytes Digest.

(** ** State and rounds *)

Record sha1_words := Sha1Words { hA : Z; hB : Z; hC : Z; hD : Z; hE : Z }.

(** [struct sha1_ctx], its word buffer as bytes. *)
Abbreviation sha1_ctx := (ctx sha1_words).

Definition K1 : Z := 0x5a827999.
Definition K2 : Z := 0x6ed9eba1.
Definition K3 : Z := 0x8f1bbcdc.
Definition K4 : Z := 0xca62c1d6.

Definition F1 (b c d : Z) : Z := Z.lxor d (Z.land b (Z.lxor c d)).
Definition F2 (b c d : Z) : Z := Z.lxor (Z.lxor b c) d.
Definition F3 (b c d : Z) : Z := Z.lor (Z.land b c) (Z.land d (Z.lor b c)).
Definition F4 (b c d : Z) : Z := Z.lxor (Z.lxor b c) d.

Inductive reg := A | B | C | D | E.

Definition rd (r : reg) (w : sha1_words) : Z :=
  match r with A => hA w | B => hB w | C => hC w | D => hD w | E => hE w end.

Definition upd (r : reg) (v : Z) (w : sha1_words) : sha1_words :=
  match r with
  | A => Sha1Words v (hB w) (hC w) (hD w) (hE w)
  | B => Sha1Words (hA w) v (hC w) (hD w) (hE w)
  | C => Sha1Words (hA w) (hB w) v (hD w) (hE w)
  | D => Sha1Words (hA w) (hB w) (hC w) v (hE w)
  | E => Sha1Words (hA w) (hB w) (hC w) (hD w) v
  end.

(** The working variables and the array [x]. *)
Definition rstate : Type := sha1_words * list Z.

(** [rol (n)] on a 32-bit word. *)
Abbreviation rotl x n := (Digest.rol x n).

(** [x[i]], and the macro [M (i)], which also updates the array. *)
Definition X (i : nat) (x : list Z) : Z * list Z := (x !!! i, x).

Definition M (i : nat) (x : list Z) : Z * list Z :=
  let at_ k := x !!! (k mod 16)%nat in
  let tm := Z.lxor (Z.lxor (Z.lxor (at_ i) (at_ (i - 14)%nat)) (at_ (i - 8)%nat)) (at_ (i - 3)%nat) in
  (rotl tm 1, <[(i mod 16)%nat := rotl tm 1]> x).

(** [E += rol (A, 5) + F (B, C, D) + K + M; B = rol (B, 30);] *)
Definition R (a b c d e : reg) (f : Z -> Z -> Z -> Z) (k : Z) (m : list Z -> Z * list Z)
    (s : rstate) : rstate :=
  let '(w, x) := s in
  let '(v, x) := m x in
  let w := upd e (u32 (rd e w + (rotl (rd a w) 5 + f (rd b w) (rd c w) (rd d w) + k + v))) w in
  (upd b (rotl (rd b w) 30) w, x).

(** The 80 operations of one block. *)
Definition sha1_rounds : list (rstate -> rstate) :=
  [
   R A B C D E F1 K1 (X 0);
   R E A B C D F1 K1 (X 1);
   R D E A B C F1 K1 (X 2);
   R C D E A B F1 K1 (X 3);
   R B C D E A F1 K1 (X 4);
   R A B C D E F1 K1 (X 5);
   R E A B C D F1 K1 (X 6);
   R D E A B C F1 K1 (X 7);
   R C D E A B F1 K1 (X 8);
   R B C D E A F1 K1 (X 9);
   R A B C D E F1 K1 (X 10);
   R E A B C D F1 K1 (X 11);
   R D E A B C F1 K1 (X 12);
   R C D E A B F1 K1 (X 13);
   R B C D E A F1 K1 (X 14);
   R A B C D E F1 K1 (X 15);
   R E A B C D F1 K1 (M 16);
   R D E A B C F1 K1 (M 17);
   R C D E A B F1 K1 (M 18);
   R B C D E A F1 K1 (M 19);
   R A B C D E F2 K2 (M 20);
   R E A B C D F2 K2 (M 21);
   R D E A B C F2 K2 (M 22);
   R C D E A B F2 K2 (M 23);
   R B C D E A F2 K2 (M 24);
   R A B C D E F2 K2 (M 25);
   R E A B C D F2 K2 (M 26);
   R D E A B C F2 K2 (M 27);
   R C D E A B F2 K2 (M 28);
   R B C D E A F2 K2 (M 29);
   R A B C D E F2 K2 (M 30);
   R E A B C D F2 K2 (M 31);
   R D E A B C F2 K2 (M 32);
   R C D E A B F2 K2 (M 33);
   R B C D E A F2 K2 (M 34);
   R A B C D E F2 K2 (M 35);
   R E A B C D F2 K2 (M 36);
   R D E A B C F2 K2 (M 37);
   R C D E A B F2 K2 (M 38);
   R B C D E A F2 K2 (M 39);
   R A B C D E F3 K3 (M 40);
   R E A B C D F3 K3 (M 41);
   R D E A B C F3 K3 (M 42);
   R C D E A B F3 K3 (M 43);
   R B C D E A F3 K3 (M 44);
   R A B C D E F3 K3 (M 45);
   R E A B C D F3 K3 (M 46);
   R D E A B C F3 K3 (M 47);
   R C D E A B F3 K3 (M 48);
   R B C D E A F3 K3 (M 49);
   R A B C D E F3 K3 (M 50);
   R E A B C D F3 K3 (M 51);
   R D E A B C F3 K3 (M 52);
   R C D E A B F3 K3 (M 53);
   R B C D E A F3 K3 (M 54);
   R A B C D E F3 K3 (M 55);
   R E A B C D F3 K3 (M 56);
   R D E A B C F3 K3 (M 57);
   R C D E A B F3 K3 (M 58);
   R B C D E A F3 K3 (M 59);
   R A B C D E F4 K4 (M 60);
   R E A B C D F4 K4 (M 61);
   R D E A B C F4 K4 (M 62);
   R C D E A B F4 K4 (M 63);
   R B C D E A F4 K4 (M 64);
   R A B C D E F4 K4 (M 65);
   R E A B C D F4 K4 (M 66);
   R D E A B C F4 K4 (M 67);
   R C D E A B F4 K4 (M 68);
   R B C D E A F4 K4 (M 69);
   R A B C D E F4 K4 (M 70);
   R E A B C D F4 K4 (M 71);
   R D E A B C F4 K4 (M 72);
   R C D E A B F4 K4 (M 73);
   R B C D E A F4 K4 (M 74);
   R A B C D E F4 K4 (M 75);
   R E A B C D F4 K4 (M 76);
   R D E A B C F4 K4 (M 77);
   R C D E A B F4 K4 (M 78);
   R B C D E A F4 K4 (M 79)].

(** [SWAP] on a little-endian host. *)
Definition SWAP (n : Z) : Z :=
  Z.lor (Z.lor (Z.lor (u32 (Z.shiftl n 24)) (Z.shiftl (Z.land n 0xff00) 8))
    (Z.land (Z.shiftr n 8) 0xff00)) (Z.shiftr n 24).

(** The words of a block, byte-swapped. *)
Definition swapped_words (blk : list Z) : list Z :=
  map (fun k => SWAP (le_dec (slice blk (4 * k) 4))) (seqZ 0 16).

(** One iteration of the loop of [sha1_process_block]. *)
Definition sha1_block (w : sha1_words) (blk : list Z) : sha1_words :=
  let r := (foldl (fun s op => op s) (w, swapped_words blk) sha1_rounds).1 in
  Sha1Words (u32 (hA w + hA r)) (u32 (hB w + hB r)) (u32 (hC w + hC r)) (u32 (hD w + hD r))
    (u32 (hE w + hE r)).

Definition sha1_process_block (buf : list Z) (len : Z) (c : sha1_ctx) : res sha1_ctx :=
  process_block sha1_block buf len c.

(** ** The interface *)

Definition sha1_init_ctx (uninit : list Z) : sha1_ctx :=
  Ctx (Sha1Words 0x67452301 0xefcdab89 0x98badcfe 0x10325476 0xc3d2e1f0) 0 0 0 uninit.

Definition sha1_read_ctx (c : sha1_ctx) : list Z :=
  let w := words c in
  le_enc 4 (SWAP (hA w)) ++ le_enc 4 (SWAP (hB w)) ++ le_enc 4 (SWAP (hC w)) ++
  le_enc 4 (SWAP (hD w)) ++ le_enc 4 (SWAP (hE w)).

Definition sha1_finish_ctx (c : sha1_ctx) : res (list Z) :=
  let bytes := buflen c in
  let size := if bytes <? 56 then 64 / 4 else 64 * 2 / 4 in
  let t := count_rest (total0 c) (total1 c) bytes in
  let? b := blit (buffer c) (4 * (size - 2)) (le_enc 4 (SWAP (bits_high t.1 t.2))) in
  let? b := blit b (4 * (size - 1)) (le_enc 4 (SWAP (bits_low t.1))) in
  let? b := blit b bytes (take (Z.to_nat ((size - 2) * 4 - bytes)) fillbuf) in
  let? c := sha1_process_block b (size * 4) (Ctx (words c) t.1 t.2 bytes b) in
  Done (sha1_read_ctx c).

(** The loop for buffers that are not word-aligned. *)
Fixpoint sha1_unaligned (fuel : nat) (buf : list Z) (c : sha1_ctx) : res (list Z * sha1_ctx) :=
  match fuel with
  | O => Hang
  | S fuel =>
      if 64 <? Z.of_nat (length buf) then
        let? b := blit (buffer c) 0 (take 64 buf) in
        let? c := sha1_process_block b 64 (Ctx (words c) (total0 c) (total1 c) (buflen c) b) in
        sha1_unaligned fuel (drop 64 buf) c
      else Done (buf, c)
  end.

(** The bytes already waiting are completed first. *)
Definition sha1_fill (buf : list Z) (c : sha1_ctx) : res (list Z * sha1_ctx) :=
  let len := Z.of_nat (length buf) in
  let left_over := buflen c in
  let add := if len <? 128 - left_over then len else 128 - left_over in
  let? b := blit (buffer c) left_over (take (Z.to_nat add) buf) in
  let c := Ctx (words c) (total0 c) (total1 c) (u32 (left_over + add)) b in
  let? c :=
    (if 64 <? buflen c then
       let? c := sha1_process_block b (Z.land (buflen c) (Z.lnot 63)) c in
       let rest := Z.land (buflen c) 63 in
       let? b := blit b 0 (slice b (Z.land (left_over + add) (Z.lnot 63)) rest) in
       Done (Ctx (words c) (total0 c) (total1 c) rest b)
     else Done c) in
  Done (drop (Z.to_nat add) buf, c).

(** The bytes that remain join the buffer, which may complete a block. *)
Definition sha1_keep (buf : list Z) (c : sha1_ctx) : res sha1_ctx :=
  let left_over := buflen c in
  let? b := blit (buffer c) left_over buf in
  let left_over := left_over + Z.of_nat (length buf) in
  let c := Ctx (words c) (total0 c) (total1 c) (buflen c) b in
  if 64 <=? left_over then
    let? c := sha1_process_block b 64 c in
    let left_over := left_over - 64 in
    let? b := blit b 0 (slice b 64 left_over) in
    Done (Ctx (words c) (total0 c) (total1 c) left_over b)
  else Done (Ctx (words c) (total0 c) (total1 c) left_over b).

(** [unaligned] is UNALIGNED_P of the buffer where its blocks start. *)
Definition sha1_process_bytes (unaligned : bool) (buf : list Z) (c : sha1_ctx) : res sha1_ctx :=
  let? (buf, c) := (if buflen c =? 0 then Done (buf, c) else sha1_fill buf c) in
  let len := Z.of_nat (length buf) in
  let? (buf, c) :=
    (if 64 <=? len then
       if unaligned then sha1_unaligned (S (length buf)) buf c
       else
         let whole := Z.land len (Z.lnot 63) in
         let? c := sha1_process_block buf whole c in
         Done (drop (Z.to_nat whole) buf, c)
     else Done (buf, c)) in
  if 0 <? Z.of_nat (length buf) then sha1_keep buf c else Done c.

(** [uninit]: the context's buffer before the first use. *)
Definition sha1_buffer (uninit : list Z) (unaligned : bool) (buf : list Z) : res (list Z) :=
  let? c := sha1_process_bytes unaligned buf (sha1_init_ctx uninit) in
  sha1_finish_ctx c.

(** How the inner loop of [sha1_stream] ends: a full block, the
    [process_partial_block] label, or [return 1]. *)
Section stream.
Context {S : Type} `{EofStream S}.

Inductive filled := Full (buf : list Z) (s : S) | Partial (buf : list Z) | ReadError.

Fixpoint sha1_read (fuel : nat) (buf : list Z) (s : S) : res filled :=
  match fuel with
  | O => Hang
  | Datatypes.S fuel =>
      let '(bs, s) := fread (BLOCKSIZE - Z.of_nat (length buf)) s in
      let buf := buf ++ bs in
      if Z.of_nat (length buf) =? BLOCKSIZE then Done (Full buf s)
      else if Z.of_nat (length bs) =? 0 then
        if ferror s then Done ReadError else Done (Partial buf)
      else if feof s then Done (Partial buf)
      else sha1_read fuel buf s
  end.

Fixpoint sha1_stream_loop (fuel : nat) (s : S) (c : sha1_ctx) : res (Z + list Z * sha1_ctx) :=
  match fuel with
  | O => Hang
  | Datatypes.S fuel =>
      let? r := sha1_read (Datatypes.S (Z.to_nat BLOCKSIZE)) [] s in
      match r with
      | ReadError => Done (inl 1)
      | Partial buf => Done (inr (buf, c))
      | Full buf s =>
          let? c := sha1_process_block buf BLOCKSIZE c in
          sha1_stream_loop fuel s c
      end
  end.

(** The status, and the digest when it is 0. *)
Definition sha1_stream (uninit : list Z) (unaligned : bool) (fuel : nat) (s : S) : res (Z * list Z) :=
  let? r := sha1_stream_loop fuel s (sha1_init_ctx uninit) in
  match r with
  | inl e => Done (e, [])
  | inr (buf, c) =>
      let? c := (if 0 <? Z.of_nat (length buf) then sha1_process_bytes unaligned buf c else Done c) in
      let? d := sha1_finish_ctx c in
      Done (0, d)
  end.
End stream.
Arguments filled S : clear implicits.
Arguments Full {S} buf s.
Arguments Partial {S} buf.
Arguments ReadError {S}.

(** ** FIPS 180 *)

(** Big-endian words. *)
Definition be_enc (n : nat) (v : Z) : list Z := rev (le_enc n v).
Definition be_dec (bs : list Z) : Z := le_dec (rev bs).

Definition Ch (x y z : Z) : Z := Z.lor (Z.land x y) (Z.land (Z.lnot x) z).
Definition Parity (x y z : Z) : Z := Z.lxor (Z.lxor x y) z.
Definition Maj (x y z : Z) : Z :=
  Z.lxor (Z.lxor (Z.land x y) (Z.land x z)) (Z.land y z).

Definition fips_words (blk : list Z) : list Z :=
  map (fun k => be_dec (slice blk (4 * k) 4)) (seqZ 0 16).

(** The schedule: the [t]-th word from the 16 before it. *)
Fixpoint schedule (n : nat) (w : list Z) : list Z :=
  match n with
  | O => w
  | S n =>
      let w := schedule n w in
      let t := length w in
      w ++ [rotl (Z.lxor (Z.lxor (Z.lxor (w !!! (t - 3)%nat) (w !!! (t - 8)%nat))
                            (w !!! (t - 14)%nat)) (w !!! (t - 16)%nat)) 1]
  end.

(** Step [t] on the working variables. *)
Definition fips_step (W : list Z) (s : sha1_words) (t : nat) : sha1_words :=
  let '(f, k) :=
    match (t / 20)%nat with
    | 0%nat => (Ch, K1)
    | 1%nat => (Parity, K2)
    | 2%nat => (Maj, K3)
    | _ => (Parity, K4)
    end in
  let T := u32 (hE s + (rotl (hA s) 5 + f (hB s) (hC s) (hD s) + k + W !!! t)) in
  Sha1Words T (hA s) (rotl (hB s) 30) (hC s) (hD s).

Definition fips_block (w : sha1_words) (blk : list Z) : sha1_words :=
  let r := foldl (fips_step (schedule 64 (fips_words blk))) w (seq 0 80) in
  Sha1Words (u32 (hA w + hA r)) (u32 (hB w + hB r)) (u32 (hC w + hC r)) (u32 (hD w + hD r))
    (u32 (hE w + hE r)).

Definition fips_init : sha1_words :=
  Sha1Words 0x67452301 0xefcdab89 0x98badcfe 0x10325476 0xc3d2e1f0.

Definition fips_sha1 (msg : list Z) : list Z :=
  let w := digest_words fips_block (be_enc 8) fips_init msg in
  be_enc 4 (hA w) ++ be_enc 4 (hB w) ++ be_enc 4 (hC w) ++ be_enc 4 (hD w) ++ be_enc 4 (hE w).

(** ** Byte order *)

Lemma land_ff00 v : Z.land v 0xff00 = v / 2 ^ 8 mod 2 ^ 8 * 2 ^ 8.
Proof.
  change 0xff00 with (Z.shiftl (Z.ones 8) 8).
  rewrite <- Z.shiftl_mul_pow2, <- Z.shiftr_div_pow2, <- Z.land_ones by lia.
  apply Z.bits_inj'. intros i Hi. rewrite Z.land_spec. destruct (decide (i < 8)).
  - by rewrite !Z.shiftl_spec_low, andb_false_r by lia.
  - rewrite !Z.shiftl_spec by lia. rewrite Z.land_spec, Z.shiftr_spec by lia. do 2 f_equal. lia.
Qed.

Lemma SWAP_value v : 0 <= v < 2 ^ 32 ->
  SWAP v = v mod 2 ^ 8 * 2 ^ 24 + v / 2 ^ 8 mod 2 ^ 8 * 2 ^ 16 + v / 2 ^ 16 mod 2 ^ 8 * 2 ^ 8 + v / 2 ^ 24.
Proof.
  intros Hv. unfold SWAP. rewrite !land_ff00. rewrite !Z.shiftr_div_pow2, Z.div_div by lia.
  rewrite !Z.shiftl_mul_pow2 by lia. unfold wrap.
  set (b1 := v / 2 ^ 8 mod 2 ^ 8). set (b2 := v / (2 ^ 8 * 2 ^ 8) mod 2 ^ 8).
  assert (H0 : v * 2 ^ 24 mod 2 ^ 32 = v mod 2 ^ 8 * 2 ^ 24) by (Z.div_mod_to_equations; lia).
  rewrite H0.
  assert (H1 : 0 <= b1 < 2 ^ 8) by (apply Z.mod_pos_bound; lia).
  assert (H2 : 0 <= b2 < 2 ^ 8) by (apply Z.mod_pos_bound; lia).
  assert (H3 : 0 <= v / 2 ^ 24 < 2 ^ 8) by (Z.div_mod_to_equations; lia).
  replace (v / 2 ^ 16 mod 2 ^ 8) with b2 by done.
  clearbody b1 b2. set (b0 := v mod 2 ^ 8). set (b3 := v / 2 ^ 24) in *. clearbody b0 b3.
  rewrite (lor_disj (b0 * 2 ^ 24) _ 24) by (try lia; apply Z.mod_mul; lia).
  rewrite (lor_disj _ (b2 * 2 ^ 8) 16) by (try lia; Z.div_mod_to_equations; lia).
  rewrite (lor_disj _ b3 8) by (try lia; Z.div_mod_to_equations; lia). lia.
Qed.

Lemma bytes_of_4 v : le_enc 4 v =
  [v mod 2 ^ 8; v / 2 ^ 8 mod 2 ^ 8; v / 2 ^ 16 mod 2 ^ 8; v / 2 ^ 24 mod 2 ^ 8].
Proof. cbn [le_enc]. change 256 with (2 ^ 8). by rewrite !Z.div_div by lia. Qed.

Lemma SWAP_enc v : 0 <= v < 2 ^ 32 -> le_enc 4 (SWAP v) = be_enc 4 v.
Proof.
  intros Hv. unfold be_enc. rewrite (SWAP_value v), !bytes_of_4 by done. cbn [rev app].
  f_equal; [|f_equal; [|f_equal; [|f_equal]]]; Z.div_mod_to_equations; lia.
Qed.

Lemma SWAP_dec bs : length bs = 4%nat -> Forall is_byte bs -> SWAP (le_dec bs) = be_dec bs.
Proof.
  intros Hl Hb. pose proof (le_dec_bound bs Hb) as Hr. rewrite Hl in Hr.
  change (256 ^ Z.of_nat 4) with (2 ^ 32) in Hr. rewrite SWAP_value by done.
  destruct bs as [|b0 [|b1 [|b2 [|b3 [|]]]]]; try done.
  unfold be_dec. cbn [le_dec rev app] in *. rewrite !Forall_cons in Hb. unfold is_byte in Hb.
  destruct Hb as (H0 & H1 & H2 & H3 & _). Z.div_mod_to_equations. lia.
Qed.

(** ** The rounds are FIPS 180's *)

Lemma F1_Ch b c d : F1 b c d = Ch b c d.
Proof.
  apply Z.bits_inj'. intros i Hi. unfold F1, Ch.
  rewrite Z.lxor_spec, Z.lor_spec, !Z.land_spec, Z.lxor_spec, Z.lnot_spec by done.
  by destruct (Z.testbit b i), (Z.testbit c i), (Z.testbit d i).
Qed.

Lemma F3_Maj b c d : F3 b c d = Maj b c d.
Proof.
  apply Z.bits_inj'. intros i Hi. unfold F3, Maj.
  rewrite !Z.lxor_spec, !Z.lor_spec, !Z.land_spec, !Z.lor_spec by done.
  by destruct (Z.testbit b i), (Z.testbit c i), (Z.testbit d i).
Qed.

Section rounds.
Variable W : list Z.
Hypothesis HW : forall t, (16 <= t < 80)%nat ->
  W !!! t = rotl (Z.lxor (Z.lxor (Z.lxor (W !!! (t - 3)%nat) (W !!! (t - 8)%nat))
                            (W !!! (t - 14)%nat)) (W !!! (t - 16)%nat)) 1.

(** Before operation [t] the array holds the 16 latest words. *)
Definition window (t : nat) (x : list Z) : Prop :=
  length x = 16%nat /\
  forall i, (i < max t 16)%nat -> (max t 16 <= i + 16)%nat -> x !!! (i mod 16)%nat = W !!! i.

Lemma window_X t x : (t < 16)%nat -> window t x -> X t x = (W !!! t, x) /\ window (S t) x.
Proof.
  intros Ht [Hl Hx]. split.
  - unfold X. f_equal. rewrite <- (Hx t) by lia. f_equal. symmetry. by apply Nat.mod_small.
  - split; [done|]. intros i Hi Hi2. apply Hx; lia.
Qed.

Lemma window_M t x : (16 <= t < 80)%nat -> window t x ->
  exists x', M t x = (W !!! t, x') /\ window (S t) x'.
Proof.
  intros Ht [Hl Hx]. unfold M. cbv zeta.
  rewrite (Hx (t - 14)%nat), (Hx (t - 8)%nat), (Hx (t - 3)%nat) by lia.
  assert (E16 : (t mod 16 = (t - 16) mod 16)%nat).
  { replace t with ((t - 16) + 1 * 16)%nat at 1 by lia. by rewrite Nat.Div0.mod_add. }
  rewrite E16, (Hx (t - 16)%nat) by lia.
  set (v := rotl _ 1). assert (Ev : v = W !!! t).
  { unfold v. rewrite (HW t Ht). f_equal. apply Z.bits_inj'. intros i Hi. rewrite !Z.lxor_spec.
    destruct (Z.testbit (W !!! (t - 16)%nat) i), (Z.testbit (W !!! (t - 14)%nat) i),
      (Z.testbit (W !!! (t - 8)%nat) i), (Z.testbit (W !!! (t - 3)%nat) i); done. }
  rewrite Ev. eexists. split; [reflexivity|]. split; [by rewrite length_insert|].
  intros i Hi Hi2. rewrite <- E16.
  pose proof (Nat.mod_upper_bound t 16 ltac:(lia)).
  destruct (decide (i = t)) as [->|Hne]; [by rewrite list_lookup_total_insert_eq by lia|].
  rewrite list_lookup_total_insert_ne; [apply Hx; lia|].
  intros E. apply Hne.
  pose proof (Nat.div_mod_eq i 16). pose proof (Nat.div_mod_eq t 16). lia.
Qed.

(** The working variables in FIPS order before operation [t]. *)
Definition rotated (t : nat) (w : sha1_words) : sha1_words :=
  match (t mod 5)%nat with
  | 0%nat => Sha1Words (hA w) (hB w) (hC w) (hD w) (hE w)
  | 1%nat => Sha1Words (hE w) (hA w) (hB w) (hC w) (hD w)
  | 2%nat => Sha1Words (hD w) (hE w) (hA w) (hB w) (hC w)
  | 3%nat => Sha1Words (hC w) (hD w) (hE w) (hA w) (hB w)
  | _ => Sha1Words (hB w) (hC w) (hD w) (hE w) (hA w)
  end.

Definition op_ok (e : nat * (rstate -> rstate)) : Prop :=
  forall w x, window e.1 x ->
    rotated (S e.1) (e.2 (w, x)).1 = fips_step W (rotated e.1 w) e.1 /\ window (S e.1) (e.2 (w, x)).2.

Lemma sha1_ops_ok : Forall op_ok (zip (seq 0 80) sha1_rounds).
Proof.
  unfold sha1_rounds. cbn [seq zip zip_with].
  repeat first [apply Forall_nil_2 | apply Forall_cons_2].
  all: intros [a b c d e] x Hx; cbn [fst snd] in *.
  all: unfold R.
  all: lazymatch goal with
       | Hx : window _ ?y |- context [X ?t ?y] => destruct (window_X t y ltac:(lia) Hx) as [-> Hx']
       | Hx : window _ ?y |- context [M ?t ?y] => destruct (window_M t y ltac:(lia) Hx) as (x' & -> & Hx')
       end.
  all: unfold fips_step, rotated; cbn [fst snd rd upd hA hB hC hD hE].
  all: split; [|assumption].
  all: cbn [Nat.modulo Nat.divmod Nat.sub Nat.div fst snd hA hB hC hD hE].
  all: rewrite ?F1_Ch, ?F3_Maj; reflexivity.
Qed.

Lemma sha1_rounds_run n (ops : list (rstate -> rstate)) t w x :
  length ops = n -> Forall op_ok (zip (seq t n) ops) -> window t x ->
  rotated (t + n) (foldl (fun s op => op s) (w, x) ops).1 = foldl (fips_step W) (rotated t w) (seq t n).
Proof.
  revert ops t w x. induction n as [|n IH]; intros [|op ops] t w x Hl Ho Hx; try done.
  - by rewrite Nat.add_0_r.
  - apply Forall_cons_1 in Ho as [H1 Ho]. cbn [seq foldl]. destruct (H1 w x Hx) as [E Hx'].
    cbn [fst snd] in E, Hx'. rewrite <- E, <- Nat.add_succ_comm.
    destruct (op (w, x)) as [w' x']. apply IH; [by injection Hl|exact Ho|exact Hx'].
Qed.
End rounds.

Lemma length_schedule n w : length (schedule n w) = (length w + n)%nat.
Proof. induction n as [|n IH]; cbn [schedule]; [lia|]. rewrite length_app, IH. cbn [length]. lia. Qed.

Lemma lookup_total_app_l' (l k : list Z) i : (i < length l)%nat -> (l ++ k) !!! i = l !!! i.
Proof. intros Hi. by rewrite lookup_total_app_l. Qed.

Lemma schedule_prefix n w i : (i < length w)%nat -> schedule n w !!! i = w !!! i.
Proof.
  intros Hi. induction n as [|n IH]; [done|]. cbn [schedule].
  rewrite lookup_total_app_l' by (rewrite length_schedule; lia). exact IH.
Qed.

Lemma schedule_step n w t : length w = 16%nat -> (16 <= t < 16 + n)%nat ->
  let W := schedule n w in
  W !!! t = rotl (Z.lxor (Z.lxor (Z.lxor (W !!! (t - 3)%nat) (W !!! (t - 8)%nat))
                            (W !!! (t - 14)%nat)) (W !!! (t - 16)%nat)) 1.
Proof.
  intros Hw Ht W. unfold W. clear W. induction n as [|n IH]; [lia|]. cbn [schedule].
  rewrite !(lookup_total_app_l' _ _ (t - _)) by (rewrite length_schedule; lia).
  destruct (decide (t = 16 + n)%nat) as [->|Hne].
  - rewrite lookup_total_app_r by (rewrite length_schedule; lia).
    rewrite length_schedule, Hw, Nat.sub_diag. done.
  - rewrite lookup_total_app_l' by (rewrite length_schedule; lia). apply IH. lia.
Qed.

Lemma slice_4 blk k : length blk = 64%nat -> 0 <= k < 16 -> length (slice blk (4 * k) 4) = 4%nat.
Proof. intros Hl Hk. unfold slice. rewrite length_take, length_drop. lia. Qed.

Lemma swapped_fips blk : length blk = 64%nat -> Forall is_byte blk -> swapped_words blk = fips_words blk.
Proof.
  intros Hl Hb. unfold swapped_words, fips_words. apply map_ext_in. intros k Hk.
  rewrite <- list_elem_of_In, elem_of_seqZ in Hk. apply SWAP_dec; [by apply slice_4; [|lia]|].
  unfold slice. by apply Forall_take, Forall_drop.
Qed.

Lemma rotated_start w : rotated 0 w = w.
Proof. by destruct w. Qed.

Lemma rotated_80 w : rotated (0 + 80) w = w.
Proof. by destruct w. Qed.

Lemma rounds_fips w x : length x = 16%nat ->
  (foldl (fun s op => op s) (w, x) sha1_rounds).1 = foldl (fips_step (schedule 64 x)) w (seq 0 80).
Proof.
  intros Hx. rewrite <- (rotated_start w) at 2. rewrite <- (rotated_80 (foldl _ _ _).1).
  apply sha1_rounds_run; [reflexivity|apply sha1_ops_ok|].
  - intros t Ht. apply schedule_step; [done|lia].
  - split; [done|]. intros i Hi _. rewrite Nat.mod_small by lia. symmetry. apply schedule_prefix. lia.
Qed.

Lemma sha1_words_eq w r s : r = s ->
  Sha1Words (u32 (hA w + hA r)) (u32 (hB w + hB r)) (u32 (hC w + hC r)) (u32 (hD w + hD r)) (u32 (hE w + hE r)) =
  Sha1Words (u32 (hA w + hA s)) (u32 (hB w + hB s)) (u32 (hC w + hC s)) (u32 (hD w + hD s)) (u32 (hE w + hE s)).
Proof. by intros ->. Qed.

Lemma sha1_block_fips w blk : length blk = 64%nat -> Forall is_byte blk -> sha1_block w blk = fips_block w blk.
Proof.
  intros Hl Hb. apply sha1_words_eq. rewrite swapped_fips by done. apply rounds_fips.
  unfold fips_words. by rewrite length_map, length_seqZ.
Qed.

(** Chaining words are 32-bit. *)
Definition words_ok (w : sha1_words) : Prop :=
  0 <= hA w < 2 ^ 32 /\ 0 <= hB w < 2 ^ 32 /\ 0 <= hC w < 2 ^ 32 /\ 0 <= hD w < 2 ^ 32 /\ 0 <= hE w < 2 ^ 32.

Lemma add_words_ok w r :
  words_ok (Sha1Words (u32 (hA w + hA r)) (u32 (hB w + hB r)) (u32 (hC w + hC r)) (u32 (hD w + hD r))
    (u32 (hE w + hE r))).
Proof. unfold words_ok. cbn [hA hB hC hD hE]. split_and!; apply wrap_range; lia. Qed.

Lemma sha1_block_ok w blk : words_ok (sha1_block w blk).
Proof. apply add_words_ok. Qed.

#[local] Strategy opaque [sha1_block fips_block].

Lemma absorb_ok n msg w : words_ok w -> words_ok (absorb sha1_block n msg w).
Proof.
  revert msg w. induction n as [|n IH]; intros msg w Hw; [done|]. cbn [absorb].
  apply IH, sha1_block_ok.
Qed.

Lemma absorb_fips n msg w : (64 * n <= length msg)%nat -> Forall is_byte msg ->
  absorb sha1_block n msg w = absorb fips_block n msg w.
Proof.
  revert msg w. induction n as [|n IH]; intros msg w Hl Hb; [done|]. cbn [absorb].
  rewrite sha1_block_fips; [|rewrite length_take; lia|by apply Forall_take].
  apply IH; [rewrite length_drop; lia|by apply Forall_drop].
Qed.

(** ** Streaming *)

Abbreviation sha1_absorbed := (absorbed sha1_block fips_init).

Lemma sha1_init_absorbed uninit : length uninit = 128%nat -> sha1_absorbed [] (sha1_init_ctx uninit).
Proof. intros Hl. exists 0%nat. by split_and!. Qed.

Lemma sha1_fill_eq buf c : 0 <= buflen c <= 64 -> sha1_fill buf c = fill sha1_block buf c.
Proof.
  intros Hb. unfold sha1_fill, fill, sha1_process_block.
  set (add := if Z.of_nat (length buf) <? 128 - buflen c then Z.of_nat (length buf) else 128 - buflen c).
  assert (Hadd : 0 <= add <= 128 - buflen c).
  { unfold add. destruct (Z.ltb_spec (Z.of_nat (length buf)) (128 - buflen c)); lia. }
  clearbody add. cbn [words total0 total1 buflen buffer]. rewrite u32_small by lia.
  destruct (blit _ _ _) as [b| |]; [|done..]. cbn [rbind].
  destruct (64 <? buflen c + add); [|done]. unfold process_block.
  destruct (compress_loop _ _ _ _); done.
Qed.

Lemma sha1_unaligned_eq fuel buf c : sha1_unaligned fuel buf c = unaligned sha1_block fuel buf c.
Proof. reflexivity. Qed.

Lemma sha1_keep_ok msg buf c :
  sha1_absorbed msg c -> buflen c = 0 -> (length buf <= 64)%nat ->
  exists c', sha1_keep buf c = Done c' /\ sha1_absorbed (msg ++ buf) c'.
Proof.
  intros Ha Hb Hl. pose proof (absorbed_len _ _ _ _ Ha) as [Hlb _]. unfold sha1_keep.
  rewrite blit_run by lia. cbn [rbind words total0 total1 buflen buffer]. rewrite Hb, Z.add_0_l.
  destruct (Z.leb_spec 64 (Z.of_nat (length buf))) as [Hge|Hlt].
  - set (b := take (Z.to_nat 0) _ ++ _ ++ _).
    assert (Hbl : length b = 128%nat) by (unfold b; rewrite length_blit; lia).
    destruct (direct_ok sha1_block fips_init msg b c 1 b 64 Ha Hb Hbl) as (c1 & E & Ha1 & Hb1);
      [done|lia|lia|]. rewrite Hb in E. unfold sha1_process_block. rewrite E. cbn [rbind].
    pose proof (absorbed_len _ _ _ _ Ha1) as [Hlb1 _].
    replace (Z.of_nat (length buf) - 64) with 0 by lia. change (slice b 64 0) with (@nil Z).
    rewrite blit_run by (cbn [length]; lia). cbn [rbind].
    eexists. split; [reflexivity|]. change (64 * 1)%nat with 64%nat in Ha1.
    replace (take 64 b) with buf in Ha1; [apply absorbed_rebuffer; [done..|rewrite length_blit; cbn [length]; lia]|].
    unfold b. rewrite app_nil_l. by rewrite take_app_length' by lia.
  - eexists. split; [reflexivity|].
    pose proof (absorbed_store sha1_block fips_init msg c buf Ha) as Hs. rewrite Hb, Z.add_0_l in Hs.
    apply Hs. lia.
Qed.

Lemma sha1_process_bytes_ok un msg buf c :
  sha1_absorbed msg c -> Z.of_nat (length buf) < 2 ^ 32 ->
  exists c', sha1_process_bytes un buf c = Done c' /\ sha1_absorbed (msg ++ buf) c'.
Proof.
  intros Ha Hlen. pose proof (absorbed_len _ _ _ _ Ha) as [_ Hb]. unfold sha1_process_bytes.
  assert (H1 : exists k c1, (if buflen c =? 0 then Done (buf, c) else sha1_fill buf c) = Done (drop k buf, c1) /\
      sha1_absorbed (msg ++ take k buf) c1 /\ ((length buf <= k)%nat \/ buflen c1 = 0)).
  { destruct (Z.eqb_spec (buflen c) 0) as [E|_]; [|rewrite sha1_fill_eq by done; by apply fill_ok].
    exists 0%nat, c. rewrite take_0, app_nil_r. by split_and!; [..|right]. }
  destruct H1 as (k & c1 & -> & Ha1 & Hk). cbn [rbind].
  set (buf1 := drop k buf) in *. assert (Hl1 : length buf1 = (length buf - k)%nat) by apply length_drop.
  assert (H2 : exists n c2, (if 64 <=? Z.of_nat (length buf1) then
       if un then sha1_unaligned (S (length buf1)) buf1 c1
       else
         let whole := Z.land (Z.of_nat (length buf1)) (Z.lnot 63) in
         let? c := sha1_process_block buf1 whole c1 in
         Done (drop (Z.to_nat whole) buf1, c)
     else Done (buf1, c1)) = Done (drop n buf1, c2) /\
     sha1_absorbed ((msg ++ take k buf) ++ take n buf1) c2 /\ (length buf1 <= n + 64)%nat /\
     ((length buf1 <= n)%nat \/ buflen c2 = 0)).
  { destruct (Z.leb_spec 64 (Z.of_nat (length buf1))) as [Hl|Hl].
    - destruct Hk as [Hk|Hk]; [lia|]. destruct un.
      + rewrite sha1_unaligned_eq.
        destruct (unaligned_ok sha1_block fips_init (S (length buf1)) _ buf1 c1 Ha1 Hk) as (n & c2 & ? & ? & ? & ?); [lia|].
        exists n, c2. by split_and!; [..|right].
      + rewrite land_not63 by lia. set (n := Z.to_nat (Z.of_nat (length buf1) / 64)).
        assert (Hn : 64 * (Z.of_nat (length buf1) / 64) = Z.of_nat (64 * n))
          by (unfold n; Z.div_mod_to_equations; lia).
        pose proof (absorbed_len _ _ _ _ Ha1) as [Hlb _].
        destruct (direct_ok sha1_block fips_init _ buf1 c1 n (buffer c1) _ Ha1 Hk Hlb Hn) as (c2 & E & Ha2 & Hb2);
          [Z.div_mod_to_equations; lia..|]. destruct c1 as [w t0 t1 bl bb]. cbn [words total0 total1 buflen buffer] in E.
        unfold sha1_process_block. rewrite Hn in E |- *. cbv zeta. rewrite E. cbn [rbind]. exists (64 * n)%nat, c2.
        rewrite Nat2Z.id. split_and!; [done|done|unfold n; Z.div_mod_to_equations; lia|by right].
    - exists 0%nat, c1. rewrite take_0, app_nil_r. split_and!; [done..|lia|].
      destruct Hk as [Hk|Hk]; [left; lia|by right]. }
  destruct H2 as (n & c2 & E2 & Ha2 & Hn & Hk2). cbv zeta in E2 |- *. rewrite E2. cbn [rbind].
  assert (Hmsg : forall t, t = drop n buf1 -> ((msg ++ take k buf) ++ take n buf1) ++ t = msg ++ buf).
  { intros t ->. rewrite <- !app_assoc, take_drop. unfold buf1. by rewrite take_drop. }
  destruct (Z.ltb_spec 0 (Z.of_nat (length (drop n buf1)))) as [Hp|Hp].
  - destruct Hk2 as [Hk2|Hk2]; [rewrite length_drop in Hp; lia|].
    rewrite <- (Hmsg _ eq_refl). apply sha1_keep_ok; [done|done|]. rewrite length_drop. lia.
  - exists c2. split; [done|]. rewrite <- (Hmsg []); [by rewrite app_nil_r|].
    symmetry. apply nil_length_inv. lia.
Qed.

Lemma length_be_enc n v : length (be_enc n v) = n.
Proof. unfold be_enc. by rewrite length_rev, length_le_enc. Qed.

Lemma be_enc_split v : be_enc 8 v = be_enc 4 (v / 2 ^ 32) ++ be_enc 4 (v mod 2 ^ 32).
Proof. unfold be_enc. by rewrite le_enc_split, rev_app_distr. Qed.

Lemma digest_words_ok msg : words_ok (digest_words sha1_block (be_enc 8) fips_init msg).
Proof. by apply absorb_ok. Qed.

Lemma padded_bytes msg : Forall is_byte msg -> Forall is_byte (padded (be_enc 8) msg).
Proof.
  intros Hm. unfold padded. apply Forall_app. split; [done|]. apply Forall_cons. split; [by unfold is_byte|].
  apply Forall_app. split; [by apply Forall_replicate|]. unfold be_enc. apply Forall_rev, le_enc_bytes.
Qed.

(** The last blocks, in the order the code writes their parts. *)
Lemma sha1_last (c : sha1_ctx) (pad hi lo : list Z) (b sz : nat) :
  length (buffer c) = 128%nat -> buflen c = Z.of_nat b ->
  (b + length pad = 4 * (sz - 2))%nat -> (2 <= sz <= 32)%nat -> length hi = 4%nat -> length lo = 4%nat ->
  exists b3, (let? x := blit (buffer c) (4 * (Z.of_nat sz - 2)) hi in
      let? x := blit x (4 * (Z.of_nat sz - 1)) lo in blit x (buflen c) pad) = Done b3 /\
    take (4 * sz) b3 = take b (buffer c) ++ pad ++ hi ++ lo /\ length b3 = 128%nat.
Proof.
  intros Hl Hb Hp Hsz Hh Hlo.
  replace (4 * (Z.of_nat sz - 2)) with (Z.of_nat (4 * (sz - 2))) by lia.
  replace (4 * (Z.of_nat sz - 1)) with (Z.of_nat (4 * (sz - 1))) by lia. rewrite Hb.
  destruct (blit_parts (buffer c) (4 * (sz - 2)) hi) as (b1 & -> & L1 & T1 & M1 & D1); [lia|].
  cbn [rbind]. destruct (blit_parts b1 (4 * (sz - 1)) lo) as (b2 & -> & L2 & T2 & M2 & D2); [lia|].
  cbn [rbind]. destruct (blit_parts b2 b pad) as (b3 & -> & L3 & T3 & M3 & D3); [lia|].
  exists b3. split; [done|]. split; [|lia]. rewrite Hh in M1. rewrite Hlo in M2.
  replace (4 * sz)%nat with (b + (length pad + (4 + 4)))%nat by lia.
  rewrite take_split, T3, T2, T1 by lia. f_equal. rewrite take_split, M3. f_equal.
  rewrite drop_drop, D3 by lia. rewrite take_split. f_equal.
  - rewrite Hp, take_drop_commute, T2 by lia. rewrite <- take_drop_commute. exact M1.
  - rewrite drop_drop. replace (b + length pad + 4)%nat with (4 * (sz - 1))%nat by lia.
    exact M2.
Qed.

Lemma sha1_finish_ok msg c :
  sha1_absorbed msg c -> Forall is_byte msg -> sha1_finish_ctx c = Done (fips_sha1 msg).
Proof.
  intros Ha Hm. pose proof (absorbed_len _ _ _ _ Ha) as [Hlb Hb].
  destruct (absorbed_finish sha1_block fips_init (be_enc 8) msg c (length_be_enc 8) Ha)
    as (Hr & Hlp & Hw & T1 & T2 & Hbits).
  set (t := count_rest (total0 c) (total1 c) (buflen c)) in *.
  destruct (bits_range t.1 t.2 T1 T2) as (B1 & B2 & _).
  assert (Henc : le_enc 4 (SWAP (bits_high t.1 t.2)) ++ le_enc 4 (SWAP (bits_low t.1)) =
                 be_enc 8 (8 * Z.of_nat (length msg) mod 2 ^ 64)).
  { rewrite !SWAP_enc by done. rewrite <- Hbits, be_enc_split.
    f_equal; f_equal; Z.div_mod_to_equations; lia. }
  set (rest := take (Z.to_nat (buflen c)) (buffer c)) in *.
  set (p := last_blocks (be_enc 8) msg rest) in *.
  set (sz := if buflen c <? 56 then 16%nat else 32%nat).
  assert (Hsz : (if buflen c <? 56 then 64 / 4 else 64 * 2 / 4) = Z.of_nat sz)
    by (unfold sz; by destruct (buflen c <? 56)).
  assert (Hpl : pad_len (buflen c) = (Z.of_nat sz - 2) * 4 - buflen c /\ 0 < pad_len (buflen c) <= 64).
  { unfold sz, pad_len. destruct (Z.ltb_spec (buflen c) 56); lia. }
  set (fl := take (Z.to_nat (pad_len (buflen c))) fillbuf).
  assert (Hfl : Z.of_nat (length fl) = pad_len (buflen c)).
  { unfold fl. rewrite length_take. unfold fillbuf. cbn [length]. rewrite length_replicate. lia. }
  destruct (sha1_last c fl (le_enc 4 (SWAP (bits_high t.1 t.2))) (le_enc 4 (SWAP (bits_low t.1)))
    (Z.to_nat (buflen c)) sz) as (b3 & E & G & L); [done|lia| | |apply length_le_enc..|].
  { destruct Hpl. unfold sz in *. destruct (buflen c <? 56); lia. }
  { unfold sz. destruct (buflen c <? 56); lia. }
  fold rest in G. rewrite Henc in G.
  assert (Hp : rest ++ fl ++ be_enc 8 (8 * Z.of_nat (length msg) mod 2 ^ 64) = p).
  { unfold p, last_blocks. by rewrite Hr. }
  rewrite Hp in G.
  assert (Hlen : length p = (4 * sz)%nat).
  { rewrite <- G, length_take, L. unfold sz. by destruct (buflen c <? 56). }
  unfold sha1_finish_ctx. cbv zeta. fold t. rewrite Hsz, <- (proj1 Hpl). fold fl.
  destruct (blit (buffer c) _ _) as [x1| |]; [|discriminate..]. cbn [rbind] in E |- *.
  destruct (blit x1 _ _) as [x2| |]; [|discriminate..]. cbn [rbind] in E |- *. rewrite E. cbn [rbind].
  unfold sha1_process_block. rewrite (process_block_run _ (length p / 64)); [|lia|].
  2: { rewrite L. unfold sz in Hlen. destruct (buflen c <? 56); rewrite Hlen; vm_compute; lia. }
  cbn [rbind words]. unfold sha1_read_ctx, fips_sha1. cbn [words].
  rewrite <- (absorb_prefix sha1_block _ (4 * sz)), G, Hw by lia.
  pose proof (digest_words_ok msg) as (R1 & R2 & R3 & R4 & R5).
  rewrite !SWAP_enc by done. unfold digest_words.
  rewrite absorb_fips; [done| |by apply padded_bytes].
  pose proof (Nat.div_mod_eq (length (padded (be_enc 8) msg)) 64). lia.
Qed.

(** ** Streams *)

Section streams.
Context {S : Type} `{EofStreamOk S}.

Lemma sha1_read_ok fuel buf (s : S) :
  Z.of_nat (length buf) < BLOCKSIZE -> BLOCKSIZE - Z.of_nat (length buf) < Z.of_nat fuel ->
  exists r, sha1_read fuel buf s = Done r /\
    match r with
    | Full bs s' => buf ++ left_in s = bs ++ left_in s' /\ Z.of_nat (length bs) = BLOCKSIZE
    | Partial bs => buf ++ left_in s = bs /\ Z.of_nat (length bs) < BLOCKSIZE
    | ReadError => exists s' : S, ferror s' = true
    end.
Proof.
  revert buf s. induction fuel as [|fuel IH]; intros buf s Hb Hf; [lia|]. cbn [sha1_read].
  pose proof (fread_ok (BLOCKSIZE - Z.of_nat (length buf)) s ltac:(lia)) as Hr.
  destruct (fread _ s) as [bs s1]. destruct Hr as (Hl & Hn & He).
  rewrite Hl, app_assoc. pose proof (length_app buf bs) as Hlen.
  destruct (Z.eqb_spec (Z.of_nat (length (buf ++ bs))) BLOCKSIZE) as [Ef|Ef]; [by eexists|].
  destruct (Z.eqb_spec (Z.of_nat (length bs)) 0) as [Ez|Ez].
  - assert (bs = []) as -> by (apply nil_length_inv; lia).
    destruct (ferror s1) eqn:Efe; [eexists; split; [done|]; by exists s1|].
    eexists. split; [done|]. rewrite He in Hl by done. cbn [app] in Hl. rewrite <- Hl, !app_nil_r. by split.
  - destruct (feof s1) eqn:Efo.
    + eexists. split; [done|]. rewrite (feof_ok s1 Efo), app_nil_r. split; [done|lia].
    + destruct (IH (buf ++ bs) s1) as (r & E & Hr); [lia..|]. by exists r.
Qed.

Lemma sha1_stream_loop_ok fuel (s : S) msg c :
  sha1_absorbed msg c -> buflen c = 0 -> Z.of_nat (length (left_in s)) < BLOCKSIZE * Z.of_nat fuel ->
  exists r, sha1_stream_loop fuel s c = Done r /\
    match r with
    | inl e => e = 1 /\ exists s' : S, ferror s' = true
    | inr (buf, c') => exists done, sha1_absorbed (msg ++ done) c' /\ done ++ buf = left_in s /\
        Z.of_nat (length buf) < BLOCKSIZE
    end.
Proof.
  revert s msg c. induction fuel as [|fuel IH]; intros s msg c Ha Hb Hf; [lia|].
  cbn [sha1_stream_loop].
  destruct (sha1_read_ok (Datatypes.S (Z.to_nat BLOCKSIZE)) [] s) as (r & -> & Hr);
    [done|unfold BLOCKSIZE; cbn [length]; lia|]. cbn [rbind app] in *.
  destruct r as [bs s'|bs|]; [| |by eexists].
  - destruct Hr as [Hl Hlen]. unfold BLOCKSIZE in *. pose proof (absorbed_len _ _ _ _ Ha) as [Hlb _].
    destruct (direct_ok sha1_block fips_init msg bs c 64 (buffer c) 4096 Ha Hb Hlb) as (c1 & E & Ha1 & Hb1);
      [done|done|lia|]. destruct c as [w t0 t1 bl bb]. cbn [words total0 total1 buflen buffer] in E.
    unfold sha1_process_block. rewrite E. cbn [rbind]. rewrite take_ge in Ha1 by lia.
    destruct (IH s' _ c1 Ha1 Hb1) as (r & Er & Hr); [rewrite Hl, length_app in Hf; lia|].
    exists r. split; [done|]. destruct r as [e|[buf c']]; [done|].
    destruct Hr as (dn & A1 & A2 & A3). exists (bs ++ dn). rewrite app_assoc, Hl, <- A2, app_assoc.
    by split_and!.
  - destruct Hr as [Hl Hlen]. eexists. split; [done|]. exists []. rewrite app_nil_r, Hl. by split_and!.
Qed.

Lemma sha1_stream_ok uninit un fuel (s : S) :
  length uninit = 128%nat -> Forall is_byte (left_in s) ->
  Z.of_nat (length (left_in s)) < BLOCKSIZE * Z.of_nat fuel ->
  sha1_stream uninit un fuel s = Done (0, fips_sha1 (left_in s)) \/
  (sha1_stream uninit un fuel s = Done (1, []) /\ exists s' : S, ferror s' = true).
Proof.
  intros Hu Hby Hf. unfold sha1_stream.
  destruct (sha1_stream_loop_ok fuel s [] (sha1_init_ctx uninit) (sha1_init_absorbed _ Hu) eq_refl Hf)
    as (r & -> & Hr). cbn [rbind]. destruct r as [e|[buf c]].
  - destruct Hr as [-> He]. by right.
  - destruct Hr as (dn & Ha & Hl & Hb). left. cbn [app] in Ha.
    assert (Hc : exists c', (if 0 <? Z.of_nat (length buf) then sha1_process_bytes un buf c else Done c) = Done c'
      /\ sha1_absorbed (dn ++ buf) c').
    { destruct (Z.ltb_spec 0 (Z.of_nat (length buf))).
      - apply sha1_process_bytes_ok; [done|unfold BLOCKSIZE in *; lia].
      - exists c. assert (buf = []) as -> by (apply nil_length_inv; lia). by rewrite app_nil_r. }
    destruct Hc as (c' & -> & Ha'). cbn [rbind]. rewrite <- Hl in Hby.
    by rewrite (sha1_finish_ok _ _ Ha' Hby), Hl.
Qed.
End streams.

(** ** Properties *)

(** Successive calls of [sha1_process_bytes], each with its alignment. *)
Fixpoint sha1_update_all (chunks : list (bool * list Z)) (c : sha1_ctx) : res sha1_ctx :=
  match chunks with
  | [] => Done c
  | (un, buf) :: chunks => let? c := sha1_process_bytes un buf c in sha1_update_all chunks c
  end.

Lemma sha1_update_all_ok chunks msg c :
  Forall (fun x => Z.of_nat (length x.2) < 2 ^ 32) chunks -> sha1_absorbed msg c ->
  exists c', sha1_update_all chunks c = Done c' /\ sha1_absorbed (msg ++ concat (map snd chunks)) c'.
Proof.
  intros Hc. revert msg c. induction Hc as [|[un buf] chunks Hl Hc IH]; intros msg c Ha.
  - exists c. by rewrite app_nil_r.
  - cbn [sha1_update_all map concat snd]. destruct (sha1_process_bytes_ok un msg buf c Ha Hl) as (c1 & -> & Ha1).
    cbn [rbind]. destruct (IH _ _ Ha1) as (c2 & -> & Ha2). exists c2. by rewrite app_assoc.
Qed.

(** C14: Hashing a message in any pieces of less than 4 GiB, at any alignment,
    over any initial buffer contents, stays inside the context's buffer and
    gives the FIPS 180 SHA-1 digest of their concatenation; so does
    [sha1_stream] for the content of a stream that reports no error. *)
Theorem sha1_incremental {S} `{EofStreamOk S} uninit chunks un fuel (s : S) :
  length uninit = 128%nat -> Forall (fun x => Z.of_nat (length x.2) < 2 ^ 32) chunks ->
  Forall is_byte (concat (map snd chunks)) -> Forall is_byte (left_in s) ->
  Z.of_nat (length (left_in s)) < BLOCKSIZE * Z.of_nat fuel ->
  (let? c := sha1_update_all chunks (sha1_init_ctx uninit) in sha1_finish_ctx c) =
    Done (fips_sha1 (concat (map snd chunks))) /\
  (sha1_stream uninit un fuel s = Done (0, fips_sha1 (left_in s)) \/
   (sha1_stream uninit un fuel s = Done (1, []) /\ exists s' : S, ferror s' = true)).
Proof.
  intros Hu Hc Hb Hl Hf. split; [|by apply sha1_stream_ok].
  destruct (sha1_update_all_ok chunks [] _ Hc (sha1_init_absorbed _ Hu)) as (c & -> & Ha).
  cbn [rbind]. by rewrite (sha1_finish_ok _ _ Ha Hb).
Qed.

(** The unrolled rounds of [sha1_process_block], which rename registers and
    keep 16 words of the schedule, compute the 80 steps of FIPS 180 on every
    64-byte block. *)
Theorem sha1_block_fips180 w blk :
  length blk = 64%nat -> Forall is_byte blk -> sha1_block w blk = fips_block w blk.
Proof. apply sha1_block_fips. Qed.

(** ** Witnesses *)

(** A string delivered at most two bytes at a time, with an end-of-file flag. *)
Definition two_by_two : Stream (list Z) := {|
  fread n s := (take (Z.to_nat (Z.min n 2)) s, drop (Z.to_nat (Z.min n 2)) s);
  ferror _ := false
|}.

Definition two_by_two_eof : @EofStream (list Z) two_by_two := {|
  feof s := match s with [] => true | _ => false end
|}.

Definition two_by_two_ok : @StreamOk (list Z) two_by_two.
Proof.
  refine {| left_in s := s |}. intros n s Hn. cbn. rewrite take_drop. split_and!; [done| |].
  - rewrite length_take. lia.
  - destruct s as [|x s]; [done|]. destruct (Z.to_nat (Z.min n 2)) eqn:E; [lia|done].
Defined.

Definition two_by_two_eof_ok : @EofStreamOk (list Z) two_by_two two_by_two_eof two_by_two_ok.
Proof. split. by intros [|]. Defined.

Definition abc : list Z := [97; 98; 99].

Lemma sha1_incremental_witness :
  (let? c := sha1_update_all [(true, [97]); (false, [98; 99])] (sha1_init_ctx (replicate 128 7)) in
   sha1_finish_ctx c) =
  Done [169; 153; 62; 54; 71; 6; 129; 106; 186; 62; 37; 113; 120; 80; 194; 108; 156; 208; 216; 157].
Proof.
  destruct (@sha1_incremental (list Z) two_by_two two_by_two_eof two_by_two_ok two_by_two_eof_ok (replicate 128 7)
    [(true, [97]); (false, [98; 99])] false 1 abc) as [-> _];
    [done|by repeat constructor|by repeat constructor|by repeat constructor|by vm_compute|by vm_compute].
Defined.

Lemma sha1_block_fips180_witness :
  sha1_block fips_init (replicate 64 97) = fips_block fips_init (replicate 64 97).
Proof. apply sha1_block_fips180; [done|by apply Forall_replicate]. Defined.
