(* ===== verification/Crc.v ===== *)
(** The table-driven CRC-32 of [libiberty/crc32.c], against bit-serial division
    by the generator polynomial. *)
From S2P Require Import Prelude Bytes.

(** ** The source *)

Definition crc32_table : list Z :=
  [
   0x00000000; 0x04c11db7; 0x09823b6e; 0x0d4326d9;
   0x130476dc; 0x17c56b6b; 0x1a864db2; 0x1e475005;
   0x2608edb8; 0x22c9f00f; 0x2f8ad6d6; 0x2b4bcb61;
   0x350c9b64; 0x31cd86d3; 0x3c8ea00a; 0x384fbdbd;
   0x4c11db70; 0x48d0c6c7; 0x4593e01e; 0x4152fda9;
   0x5f15adac; 0x5bd4b01b; 0x569796c2; 0x52568b75;
   0x6a1936c8; 0x6ed82b7f; 0x639b0da6; 0x675a1011;
   0x791d4014; 0x7ddc5da3; 0x709f7b7a; 0x745e66cd;
   0x9823b6e0; 0x9ce2ab57; 0x91a18d8e; 0x95609039;
   0x8b27c03c; 0x8fe6dd8b; 0x82a5fb52; 0x8664e6e5;
   0xbe2b5b58; 0xbaea46ef; 0xb7a96036; 0xb3687d81;
   0xad2f2d84; 0xa9ee3033; 0xa4ad16ea; 0xa06c0b5d;
   0xd4326d90; 0xd0f37027; 0xddb056fe; 0xd9714b49;
   0xc7361b4c; 0xc3f706fb; 0xceb42022; 0xca753d95;
   0xf23a8028; 0xf6fb9d9f; 0xfbb8bb46; 0xff79a6f1;
   0xe13ef6f4; 0xe5ffeb43; 0xe8bccd9a; 0xec7dd02d;
   0x34867077; 0x30476dc0; 0x3d044b19; 0x39c556ae;
   0x278206ab; 0x23431b1c; 0x2e003dc5; 0x2ac12072;
   0x128e9dcf; 0x164f8078; 0x1b0ca6a1; 0x1fcdbb16;
   0x018aeb13; 0x054bf6a4; 0x0808d07d; 0x0cc9cdca;
   0x7897ab07; 0x7c56b6b0; 0x71159069; 0x75d48dde;
   0x6b93dddb; 0x6f52c06c; 0x6211e6b5; 0x66d0fb02;
   0x5e9f46bf; 0x5a5e5b08; 0x571d7dd1; 0x53dc6066;
   0x4d9b3063; 0x495a2dd4; 0x44190b0d; 0x40d816ba;
   0xaca5c697; 0xa864db20; 0xa527fdf9; 0xa1e6e04e;
   0xbfa1b04b; 0xbb60adfc; 0xb6238b25; 0xb2e29692;
   0x8aad2b2f; 0x8e6c3698; 0x832f1041; 0x87ee0df6;
   0x99a95df3; 0x9d684044; 0x902b669d; 0x94ea7b2a;
   0xe0b41de7; 0xe4750050; 0xe9362689; 0xedf73b3e;
   0xf3b06b3b; 0xf771768c; 0xfa325055; 0xfef34de2;
   0xc6bcf05f; 0xc27dede8; 0xcf3ecb31; 0xcbffd686;
   0xd5b88683; 0xd1799b34; 0xdc3abded; 0xd8fba05a;
   0x690ce0ee; 0x6dcdfd59; 0x608edb80; 0x644fc637;
   0x7a089632; 0x7ec98b85; 0x738aad5c; 0x774bb0eb;
   0x4f040d56; 0x4bc510e1; 0x46863638; 0x42472b8f;
   0x5c007b8a; 0x58c1663d; 0x558240e4; 0x51435d53;
   0x251d3b9e; 0x21dc2629; 0x2c9f00f0; 0x285e1d47;
   0x36194d42; 0x32d850f5; 0x3f9b762c; 0x3b5a6b9b;
   0x0315d626; 0x07d4cb91; 0x0a97ed48; 0x0e56f0ff;
   0x1011a0fa; 0x14d0bd4d; 0x19939b94; 0x1d528623;
   0xf12f560e; 0xf5ee4bb9; 0xf8ad6d60; 0xfc6c70d7;
   0xe22b20d2; 0xe6ea3d65; 0xeba91bbc; 0xef68060b;
   0xd727bbb6; 0xd3e6a601; 0xdea580d8; 0xda649d6f;
   0xc423cd6a; 0xc0e2d0dd; 0xcda1f604; 0xc960ebb3;
   0xbd3e8d7e; 0xb9ff90c9; 0xb4bcb610; 0xb07daba7;
   0xae3afba2; 0xaafbe615; 0xa7b8c0cc; 0xa379dd7b;
   0x9b3660c6; 0x9ff77d71; 0x92b45ba8; 0x9675461f;
   0x8832161a; 0x8cf30bad; 0x81b02d74; 0x857130c3;
   0x5d8a9099; 0x594b8d2e; 0x5408abf7; 0x50c9b640;
   0x4e8ee645; 0x4a4ffbf2; 0x470cdd2b; 0x43cdc09c;
   0x7b827d21; 0x7f436096; 0x7200464f; 0x76c15bf8;
   0x68860bfd; 0x6c47164a; 0x61043093; 0x65c52d24;
   0x119b4be9; 0x155a565e; 0x18197087; 0x1cd86d30;
   0x029f3d35; 0x065e2082; 0x0b1d065b; 0x0fdc1bec;
   0x3793a651; 0x3352bbe6; 0x3e119d3f; 0x3ad08088;
   0x2497d08d; 0x2056cd3a; 0x2d15ebe3; 0x29d4f654;
   0xc5a92679; 0xc1683bce; 0xcc2b1d17; 0xc8ea00a0;
   0xd6ad50a5; 0xd26c4d12; 0xdf2f6bcb; 0xdbee767c;
   0xe3a1cbc1; 0xe760d676; 0xea23f0af; 0xeee2ed18;
   0xf0a5bd1d; 0xf464a0aa; 0xf9278673; 0xfde69bc4;
   0x89b8fd09; 0x8d79e0be; 0x803ac667; 0x84fbdbd0;
   0x9abc8bd5; 0x9e7d9662; 0x933eb0bb; 0x97ffad0c;
   0xafb010b1; 0xab710d06; 0xa6322bdf; 0xa2f33668;
   0xbcb4666d; 0xb8757bda; 0xb5365d03; 0xb1f740b4].

(** One turn of the loop of [xcrc32]. *)
Definition xcrc32_step (crc b : Z) : Z :=
  Z.lxor (u32 (Z.shiftl crc 8)) (crc32_table !!! Z.to_nat (Z.land (Z.lxor (Z.shiftr crc 24) b) 255)).

Fixpoint xcrc32 (buf : list Z) (init : Z) : Z :=
  match buf with
  | [] => init
  | b :: buf => xcrc32 buf (xcrc32_step init b)
  end.

(** The program in the comment above the table: one bit, then entry [i]. *)
Definition gen_bit (c : Z) : Z :=
  if Z.land c 0x80000000 =? 0 then u32 (Z.shiftl c 1)
  else Z.lxor (u32 (Z.shiftl c 1)) 0x04c11db7.

Definition gen_entry (i : Z) : Z := Nat.iter 8 gen_bit (u32 (Z.shiftl i 24)).

(** ** Division bit by bit *)

(** A register of 32 bits, the message fed from the top of the register. *)
Definition crc_byte (crc b : Z) : Z := Nat.iter 8 gen_bit (Z.lxor crc (Z.shiftl b 24)).

Definition crc_serial (buf : list Z) (init : Z) : Z := foldl crc_byte init buf.

(** ** Linearity *)

Lemma gen_bit_spec c : 0 <= c < 2 ^ 32 ->
  gen_bit c = Z.lxor (u32 (Z.shiftl c 1)) (if Z.testbit c 31 then 0x04c11db7 else 0).
Proof.
  intros Hc. unfold gen_bit. change 0x80000000 with (Z.shiftl 1 31). rewrite land_bit by lia.
  destruct (Z.testbit c 31); cbn [negb]; [done|]. by rewrite Z.lxor_0_r.
Qed.

Lemma u32_lxor a b : u32 (Z.lxor a b) = Z.lxor (u32 a) (u32 b).
Proof.
  apply Z.bits_inj'. intros i Hi. unfold wrap. rewrite Z.lxor_spec. destruct (decide (i < 32)).
  - by rewrite !Z.mod_pow2_bits_low, Z.lxor_spec.
  - by rewrite !Z.mod_pow2_bits_high by lia.
Qed.

Lemma gen_bit_range c : 0 <= c < 2 ^ 32 -> 0 <= gen_bit c < 2 ^ 32.
Proof.
  intros Hc. rewrite gen_bit_spec by done. apply lxor_range; [lia|by apply wrap_range|].
  destruct (Z.testbit c 31); lia.
Qed.

Lemma gen_bit_lxor a b : 0 <= a < 2 ^ 32 -> 0 <= b < 2 ^ 32 ->
  gen_bit (Z.lxor a b) = Z.lxor (gen_bit a) (gen_bit b).
Proof.
  intros Ha Hb. rewrite !gen_bit_spec by (try apply lxor_range; lia).
  rewrite Z.lxor_spec, Z.shiftl_lxor, u32_lxor.
  destruct (Z.testbit a 31), (Z.testbit b 31); cbn [xorb]; rewrite ?Z.lxor_0_r.
  - rewrite <- Z.lxor_assoc, (Z.lxor_assoc _ _ (u32 (Z.shiftl b 1))), (Z.lxor_comm 0x04c11db7),
      <- Z.lxor_assoc, Z.lxor_assoc, Z.lxor_nilpotent. by rewrite Z.lxor_0_r.
  - by rewrite Z.lxor_assoc, (Z.lxor_comm (u32 (Z.shiftl b 1))), <- Z.lxor_assoc.
  - by rewrite Z.lxor_assoc.
  - done.
Qed.

Lemma gen_iter_range n c : 0 <= c < 2 ^ 32 -> 0 <= Nat.iter n gen_bit c < 2 ^ 32.
Proof. intros Hc. induction n as [|n IH]; [done|]. by apply gen_bit_range. Qed.

Lemma gen_iter_lxor n a b : 0 <= a < 2 ^ 32 -> 0 <= b < 2 ^ 32 ->
  Nat.iter n gen_bit (Z.lxor a b) = Z.lxor (Nat.iter n gen_bit a) (Nat.iter n gen_bit b).
Proof.
  intros Ha Hb. induction n as [|n IH]; [done|]. rewrite !Nat.iter_succ, IH.
  by apply gen_bit_lxor; apply gen_iter_range.
Qed.

(** While the top bits are clear, dividing only shifts. *)
Lemma gen_iter_shift n c : 0 <= c -> c * 2 ^ Z.of_nat n < 2 ^ 32 ->
  Nat.iter n gen_bit c = Z.shiftl c (Z.of_nat n).
Proof.
  intros Hc. induction n as [|n IH]; intros Hn; [by rewrite Z.shiftl_0_r|].
  rewrite Nat2Z.inj_succ, Z.pow_succ_r in Hn by lia.
  assert (Hs : Nat.iter n gen_bit c = c * 2 ^ Z.of_nat n).
  { rewrite IH, Z.shiftl_mul_pow2 by lia. done. }
  rewrite Nat.iter_succ, Hs.
  rewrite gen_bit_spec by lia. rewrite (testbit_high _ 31) by lia. rewrite Z.lxor_0_r.
  rewrite !Z.shiftl_mul_pow2, Nat2Z.inj_succ, Z.pow_succ_r by lia. rewrite u32_small by lia. lia.
Qed.

Lemma table_entry i : 0 <= i < 256 -> crc32_table !!! Z.to_nat i = gen_entry i.
Proof.
  intros Hi.
  assert (H : forallb (fun i => crc32_table !!! Z.to_nat i =? gen_entry i) (seqZ 0 256) = true)
    by (vm_compute; reflexivity).
  rewrite forallb_forall in H. apply Z.eqb_eq, H. rewrite <- list_elem_of_In, elem_of_seqZ. lia.
Qed.

Lemma xcrc32_step_range crc b : 0 <= crc < 2 ^ 32 -> is_byte b -> 0 <= xcrc32_step crc b < 2 ^ 32.
Proof.
  intros Hc Hb. unfold xcrc32_step. apply lxor_range; [lia|by apply wrap_range|].
  assert (Hi : 0 <= Z.land (Z.lxor (Z.shiftr crc 24) b) 255 < 256).
  { change 255 with (Z.ones 8). rewrite Z.land_ones by lia. by apply Z.mod_pos_bound. }
  rewrite table_entry by done. apply gen_iter_range. by apply wrap_range.
Qed.

(** One byte: the low 24 bits only move, the top 8 are the table's index. *)
Lemma step_serial crc b : 0 <= crc < 2 ^ 32 -> is_byte b -> xcrc32_step crc b = crc_byte crc b.
Proof.
  intros Hc Hb. unfold is_byte in Hb. unfold xcrc32_step, crc_byte.
  set (hi := Z.shiftr crc 24). set (lo := crc mod 2 ^ 24).
  assert (Hhi : 0 <= hi < 256) by (unfold hi; rewrite Z.shiftr_div_pow2 by lia; Z.div_mod_to_equations; lia).
  assert (Hlo : 0 <= lo < 2 ^ 24) by (apply Z.mod_pos_bound; lia).
  assert (Hx : 0 <= Z.lxor hi b < 256) by (apply (lxor_range _ _ 8); lia).
  assert (Hcrc : crc = Z.lxor (Z.shiftl hi 24) lo).
  { rewrite <- Z.add_nocarry_lxor.
    - unfold hi, lo. rewrite Z.shiftr_div_pow2, Z.shiftl_mul_pow2 by lia. Z.div_mod_to_equations; lia.
    - apply Z.bits_inj'. intros i Hi. rewrite Z.land_spec, Z.bits_0. destruct (decide (i < 24)).
      + by rewrite Z.shiftl_spec_low.
      + by rewrite (testbit_high lo 24), andb_false_r by lia. }
  assert (Hsum : Z.lxor crc (Z.shiftl b 24) = Z.lxor (Z.shiftl (Z.lxor hi b) 24) lo).
  { rewrite Hcrc at 1. rewrite Z.shiftl_lxor, !Z.lxor_assoc. f_equal. apply Z.lxor_comm. }
  rewrite Hsum, gen_iter_lxor; [|rewrite Z.shiftl_mul_pow2; lia|lia].
  rewrite (gen_iter_shift 8 lo) by lia. change (Z.of_nat 8) with 8.
  change 255 with (Z.ones 8). rewrite Z.land_ones, Z.mod_small by lia. rewrite table_entry by done.
  unfold gen_entry. rewrite (u32_small (Z.shiftl (Z.lxor hi b) 24)) by (rewrite Z.shiftl_mul_pow2; lia).
  rewrite Z.lxor_comm. f_equal. rewrite Hcrc, Z.shiftl_lxor, u32_lxor.
  rewrite Z.shiftl_shiftl by lia. unfold wrap. rewrite !Z.shiftl_mul_pow2 by lia.
  change (2 ^ (24 + 8)) with (2 ^ 32). rewrite Z.mod_mul by lia. rewrite Z.lxor_0_l.
  apply Z.mod_small. lia.
Qed.

Lemma xcrc32_serial buf init : 0 <= init < 2 ^ 32 -> Forall is_byte buf ->
  xcrc32 buf init = crc_serial buf init /\ 0 <= xcrc32 buf init < 2 ^ 32.
Proof.
  intros Hi Hb. revert init Hi. induction Hb as [|b buf Hb _ IH]; intros init Hi; [done|].
  unfold crc_serial in *. cbn [xcrc32 foldl]. rewrite <- step_serial by done.
  apply IH. by apply xcrc32_step_range.
Qed.

Lemma xcrc32_app a b init : xcrc32 (a ++ b) init = xcrc32 b (xcrc32 a init).
Proof. revert init. induction a as [|x a IH]; intros init; [done|]. apply IH. Qed.

(** ** Properties *)

(** C34: The table is what the program in the comment prints, and [xcrc32]
    computes the remainder that bit-serial division by 0x04c11db7 leaves, for
    every buffer and initial value; the result of one buffer is the initial
    value for the next. *)
Theorem xcrc32_spec a b init :
  0 <= init < 2 ^ 32 -> Forall is_byte a -> Forall is_byte b ->
  crc32_table = map gen_entry (seqZ 0 256) /\
  xcrc32 (a ++ b) init = crc_serial (a ++ b) init /\
  xcrc32 b (xcrc32 a init) = crc_serial (a ++ b) init.
Proof.
  intros Hi Ha Hb. split; [by vm_compute|]. rewrite <- xcrc32_app.
  destruct (xcrc32_serial (a ++ b) init Hi) as [-> _]; [by apply Forall_app|done].
Qed.

(** The check value of the parameters in the comment: "123456789". *)
Lemma xcrc32_spec_witness :
  xcrc32 [53; 54; 55; 56; 57] (xcrc32 [49; 50; 51; 52] 0xffffffff) = 0x0376e6e7.
Proof.
  destruct (xcrc32_spec [49; 50; 51; 52] [53; 54; 55; 56; 57] 0xffffffff) as (_ & _ & ->);
    [lia|by repeat constructor|by repeat constructor|by vm_compute].
Defined.
