(* ===== verification/Hashfn.v ===== *)
(** The hash functions of [libiberty/hashtab.c]: the table of primes and the
    reduction by multiplication, Jenkins' [mix] and [iterative_hash], the string
    and pointer hashes. *)
From Stdlib Require Import Znumtheory.
From S2P Require Import Prelude Bytes.

(** ** The source: sizes *)

Record prime_ent := PrimeEnt { prime_of : Z; inv : Z; inv_m2 : Z; shift : Z }.

Definition prime_tab : list prime_ent :=
  [ PrimeEnt          7 0x24924925 0x9999999b 2;
    PrimeEnt         13 0x3b13b13c 0x745d1747 3;
    PrimeEnt         31 0x08421085 0x1a7b9612 4;
    PrimeEnt         61 0x0c9714fc 0x15b1e5f8 5;
    PrimeEnt        127 0x02040811 0x0624dd30 6;
    PrimeEnt        251 0x05197f7e 0x073260a5 7;
    PrimeEnt        509 0x01824366 0x02864fc8 8;
    PrimeEnt       1021 0x00c0906d 0x014191f7 9;
    PrimeEnt       2039 0x0121456f 0x0161e69e 10;
    PrimeEnt       4093 0x00300902 0x00501908 11;
    PrimeEnt       8191 0x00080041 0x00180241 12;
    PrimeEnt      16381 0x000c0091 0x00140191 13;
    PrimeEnt      32749 0x002605a5 0x002a06e6 14;
    PrimeEnt      65521 0x000f00e2 0x00110122 15;
    PrimeEnt     131071 0x00008001 0x00018003 16;
    PrimeEnt     262139 0x00014002 0x0001c004 17;
    PrimeEnt     524287 0x00002001 0x00006001 18;
    PrimeEnt    1048573 0x00003001 0x00005001 19;
    PrimeEnt    2097143 0x00004801 0x00005801 20;
    PrimeEnt    4194301 0x00000c01 0x00001401 21;
    PrimeEnt    8388593 0x00001e01 0x00002201 22;
    PrimeEnt   16777213 0x00000301 0x00000501 23;
    PrimeEnt   33554393 0x00001381 0x00001481 24;
    PrimeEnt   67108859 0x00000141 0x000001c1 25;
    PrimeEnt  134217689 0x000004e1 0x00000521 26;
    PrimeEnt  268435399 0x00000391 0x000003b1 27;
    PrimeEnt  536870909 0x00000019 0x00000029 28;
    PrimeEnt 1073741789 0x0000008d 0x00000095 29;
    PrimeEnt 2147483647 0x00000003 0x00000007 30;
    PrimeEnt 0xfffffffb 0x00000006 0x00000008 31 ].

(** [prime_tab[i]]: undefined behaviour outside the table. *)
Definition prime_at (i : Z) : res prime_ent :=
  match prime_tab !! Z.to_nat i with Some e => Done e | None => Undef end.

(** The turns of [while (low != high)]. *)
Fixpoint prime_search (fuel : nat) (n low high : Z) : res Z :=
  match fuel with
  | O => Hang
  | S fuel =>
      if low =? high then Done low else
      let mid := low + (high - low) / 2 in
      let? e := prime_at mid in
      if prime_of e <? n then prime_search fuel n (mid + 1) high
      else prime_search fuel n low mid
  end.

(** [None] is the call of [abort]. Six turns halve 30 entries away. *)
Definition higher_prime_index (n : Z) : res (option Z) :=
  let? low := prime_search 6 n 0 (Z.of_nat (length prime_tab)) in
  let? e := prime_at low in
  if prime_of e <? n then Done None else Done (Some low).

Definition htab_mod_1 (x y inv shift : Z) : Z :=
  let t1 := u32 (Z.shiftr (u64 (x * inv)) 32) in
  let t2 := u32 (x - t1) in
  let t3 := Z.shiftr t2 1 in
  let t4 := u32 (t1 + t3) in
  let q := Z.shiftr t4 shift in
  u32 (x - u32 (q * y)).

(** ** The source: hash functions *)

(** [x -= y; x -= z; x ^= s]. *)
Definition step (x y z s : Z) : Z :=
  let x := u32 (x - y) in
  let x := u32 (x - z) in
  Z.lxor x s.

(** The macro [mix], on three 32-bit registers. *)
Definition mix (a b c : Z) : Z * Z * Z :=
  let a := step a b c (Z.shiftr c 13) in
  let b := step b c a (u32 (Z.shiftl a 8)) in
  let c := step c a b (Z.shiftr (Z.land b 0xffffffff) 13) in
  let a := step a b c (Z.shiftr (Z.land c 0xffffffff) 12) in
  let b := Z.land (step b c a (u32 (Z.shiftl a 16))) 0xffffffff in
  let c := Z.land (step c a b (Z.shiftr b 5)) 0xffffffff in
  let a := Z.land (step a b c (Z.shiftr c 3)) 0xffffffff in
  let b := Z.land (step b c a (u32 (Z.shiftl a 10))) 0xffffffff in
  let c := Z.land (step c a b (Z.shiftr b 15)) 0xffffffff in
  (a, b, c).

(** The word at [k] read as a [hashval_t], and put together from its bytes. *)
Definition word_aligned (m : mem) (k : Z) : Z := mld 4 m k.
Definition word_unaligned (m : mem) (k : Z) : Z :=
  u32 (u32 (u32 (mget m k + u32 (Z.shiftl (mget m (k + 1)) 8))
            + u32 (Z.shiftl (mget m (k + 2)) 16))
       + u32 (Z.shiftl (mget m (k + 3)) 24)).

(** One of the two [while (len >= 12)] loops, given how it reads a word. *)
Fixpoint hash_words (rd : mem -> Z -> Z) (fuel : nat) (m : mem) (k len a b c : Z)
  : res (Z * Z * Z * Z * Z) :=
  match fuel with
  | O => Hang
  | S fuel =>
      if 12 <=? len then
        let a := u32 (a + rd m (k + 0)) in
        let b := u32 (b + rd m (k + 4)) in
        let c := u32 (c + rd m (k + 8)) in
        let '(a, b, c) := mix a b c in
        hash_words rd fuel m (k + 12) (u32 (len - 12)) a b c
      else Done (k, len, a, b, c)
  end.

(** The cases of the [switch] fall through: each byte is added when [len]
    reaches it. *)
Definition hash_tail (m : mem) (k len a b c : Z) : Z * Z * Z :=
  let add i sh v := if i <? len then u32 (v + u32 (Z.shiftl (mget m (k + i)) sh)) else v in
  let c := add 10 24 c in let c := add 9 16 c in let c := add 8 8 c in
  let b := add 7 24 b in let b := add 6 16 b in let b := add 5 8 b in
  let b := add 4 0 b in
  let a := add 3 24 a in let a := add 2 16 a in let a := add 1 8 a in
  let a := add 0 0 a in
  (a, b, c).

(** The address decides which loop runs. *)
Definition iterative_hash (m : mem) (k_in length initval : Z) : res Z :=
  let len := u32 length in
  let fuel := S (Z.to_nat len) in
  let? r :=
    if Z.land k_in 3 =? 0
    then hash_words word_aligned fuel m k_in len 0x9e3779b9 0x9e3779b9 initval
    else hash_words word_unaligned fuel m k_in len 0x9e3779b9 0x9e3779b9 initval in
  let '(k, len, a, b, c) := r in
  let c := u32 (c + length) in
  let '(a, b, c) := hash_tail m k len a b c in
  let '(_, _, c) := mix a b c in
  Done c.

(** [p] as [intptr_t], halves added to the golden ratio. *)
Definition hash_pointer (p : Z) : Z :=
  let v := sext 64 p in
  let a := u32 (0x9e3779b9 + Z.shiftr v 32) in
  let b := u32 (0x9e3779b9 + Z.land v (Z.shiftl 1 32 - 1)) in
  let '(_, _, c) := mix a b 0x42135234 in
  c.

Definition eq_pointer (p1 p2 : Z) : bool := p1 =? p2.

(** Over the bytes from [p] on; reading past them is undefined. *)
Fixpoint hash_string_loop (str : list Z) (r : Z) : res Z :=
  match str with
  | [] => Undef
  | c :: str => if c =? 0 then Done r else hash_string_loop str (u32 (u32 (u32 (r * 67) + c) - 113))
  end.

Definition htab_hash_string (p : list Z) : res Z := hash_string_loop p 0.

(** [strcmp], as far as equality goes. *)
Fixpoint strcmp_eq (a b : list Z) : res bool :=
  match a, b with
  | x :: a, y :: b => if x =? y then if x =? 0 then Done true else strcmp_eq a b else Done false
  | _, _ => Undef
  end.

Definition htab_eq_string (a b : list Z) : res bool := strcmp_eq a b.

(** ** Reduction by multiplication *)

(** Division by [d] as a multiplication by [2^32 + i] (Granlund and
    Montgomery): the multiplier exceeds [2^(32+l) / d] by little enough. *)
Lemma magic_div x d m l :
  0 <= x < 2 ^ 32 -> 0 < d -> 0 <= l ->
  2 ^ (32 + l) <= m * d <= 2 ^ (32 + l) + 2 ^ l ->
  x * m / 2 ^ (32 + l) = x / d.
Proof.
  intros Hx Hd Hl Hm. set (N := 2 ^ (32 + l)) in *.
  assert (HN : N = 2 ^ 32 * 2 ^ l) by (unfold N; apply Z.pow_add_r; lia).
  assert (0 < 2 ^ l) by (apply Z.pow_pos_nonneg; lia).
  pose proof (Z.div_mod x d ltac:(lia)) as Hq. pose proof (Z.mod_pos_bound x d Hd) as Hr.
  set (k := x / d) in *. set (r := x mod d) in *. symmetry.
  assert (He : exists e, m * d = N + e /\ 0 <= e <= 2 ^ l) by (exists (m * d - N); lia).
  destruct He as (e & He & He').
  assert (Hxe : 0 <= x * e < N) by nia.
  assert (HxN : d * k * N <= x * N <= d * k * N + (d - 1) * N) by (split; [apply Z.mul_le_mono_nonneg_r; lia|];
    rewrite <- Z.mul_add_distr_r; apply Z.mul_le_mono_nonneg_r; lia).
  assert (H1 : d * (k * N) <= d * (x * m)).
  { replace (d * (x * m)) with (x * (N + e)) by (rewrite <- He; ring). lia. }
  assert (H2 : d * (x * m) < d * ((k + 1) * N)).
  { replace (d * (x * m)) with (x * (N + e)) by (rewrite <- He; ring). lia. }
  apply Z.div_unique_pos with (x * m - N * k).
  - apply Z.mul_le_mono_pos_l in H1; [|done]. apply Z.mul_lt_mono_pos_l in H2; [|done]. lia.
  - ring.
Qed.

Definition magic_ok (d i s : Z) : Prop :=
  0 < d < 2 ^ 32 /\ 0 <= i < 2 ^ 32 /\ 0 <= s < 32 /\
  2 ^ (33 + s) <= (2 ^ 32 + i) * d <= 2 ^ (33 + s) + 2 ^ (s + 1).

#[global] Instance magic_ok_dec d i s : Decision (magic_ok d i s).
Proof. unfold magic_ok. apply _. Defined.

Lemma mod_1_magic x d i s :
  0 <= x < 2 ^ 32 -> magic_ok d i s -> htab_mod_1 x d i s = x mod d.
Proof.
  intros Hx (Hd & Hi & Hs & Hm). unfold htab_mod_1.
  rewrite (u64_small (x * i)) by nia.
  rewrite !Z.shiftr_div_pow2 by lia.
  assert (Ht1 : 0 <= x * i / 2 ^ 32 <= x).
  { split; [apply Z.div_pos; nia|]. apply Z.div_le_upper_bound; nia. }
  set (t1 := x * i / 2 ^ 32) in *.
  rewrite (u32_small t1), (u32_small (x - t1)) by lia.
  assert (Ht4 : t1 + (x - t1) / 2 ^ 1 = (x + t1) / 2).
  { change (2 ^ 1) with 2. replace (x + t1) with (x - t1 + t1 * 2) by ring. rewrite Z.div_add by lia. ring. }
  assert (Hs4 : 0 <= (x + t1) / 2 < 4294967296) by (split; [apply Z.div_pos|apply Z.div_lt_upper_bound]; lia).
  rewrite Ht4, (u32_small _ Hs4).
  assert (Hq : (x + t1) / 2 / 2 ^ s = x / d).
  { rewrite Z.div_div by (try apply Z.pow_pos_nonneg; lia).
    rewrite <- Z.pow_succ_r by lia. unfold t1.
    replace (x + x * i / 2 ^ 32) with (x * (2 ^ 32 + i) / 2 ^ 32).
    2: { replace (x * (2 ^ 32 + i)) with (x * i + x * 2 ^ 32) by ring. rewrite Z.div_add by lia. lia. }
    rewrite Z.div_div by (try apply Z.pow_pos_nonneg; lia).
    rewrite <- Z.pow_add_r by lia. replace (32 + Z.succ s) with (32 + (s + 1)) by lia.
    apply magic_div; [done|lia|lia|]. replace (32 + (s + 1)) with (33 + s) by lia. done. }
  rewrite Hq.
  pose proof (Z.div_mod x d ltac:(lia)). pose proof (Z.mod_pos_bound x d ltac:(lia)).
  assert (0 <= x / d) by (apply Z.div_pos; lia).
  rewrite (u32_small (x / d * d)) by nia. rewrite u32_small by nia. lia.
Qed.

Lemma prime_tab_magic :
  Forall (fun e => magic_ok (prime_of e) (inv e) (shift e) /\
                   magic_ok (prime_of e - 2) (inv_m2 e) (shift e)) prime_tab.
Proof. apply (bool_decide_unpack _). vm_compute. exact I. Qed.

(** ** The table holds primes, in order *)

(** Trial division by 7, 11, 13, 17, 19, 23, 29, 31 and their shifts by
    multiples of 30. *)
Fixpoint trial (n : nat) (p d : Z) : bool :=
  match n with
  | O => true
  | S n =>
      if p <? d * d then true else
      if forallb (fun r => negb (p mod (d + r) =? 0)) [0; 4; 6; 10; 12; 16; 22; 24]
      then trial n p (d + 30) else false
  end.

Definition prime_check (p : Z) : bool :=
  negb (p mod 2 =? 0) && negb (p mod 3 =? 0) && negb (p mod 5 =? 0)
  && trial (Z.to_nat (Z.sqrt p / 30 + 1)) p 7.

Lemma trial_sound n p d q :
  trial n p d = true -> 0 < d -> d <= q < d + 30 * Z.of_nat n ->
  q * q <= p -> In ((q - d) mod 30) [0; 4; 6; 10; 12; 16; 22; 24] -> p mod q <> 0.
Proof.
  revert d. induction n as [|n IH]; intros d Ht Hd Hq Hqq Hr; [lia|].
  cbn [trial] in Ht. destruct (Z.ltb_spec p (d * d)); [nia|]. destruct (forallb _ _) eqn:E; [|done].
  destruct (decide (q < d + 30)).
  - rewrite Z.mod_small in Hr by lia. rewrite forallb_forall in E. specialize (E _ Hr).
    replace (d + (q - d)) with q in E by ring. destruct (Z.eqb_spec (p mod q) 0); done.
  - apply (IH (d + 30)); [done|lia|lia|done|].
    replace (q - d) with (q - (d + 30) + 1 * 30) in Hr by ring. by rewrite Z.mod_add in Hr.
Qed.

Lemma wheel r :
  0 <= r < 30 -> (r + 7) mod 2 <> 0 -> (r + 7) mod 3 <> 0 -> (r + 7) mod 5 <> 0 ->
  In r [0; 4; 6; 10; 12; 16; 22; 24].
Proof.
  intros Hr H2 H3 H5.
  assert (E : forallb (fun r => ((r + 7) mod 2 =? 0) || ((r + 7) mod 3 =? 0) || ((r + 7) mod 5 =? 0)
    || existsb (Z.eqb r) [0; 4; 6; 10; 12; 16; 22; 24]) (seqZ 0 30) = true) by reflexivity.
  rewrite forallb_forall in E. specialize (E r ltac:(apply list_elem_of_In, elem_of_seqZ; lia)).
  rewrite !orb_true_iff, !Z.eqb_eq in E. destruct E as [[[E|E]|E]|E]; [done..|].
  apply existsb_exists in E as (y & Hy & ->%Z.eqb_eq). done.
Qed.

Lemma mod_of_mod q k m : 0 < m -> (k | m) -> 0 < k -> ((q - 7) mod m + 7) mod k = q mod k.
Proof.
  intros Hm [c ->] Hk. rewrite (Z.mod_eq (q - 7)) by lia.
  replace (q - 7 - c * k * ((q - 7) / (c * k)) + 7) with (q + (- (c * ((q - 7) / (c * k)))) * k) by ring.
  apply Z.mod_add. lia.
Qed.

Lemma no_small_divisor p q :
  prime_check p = true -> 6 < p -> 1 < q -> q * q <= p -> p mod q <> 0.
Proof.
  intros Hp H6 Hq Hqq E. unfold prime_check in Hp. rewrite !andb_true_iff, !negb_true_iff, !Z.eqb_neq in Hp.
  destruct Hp as [[[H2 H3] H5] Ht].
  assert (Hpq : p = q * (p / q)) by (apply Z.div_exact; lia).
  assert (Hn : forall k, 1 < k -> p mod k <> 0 -> q mod k <> 0).
  { intros k Hk Hpk Hqk. apply Hpk. apply Z.div_exact in Hqk; [|lia].
    rewrite Hpq, Hqk. replace (k * (q / k) * (p / (k * (q / k)))) with (q / k * (p / (k * (q / k))) * k) by ring.
    apply Z.mod_mul. lia. }
  pose proof (Hn 2 ltac:(lia) H2) as N2. pose proof (Hn 3 ltac:(lia) H3) as N3. pose proof (Hn 5 ltac:(lia) H5) as N5.
  assert (7 <= q) by (assert (q = 2 \/ q = 3 \/ q = 4 \/ q = 5 \/ q = 6 \/ 7 <= q) as [-> | [-> | [-> | [-> | [-> | ?]]]]] by lia;
    [by destruct N2|by destruct N3|by destruct N2|by destruct N5|by destruct N2|done]).
  apply (trial_sound _ _ _ q Ht); [lia| |done| |done].
  - pose proof (Z.sqrt_spec p ltac:(lia)). pose proof (Z.sqrt_nonneg p).
    assert (q <= Z.sqrt p) by (apply Z.sqrt_le_square; lia).
    pose proof (Z.div_mod (Z.sqrt p) 30 ltac:(lia)). pose proof (Z.mod_pos_bound (Z.sqrt p) 30 ltac:(lia)).
    rewrite Z2Nat.id by lia. lia.
  - apply wheel; [apply Z.mod_pos_bound; lia|..]; rewrite mod_of_mod; try done;
      [by exists 15|by exists 10|by exists 6].
Qed.

Lemma prime_check_sound p : prime_check p = true -> 6 < p -> prime p.
Proof.
  intros Hp H6. apply prime_alt. split; [lia|]. intros n Hn [k Hk].
  assert (0 < k) by nia. destruct (Z.le_ge_cases n k).
  - apply (no_small_divisor p n Hp); [lia|lia|nia|]. rewrite Hk. apply Z.mod_mul. lia.
  - apply (no_small_divisor p k Hp); [lia|nia|nia|]. rewrite Hk, Z.mul_comm. apply Z.mod_mul. lia.
Qed.

Lemma prime_tab_prime : Forall (fun e => prime (prime_of e)) prime_tab.
Proof.
  assert (H : forallb (fun e => prime_check (prime_of e) && (6 <? prime_of e)) prime_tab = true)
    by (vm_compute; reflexivity).
  apply Forall_forall. intros e He. rewrite forallb_forall in H. specialize (H e ltac:(by apply list_elem_of_In)).
  apply andb_true_iff in H as [H1 H2]. apply prime_check_sound; [done|lia].
Qed.

(** ** The size of a table *)

Definition primes : list Z := prime_of <$> prime_tab.

Lemma primes_sorted i j p q : primes !! i = Some p -> primes !! j = Some q -> (i < j)%nat -> p < q.
Proof.
  assert (H : forallb (fun i => forallb (fun j => (j <=? i)%nat ||
    (default 0 (primes !! i) <? default 0 (primes !! j))) (seq 0 30)) (seq 0 30) = true) by reflexivity.
  intros Hi Hj Hij. rewrite forallb_forall in H.
  pose proof (lookup_lt_Some _ _ _ Hi) as Li. pose proof (lookup_lt_Some _ _ _ Hj) as Lj.
  change (length primes) with 30%nat in *.
  specialize (H i ltac:(apply in_seq; lia)). rewrite forallb_forall in H.
  specialize (H j ltac:(apply in_seq; lia)). rewrite Hi, Hj in H. cbn [default from_option] in H.
  apply orb_true_iff in H as [H|H]; [apply Nat.leb_le in H; lia|cbn in H; lia].
Qed.

Lemma prime_at_lookup i e : 0 <= i -> prime_at i = Done e <-> prime_tab !! Z.to_nat i = Some e.
Proof. intros Hi. unfold prime_at. destruct (prime_tab !! Z.to_nat i); split; congruence. Qed.

(** [low] is the first index whose prime reaches [n]. *)
Definition first_prime (n low : Z) : Prop :=
  0 <= low <= 30 /\
  (forall i p, primes !! i = Some p -> Z.of_nat i < low -> p < n) /\
  (forall i p, primes !! i = Some p -> low <= Z.of_nat i -> n <= p).

Lemma prime_search_spec fuel n low high :
  0 <= low <= high -> high <= 30 -> high - low < 2 ^ (Z.of_nat fuel - 1) -> (0 < fuel)%nat ->
  (forall i p, primes !! i = Some p -> Z.of_nat i < low -> p < n) ->
  (forall i p, primes !! i = Some p -> high <= Z.of_nat i -> n <= p) ->
  exists l, prime_search fuel n low high = Done l /\ first_prime n l.
Proof.
  revert low high. induction fuel as [|f IH]; intros low high Hl Hh Hf Hpos Hlo Hhi; [lia|].
  cbn [prime_search]. destruct (Z.eqb_spec low high) as [->|Hne]; [exists high; unfold first_prime; eauto with lia|].
  set (mid := low + (high - low) / 2).
  destruct f as [|f]; [cbn in Hf; lia|].
  assert (Hp : 2 ^ (Z.of_nat (S (S f)) - 1) = 2 * 2 ^ (Z.of_nat (S f) - 1)).
  { rewrite <- Z.pow_succ_r by lia. f_equal. lia. }
  rewrite Hp in Hf. clear Hp.
  assert (Hmid : low <= mid < high) by (unfold mid; Z.to_euclidean_division_equations; lia).
  assert (Hsmall : high - low <= 2 * (mid - low) + 1 /\ 2 * (mid - low) <= high - low /\ high - mid <= (high - low) - (mid - low)) by (unfold mid; Z.to_euclidean_division_equations; lia).
  assert (Hlen : (Z.to_nat mid < length prime_tab)%nat) by (cbn; lia).
  apply lookup_lt_is_Some_2 in Hlen as [e He].
  unfold prime_at. rewrite He. cbn [rbind].
  assert (Hpe : primes !! Z.to_nat mid = Some (prime_of e)) by (unfold primes; by rewrite list_lookup_fmap, He).
  destruct (Z.ltb_spec (prime_of e) n) as [Hlt|Hge].
  - apply IH; [lia|done| |lia| |done]; [clear -Hsmall Hmid Hf Hne; lia|].
    intros i p Hi Hlt'. destruct (decide (i = Z.to_nat mid)) as [->|]; [by simplify_eq|].
    destruct (decide (i < Z.to_nat mid)%nat); [|lia]. pose proof (primes_sorted _ _ _ _ Hi Hpe). lia.
  - apply IH; [lia|lia|lia|lia|done|].
    intros i p Hi Hle. destruct (decide (i = Z.to_nat mid)) as [->|]; [by simplify_eq|].
    pose proof (primes_sorted _ _ _ _ Hpe Hi). lia.
Qed.

(** [higher_prime_index n] is the index of the first prime of the table that
    is at least [n]; beyond the last prime it reads outside the table. *)
Lemma higher_prime_index_spec n :
  (n <= 0xfffffffb -> exists i e, higher_prime_index n = Done (Some i) /\ 0 <= i < 30 /\
     prime_tab !! Z.to_nat i = Some e /\ n <= prime_of e /\
     forall j p, primes !! j = Some p -> Z.of_nat j < i -> p < n) /\
  (0xfffffffb < n -> higher_prime_index n = Undef).
Proof.
  unfold higher_prime_index. change (Z.of_nat (length prime_tab)) with 30.
  destruct (prime_search_spec 6 n 0 30) as (l & -> & Hl & Hlo & Hhi); try lia.
  { intros i p Hi ?. apply lookup_lt_Some in Hi. cbn in Hi. lia. }
  cbn [rbind]. split; intros Hn.
  - assert (Hl30 : l < 30).
    { destruct (decide (l < 30)); [done|]. specialize (Hlo 29%nat _ eq_refl ltac:(lia)). cbn in Hlo. lia. }
    assert (Hlen : (Z.to_nat l < length prime_tab)%nat) by (cbn; lia).
    apply lookup_lt_is_Some_2 in Hlen as [e He]. unfold prime_at. rewrite He. cbn [rbind].
    specialize (Hhi (Z.to_nat l) (prime_of e)).
    unfold primes in Hhi at 1. rewrite list_lookup_fmap, He in Hhi. specialize (Hhi eq_refl ltac:(lia)).
    destruct (Z.ltb_spec (prime_of e) n); [lia|]. exists l, e. eauto with lia.
  - assert (l = 30) as ->; [|done].
    destruct (decide (l <= 29)); [|lia]. specialize (Hhi 29%nat _ eq_refl ltac:(lia)). cbn in Hhi. lia.
Qed.

(** ** [mix] is reversible *)

(** The nine rounds of [mix], undone from the last to the first. *)
Definition unstep (x y z s : Z) : Z := u32 (u32 (Z.lxor x s + z) + y).

Definition unmix (a b c : Z) : Z * Z * Z :=
  let c := unstep c a b (Z.shiftr b 15) in
  let b := unstep b c a (u32 (Z.shiftl a 10)) in
  let a := unstep a b c (Z.shiftr c 3) in
  let c := unstep c a b (Z.shiftr b 5) in
  let b := unstep b c a (u32 (Z.shiftl a 16)) in
  let a := unstep a b c (Z.shiftr c 12) in
  let c := unstep c a b (Z.shiftr b 13) in
  let b := unstep b c a (u32 (Z.shiftl a 8)) in
  let a := unstep a b c (Z.shiftr c 13) in
  (a, b, c).

Lemma u32_range z : 0 <= u32 z < 2 ^ 32.
Proof. apply wrap_range. lia. Qed.

Lemma shiftr_bound a n : 0 <= n -> 0 <= a < 2 ^ 32 -> 0 <= Z.shiftr a n < 2 ^ 32.
Proof.
  intros Hn Ha. rewrite Z.shiftr_div_pow2 by done. pose proof (Z.pow_pos_nonneg 2 n ltac:(lia) Hn).
  split; [apply Z.div_pos; lia|]. apply Z.div_lt_upper_bound; nia.
Qed.

Lemma u32_add_l a b : u32 (u32 a + b) = u32 (a + b).
Proof. apply Zplus_mod_idemp_l. Qed.
Lemma u32_sub_l a b : u32 (u32 a - b) = u32 (a - b).
Proof. apply Zminus_mod_idemp_l. Qed.

Lemma step_range x y z s : 0 <= s < 2 ^ 32 -> 0 <= step x y z s < 2 ^ 32.
Proof. intros Hs. apply lxor_range; [lia|apply u32_range|done]. Qed.

Lemma unstep_range x y z s : 0 <= unstep x y z s < 2 ^ 32.
Proof. apply u32_range. Qed.

Lemma unstep_step x y z s : 0 <= x < 2 ^ 32 -> unstep (step x y z s) y z s = x.
Proof.
  intros Hx. unfold unstep, step. rewrite Z.lxor_assoc, Z.lxor_nilpotent, Z.lxor_0_r.
  rewrite u32_add_l, <- Z.add_assoc, u32_add_l.
  replace (u32 (x - y) - z + (z + y)) with (u32 (x - y) + y) by ring.
  rewrite u32_add_l. replace (x - y + y) with x by ring. by apply u32_small.
Qed.

Lemma step_unstep x y z s :
  0 <= x < 2 ^ 32 -> 0 <= s < 2 ^ 32 -> step (unstep x y z s) y z s = x.
Proof.
  intros Hx Hs. unfold unstep, step. rewrite u32_sub_l, <- Z.sub_add_distr, u32_sub_l.
  replace (u32 (Z.lxor x s + z) + y - (y + z)) with (u32 (Z.lxor x s + z) - z) by ring.
  rewrite u32_sub_l. replace (Z.lxor x s + z - z) with (Z.lxor x s) by ring.
  rewrite wrap_small by (apply lxor_range; lia).
  by rewrite Z.lxor_assoc, Z.lxor_nilpotent, Z.lxor_0_r.
Qed.

Lemma land_u32 z : 0 <= z < 2 ^ 32 -> Z.land z 0xffffffff = z.
Proof. intros Hz. change 0xffffffff with (Z.ones 32). rewrite Z.land_ones by lia. by apply Z.mod_small. Qed.

Definition reg3 (a b c : Z) : Prop := 0 <= a < 2 ^ 32 /\ 0 <= b < 2 ^ 32 /\ 0 <= c < 2 ^ 32.

#[local] Hint Resolve u32_range shiftr_bound step_range unstep_range : reg.
#[local] Hint Extern 1 (0 <= _) => lia : reg.

(** The nine intermediate values, named. *)
Lemma mix_rounds a b c (P : Z * Z * Z -> Prop) :
  reg3 a b c ->
  (forall a1 b1 c1 a2 b2 c2 a3 b3 c3,
     reg3 a1 b1 c1 -> reg3 a2 b2 c2 -> reg3 a3 b3 c3 ->
     a1 = step a b c (Z.shiftr c 13) -> b1 = step b c a1 (u32 (Z.shiftl a1 8)) ->
     c1 = step c a1 b1 (Z.shiftr b1 13) -> a2 = step a1 b1 c1 (Z.shiftr c1 12) ->
     b2 = step b1 c1 a2 (u32 (Z.shiftl a2 16)) -> c2 = step c1 a2 b2 (Z.shiftr b2 5) ->
     a3 = step a2 b2 c2 (Z.shiftr c2 3) -> b3 = step b2 c2 a3 (u32 (Z.shiftl a3 10)) ->
     c3 = step c2 a3 b3 (Z.shiftr b3 15) -> P (a3, b3, c3)) ->
  P (mix a b c).
Proof.
  intros (Ha & Hb & Hc) H. unfold mix.
  set (a1 := step a b c _). assert (Ra1 : 0 <= a1 < 2 ^ 32) by (unfold a1; eauto with reg).
  set (b1 := step b c a1 _). assert (Rb1 : 0 <= b1 < 2 ^ 32) by (unfold b1; eauto with reg).
  rewrite (land_u32 b1 Rb1).
  set (c1 := step c a1 b1 _). assert (Rc1 : 0 <= c1 < 2 ^ 32) by (unfold c1; eauto with reg).
  rewrite (land_u32 c1 Rc1).
  set (a2 := step a1 b1 c1 _). assert (Ra2 : 0 <= a2 < 2 ^ 32) by (unfold a2; eauto with reg).
  rewrite (land_u32 (step b1 c1 a2 _)) by eauto with reg.
  set (b2 := step b1 c1 a2 _). assert (Rb2 : 0 <= b2 < 2 ^ 32) by (unfold b2; eauto with reg).
  rewrite (land_u32 (step c1 a2 b2 _)) by eauto with reg.
  set (c2 := step c1 a2 b2 _). assert (Rc2 : 0 <= c2 < 2 ^ 32) by (unfold c2; eauto with reg).
  rewrite (land_u32 (step a2 b2 c2 _)) by eauto with reg.
  set (a3 := step a2 b2 c2 _). assert (Ra3 : 0 <= a3 < 2 ^ 32) by (unfold a3; eauto with reg).
  rewrite (land_u32 (step b2 c2 a3 _)) by eauto with reg.
  set (b3 := step b2 c2 a3 _). assert (Rb3 : 0 <= b3 < 2 ^ 32) by (unfold b3; eauto with reg).
  rewrite (land_u32 (step c2 a3 b3 _)) by eauto with reg.
  set (c3 := step c2 a3 b3 _). assert (Rc3 : 0 <= c3 < 2 ^ 32) by (unfold c3; eauto with reg).
  by apply (H a1 b1 c1 a2 b2 c2 a3 b3).
Qed.

Lemma unmix_mix a b c :
  reg3 a b c -> let '(a', b', c') := mix a b c in unmix a' b' c' = (a, b, c).
Proof.
  intros Hr. apply (mix_rounds a b c); [done|]. destruct Hr as (Ha & Hb & Hc).
  intros a1 b1 c1 a2 b2 c2 a3 b3 c3 (?&?&?) (?&?&?) (?&?&?) E1 E2 E3 E4 E5 E6 E7 E8 E9.
  unfold unmix. rewrite E9, unstep_step, E8, unstep_step, E7, unstep_step, E6, unstep_step, E5, unstep_step,
    E4, unstep_step, E3, unstep_step, E2, unstep_step, E1, unstep_step by done. done.
Qed.

Lemma mix_unmix a b c :
  reg3 a b c -> let '(a', b', c') := unmix a b c in mix a' b' c' = (a, b, c).
Proof.
  intros (Ha & Hb & Hc). unfold unmix.
  set (c1 := unstep c _ _ _). set (b1 := unstep b _ _ _). set (a1 := unstep a _ _ _).
  set (c2 := unstep c1 _ _ _). set (b2 := unstep b1 _ _ _). set (a2 := unstep a1 _ _ _).
  set (c3 := unstep c2 _ _ _). set (b3 := unstep b2 _ _ _). set (a3 := unstep a2 _ _ _).
  assert (R1 : reg3 a1 b1 c1) by (repeat split; apply unstep_range).
  assert (R2 : reg3 a2 b2 c2) by (repeat split; apply unstep_range).
  assert (R3 : reg3 a3 b3 c3) by (repeat split; apply unstep_range).
  destruct R1 as (?&?&?), R2 as (?&?&?), R3 as (?&?&?).
  apply (mix_rounds a3 b3 c3); [done|].
  intros a4 b4 c4 a5 b5 c5 a6 b6 c6 _ _ _ E1 E2 E3 E4 E5 E6 E7 E8 E9.
  unfold a3 in E1 at 1. rewrite step_unstep in E1 by eauto with reg. subst a4.
  unfold b3 in E2 at 1.  rewrite step_unstep in E2 by eauto with reg. subst b4.
  unfold c3 in E3 at 1. rewrite step_unstep in E3 by eauto with reg. subst c4.
  unfold a2 in E4 at 1. rewrite step_unstep in E4 by eauto with reg. subst a5.
  unfold b2 in E5 at 1. rewrite step_unstep in E5 by eauto with reg. subst b5.
  unfold c2 in E6 at 1. rewrite step_unstep in E6 by eauto with reg. subst c5.
  unfold a1 in E7 at 1. rewrite step_unstep in E7 by eauto with reg. subst a6.
  unfold b1 in E8 at 1. rewrite step_unstep in E8 by eauto with reg. subst b6.
  unfold c1 in E9 at 1. rewrite step_unstep in E9 by eauto with reg. subst c6.
  done.
Qed.

(** ** [iterative_hash] hashes the bytes, wherever they lie *)

(** Twelve bytes at a time as three little-endian words. *)
Fixpoint lookup2_blocks (n : nat) (bs : list Z) (a b c : Z) : Z * Z * Z :=
  match n with
  | O => (a, b, c)
  | S n =>
      let '(a, b, c) := mix (u32 (a + le_dec (take 4 bs))) (u32 (b + le_dec (take 4 (drop 4 bs))))
                            (u32 (c + le_dec (take 4 (drop 8 bs)))) in
      lookup2_blocks n (drop 12 bs) a b c
  end.

(** The rest likewise; its ninth byte starts in the second byte of [c], whose
    first takes the length. *)
Definition lookup2 (bs : list Z) (initval : Z) : Z :=
  let n := (length bs / 12)%nat in
  let rest := drop (12 * n) bs in
  let '(a, b, c) := lookup2_blocks n bs 0x9e3779b9 0x9e3779b9 initval in
  let c := u32 (c + Z.of_nat (length bs)) in
  let '(_, _, c) := mix (u32 (a + le_dec (take 4 rest))) (u32 (b + le_dec (take 4 (drop 4 rest))))
                        (u32 (c + 256 * le_dec (drop 8 rest))) in
  c.

Lemma word_unaligned_ok m k : mem_ok m -> word_unaligned m k = word_aligned m k.
Proof.
  intros Hm. unfold word_unaligned, word_aligned, mld. rewrite mgets_offs. cbn [map seqZ seq fmap list_fmap].
  rewrite !shl_byte by (try apply Hm; lia). rewrite !u32_add_l.
  change (seqZ 0 (Z.of_nat 4)) with [0; 1; 2; 3]. cbn [map le_dec]. rewrite Z.add_0_r.
  pose proof (Hm k). pose proof (Hm (k + 1)). pose proof (Hm (k + 2)). pose proof (Hm (k + 3)). unfold is_byte in *.
  rewrite <- Z.add_assoc, u32_add_l, u32_small by lia. lia.
Qed.

Lemma hash_words_ext rd1 rd2 fuel m k len a b c :
  (forall k, rd1 m k = rd2 m k) -> hash_words rd1 fuel m k len a b c = hash_words rd2 fuel m k len a b c.
Proof.
  intros H. revert k len a b c. induction fuel as [|f IH]; intros; [done|]. cbn [hash_words].
  destruct (12 <=? len); [|done]. rewrite !H. destruct (mix _ _ _) as [[a' b'] c']. apply IH.
Qed.

Lemma take_drop_mgets m k i n len :
  (i + n <= len)%nat -> take n (drop i (mgets m k len)) = mgets m (k + Z.of_nat i) n.
Proof.
  intros H. replace len with (i + (n + (len - i - n)))%nat by lia.
  rewrite mgets_app, drop_app_length' by by rewrite length_mgets.
  by rewrite mgets_app, take_app_length' by by rewrite length_mgets.
Qed.

Lemma drop_mgets m k i len :
  (i <= len)%nat -> drop i (mgets m k len) = mgets m (k + Z.of_nat i) (len - i).
Proof.
  intros H. replace len with (i + (len - i))%nat at 1 by lia.
  by rewrite mgets_app, drop_app_length' by by rewrite length_mgets.
Qed.

Lemma hash_words_spec fuel m k len a b c :
  0 <= len < 2 ^ 32 -> len < Z.of_nat fuel ->
  let n := (Z.to_nat len / 12)%nat in
  let '(a', b', c') := lookup2_blocks n (mgets m k (Z.to_nat len)) a b c in
  hash_words word_aligned fuel m k len a b c
  = Done (k + 12 * Z.of_nat n, len - 12 * Z.of_nat n, a', b', c').
Proof.
  revert k len a b c. induction fuel as [|f IH]; intros k len a b c Hl Hf n; [lia|].
  cbn [hash_words]. destruct (Z.leb_spec 12 len) as [H12|H12].
  - assert (Hn : n = S (Z.to_nat (len - 12) / 12)).
    { unfold n. replace (Z.to_nat len) with (Z.to_nat (len - 12) + 1 * 12)%nat by lia.
      rewrite Nat.div_add by lia. lia. }
    rewrite Hn. cbn [lookup2_blocks].
    pose proof (take_drop_mgets m k 0 4 (Z.to_nat len) ltac:(lia)) as E0. rewrite drop_0 in E0.
    rewrite E0, (take_drop_mgets m k 4 4), (take_drop_mgets m k 8 4) by lia.
    rewrite drop_mgets by lia. replace (Z.to_nat len - 12)%nat with (Z.to_nat (len - 12)) by lia.
    change (Z.of_nat 0) with 0. change (Z.of_nat 4) with 4. change (Z.of_nat 8) with 8. change (Z.of_nat 12) with 12.
    fold (mld 4 m (k + 0)) (mld 4 m (k + 4)) (mld 4 m (k + 8)). unfold word_aligned.
    destruct (mix _ _ _) as [[a' b'] c'].
    specialize (IH (k + 12) (len - 12) a' b' c' ltac:(lia) ltac:(lia)). cbv zeta in IH.
    destruct (lookup2_blocks _ _ a' b' c') as [[a2 b2] c2]. rewrite (u32_small (len - 12)) by lia. unfold word_aligned in IH.
    rewrite IH. do 4 f_equal. f_equal; lia.
  - assert (n = 0%nat) as -> by (unfold n; apply Nat.div_small; lia). cbn [lookup2_blocks].
    do 4 f_equal. f_equal; lia.
Qed.

Lemma hash_tail_spec m k r a b c :
  mem_ok m -> 0 <= r < 12 -> reg3 a b c ->
  let rest := mgets m k (Z.to_nat r) in
  hash_tail m k r a b c
  = (u32 (a + le_dec (take 4 rest)), u32 (b + le_dec (take 4 (drop 4 rest))), u32 (c + 256 * le_dec (drop 8 rest))).
Proof.
  intros Hm Hr (Ha & Hb & Hc) rest. unfold rest. rewrite mgets_offs. unfold hash_tail.
  assert (Hs : forall i s, 0 <= s <= 24 -> u32 (Z.shiftl (mget m (k + i)) s) = mget m (k + i) * 2 ^ s)
    by (intros; apply shl_byte; [apply Hm|done]).
  rewrite !Hs by lia.
  assert (Hcases : In r [0; 1; 2; 3; 4; 5; 6; 7; 8; 9; 10; 11]) by (cbn; lia).
  cbn [In] in Hcases. repeat destruct Hcases as [<-|Hcases]; try done;
    match goal with |- context [seqZ 0 ?n] => let l := eval vm_compute in (seqZ 0 n) in change (seqZ 0 n) with l end;
    cbn [map take drop le_dec]; cbn [Z.ltb Z.compare Pos.compare Pos.compare_cont]; cbv zeta iota;
    repeat (rewrite <- ?Z.add_assoc, u32_add_l);
    (apply (f_equal2 pair); [apply (f_equal2 pair)|]);
    first [apply (f_equal (wrap 32)); lia | rewrite ?Z.mul_0_r, Z.add_0_r; symmetry; apply u32_small; lia].
Qed.

Lemma mix_reg3 a b c : reg3 a b c -> let '(a', b', c') := mix a b c in reg3 a' b' c'.
Proof.
  intros Hr. apply (mix_rounds a b c (fun '(a', b', c') => reg3 a' b' c') Hr).
  intros. assumption.
Qed.

Lemma lookup2_blocks_reg3 n bs a b c :
  reg3 a b c -> let '(a', b', c') := lookup2_blocks n bs a b c in reg3 a' b' c'.
Proof.
  revert bs a b c. induction n as [|n IH]; intros bs a b c Hr; cbn [lookup2_blocks]; [done|].
  match goal with |- context [mix ?x ?y ?z] => pose proof (mix_reg3 x y z) as H; destruct (mix x y z) as [[? ?] ?] end.
  apply IH, H. repeat split; apply u32_range.
Qed.

(** C39: [iterative_hash] is Jenkins' [lookup2] of the key's bytes, whatever
    the address and its alignment; in particular the word-at-a-time loop and
    the byte-at-a-time loop agree. *)
Theorem iterative_hash_lookup2 m k length initval :
  mem_ok m -> 0 <= length < 2 ^ 32 -> 0 <= initval < 2 ^ 32 ->
  iterative_hash m k length initval = Done (lookup2 (mgets m k (Z.to_nat length)) initval).
Proof.
  intros Hm Hl Hi. unfold iterative_hash, lookup2. rewrite (u32_small length) by lia. rewrite length_mgets.
  set (n := (Z.to_nat length / 12)%nat).
  assert (Hw : (if Z.land k 3 =? 0
    then hash_words word_aligned (S (Z.to_nat length)) m k length 0x9e3779b9 0x9e3779b9 initval
    else hash_words word_unaligned (S (Z.to_nat length)) m k length 0x9e3779b9 0x9e3779b9 initval)
    = hash_words word_aligned (S (Z.to_nat length)) m k length 0x9e3779b9 0x9e3779b9 initval).
  { destruct (_ =? _); [done|]. apply hash_words_ext. intros. by apply word_unaligned_ok. }
  rewrite Hw. clear Hw.
  pose proof (hash_words_spec (S (Z.to_nat length)) m k length 0x9e3779b9 0x9e3779b9 initval Hl ltac:(lia)) as H.
  pose proof (lookup2_blocks_reg3 n (mgets m k (Z.to_nat length)) 0x9e3779b9 0x9e3779b9 initval
    ltac:(unfold reg3; lia)) as Hr.
  cbv zeta in H. fold n in H. destruct (lookup2_blocks _ _ _ _ _) as [[a b] c]. rewrite H. cbn [rbind].
  assert (Hn : 0 <= length - 12 * Z.of_nat n < 12).
  { unfold n. pose proof (Nat.div_mod (Z.to_nat length) 12 ltac:(lia)).
    pose proof (Nat.mod_upper_bound (Z.to_nat length) 12 ltac:(lia)). lia. }
  destruct Hr as (Ra & Rb & Rc).
  rewrite hash_tail_spec by (try done; repeat split; try apply u32_range; lia).
  rewrite (drop_mgets m k (12 * n)), Z2Nat.id by lia.
  replace (k + Z.of_nat (12 * n)) with (k + 12 * Z.of_nat n) by lia.
  replace (Z.to_nat (length - 12 * Z.of_nat n)) with (Z.to_nat length - 12 * n)%nat by lia.
  destruct (mix _ _ _) as [[? ?] ?]. done.
Qed.

Example iterative_hash_unaligned :
  let m := mputs ∅ 4097 (le_enc 16 0x1234567890abcdef1122334455667788) in
  iterative_hash m 4097 16 7 = iterative_hash (mputs ∅ 4096 (mgets m 4097 16)) 4096 16 7.
Proof. vm_compute. reflexivity. Qed.

Lemma iterative_hash_lookup2_witness :
  let m := mputs ∅ 4097 (le_enc 16 0x1234567890abcdef1122334455667788) in
  iterative_hash m 4097 16 7 = Done (lookup2 (mgets m 4097 16) 7).
Proof.
  cbv zeta. apply (iterative_hash_lookup2 _ 4097 16 7).
  - apply mem_ok_mputs; [apply mem_ok_empty|apply le_enc_bytes].
  - lia.
  - lia.
Defined.

(** [mix] is reversible, as its comment says: [unmix] is its two-sided
    inverse on 32-bit registers. *)
Theorem mix_reversible a b c :
  reg3 a b c ->
  (let '(a', b', c') := mix a b c in unmix a' b' c' = (a, b, c)) /\
  (let '(a', b', c') := unmix a b c in mix a' b' c' = (a, b, c)).
Proof. intros H. split; [by apply unmix_mix|by apply mix_unmix]. Qed.

Lemma mix_reversible_witness :
  (let '(a', b', c') := mix 1 2 3 in unmix a' b' c' = (1, 2, 3)) /\
  (let '(a', b', c') := unmix 1 2 3 in mix a' b' c' = (1, 2, 3)).
Proof. apply (mix_reversible 1 2 3). unfold reg3. lia. Defined.

(** Both reductions of a 32-bit hash by a table size, which only multiply
    and shift, are exact for every entry of the table of primes. *)
Theorem htab_mod_1_exact x i e :
  prime_tab !! i = Some e -> 0 <= x < 2 ^ 32 ->
  htab_mod_1 x (prime_of e) (inv e) (shift e) = x mod prime_of e /\
  htab_mod_1 x (prime_of e - 2) (inv_m2 e) (shift e) = x mod (prime_of e - 2).
Proof.
  intros He Hx. pose proof (proj1 (Forall_lookup _ _) prime_tab_magic i e He) as [H1 H2].
  split; by apply mod_1_magic.
Qed.

Lemma htab_mod_1_exact_witness :
  htab_mod_1 4294967295 13 0x3b13b13c 3 = 4294967295 mod 13 /\
  htab_mod_1 4294967295 11 0x745d1747 3 = 4294967295 mod 11.
Proof. apply (htab_mod_1_exact 4294967295 1 (PrimeEnt 13 0x3b13b13c 0x745d1747 3) eq_refl). lia. Defined.
