(* ===== verification/Hashtab.v ===== *)
(** The expandable hash tables of [libiberty/hashtab.c]: open addressing with
    double hashing, against finite sets. *)
From Stdlib Require Import Znumtheory.
From S2P Require Import Prelude Bytes Hashfn.

(** ** The source *)

Definition HTAB_EMPTY_ENTRY : Z := 0.
Definition HTAB_DELETED_ENTRY : Z := 1.

Inductive insert_option := NO_INSERT | INSERT.

Definition lift {W A} (r : res A) : St W A := fun w =>
  match r with Done a => Done (a, w) | Undef => Undef | Hang => Hang end.

Section source.
(** [Cl] is the state of the program that uses the table: what its cleanup
    functions and its allocator change. *)
Context {Cl : Type}.

(** The function pointers of [struct htab]; a null pointer is [None]. An
    allocator behaves like [calloc] (its result is an address, 0 on failure),
    or ends the process like [xcalloc] ([None]). *)
Record htab_fns := HtabFns {
  hash_f : Z -> Z;
  eq_f : Z -> Z -> bool;
  del_f : option (Z -> Cl -> Cl);
  alloc_f : option (Z -> Z -> St Cl (option Z));
  free_f : option (Z -> Cl -> Cl);
  alloc_arg : Z;
  alloc_with_arg_f : option (Z -> Z -> Z -> St Cl (option Z));
  free_with_arg_f : option (Z -> Z -> Cl -> Cl) }.

(** The rest of [struct htab], with the address of the structure, and with the
    array [entries] as its address and its contents. *)
Record htab := Htab {
  self : Z;
  fns : htab_fns;
  entries_at : Z;
  entries : list Z;
  size : Z;
  n_elements : Z;
  n_deleted : Z;
  searches : Z;
  collisions : Z;
  size_prime_index : Z }.

Record world := World { tab : htab; cl : Cl }.

Definition on_tab (f : htab -> htab) (w : world) : world := World (f (tab w)) (cl w).
Definition on_cl (f : Cl -> Cl) (w : world) : world := World (tab w) (f (cl w)).

Definition set_array (a : Z) (l : list Z) (n i : Z) (h : htab) : htab :=
  Htab (self h) (fns h) a l n (n_elements h) (n_deleted h) (searches h) (collisions h) i.
Definition set_counts (e d : Z) (h : htab) : htab :=
  Htab (self h) (fns h) (entries_at h) (entries h) (size h) e d (searches h) (collisions h) (size_prime_index h).
Definition set_debug (s c : Z) (h : htab) : htab :=
  Htab (self h) (fns h) (entries_at h) (entries h) (size h) (n_elements h) (n_deleted h) s c (size_prime_index h).
Definition set_slot (i v : Z) (h : htab) : htab :=
  set_array (entries_at h) (<[Z.to_nat i := v]> (entries h)) (size h) (size_prime_index h) h.

(** [entries[i]] read and written; a slot is its index. *)
Definition read_slot (i : Z) : St world Z := fun w =>
  if i <? 0 then Undef else
  match entries (tab w) !! Z.to_nat i with Some x => Done (x, w) | None => Undef end.

Definition write_slot (i v : Z) : St world unit :=
  _ <- read_slot i ;; modify (on_tab (set_slot i v)).

Definition htab_size (h : htab) : Z := size h.
Definition htab_elements (h : htab) : Z := u64 (n_elements h - n_deleted h).

Definition htab_mod (hash : Z) (h : htab) : res Z :=
  let? p := prime_at (size_prime_index h) in
  Done (htab_mod_1 hash (prime_of p) (inv p) (shift p)).

Definition htab_mod_m2 (hash : Z) (h : htab) : res Z :=
  let? p := prime_at (size_prime_index h) in
  Done (u32 (1 + htab_mod_1 hash (u32 (prime_of p - 2)) (inv_m2 p) (shift p))).

Definition live (x : Z) : bool := negb (x =? HTAB_EMPTY_ENTRY) && negb (x =? HTAB_DELETED_ENTRY).

(** *** Creation *)

(** [calloc] clears the structure; the array holds [size] empty entries.
    112 is the size of [struct htab]. *)
Definition htab_create_typed_alloc (n : Z) (hash : Z -> Z) (eq : Z -> Z -> bool)
    (del : option (Z -> Cl -> Cl)) (alloc_tab_f alloc : Z -> Z -> St Cl (option Z))
    (free : option (Z -> Cl -> Cl)) : St Cl (option (option htab)) :=
  size_prime_index <-? lift (higher_prime_index n) ;;
  p <- lift (prime_at size_prime_index) ;;
  let size := prime_of p in
  result <-? alloc_tab_f 1 112 ;;
  if result =? 0 then ret (Some None) else
  a <-? alloc size 8 ;;
  if a =? 0 then
    match free with
    | Some f => modify (f result) ;;; ret (Some None)
    | None => ret (Some None)
    end
  else
    ret (Some (Some (Htab result (HtabFns hash eq del (Some alloc) free 0 None None)
                          a (replicate (Z.to_nat size) HTAB_EMPTY_ENTRY) size 0 0 0 0 size_prime_index))).

Definition htab_create_alloc n hash eq del alloc free :=
  htab_create_typed_alloc n hash eq del alloc alloc free.

Definition htab_create_alloc_ex (n : Z) (hash : Z -> Z) (eq : Z -> Z -> bool)
    (del : option (Z -> Cl -> Cl)) (arg : Z) (alloc : Z -> Z -> Z -> St Cl (option Z))
    (free : option (Z -> Z -> Cl -> Cl)) : St Cl (option (option htab)) :=
  size_prime_index <-? lift (higher_prime_index n) ;;
  p <- lift (prime_at size_prime_index) ;;
  let size := prime_of p in
  result <-? alloc arg 1 112 ;;
  if result =? 0 then ret (Some None) else
  a <-? alloc arg size 8 ;;
  if a =? 0 then
    match free with
    | Some f => modify (f arg result) ;;; ret (Some None)
    | None => ret (Some None)
    end
  else
    ret (Some (Some (Htab result (HtabFns hash eq del None None arg (Some alloc) free)
                          a (replicate (Z.to_nat size) HTAB_EMPTY_ENTRY) size 0 0 0 0 size_prime_index))).

Definition htab_set_functions_ex hash eq del arg alloc free : St world unit :=
  modify (on_tab (fun h =>
    Htab (self h) (HtabFns hash eq del (alloc_f (fns h)) (free_f (fns h)) arg alloc free)
      (entries_at h) (entries h) (size h) (n_elements h) (n_deleted h) (searches h) (collisions h)
      (size_prime_index h))).

(** [xcalloc] of [xmalloc.c]: the process exits when [calloc] fails. *)
Definition xcalloc (calloc : Z -> Z -> St Cl Z) (nelem elsize : Z) : St Cl (option Z) :=
  let '(nelem, elsize) := if (nelem =? 0) || (elsize =? 0) then (1, 1) else (nelem, elsize) in
  newmem <- calloc nelem elsize ;;
  if newmem =? 0 then ret None else ret (Some newmem).

Definition htab_create (calloc : Z -> Z -> St Cl Z) (free : Z -> Cl -> Cl) n hash eq del :=
  htab_create_alloc n hash eq del (xcalloc calloc) (Some free).

Definition htab_try_create (calloc : Z -> Z -> St Cl Z) (free : Z -> Cl -> Cl) n hash eq del :=
  htab_create_alloc n hash eq del (fun nelem elsize => p <- calloc nelem elsize ;; ret (Some p)) (Some free).

(** *** Cleanup *)

(** [for (i = n - 1; i >= 0; i--)] over the entries. *)
Fixpoint del_loop (del : Z -> Cl -> Cl) (n : nat) : St world unit :=
  match n with
  | O => ret tt
  | S i =>
      x <- read_slot (Z.of_nat i) ;;
      (if live x then modify (on_cl (del x)) else ret tt) ;;;
      del_loop del i
  end.

(** [i] is an [int], [size] a [size_t]. *)
Definition del_all (size : Z) : St world unit :=
  w <- get ;;
  match del_f (fns (tab w)) with
  | Some del => del_loop del (Z.to_nat (i32 (size - 1) + 1))
  | None => ret tt
  end.

(** [free_f] before [free_with_arg_f]; neither when both are null. *)
Definition free_block (p : Z) : St world unit :=
  w <- get ;;
  match free_f (fns (tab w)), free_with_arg_f (fns (tab w)) with
  | Some f, _ => modify (on_cl (f p))
  | None, Some f => modify (on_cl (f (alloc_arg (fns (tab w))) p))
  | None, None => ret tt
  end.

(** [alloc_with_arg_f] before [alloc_f]. *)
Definition alloc_entries (nsize : Z) : St world (option Z) :=
  w <- get ;;
  match alloc_with_arg_f (fns (tab w)), alloc_f (fns (tab w)) with
  | Some f, _ => zoom cl (fun c w => World (tab w) c) (f (alloc_arg (fns (tab w))) nsize 8)
  | None, Some f => zoom cl (fun c w => World (tab w) c) (f nsize 8)
  | None, None => undef
  end.

Definition htab_delete : St world unit :=
  w <- get ;;
  del_all (htab_size (tab w)) ;;;
  free_block (entries_at (tab w)) ;;;
  free_block (self (tab w)).

(** The result of the allocation is not checked: a null [entries] has no
    entry. *)
Definition fresh_entries (a n : Z) : list Z :=
  if a =? 0 then [] else replicate (Z.to_nat n) HTAB_EMPTY_ENTRY.

(** [memset (entries, 0, size * sizeof (void * ))]. *)
Definition clear_entries (size : Z) : St world unit := fun w =>
  if Z.of_nat (length (entries (tab w))) <? size then Undef
  else Done (tt, on_tab (fun h => set_array (entries_at h)
    (replicate (Z.to_nat size) HTAB_EMPTY_ENTRY ++ drop (Z.to_nat size) (entries h))
    (htab_size h) (size_prime_index h) h) w).

Definition htab_empty : St world (option unit) :=
  w <- get ;;
  let size := htab_size (tab w) in
  del_all size ;;;
  r <-? (if 1024 * 1024 / 8 <? size then
    nindex <-? lift (higher_prime_index (1024 / 8)) ;;
    p <- lift (prime_at nindex) ;;
    let nsize := prime_of p in
    free_block (entries_at (tab w)) ;;;
    a <-? alloc_entries nsize ;;
    modify (on_tab (set_array a (fresh_entries a nsize) nsize nindex)) ;;;
    ret (Some tt)
  else
    clear_entries size ;;;
    ret (Some tt)) ;;
  modify (on_tab (set_counts 0 0)) ;;;
  ret (Some tt).

(** *** Expansion *)

(** [index += hash2; if (index >= size) index -= size] on a [hashval_t]. *)
Definition next_index (index hash2 size : Z) : Z :=
  let index := u32 (index + hash2) in
  if size <=? index then u32 (index - size) else index.

(** The [for (;;)] loop; [None] is the call of [abort]. *)
Fixpoint expand_probe (fuel : nat) (index hash2 size : Z) : St world (option Z) :=
  match fuel with
  | O => hang
  | S fuel =>
      let index := next_index index hash2 size in
      slot <- read_slot index ;;
      if slot =? HTAB_EMPTY_ENTRY then ret (Some index)
      else if slot =? HTAB_DELETED_ENTRY then ret None
      else expand_probe fuel index hash2 size
  end.

Definition find_empty_slot_for_expand (fuel : nat) (hash : Z) : St world (option Z) :=
  w <- get ;;
  index <- lift (htab_mod hash (tab w)) ;;
  let size := htab_size (tab w) in
  slot <- read_slot index ;;
  if slot =? HTAB_EMPTY_ENTRY then ret (Some index)
  else if slot =? HTAB_DELETED_ENTRY then ret None
  else
    hash2 <- lift (htab_mod_m2 hash (tab w)) ;;
    expand_probe fuel index hash2 size.

(** The [do] loop over the old array. *)
Fixpoint rehash (fuel : nat) (oentries : list Z) : St world (option unit) :=
  match oentries with
  | [] => ret (Some tt)
  | x :: oentries =>
      if live x then
        w <- get ;;
        q <-? find_empty_slot_for_expand fuel (hash_f (fns (tab w)) x) ;;
        write_slot q x ;;;
        rehash fuel oentries
      else rehash fuel oentries
  end.

(** The size the next array gets, and its index. *)
Definition expand_size (h : htab) : St world (option (Z * Z)) :=
  let osize := size h in
  let elts := htab_elements h in
  if (osize <? u64 (elts * 2)) || ((u64 (elts * 8) <? osize) && (32 <? osize)) then
    nindex <-? lift (higher_prime_index (u64 (elts * 2))) ;;
    p <- lift (prime_at nindex) ;;
    ret (Some (prime_of p, nindex))
  else ret (Some (osize, size_prime_index h)).

(** The [do] loop reads an entry before it tests the limit. *)
Definition htab_expand (fuel : nat) : St world (option bool) :=
  w <- get ;;
  let oentries := entries (tab w) in
  r <-? expand_size (tab w) ;;
  let '(nsize, nindex) := r in
  nentries <-? alloc_entries nsize ;;
  if nentries =? 0 then ret (Some false) else
  modify (on_tab (set_array nentries (replicate (Z.to_nat nsize) HTAB_EMPTY_ENTRY) nsize nindex)) ;;;
  modify (on_tab (fun h => set_counts (u64 (n_elements h - n_deleted h)) 0 h)) ;;;
  (if (length oentries =? 0)%nat then undef else ret tt) ;;;
  _ <-? rehash fuel oentries ;;
  free_block (entries_at (tab w)) ;;;
  ret (Some true).

(** *** Search *)

Definition count_search : St world unit :=
  modify (on_tab (fun h => set_debug (u32 (searches h + 1)) (collisions h) h)).
Definition count_collision : St world unit :=
  modify (on_tab (fun h => set_debug (searches h) (u32 (collisions h + 1)) h)).

(** The condition that ends [htab_find_with_hash]. *)
Definition find_stop (h : htab) (entry element : Z) : bool :=
  (entry =? HTAB_EMPTY_ENTRY)
  || (negb (entry =? HTAB_DELETED_ENTRY) && eq_f (fns h) entry element).

Fixpoint find_probe (fuel : nat) (index hash2 size element : Z) : St world Z :=
  match fuel with
  | O => hang
  | S fuel =>
      count_collision ;;;
      let index := next_index index hash2 size in
      entry <- read_slot index ;;
      w <- get ;;
      if find_stop (tab w) entry element then ret entry
      else find_probe fuel index hash2 size element
  end.

Definition htab_find_with_hash (fuel : nat) (element hash : Z) : St world Z :=
  count_search ;;;
  w <- get ;;
  let size := htab_size (tab w) in
  index <- lift (htab_mod hash (tab w)) ;;
  entry <- read_slot index ;;
  if find_stop (tab w) entry element then ret entry
  else
    hash2 <- lift (htab_mod_m2 hash (tab w)) ;;
    find_probe fuel index hash2 size element.

Definition htab_find (fuel : nat) (element : Z) : St world Z :=
  w <- get ;;
  htab_find_with_hash fuel element (hash_f (fns (tab w)) element).

(** How the search for a slot ends: at the [empty_entry] label with the index
    and the first deleted slot met, or at an equal entry. *)
Inductive probe := Vacant (index : Z) (first_deleted_slot : option Z) | Found (index : Z).

(** What one entry decides: [inl] the search is over, [inr] it goes on. *)
Definition slot_test (h : htab) (entry element index : Z) (fd : option Z) : probe + option Z :=
  if entry =? HTAB_EMPTY_ENTRY then inl (Vacant index fd)
  else if entry =? HTAB_DELETED_ENTRY then
    inr (match fd with None => Some index | Some _ => fd end)
  else if eq_f (fns h) entry element then inl (Found index)
  else inr fd.

Fixpoint slot_probe (fuel : nat) (index hash2 size element : Z) (fd : option Z) : St world probe :=
  match fuel with
  | O => hang
  | S fuel =>
      count_collision ;;;
      let index := next_index index hash2 size in
      entry <- read_slot index ;;
      w <- get ;;
      match slot_test (tab w) entry element index fd with
      | inl p => ret p
      | inr fd => slot_probe fuel index hash2 size element fd
      end
  end.

(** From the first probe to the return; the outer option is the process, the
    inner one the null pointer. *)
Definition search_slot (fuel : nat) (element hash : Z) (insert : insert_option)
  : St world (option (option Z)) :=
  w <- get ;;
  let size := htab_size (tab w) in
  index <- lift (htab_mod hash (tab w)) ;;
  count_search ;;;
  entry <- read_slot index ;;
  p <- (match slot_test (tab w) entry element index None with
    | inl p => ret p
    | inr fd =>
        hash2 <- lift (htab_mod_m2 hash (tab w)) ;;
        slot_probe fuel index hash2 size element fd
    end) ;;
  match p, insert with
  | Found index, _ => ret (Some (Some index))
  | Vacant _ _, NO_INSERT => ret (Some None)
  | Vacant _ (Some slot), INSERT =>
      modify (on_tab (fun h => set_counts (n_elements h) (u64 (n_deleted h - 1)) h)) ;;;
      write_slot slot HTAB_EMPTY_ENTRY ;;;
      ret (Some (Some slot))
  | Vacant index None, INSERT =>
      modify (on_tab (fun h => set_counts (u64 (n_elements h + 1)) (n_deleted h) h)) ;;;
      ret (Some (Some index))
  end.

Definition htab_find_slot_with_hash (fuel : nat) (element hash : Z) (insert : insert_option)
  : St world (option (option Z)) :=
  w <- get ;;
  expanded <-? (match insert with
    | INSERT => if u64 (htab_size (tab w) * 3) <=? u64 (n_elements (tab w) * 4)
                then htab_expand fuel else ret (Some true)
    | NO_INSERT => ret (Some true)
    end) ;;
  if expanded then search_slot fuel element hash insert else ret (Some None).

Definition htab_find_slot (fuel : nat) (element : Z) (insert : insert_option) :=
  w <- get ;;
  htab_find_slot_with_hash fuel element (hash_f (fns (tab w)) element) insert.

(** *** Removal and traversal *)

Definition del_entry (slot : Z) : St world unit :=
  w <- get ;;
  match del_f (fns (tab w)) with
  | Some del => x <- read_slot slot ;; modify (on_cl (del x))
  | None => ret tt
  end ;;;
  write_slot slot HTAB_DELETED_ENTRY ;;;
  modify (on_tab (fun h => set_counts (n_elements h) (u64 (n_deleted h + 1)) h)).

Definition htab_remove_elt_with_hash (fuel : nat) (element hash : Z) : St world (option unit) :=
  slot <-? htab_find_slot_with_hash fuel element hash NO_INSERT ;;
  match slot with
  | None => ret (Some tt)
  | Some slot => del_entry slot ;;; ret (Some tt)
  end.

Definition htab_remove_elt (fuel : nat) (element : Z) : St world (option unit) :=
  w <- get ;;
  htab_remove_elt_with_hash fuel element (hash_f (fns (tab w)) element).

Definition htab_clear_slot (slot : Z) : St world (option unit) :=
  w <- get ;;
  if (slot <? 0) || (htab_size (tab w) <=? slot) then ret None else
  x <- read_slot slot ;;
  if negb (live x) then ret None else
  del_entry slot ;;;
  ret (Some tt).

(** The callback gets the slot; it may change the entries, not the array. *)
Fixpoint traverse_loop (n : nat) (slot : Z) (callback : Z -> St world bool) : St world unit :=
  match n with
  | O => ret tt
  | S n =>
      x <- read_slot slot ;;
      go_on <- (if live x then callback slot else ret true) ;;
      if go_on then traverse_loop n (slot + 1) callback else ret tt
  end.

(** A [do] loop: the first entry is read even in an empty array. *)
Definition htab_traverse_noresize (callback : Z -> St world bool) : St world unit :=
  w <- get ;;
  traverse_loop (Nat.max 1 (Z.to_nat (htab_size (tab w)))) 0 callback.

Definition htab_traverse (fuel : nat) (callback : Z -> St world bool) : St world (option unit) :=
  w <- get ;;
  let size := htab_size (tab w) in
  _ <-? (if (u64 (htab_elements (tab w) * 8) <? size) && (32 <? size)
         then htab_expand fuel else ret (Some true)) ;;
  htab_traverse_noresize callback ;;;
  ret (Some tt).
End source.

(** ** The largest size *)

Lemma read_slot_at {Cl} (w : @world Cl) i x :
  0 <= i -> entries (tab w) !! Z.to_nat i = Some x -> read_slot i w = Done (x, w).
Proof. intros Hi Hx. unfold read_slot. destruct (Z.ltb_spec i 0); [lia|]. by rewrite Hx. Qed.

(** An entry a search passes over. *)
Definition passes {Cl} (h : @htab Cl) (e i : Z) : Prop :=
  exists x, entries h !! Z.to_nat i = Some x /\ find_stop h x e = false.

Lemma find_probe_cycle {Cl} fuel e i (w : @world Cl) :
  passes (tab w) e 4 -> passes (tab w) e 2147483652 -> i = 4 \/ i = 2147483652 ->
  find_probe fuel i 2147483648 0xfffffffb e w = Hang.
Proof.
  revert i w. induction fuel as [|f IH]; intros i w H4 H5 Hi; [done|]. cbn [find_probe].
  unfold count_collision. erewrite bind_done by reflexivity. cbv beta zeta.
  set (w1 := on_tab _ w).
  assert (Hn : next_index i 2147483648 0xfffffffb = 4 \/ next_index i 2147483648 0xfffffffb = 2147483652)
    by (destruct Hi as [-> | ->]; vm_compute; tauto).
  generalize dependent (next_index i 2147483648 0xfffffffb). intros j Hj.
  assert (Hp : passes (tab w) e j) by (by destruct Hj as [-> | ->]). destruct Hp as (x & Hx & Hs).
  erewrite bind_done by (apply (read_slot_at w1); [lia|exact Hx]). erewrite bind_done by reflexivity. cbv beta.
  change (find_stop (tab w1) x e) with (find_stop (tab w) x e). rewrite Hs. by apply IH.
Qed.

(** C40: At the largest size of the table of primes the probe index wraps
    around 2^32 before it is compared with the size: a search for the hash
    2^31 - 1 that passes three entries only ever visits two slots, and never
    returns, however many entries are empty. *)
Theorem find_hangs {Cl} fuel e (h : @htab Cl) c :
  size h = 0xfffffffb -> size_prime_index h = 29 ->
  passes h e 2147483647 -> passes h e 4 -> passes h e 2147483652 ->
  htab_find_with_hash fuel e 2147483647 (World h c) = Hang.
Proof.
  intros Hs Hi (x & Hx & Hp) H4 H5. unfold htab_find_with_hash, count_search.
  erewrite bind_done by reflexivity. erewrite bind_done by reflexivity. cbv beta zeta. set (w1 := on_tab _ _).
  assert (E1 : htab_mod 2147483647 (tab w1) = Done 2147483647).
  { unfold htab_mod. change (size_prime_index (tab w1)) with (size_prime_index h). rewrite Hi. reflexivity. }
  assert (E2 : htab_mod_m2 2147483647 (tab w1) = Done 2147483648).
  { unfold htab_mod_m2. change (size_prime_index (tab w1)) with (size_prime_index h). rewrite Hi. reflexivity. }
  erewrite bind_done by (unfold lift; rewrite E1; reflexivity). cbv beta.
  erewrite bind_done by (apply (read_slot_at w1); [lia|exact Hx]). cbv beta.
  change (find_stop (tab w1) x e) with (find_stop h x e). rewrite Hp.
  erewrite bind_done by (unfold lift; rewrite E2; reflexivity). cbv beta.
  change (htab_size (tab w1)) with (size h). rewrite Hs.
  destruct fuel as [|f]; [done|]. cbn [find_probe]. unfold count_collision.
  erewrite bind_done by reflexivity. cbv beta zeta. set (w2 := on_tab _ w1).
  change (next_index 2147483647 2147483648 0xfffffffb) with 4. destruct H4 as (y & Hy & Hp4).
  erewrite bind_done by (apply (read_slot_at w2); [lia|exact Hy]). erewrite bind_done by reflexivity. cbv beta.
  change (find_stop (tab w2) y e) with (find_stop h y e). rewrite Hp4.
  apply find_probe_cycle; [by exists y|exact H5|by left].
Qed.

(** Three entries in more than four thousand million. *)
Definition sparse : list Z :=
  <[Z.to_nat 2147483647 := 16]> (<[Z.to_nat 4 := 24]> (<[Z.to_nat 2147483652 := 32]>
    (replicate (Z.to_nat 4294967291) HTAB_EMPTY_ENTRY))).

Lemma find_hangs_witness :
  let F := @HtabFns unit (fun x => x) Z.eqb None None None 0 None None in
  htab_find_with_hash 100 40 2147483647 (World (Htab 8 F 64 sparse 0xfffffffb 3 0 0 0 29) tt) = Hang.
Proof.
  intros F. assert (Hlt : forall i, 0 <= i < 4294967291 ->
    (Z.to_nat i < length (replicate (Z.to_nat 4294967291) HTAB_EMPTY_ENTRY))%nat)
    by (intros i Hi; rewrite length_replicate; apply Z2Nat.inj_lt; lia).
  assert (Hne : forall i j, 0 <= i -> 0 <= j -> i <> j -> Z.to_nat i <> Z.to_nat j)
    by (intros i j Hi Hj H E; apply H, Z2Nat.inj; done).
  apply find_hangs; [reflexivity|reflexivity|exists 16|exists 24|exists 32]; (split; [|reflexivity]); unfold entries, sparse.
  - apply list_lookup_insert_eq. rewrite !length_insert. apply Hlt. lia.
  - rewrite list_lookup_insert_ne by (apply Hne; lia). apply list_lookup_insert_eq.
    rewrite length_insert. apply Hlt. lia.
  - rewrite !list_lookup_insert_ne by (apply Hne; lia). apply list_lookup_insert_eq. apply Hlt. lia.
Defined.
