(* ===== verification/Hashset.v ===== *)
(** The hash tables of [Hashtab] hold finite sets: the probe sequences, the
    invariant of a table, and what each operation does to the set it holds. *)
From Stdlib Require Import Znumtheory.
From S2P Require Import Prelude Bytes Hashfn Hashtab.

(** ** Probe sequences *)

(** The slot of the [k]th probe, in a table of [p] entries. *)
Definition slot (p hash : Z) (k : nat) : Z := (hash mod p + Z.of_nat k * (1 + hash mod (p - 2))) mod p.

Lemma slot_range p hash k : 0 < p -> 0 <= slot p hash k < p.
Proof. intros. by apply Z.mod_pos_bound. Qed.

Lemma slot_0 p hash : slot p hash 0 = hash mod p.
Proof. unfold slot. by rewrite Z.mul_0_l, Z.add_0_r, Zmod_mod. Qed.

Lemma next_slot p hash k :
  2 < p <= 2147483647 -> next_index (slot p hash k) (1 + hash mod (p - 2)) p = slot p hash (S k).
Proof.
  intros Hp. unfold next_index. pose proof (slot_range p hash k ltac:(lia)) as Hs.
  pose proof (Z.mod_pos_bound hash (p - 2) ltac:(lia)) as Hm.
  rewrite (u32_small (slot p hash k + _)) by lia.
  assert (E : slot p hash (S k) = (slot p hash k + (1 + hash mod (p - 2))) mod p).
  { unfold slot. rewrite !Zplus_mod_idemp_l, <- (Z.add_assoc (hash mod p)), Zplus_mod_idemp_l, Nat2Z.inj_succ.
    by rewrite Z.mul_succ_l. }
  rewrite E. destruct (Z.leb_spec p (slot p hash k + (1 + hash mod (p - 2)))).
  - rewrite u32_small by lia. apply (Z.mod_unique_pos _ _ 1); lia.
  - symmetry. apply Z.mod_small. lia.
Qed.

(** The step is coprime to the size: the first [p] probes visit every slot. *)
Lemma slot_onto p hash j :
  prime p -> 2 < p -> 0 <= j < p -> exists k, (k < Z.to_nat p)%nat /\ slot p hash k = j.
Proof.
  intros Hpr Hp Hj. set (s := 1 + hash mod (p - 2)).
  assert (Hs : 1 <= s < p) by (unfold s; pose proof (Z.mod_pos_bound hash (p - 2)); lia).
  destruct (rel_prime_bezout _ _ (rel_prime_le_prime s p Hpr Hs)) as [u v Huv].
  exists (Z.to_nat ((u * (j - hash mod p)) mod p)).
  pose proof (Z.mod_pos_bound (u * (j - hash mod p)) p ltac:(lia)). split; [lia|].
  unfold slot. fold s. rewrite Z2Nat.id by lia.
  rewrite <- Zplus_mod_idemp_r, Zmult_mod_idemp_l, Zplus_mod_idemp_r.
  replace (hash mod p + u * (j - hash mod p) * s)
    with (hash mod p + (j - hash mod p) * (u * s)) by ring.
  replace (u * s) with (1 - v * p) by lia.
  replace (hash mod p + (j - hash mod p) * (1 - v * p)) with (j + (- ((j - hash mod p) * v)) * p) by ring.
  rewrite Z.mod_add by lia. by apply Z.mod_small.
Qed.

Lemma least (P : nat -> Prop) `{!forall k, Decision (P k)} k :
  P k -> exists K, (K <= k)%nat /\ P K /\ forall i, (i < K)%nat -> ~ P i.
Proof.
  induction k as [k IH] using lt_wf_ind. intros Hk.
  destruct (decide (Exists P (seq 0 k))) as [(i & Hi & HP)%Exists_exists|Hn].
  - apply elem_of_seq in Hi. destruct (IH i ltac:(lia) HP) as (K & ? & ? & ?). exists K. eauto with lia.
  - exists k. split; [done|]. split; [done|]. intros i Hi HP. apply Hn, Exists_exists. exists i.
    rewrite elem_of_seq. eauto with lia.
Qed.

(** ** Arrays of entries *)

Definition lives (l : list Z) : list Z := filter (fun x => live x = true) l.
Definition used (l : list Z) : list Z := filter (fun x => x <> HTAB_EMPTY_ENTRY) l.
Definition deleted (l : list Z) : list Z := filter (fun x => x = HTAB_DELETED_ENTRY) l.

Lemma live_spec x : live x = true <-> x <> HTAB_EMPTY_ENTRY /\ x <> HTAB_DELETED_ENTRY.
Proof. unfold live. rewrite andb_true_iff, !negb_true_iff, !Z.eqb_neq. done. Qed.

Lemma elem_of_lives x l : x ∈ lives l <-> live x = true /\ x ∈ l.
Proof. unfold lives. by rewrite list_elem_of_filter. Qed.

Lemma lives_cons x l : lives (x :: l) = if live x then x :: lives l else lives l.
Proof. unfold lives. rewrite filter_cons. by destruct (live x). Qed.

Lemma insert_perm (l : list Z) j y z : l !! j = Some y -> y :: <[j := z]> l ≡ₚ z :: l.
Proof.
  intros Hj. pose proof (lookup_lt_Some _ _ _ Hj). rewrite insert_take_drop by done.
  rewrite <- (take_drop_middle l j y Hj) at 3.
  rewrite <- Permutation_middle, <- Permutation_middle. apply Permutation_swap.
Qed.

Lemma used_split l : length (used l) = (length (lives l) + length (deleted l))%nat.
Proof.
  induction l as [|x l IH]; [done|]. unfold used, lives, deleted in *. rewrite !filter_cons.
  pose proof (live_spec x) as Hl.
  assert (HTAB_EMPTY_ENTRY <> HTAB_DELETED_ENTRY) by done.
  repeat case_decide; cbn [length]; try lia; exfalso; subst; tauto.
Qed.

Lemma some_empty l : (length (used l) < length l)%nat -> exists j : nat, l !! j = Some HTAB_EMPTY_ENTRY.
Proof.
  intros H. destruct (decide (HTAB_EMPTY_ENTRY ∈ l)) as [Hin|Hn]; [by apply list_elem_of_lookup_1|].
  exfalso. assert (Hl : used l = l); [|rewrite Hl in H; lia]. clear H.
  induction l as [|x l IH]; [done|]. unfold used in *. rewrite filter_cons.
  rewrite decide_True by set_solver. rewrite IH; set_solver.
Qed.

(** What a single change of an entry does to the three counts. *)
Lemma lives_fill l j y x :
  l !! j = Some y -> live y = false -> live x = true -> lives (<[j := x]> l) ≡ₚ x :: lives l.
Proof.
  intros Hj Hy Hx. pose proof (insert_perm l j y x Hj) as Hp.
  apply (filter_Permutation (fun x => live x = true)) in Hp. rewrite !filter_cons in Hp.
  rewrite decide_False, decide_True in Hp by congruence. done.
Qed.

Lemma lives_kill l j x y :
  l !! j = Some x -> live x = true -> live y = false -> x :: lives (<[j := y]> l) ≡ₚ lives l.
Proof.
  intros Hj Hx Hy. pose proof (insert_perm l j x y Hj) as Hp.
  apply (filter_Permutation (fun x => live x = true)) in Hp. rewrite !filter_cons in Hp.
  rewrite decide_True, decide_False in Hp by congruence. done.
Qed.

Lemma length_filter_insert (P : Z -> Prop) `{!forall x, Decision (P x)} (l : list Z) j y z :
  l !! j = Some y ->
  Z.of_nat (length (filter P (<[j := z]> l)))
  = Z.of_nat (length (filter P l)) + (if decide (P z) then 1 else 0) - (if decide (P y) then 1 else 0).
Proof.
  intros Hj. pose proof (insert_perm l j y z Hj) as Hp. apply (filter_Permutation P), Permutation_length in Hp.
  rewrite !filter_cons in Hp. repeat case_decide; cbn [length] in Hp; lia.
Qed.

(** ** The invariant *)

Section table.
Context {Cl : Type} (F : @htab_fns Cl).
Abbreviation hash := (hash_f F).
Abbreviation eq := (eq_f F).

(** The key functions fit together. *)
Class Keys : Prop := {
  hash_bound x : 0 <= hash x < 2 ^ 32;
  keq_refl x : eq x x = true;
  keq_sym x y : eq x y = true -> eq y x = true;
  keq_trans x y z : eq x y = true -> eq y z = true -> eq x z = true;
  keq_hash x y : eq x y = true -> hash x = hash y }.

Context {K : Keys}.

Definition entry_at (l : list Z) (p h : Z) (k : nat) : option Z := l !! Z.to_nat (slot p h k).

(** [x] is found by its probe sequence before an empty entry is. *)
Definition reached (l : list Z) (p x : Z) : Prop :=
  exists k, entry_at l p (hash x) k = Some x /\
            forall i, (i < k)%nat -> entry_at l p (hash x) i <> Some HTAB_EMPTY_ENTRY.

Record placed (l : list Z) (p : Z) : Prop := {
  placed_nodup : NoDup (lives l);
  placed_distinct x y : x ∈ lives l -> y ∈ lives l -> eq x y = true -> x = y;
  placed_reached x : x ∈ lives l -> reached l p x }.

(** The size is one of the first 29 primes: for the last one, see
    [Hashtab.find_hangs]. *)
Record sized (h : @htab Cl) (p : Z) : Prop := {
  sized_fns : fns h = F;
  sized_size : size h = p;
  sized_index : 0 <= size_prime_index h < 29;
  sized_prime : primes !! Z.to_nat (size_prime_index h) = Some p;
  sized_entries : length (entries h) = Z.to_nat p }.

Record counted (h : @htab Cl) : Prop := {
  counted_elements : n_elements h = Z.of_nat (length (used (entries h)));
  counted_deleted : n_deleted h = Z.of_nat (length (deleted (entries h)));
  counted_room : n_elements h < size h }.

Lemma prime_size i p : primes !! i = Some p -> prime p /\ 7 <= p < 2 ^ 32 /\ ((i < 29)%nat -> p <= 2147483647).
Proof.
  intros Hi. unfold primes in Hi. apply list_lookup_fmap_Some in Hi as (e & -> & He).
  split; [by apply (proj1 (Forall_lookup _ _) prime_tab_prime i e)|].
  assert (H : Forall (fun p => 7 <= p < 2 ^ 32) primes) by (apply (bool_decide_unpack _); vm_compute; exact I).
  assert (Hp : primes !! i = Some (prime_of e)) by (unfold primes; by rewrite list_lookup_fmap, He).
  pose proof (proj1 (Forall_lookup _ _) H i _ Hp). split; [done|]. intros Hi.
  destruct (decide (i = 28%nat)) as [->|]; [change (primes !! 28%nat) with (Some 2147483647) in Hp; simplify_eq; lia|].
  pose proof (primes_sorted i 28 _ 2147483647 Hp Logic.eq_refl).
  lia.
Qed.

Lemma sized_p h p : sized h p -> prime p /\ 7 <= p <= 2147483647.
Proof.
  intros [? ? Hi Hp ?]. destruct (prime_size _ _ Hp) as (? & ? & H). split; [done|]. split; [lia|]. apply H. lia.
Qed.

Lemma sized_mod h p x : sized h p -> 0 <= x < 2 ^ 32 ->
  htab_mod x h = Done (slot p x 0) /\ htab_mod_m2 x h = Done (1 + x mod (p - 2)).
Proof.
  intros Hs Hx. pose proof (sized_p h p Hs) as [_ Hp]. destruct Hs as [_ _ Hi Hpr _].
  unfold primes in Hpr. apply list_lookup_fmap_Some in Hpr as (e & -> & He).
  unfold htab_mod, htab_mod_m2, prime_at. rewrite He. cbn [rbind]. rewrite slot_0.
  pose proof (proj1 (Forall_lookup _ _) prime_tab_magic _ e He) as [H1 H2].
  rewrite (u32_small (prime_of e - 2)), !mod_1_magic by (done || lia).
  pose proof (Z.mod_pos_bound x (prime_of e - 2) ltac:(lia)). rewrite u32_small by lia. done.
Qed.

Lemma sized_debug s c h p : sized h p -> sized (set_debug s c h) p.
Proof. by intros []. Qed.

Lemma entry_lt l p h k x : entry_at l p h k = Some x -> (Z.to_nat (slot p h k) < length l)%nat.
Proof. apply lookup_lt_Some. Qed.

Lemma placed_fill l p e k y :
  (forall x, x ∈ lives l -> eq x e = false) ->
  placed l p -> live e = true -> entry_at l p (hash e) k = Some y -> live y = false ->
  (forall i, (i < k)%nat -> entry_at l p (hash e) i <> Some HTAB_EMPTY_ENTRY) ->
  0 < p ->
  placed (<[Z.to_nat (slot p (hash e) k) := e]> l) p.
Proof.
  intros Hne [Hnd Hd Hr] He Hk Hy Hbefore Hp. set (j := Z.to_nat (slot p (hash e) k)) in *.
  pose proof (lives_fill l j y e Hk Hy He) as Hperm. pose proof (live_spec e) as [Hle _]. specialize (Hle He).
  assert (Hin : forall x, x ∈ lives (<[j := e]> l) <-> x = e \/ x ∈ lives l)
    by (intros x; rewrite Hperm; set_solver).
  assert (Hmove : forall h i, entry_at l p h i <> Some HTAB_EMPTY_ENTRY ->
                              entry_at (<[j := e]> l) p h i <> Some HTAB_EMPTY_ENTRY).
  { intros h i Hi. unfold entry_at in *. rewrite list_lookup_insert. case_decide; [|done]. naive_solver. }
  split.
  - rewrite Hperm. constructor; [|done]. intros Hee. specialize (Hne e Hee). rewrite keq_refl in Hne. done.
  - intros x y'. rewrite !Hin. intros [->|Hx] [->|Hy'] E; [done|..|by apply Hd].
    + apply keq_sym in E. rewrite (Hne y' Hy') in E. done.
    + rewrite (Hne x Hx) in E. done.
  - intros x. rewrite Hin. intros [->|Hx].
    + exists k. split; [|by eauto]. unfold entry_at. rewrite list_lookup_insert, decide_True; [done|].
      split; [done|]. by apply lookup_lt_Some in Hk.
    + destruct (Hr x Hx) as (i & Hi & Hb). exists i. split; [|by eauto].
      unfold entry_at in *. rewrite list_lookup_insert. case_decide as Hj; [|done]. destruct Hj as [Hj _].
      assert (x = y) as -> by (unfold entry_at in Hk; fold j in Hk; rewrite <- Hj in Hi; congruence).
      apply elem_of_lives in Hx as [Hx _]. congruence.
Qed.

Lemma placed_kill l p j x :
  placed l p -> l !! j = Some x -> live x = true -> placed (<[j := HTAB_DELETED_ENTRY]> l) p.
Proof.
  intros [Hnd Hd Hr] Hj Hx. pose proof (lives_kill l j x HTAB_DELETED_ENTRY Hj Hx Logic.eq_refl) as Hperm.
  rewrite <- Hperm in Hnd. apply NoDup_cons in Hnd as [Hnx Hnd].
  assert (Hin : forall y, y ∈ lives (<[j := HTAB_DELETED_ENTRY]> l) -> y ∈ lives l)
    by (intros y; rewrite <- Hperm; set_solver).
  split; [done|by eauto|]. intros y Hy. destruct (Hr y (Hin y Hy)) as (k & Hk & Hb). exists k. split.
  - unfold entry_at in *. rewrite list_lookup_insert_ne; [done|]. intros ->.
    assert (y = x) as -> by congruence. done.
  - intros i Hi E. apply (Hb i Hi). unfold entry_at in *. rewrite list_lookup_insert in E.
    case_decide; [|done]. done.
Qed.

(** ** Searching *)

Lemma entry_some h p x k : sized h p -> exists y, entry_at (entries h) p x k = Some y.
Proof.
  intros Hs. pose proof (sized_p h p Hs) as [_ Hp]. apply lookup_lt_is_Some_2.
  rewrite (sized_entries h p Hs). pose proof (slot_range p x k ltac:(lia)). lia.
Qed.

(** How a search goes: it is over after [n] probes that go on. *)
Definition search_ends (h : @htab Cl) (p hs e : Z) (n : nat) (y : Z) : Prop :=
  (n < Z.to_nat p)%nat /\ entry_at (entries h) p hs n = Some y /\ find_stop h y e = true /\
  forall i, (i < n)%nat -> exists z, entry_at (entries h) p hs i = Some z /\ find_stop h z e = false.

Lemma find_stop_live h y e : sized h (size h) ->
  live y = true -> find_stop h y e = eq y e.
Proof.
  intros Hs Hy%live_spec. unfold find_stop. rewrite (sized_fns _ _ Hs).
  destruct (Z.eqb_spec y HTAB_EMPTY_ENTRY), (Z.eqb_spec y HTAB_DELETED_ENTRY); cbn; tauto || done.
Qed.

(** A search ends; it ends at the entry equal to [e], or at an empty one when
    the table holds no such entry. *)
Lemma search_outcome h p hs e :
  sized h p -> placed (entries h) p -> (length (used (entries h)) < Z.to_nat p)%nat ->
  (forall x, eq x e = true -> hash x = hs) ->
  exists n y, search_ends h p hs e n y /\
    (y = HTAB_EMPTY_ENTRY /\ (forall x, x ∈ lives (entries h) -> eq x e = false) \/
     live y = true /\ y ∈ lives (entries h) /\ eq y e = true).
Proof.
  intros Hs Hpl Hroom Hh. pose proof (sized_p h p Hs) as [Hpr Hp].
  destruct (some_empty (entries h)) as [j Hj]; [by rewrite (sized_entries h p Hs)|].
  pose proof (lookup_lt_Some _ _ _ Hj) as Hlt. rewrite (sized_entries h p Hs) in Hlt.
  destruct (slot_onto p hs (Z.of_nat j) Hpr ltac:(lia) ltac:(lia)) as (k & Hk & Hjk).
  set (P := fun i => find_stop h (default 0 (entry_at (entries h) p hs i)) e = true).
  destruct (least P k) as (n & Hn & HP & Hmin).
  { unfold P, entry_at. rewrite Hjk, Nat2Z.id, Hj. done. }
  destruct (entry_some h p hs n Hs) as [y Hy]. exists n, y. split.
  - split; [lia|]. split; [done|]. split; [unfold P in HP; by rewrite Hy in HP|].
    intros i Hi. destruct (entry_some h p hs i Hs) as [z Hz]. exists z. split; [done|].
    specialize (Hmin i Hi). unfold P in Hmin. rewrite Hz in Hmin. by apply not_true_is_false.
  - unfold P in HP. rewrite Hy in HP. cbn in HP. unfold find_stop in HP. rewrite (sized_fns h p Hs) in HP.
    destruct (decide (y = HTAB_EMPTY_ENTRY)) as [->|Hne].
    + left. split; [done|]. intros x Hx. apply not_true_is_false. intros E.
      destruct Hpl as [_ _ Hr]. destruct (Hr x Hx) as (i & Hi & Hb). rewrite (Hh x E) in Hi, Hb.
      destruct (lt_eq_lt_dec n i) as [[Hlt'| ->]|Hlt'].
      * by apply (Hb n Hlt').
      * apply elem_of_lives in Hx as [Hx _]. assert (x = HTAB_EMPTY_ENTRY) as -> by congruence. done.
      * apply (Hmin i Hlt'). unfold P. rewrite Hi. cbn. apply elem_of_lives in Hx as [Hx%live_spec _].
        unfold find_stop. rewrite (sized_fns h p Hs), E.
        destruct (Z.eqb_spec x HTAB_EMPTY_ENTRY), (Z.eqb_spec x HTAB_DELETED_ENTRY); cbn; tauto.
    + right. apply orb_true_iff in HP as [HP|HP]; [lia|]. apply andb_true_iff in HP as [HP1 HP2].
      assert (live y = true) by (apply live_spec; rewrite negb_true_iff, Z.eqb_neq in HP1; done).
      split; [done|]. split; [|done]. apply elem_of_lives. split; [done|].
      by apply list_elem_of_lookup_2 in Hy.
Qed.

(** A search changes the two debugging counters only. *)
Definition dbg (s c : Z) (w : @world Cl) : @world Cl := on_tab (set_debug s c) w.

Lemma read_slot_some (w : @world Cl) p hs k y :
  0 < p -> entry_at (entries (tab w)) p hs k = Some y -> read_slot (slot p hs k) w = Done (y, w).
Proof.
  intros Hp Hy. unfold read_slot. pose proof (slot_range p hs k Hp).
  destruct (Z.ltb_spec (slot p hs k) 0); [lia|]. unfold entry_at in Hy. by rewrite Hy.
Qed.

Lemma find_probe_run p hs e n y : 2 < p <= 2147483647 ->
  forall d fuel k w, search_ends (tab w) p hs e n y -> n = (k + S d)%nat -> (d < fuel)%nat ->
  exists c, find_probe fuel (slot p hs k) (1 + hs mod (p - 2)) p e w = Done (y, dbg (searches (tab w)) c w).
Proof.
  intros Hp. induction d as [|d IH]; intros fuel k w Hs Hn Hf; (destruct fuel as [|fuel]; [lia|]);
    cbn [find_probe]; unfold count_collision at 1;
    erewrite bind_done by reflexivity; cbv beta zeta; rewrite next_slot by done;
    set (w1 := on_tab _ w); destruct Hs as (Hlt & Hy & Hstop & Hgo).
  - replace (S k) with n by lia.
    erewrite bind_done by (apply read_slot_some; [lia|exact Hy]).
    erewrite bind_done by reflexivity. cbv beta.
    change (find_stop (tab w1) y e) with (find_stop (tab w) y e). rewrite Hstop. by eexists.
  - destruct (Hgo (S k) ltac:(lia)) as (z & Hz & Hzgo).
    erewrite bind_done by (apply read_slot_some; [lia|exact Hz]).
    erewrite bind_done by reflexivity. cbv beta.
    change (find_stop (tab w1) z e) with (find_stop (tab w) z e). rewrite Hzgo.
    destruct (IH fuel (S k) w1) as [c Hc]; [done|lia|lia|]. rewrite Hc. by eexists.
Qed.

Lemma find_with_hash_run p hs e n y fuel w :
  sized (tab w) p -> 0 <= hs < 2 ^ 32 -> search_ends (tab w) p hs e n y -> (Z.to_nat p <= fuel)%nat ->
  exists s c, htab_find_with_hash fuel e hs w = Done (y, dbg s c w).
Proof.
  intros Hs Hhs Hend Hf. pose proof (sized_p _ p Hs) as [_ Hp]. unfold htab_find_with_hash, count_search.
  erewrite bind_done by reflexivity. erewrite bind_done by reflexivity. cbv beta zeta.
  set (w1 := on_tab _ w). assert (Hs1 : sized (tab w1) p) by (by apply sized_debug).
  destruct (sized_mod _ p hs Hs1 Hhs) as [E1 E2].
  erewrite bind_done by (rewrite E1; reflexivity). cbv beta.
  destruct Hend as (Hlt & Hy & Hstop & Hgo). destruct n as [|n].
  - erewrite bind_done by (apply read_slot_some; [lia|exact Hy]). cbv beta.
    change (find_stop (tab w1) y e) with (find_stop (tab w) y e). rewrite Hstop. by do 2 eexists.
  - destruct (Hgo 0%nat ltac:(lia)) as (z & Hz & Hzgo).
    erewrite bind_done by (apply read_slot_some; [lia|exact Hz]). cbv beta.
    change (find_stop (tab w1) z e) with (find_stop (tab w) z e). rewrite Hzgo.
    erewrite bind_done by (rewrite E2; reflexivity). cbv beta.
    change (htab_size (tab w1)) with (size (tab w)). rewrite (sized_size _ p Hs).
    destruct (find_probe_run p hs e (S n) y ltac:(lia) n fuel 0 w1) as [c Hc]; [done|lia|lia|].
    rewrite Hc. by do 2 eexists.
Qed.

(** The slot search tests entries like the plain search, and remembers the
    first deleted slot. *)
Lemma slot_test_stop (h : @htab Cl) y e i fd : find_stop h y e = true ->
  slot_test h y e i fd = inl (if y =? HTAB_EMPTY_ENTRY then Vacant i fd else Found i).
Proof.
  unfold find_stop, slot_test. destruct (y =? HTAB_EMPTY_ENTRY); [done|].
  destruct (y =? HTAB_DELETED_ENTRY); [done|]. cbn. by intros ->.
Qed.

Lemma slot_test_go (h : @htab Cl) y e i fd : find_stop h y e = false ->
  slot_test h y e i fd = inr (if y =? HTAB_DELETED_ENTRY then match fd with None => Some i | Some _ => fd end else fd).
Proof.
  unfold find_stop, slot_test. destruct (y =? HTAB_EMPTY_ENTRY); [done|].
  destruct (y =? HTAB_DELETED_ENTRY); [done|]. cbn. by intros ->.
Qed.

Definition fd_ok (l : list Z) (p hs : Z) (n : nat) (fd : option Z) : Prop :=
  forall s, fd = Some s -> exists d, (d < n)%nat /\ s = slot p hs d /\ entry_at l p hs d = Some HTAB_DELETED_ENTRY.

Lemma fd_ok_step l p hs k fd z : fd_ok l p hs k fd -> entry_at l p hs k = Some z ->
  fd_ok l p hs (S k) (if z =? HTAB_DELETED_ENTRY
    then match fd with None => Some (slot p hs k) | Some _ => fd end else fd).
Proof.
  intros Hfd Hz s Hs. assert (Hold : fd = Some s -> exists d, (d < S k)%nat /\ s = slot p hs d /\
    entry_at l p hs d = Some HTAB_DELETED_ENTRY) by (intros E; destruct (Hfd s E) as (d & ? & ?); eauto with lia).
  destruct (Z.eqb_spec z HTAB_DELETED_ENTRY) as [->|]; [|by apply Hold].
  destruct fd; [by apply Hold|]. simplify_eq. exists k. eauto with lia.
Qed.

Definition probe_end (l : list Z) (p hs : Z) (n : nat) (y : Z) (pr : probe) : Prop :=
  exists fd, fd_ok l p hs n fd /\
    pr = if y =? HTAB_EMPTY_ENTRY then Vacant (slot p hs n) fd else Found (slot p hs n).

Lemma slot_probe_run p hs e n y : 2 < p <= 2147483647 ->
  forall d fuel k fd w, search_ends (tab w) p hs e n y -> n = (k + S d)%nat -> (d < fuel)%nat ->
  fd_ok (entries (tab w)) p hs (S k) fd ->
  exists pr c, slot_probe fuel (slot p hs k) (1 + hs mod (p - 2)) p e fd w = Done (pr, dbg (searches (tab w)) c w)
    /\ probe_end (entries (tab w)) p hs n y pr.
Proof.
  intros Hp. induction d as [|d IH]; intros fuel k fd w Hs Hn Hf Hfd; (destruct fuel as [|fuel]; [lia|]);
    cbn [slot_probe]; unfold count_collision at 1;
    erewrite bind_done by reflexivity; cbv beta zeta; rewrite next_slot by done;
    set (w1 := on_tab _ w); destruct Hs as (Hlt & Hy & Hstop & Hgo).
  - replace (S k) with n in * by lia.
    erewrite bind_done by (apply read_slot_some; [lia|exact Hy]).
    erewrite bind_done by reflexivity. cbv beta. rewrite slot_test_stop by exact Hstop.
    do 2 eexists. split; [reflexivity|]. by exists fd.
  - destruct (Hgo (S k) ltac:(lia)) as (z & Hz & Hzgo).
    erewrite bind_done by (apply read_slot_some; [lia|exact Hz]).
    erewrite bind_done by reflexivity. cbv beta. rewrite slot_test_go by exact Hzgo.
    destruct (IH fuel (S k) _ w1 (conj Hlt (conj Hy (conj Hstop Hgo))) ltac:(lia) ltac:(lia)
      (fd_ok_step _ _ _ _ _ _ Hfd Hz)) as (pr & c & Hc & He).
    rewrite Hc. by do 2 eexists.
Qed.

Lemma search_slot_run p hs e n y fuel ins w :
  sized (tab w) p -> 0 <= hs < 2 ^ 32 -> search_ends (tab w) p hs e n y -> (Z.to_nat p <= fuel)%nat ->
  exists pr s c, probe_end (entries (tab w)) p hs n y pr /\
    search_slot fuel e hs ins w =
    (match pr, ins with
     | Found i, _ => ret (Some (Some i))
     | Vacant _ _, NO_INSERT => ret (Some None)
     | Vacant _ (Some i), INSERT =>
         modify (on_tab (fun h => set_counts (n_elements h) (u64 (n_deleted h - 1)) h)) ;;;
         write_slot i HTAB_EMPTY_ENTRY ;;; ret (Some (Some i))
     | Vacant i None, INSERT =>
         modify (on_tab (fun h => set_counts (u64 (n_elements h + 1)) (n_deleted h) h)) ;;;
         ret (Some (Some i))
     end) (dbg s c w).
Proof.
  intros Hs Hhs Hend Hf. pose proof (sized_p _ p Hs) as [_ Hp]. unfold search_slot.
  destruct (sized_mod _ p hs Hs Hhs) as [E1 E2].
  erewrite bind_done by reflexivity. cbv beta zeta.
  erewrite bind_done by (rewrite E1; reflexivity). unfold count_search.
  erewrite bind_done by reflexivity. set (w1 := on_tab _ w).
  destruct Hend as (Hlt & Hy & Hstop & Hgo). destruct n as [|n].
  - erewrite bind_done by (apply read_slot_some; [lia|exact Hy]). cbv beta.
    rewrite slot_test_stop by exact Hstop.
    do 3 eexists. split; [|erewrite bind_done by reflexivity; reflexivity].
    exists None. done.
  - destruct (Hgo 0%nat ltac:(lia)) as (z & Hz & Hzgo).
    erewrite bind_done by (apply read_slot_some; [lia|exact Hz]). cbv beta.
    rewrite slot_test_go by exact Hzgo.
    change (htab_size (tab w)) with (size (tab w)). rewrite (sized_size _ p Hs).
    destruct (slot_probe_run p hs e (S n) y ltac:(lia) n fuel 0
      (if z =? HTAB_DELETED_ENTRY then Some (slot p hs 0) else None) w1
      (conj Hlt (conj Hy (conj Hstop Hgo))) ltac:(lia) ltac:(lia)
      (fd_ok_step _ _ _ 0 None _ ltac:(by intros ?) Hz)) as (pr & c & Hc & He).
    do 3 eexists. split; [exact He|].
    erewrite bind_done; [reflexivity|].
    erewrite bind_done by (rewrite E2; reflexivity). exact Hc.
Qed.

(** ** Expansion *)

Lemma expand_probe_run p hs n : 2 < p <= 2147483647 ->
  forall d fuel k (w : @world Cl), n = (k + S d)%nat -> (d < fuel)%nat ->
  entry_at (entries (tab w)) p hs n = Some HTAB_EMPTY_ENTRY ->
  (forall i, (i < n)%nat -> exists z, entry_at (entries (tab w)) p hs i = Some z /\ live z = true) ->
  expand_probe fuel (slot p hs k) (1 + hs mod (p - 2)) p w = Done (Some (slot p hs n), w).
Proof.
  intros Hp. induction d as [|d IH]; intros fuel k w Hn Hf Hy Hgo; (destruct fuel as [|fuel]; [lia|]);
    cbn [expand_probe]; rewrite next_slot by done.
  - replace (S k) with n by lia. erewrite bind_done by (apply read_slot_some; [lia|exact Hy]). done.
  - destruct (Hgo (S k) ltac:(lia)) as (z & Hz & Hl%live_spec).
    erewrite bind_done by (apply read_slot_some; [lia|exact Hz]). cbv beta.
    destruct (Z.eqb_spec z HTAB_EMPTY_ENTRY), (Z.eqb_spec z HTAB_DELETED_ENTRY); [tauto..|].
    apply IH; [lia|lia|done|done].
Qed.

Lemma find_empty_slot_run p hs fuel w :
  sized (tab w) p -> 0 <= hs < 2 ^ 32 -> (Z.to_nat p <= fuel)%nat ->
  (length (lives (entries (tab w))) < Z.to_nat p)%nat -> deleted (entries (tab w)) = [] ->
  exists n, find_empty_slot_for_expand fuel hs w = Done (Some (slot p hs n), w) /\
    entry_at (entries (tab w)) p hs n = Some HTAB_EMPTY_ENTRY /\
    forall i, (i < n)%nat -> entry_at (entries (tab w)) p hs i <> Some HTAB_EMPTY_ENTRY.
Proof.
  intros Hs Hhs Hf Hroom Hdel. pose proof (sized_p _ p Hs) as [Hpr Hp].
  set (l := entries (tab w)) in *. pose proof (used_split l) as Hu. rewrite Hdel in Hu. cbn in Hu.
  assert (Hlen : length l = Z.to_nat p) by apply (sized_entries _ p Hs).
  destruct (some_empty l) as [j Hj]; [lia|]. pose proof (lookup_lt_Some _ _ _ Hj) as Hlt.
  destruct (slot_onto p hs (Z.of_nat j) Hpr ltac:(lia) ltac:(lia)) as (k & Hk & Hjk).
  destruct (least (fun i => entry_at l p hs i = Some HTAB_EMPTY_ENTRY) k) as (n & Hn & Hnn & Hmin).
  { unfold entry_at. by rewrite Hjk, Nat2Z.id. }
  exists n. split; [|done].
  assert (Hgo : forall i, (i < n)%nat -> exists z, entry_at l p hs i = Some z /\ live z = true).
  { intros i Hi. destruct (entry_some _ p hs i Hs) as [z Hz]. fold l in Hz. exists z. split; [done|].
    apply live_spec. split; intros ->; [by apply (Hmin i)|].
    assert (HTAB_DELETED_ENTRY ∈ deleted l) as Hin; [|rewrite Hdel in Hin; by apply not_elem_of_nil in Hin].
    apply list_elem_of_filter. split; [done|]. by apply list_elem_of_lookup_2 in Hz. }
  unfold find_empty_slot_for_expand. destruct (sized_mod _ p hs Hs Hhs) as [E1 E2].
  erewrite bind_done by reflexivity. cbv beta. erewrite bind_done by (rewrite E1; reflexivity). cbv beta zeta.
  destruct n as [|n].
  - erewrite bind_done by (apply read_slot_some; [lia|exact Hnn]). done.
  - destruct (Hgo 0%nat ltac:(lia)) as (z & Hz & Hl%live_spec).
    erewrite bind_done by (apply read_slot_some; [lia|exact Hz]). cbv beta.
    destruct (Z.eqb_spec z HTAB_EMPTY_ENTRY), (Z.eqb_spec z HTAB_DELETED_ENTRY); [tauto..|].
    erewrite bind_done by (rewrite E2; reflexivity). cbv beta.
    change (htab_size (tab w)) with (size (tab w)). rewrite (sized_size _ p Hs).
    apply (expand_probe_run p hs (S n) ltac:(lia) n); [lia|lia|done|done].
Qed.

Definition with_entries (l : list Z) (w : @world Cl) : @world Cl :=
  on_tab (fun h => set_array (entries_at h) l (size h) (size_prime_index h) h) w.

Lemma write_slot_run (w : @world Cl) p hs k y v : 0 < p -> entry_at (entries (tab w)) p hs k = Some y ->
  write_slot (slot p hs k) v w = Done (tt, with_entries (<[Z.to_nat (slot p hs k) := v]> (entries (tab w))) w).
Proof. intros Hp Hy. unfold write_slot. by erewrite bind_done by (by eapply read_slot_some). Qed.

Lemma sized_with_entries l w p :
  sized (tab w) p -> length l = length (entries (tab w)) -> sized (tab (with_entries l w)) p.
Proof. intros [] Hl. split; try done. cbn. congruence. Qed.

Lemma deleted_insert l j y x :
  l !! j = Some y -> live y = false -> x <> HTAB_DELETED_ENTRY -> deleted l = [] ->
  y = HTAB_EMPTY_ENTRY -> deleted (<[j := x]> l) = [].
Proof.
  intros Hj _ Hx Hd ->. apply length_zero_iff_nil.
  pose proof (length_filter_insert (fun x => x = HTAB_DELETED_ENTRY) l j _ x Hj) as H.
  unfold deleted in *. rewrite Hd in H. rewrite !decide_False in H by done. cbn in H. lia.
Qed.

(** The keys of a list are all different. *)
Definition distinct (l : list Z) : Prop :=
  NoDup l /\ forall x y, x ∈ l -> y ∈ l -> eq x y = true -> x = y.

#[global] Instance distinct_perm : Proper (Permutation ==> iff) distinct.
Proof. intros l1 l2 E. unfold distinct. setoid_rewrite E. done. Qed.

Lemma distinct_cons x l : distinct (x :: l) -> distinct l /\ forall y, y ∈ l -> eq y x = false.
Proof.
  intros [Hn Hd]. apply NoDup_cons in Hn as [Hx Hn]. split; [split; [done|]|].
  - intros y z Hy Hz. apply Hd; set_solver.
  - intros y Hy. apply not_true_is_false. intros E. assert (y = x) as -> by (apply Hd; set_solver). done.
Qed.

Lemma rehash_run p fuel xs w :
  sized (tab w) p -> (Z.to_nat p <= fuel)%nat ->
  placed (entries (tab w)) p -> deleted (entries (tab w)) = [] ->
  distinct (lives xs ++ lives (entries (tab w))) ->
  (length (lives xs) + length (lives (entries (tab w))) < Z.to_nat p)%nat ->
  exists l, rehash fuel xs w = Done (Some tt, with_entries l w) /\ length l = length (entries (tab w)) /\
    placed l p /\ deleted l = [] /\ lives l ≡ₚ lives xs ++ lives (entries (tab w)).
Proof.
  revert w. induction xs as [|x xs IH]; intros w Hs Hf Hpl Hdel Hdist Hroom; cbn [rehash].
  { exists (entries (tab w)). split; [|done]. by destruct w as [[] ?]. }
  rewrite lives_cons in Hdist, Hroom |- *. destruct (live x) eqn:Hx; [|by apply IH].
  cbn [length app] in Hdist, Hroom |- *. pose proof (sized_p _ p Hs) as [Hpr Hp].
  destruct (find_empty_slot_run p (hash x) fuel w Hs (hash_bound x) Hf ltac:(lia) Hdel) as (n & E & Hn & Hmin).
  erewrite bind_done by reflexivity. cbv beta. rewrite (sized_fns _ p Hs).
  erewrite obind_done by exact E. cbv beta.
  erewrite bind_done by (eapply write_slot_run; [lia|exact Hn]). cbv beta.
  set (j := Z.to_nat (slot p (hash x) n)). set (l1 := <[j := x]> (entries (tab w))).
  pose proof (distinct_cons _ _ Hdist) as [_ Hnew].
  assert (Hperm : lives l1 ≡ₚ x :: lives (entries (tab w))) by (by eapply lives_fill).
  assert (Hpl1 : placed l1 p).
  { eapply placed_fill; [|done|done|exact Hn|done|exact Hmin|lia]. set_solver. }
  destruct (IH (with_entries l1 w)) as (l & E2 & Hlen & Hpl2 & Hdel2 & Hperm2).
  - apply sized_with_entries; [done|]. unfold l1. by rewrite length_insert.
  - done.
  - exact Hpl1.
  - unfold l1. eapply deleted_insert; [exact Hn|done| |done|done]. apply live_spec in Hx. tauto.
  - change (entries (tab (with_entries l1 w))) with l1. rewrite Hperm.
    by rewrite <- Permutation_middle.
  - change (entries (tab (with_entries l1 w))) with l1. rewrite Hperm. cbn [length]. lia.
  - exists l. rewrite E2. split; [done|]. split; [rewrite Hlen; unfold l1; apply length_insert|].
    split; [done|]. split; [done|]. rewrite Hperm2. change (entries (tab (with_entries l1 w))) with l1.
    rewrite Hperm. by rewrite <- Permutation_middle.
Qed.

Lemma free_block_run q (w : @world Cl) : exists c, free_block q w = Done (tt, World (tab w) c).
Proof.
  unfold free_block. erewrite bind_done by reflexivity. cbv beta.
  destruct (free_f _); [by eexists|]. destruct (free_with_arg_f _); [by eexists|]. exists (cl w). by destruct w.
Qed.

(** The allocator returns, possibly a null pointer. *)
Class Allocs : Prop := alloc_returns n (w : @world Cl) :
  fns (tab w) = F -> exists a c, alloc_entries n w = Done (Some a, World (tab w) c).

(** No null pointer. *)
Class AllocsAll : Prop := alloc_succeeds n (w : @world Cl) :
  fns (tab w) = F -> exists a c, alloc_entries n w = Done (Some a, World (tab w) c) /\ a <> 0.

#[export] Instance allocs_all `{!AllocsAll} : Allocs.
Proof. intros n w Hw. destruct (alloc_succeeds n w Hw) as (a & c & E & _). eauto. Qed.

Context {A : Allocs}.

Lemma elements_lives h : counted h -> size h <= 2147483647 -> htab_elements h = Z.of_nat (length (lives (entries h))).
Proof.
  intros [He Hd Hr] Hs. unfold htab_elements. pose proof (used_split (entries h)). rewrite u64_small; lia.
Qed.

(** The next size is at least twice the number of elements, and one of the
    first 29 primes. *)
Lemma expand_size_run (w : @world Cl) p :
  sized (tab w) p -> counted (tab w) -> 2 * Z.of_nat (length (lives (entries (tab w)))) <= 2147483647 ->
  exists nsize nindex, expand_size (tab w) w = Done (Some (nsize, nindex), w) /\
    0 <= nindex < 29 /\ primes !! Z.to_nat nindex = Some nsize /\
    2 * Z.of_nat (length (lives (entries (tab w)))) <= nsize <= 2147483647.
Proof.
  intros Hs Hc Hn. pose proof (sized_p _ p Hs) as [_ Hp]. unfold expand_size.
  rewrite elements_lives by (rewrite ?(sized_size _ p Hs); done || lia). rewrite (sized_size _ p Hs).
  set (n := Z.of_nat (length (lives _))) in *. rewrite (u64_small (n * 2)), (u64_small (n * 8)) by lia.
  destruct (Z.ltb_spec p (n * 2)) as [Hbig|Hle]; cbn [orb].
  2: destruct (_ && _); cbn [orb].
  3: { exists p, (size_prime_index (tab w)). destruct Hs. eauto with lia. }
  all: destruct (proj1 (higher_prime_index_spec (n * 2)) ltac:(lia)) as (i & e & E & Hi & He & Hge & Hmin);
    assert (Hpe : primes !! Z.to_nat i = Some (prime_of e)) by (unfold primes; by rewrite list_lookup_fmap, He);
    assert (Hi29 : i < 29) by (destruct (decide (i < 29)); [done|];
      specialize (Hmin 28%nat 2147483647 Logic.eq_refl ltac:(lia)); lia);
    pose proof (prime_size _ _ Hpe) as (_ & _ & Hle'); specialize (Hle' ltac:(lia));
    erewrite obind_done by (rewrite E; reflexivity); cbv beta;
    unfold prime_at; rewrite He; erewrite bind_done by reflexivity; cbv beta;
    exists (prime_of e), i; eauto with lia.
Qed.

Lemma lives_empty n : lives (replicate n HTAB_EMPTY_ENTRY) = [].
Proof. induction n as [|n IH]; [done|]. cbn [replicate]. by rewrite lives_cons. Qed.

Lemma deleted_empty n : deleted (replicate n HTAB_EMPTY_ENTRY) = [].
Proof. induction n as [|n IH]; [done|]. cbn [replicate]. unfold deleted. by rewrite filter_cons, decide_False. Qed.

Lemma placed_empty n p : placed (replicate n HTAB_EMPTY_ENTRY) p.
Proof. split; rewrite lives_empty; [constructor|intros x y Hx|intros x Hx]; by apply not_elem_of_nil in Hx. Qed.

Lemma htab_expand_run p w fuel :
  sized (tab w) p -> placed (entries (tab w)) p -> counted (tab w) ->
  2 * Z.of_nat (length (lives (entries (tab w)))) <= 2147483647 -> 2147483647 <= Z.of_nat fuel ->
  (exists c n, htab_expand fuel w = Done (Some false, World (tab w) c) /\
     alloc_entries n w = Done (Some 0, World (tab w) c)) \/
  (exists w' p', htab_expand fuel w = Done (Some true, w') /\
     sized (tab w') p' /\ placed (entries (tab w')) p' /\ counted (tab w') /\
     lives (entries (tab w')) ≡ₚ lives (entries (tab w)) /\ 2 * n_elements (tab w') <= p').
Proof.
  intros Hs Hpl Hc Hn Hf. destruct (expand_size_run w p Hs Hc Hn) as (nsize & nindex & E & Hi & Hpr & Hns).
  unfold htab_expand. erewrite bind_done by reflexivity. cbv beta zeta. erewrite obind_done by exact E. cbv beta iota.
  destruct (alloc_returns nsize w (sized_fns _ p Hs)) as (a & c & Ea). erewrite obind_done by exact Ea. cbv beta.
  destruct (Z.eqb_spec a 0) as [->|Ha]; [left; by exists c, nsize|right].
  erewrite bind_done by reflexivity. erewrite bind_done by reflexivity.
  set (w1 := on_tab _ (on_tab _ _)). pose proof (sized_p _ p Hs) as [_ Hp].
  pose proof (prime_size _ _ Hpr) as (Hprime & Hns7 & _).
  assert (Hlen : length (entries (tab w)) = Z.to_nat p) by apply (sized_entries _ p Hs).
  rewrite (proj2 (Nat.eqb_neq _ _)) by lia. erewrite bind_done by reflexivity.
  assert (Hs1 : sized (tab w1) nsize).
  { destruct Hs. split; try done. cbn. by rewrite length_replicate. }
  assert (Hl1 : entries (tab w1) = replicate (Z.to_nat nsize) HTAB_EMPTY_ENTRY) by done.
  destruct (rehash_run nsize fuel (entries (tab w)) w1) as (l & E2 & Hl & Hpl2 & Hdel2 & Hperm).
  - done.
  - lia.
  - apply placed_empty.
  - apply deleted_empty.
  - rewrite Hl1, lives_empty, app_nil_r. destruct Hpl as [H1 H2 _]. by split.
  - rewrite Hl1, lives_empty. cbn [length]. lia.
  - erewrite obind_done by exact E2. cbv beta.
    destruct (free_block_run (entries_at (tab w)) (with_entries l w1)) as [c2 E3].
    erewrite bind_done by exact E3. rewrite Hl1, lives_empty, app_nil_r in Hperm.
    assert (Hels : n_elements (tab w1) = Z.of_nat (length (lives (entries (tab w))))).
    { apply (elements_lives (tab w) Hc). rewrite (sized_size _ p Hs). lia. }
    pose proof (used_split l) as Hu. rewrite Hdel2 in Hu. cbn [length] in Hu.
    pose proof (Permutation_length Hperm).
    do 2 eexists. split; [reflexivity|]. cbn [tab]. split; [by apply sized_with_entries|].
    split; [exact Hpl2|]. split; [|split; [exact Hperm|cbn; cbn in Hels; lia]].
    split; change (entries (tab (with_entries l w1))) with l;
      change (n_elements (tab (with_entries l w1))) with (n_elements (tab w1));
      change (n_deleted (tab (with_entries l w1))) with 0;
      change (size (tab (with_entries l w1))) with nsize; [lia|by rewrite Hdel2|lia].
Qed.

(** ** The operations *)

Definition table (h : @htab Cl) : Prop := exists p, sized h p /\ placed (entries h) p /\ counted h.

Definition absent (l : list Z) (e : Z) : Prop := forall x, x ∈ lives l -> eq x e = false.

Lemma table_search h p e :
  sized h p -> placed (entries h) p -> counted h ->
  exists n y, search_ends h p (hash e) e n y /\
    (y = HTAB_EMPTY_ENTRY /\ absent (entries h) e \/
     live y = true /\ y ∈ lives (entries h) /\ eq y e = true).
Proof.
  intros Hs Hpl Hc. apply search_outcome; [done|done| |by intros x; apply keq_hash].
  destruct Hc as [He _ Hr]. rewrite (sized_size _ p Hs) in Hr. lia.
Qed.

Lemma htab_find_run e fuel w : table (tab w) -> 2147483647 <= Z.of_nat fuel ->
  exists r s c, htab_find fuel e w = Done (r, dbg s c w) /\
    (r = HTAB_EMPTY_ENTRY /\ absent (entries (tab w)) e \/ r ∈ lives (entries (tab w)) /\ eq r e = true).
Proof.
  intros (p & Hs & Hpl & Hc) Hf. destruct (table_search _ p e Hs Hpl Hc) as (n & y & Hend & Hy).
  pose proof (sized_p _ p Hs) as [_ Hp].
  destruct (find_with_hash_run p (hash e) e n y fuel w Hs (hash_bound e) Hend ltac:(lia)) as (s & c & E).
  exists y, s, c. split; [|tauto]. unfold htab_find. erewrite bind_done by reflexivity.
  by rewrite (sized_fns _ p Hs).
Qed.

(** The documented way to insert: a slot is asked for, and [e] is written
    into it when it is empty. 0: out of memory. *)
Definition htab_insert (fuel : nat) (e : Z) : St (@world Cl) (option Z) :=
  s <-? htab_find_slot fuel e INSERT ;;
  match s with
  | None => ret (Some HTAB_EMPTY_ENTRY)
  | Some s =>
      x <- read_slot s ;;
      if x =? HTAB_EMPTY_ENTRY then write_slot s e ;;; ret (Some e) else ret (Some x)
  end.

Lemma live_not_empty y : live y = true -> (y =? HTAB_EMPTY_ENTRY) = false.
Proof. intros [Hy _]%live_spec. by apply Z.eqb_neq. Qed.

Lemma insert_vacant w p e n fd :
  sized (tab w) p -> placed (entries (tab w)) p -> counted (tab w) -> n_elements (tab w) + 1 < p ->
  live e = true -> search_ends (tab w) p (hash e) e n HTAB_EMPTY_ENTRY -> absent (entries (tab w)) e ->
  fd_ok (entries (tab w)) p (hash e) n fd ->
  exists w', obind ((match fd with
     | Some i =>
         modify (on_tab (fun h => set_counts (n_elements h) (u64 (n_deleted h - 1)) h)) ;;;
         write_slot i HTAB_EMPTY_ENTRY ;;; ret (Some (Some i))
     | None =>
         modify (on_tab (fun h => set_counts (u64 (n_elements h + 1)) (n_deleted h) h)) ;;;
         ret (Some (Some (slot p (hash e) n)))
     end) : St world (option (option Z)))
    (fun s => match s with
     | None => ret (Some HTAB_EMPTY_ENTRY)
     | Some s => x <- read_slot s ;;
         if x =? HTAB_EMPTY_ENTRY then write_slot s e ;;; ret (Some e) else ret (Some x)
     end) w = Done (Some e, w') /\ table (tab w') /\ lives (entries (tab w')) ≡ₚ e :: lives (entries (tab w)).
Proof.
  intros Hs Hpl Hc Hroom He (Hlt & Hy & Hstop & Hgo) Habs Hfd. pose proof (sized_p _ p Hs) as [_ Hp].
  set (l := entries (tab w)) in *. destruct Hc as [Hel Hdl Hr]. fold l in Hel, Hdl.
  pose proof (live_spec e) as [He1 _]. specialize (He1 He) as [He0 He1].
  destruct fd as [i|].
  - destruct (Hfd i Logic.eq_refl) as (d & Hd & -> & Hdel). set (j := Z.to_nat (slot p (hash e) d)).
    erewrite obind_done.
    2: { erewrite bind_done by reflexivity. erewrite bind_done by (eapply write_slot_run; [lia|exact Hdel]). reflexivity. }
    cbv beta iota. set (w1 := with_entries _ _).
    assert (El1 : entries (tab w1) = <[j := HTAB_EMPTY_ENTRY]> l) by done.
    assert (Hat : entry_at (entries (tab w1)) p (hash e) d = Some HTAB_EMPTY_ENTRY).
    { rewrite El1. unfold entry_at, j. apply list_lookup_insert_eq. by apply (entry_lt l p (hash e) d HTAB_DELETED_ENTRY). }
    erewrite bind_done by (eapply read_slot_some; [lia|exact Hat]). cbv beta.
    cbn [Z.eqb HTAB_EMPTY_ENTRY]. erewrite bind_done by (eapply write_slot_run; [lia|exact Hat]).
    eexists. split; [reflexivity|]. rewrite El1. fold j. rewrite list_insert_insert_eq.
    split; [|by eapply lives_fill]. exists p. split; [|split].
    + apply sized_with_entries; [|by rewrite El1, !length_insert]. apply sized_with_entries; [by destruct Hs|].
      by rewrite length_insert.
    + eapply placed_fill; [exact Habs|done|done|exact Hdel|done| |lia].
      intros i Hi E. destruct (Hgo i ltac:(lia)) as (z & Hz & Hzgo). rewrite E in Hz. injection Hz as <-. done.
    + pose proof (length_filter_insert (fun x => x <> HTAB_EMPTY_ENTRY) l j _ e Hdel) as F1.
      pose proof (length_filter_insert (fun x => x = HTAB_DELETED_ENTRY) l j _ e Hdel) as F2.
      rewrite !decide_True in F1 by done. rewrite decide_False, decide_True in F2 by done.
      unfold used, deleted in *. pose proof (used_split l) as Hus.
      split; cbn -[u64]; [unfold used; lia| |rewrite (sized_size _ p Hs); lia].
      unfold deleted. rewrite u64_small; [lia|]. rewrite (sized_size _ p Hs) in Hr. unfold used, deleted in Hus. lia.
  - set (j := Z.to_nat (slot p (hash e) n)). erewrite obind_done by reflexivity. cbv beta iota.
    set (w1 := on_tab _ w).
    erewrite bind_done by (eapply (read_slot_some w1); [lia|exact Hy]). cbv beta.
    cbn [Z.eqb HTAB_EMPTY_ENTRY]. erewrite bind_done by (eapply (write_slot_run w1); [lia|exact Hy]).
    eexists. split; [reflexivity|]. fold j. change (entries (tab w1)) with l.
    split; [|by eapply lives_fill]. exists p. split; [|split].
    + apply sized_with_entries; [by destruct Hs|by rewrite length_insert].
    + eapply placed_fill; [exact Habs|done|done|exact Hy|done| |lia].
      intros i Hi E. destruct (Hgo i ltac:(lia)) as (z & Hz & Hzgo). rewrite E in Hz. injection Hz as <-. done.
    + pose proof (length_filter_insert (fun x => x <> HTAB_EMPTY_ENTRY) l j _ e Hy) as F1.
      pose proof (length_filter_insert (fun x => x = HTAB_DELETED_ENTRY) l j _ e Hy) as F2.
      rewrite decide_True, decide_False in F1 by (done || tauto). rewrite !decide_False in F2 by done.
      split; cbn -[u64]; unfold used, deleted in *; rewrite ?u64_small; rewrite ?(sized_size _ p Hs) in *; lia.
Qed.

(** The search for a slot to insert into, once there is room. *)
Lemma insert_search w p e fuel :
  sized (tab w) p -> placed (entries (tab w)) p -> counted (tab w) -> n_elements (tab w) + 1 < p ->
  live e = true -> (Z.to_nat p <= fuel)%nat ->
  exists r w', obind (search_slot fuel e (hash e) INSERT) (fun s => match s with
     | None => ret (Some HTAB_EMPTY_ENTRY)
     | Some s => x <- read_slot s ;;
         if x =? HTAB_EMPTY_ENTRY then write_slot s e ;;; ret (Some e) else ret (Some x)
     end) w = Done (Some r, w') /\ table (tab w') /\
    (r = e /\ absent (entries (tab w)) e /\ lives (entries (tab w')) ≡ₚ e :: lives (entries (tab w)) \/
     r ∈ lives (entries (tab w)) /\ eq r e = true /\ lives (entries (tab w')) = lives (entries (tab w))).
Proof.
  intros Hs Hpl Hc Hroom He Hf. destruct (table_search _ p e Hs Hpl Hc) as (n & y & Hend & Hy).
  destruct (search_slot_run p (hash e) e n y fuel INSERT w Hs (hash_bound e) Hend Hf) as (pr & s & c & (fd & Hfd & ->) & E).
  destruct Hy as [[-> Habs]|(Hl & Hin & Heq)].
  - cbn [Z.eqb HTAB_EMPTY_ENTRY] in E.
    destruct (insert_vacant (dbg s c w) p e n fd) as (w' & E2 & Ht & Hperm);
      [by apply sized_debug|done|by destruct Hc|done..|].
    exists e, w'. split; [|by eauto 6]. rewrite <- E2. unfold obind, bind. rewrite E. by destruct fd.
  - rewrite live_not_empty in E by done. exists y, (dbg s c w). split; [|split; [|by eauto]].
    + erewrite obind_done by exact E. cbv beta iota. destruct Hend as (_ & Hyn & _).
      pose proof (sized_p _ p Hs) as [_ Hp].
      erewrite bind_done by (eapply (read_slot_some (dbg s c w)); [lia|exact Hyn]).
      cbv beta. by rewrite live_not_empty.
    + exists p. split; [by apply sized_debug|]. split; [done|]. by destruct Hc.
Qed.

Lemma htab_insert_run e fuel w :
  table (tab w) -> live e = true -> 2147483647 <= Z.of_nat fuel ->
  2 * Z.of_nat (length (lives (entries (tab w)))) <= 2147483647 ->
  (exists c n, htab_insert fuel e w = Done (Some HTAB_EMPTY_ENTRY, World (tab w) c) /\
     alloc_entries n w = Done (Some 0, World (tab w) c)) \/
  exists r w', htab_insert fuel e w = Done (Some r, w') /\ table (tab w') /\
    (r = e /\ absent (entries (tab w)) e /\ lives (entries (tab w')) ≡ₚ e :: lives (entries (tab w)) \/
     r ∈ lives (entries (tab w)) /\ eq r e = true /\ lives (entries (tab w')) ≡ₚ lives (entries (tab w))).
Proof.
  intros (p & Hs & Hpl & Hc) He Hf Hn. pose proof (sized_p _ p Hs) as [_ Hp].
  pose proof (counted_elements _ Hc) as Hel. pose proof (counted_room _ Hc) as Hroom.
  rewrite (sized_size _ p Hs) in Hroom.
  assert (Hpre : htab_find_slot fuel e INSERT w = obind
      (if p * 3 <=? n_elements (tab w) * 4 then htab_expand fuel else ret (Some true))
      (fun expanded => if expanded then search_slot fuel e (hash e) INSERT else ret (Some None)) w).
  { unfold htab_find_slot. erewrite bind_done by reflexivity. rewrite (sized_fns _ p Hs).
    unfold htab_find_slot_with_hash. erewrite bind_done by reflexivity.
    change (htab_size (tab w)) with (size (tab w)). rewrite (sized_size _ p Hs).
    by rewrite (u64_small (p * 3)), (u64_small (n_elements (tab w) * 4)) by lia. }
  destruct (Z.leb_spec (p * 3) (n_elements (tab w) * 4)) as [Hfull|Hfree].
  - destruct (htab_expand_run p w fuel Hs Hpl Hc Hn Hf) as
      [(c & n & E & Ea)|(w1 & p1 & E & Hs1 & Hpl1 & Hc1 & Hperm & Hhalf)].
    + left. exists c, n. split; [|done]. unfold htab_insert. rewrite (obind_done _ _ _ _ _ E) in Hpre.
      by rewrite (obind_done _ _ _ _ _ Hpre).
    + right. rewrite (obind_done _ _ _ _ _ E) in Hpre. cbv beta iota in Hpre. pose proof (sized_p _ p1 Hs1) as [_ Hp1].
      destruct (insert_search w1 p1 e fuel Hs1 Hpl1 Hc1 ltac:(lia) He ltac:(lia)) as (r & w' & E2 & Ht & Hr).
      exists r, w'. split; [rewrite <- E2; unfold htab_insert; apply obind_eq; exact Hpre|]. split; [done|].
      destruct Hr as [(-> & Ha & Hl)|(Hin & Heq & Hl)]; [left|right].
      * split; [done|]. split; [intros x Hx; apply Ha; by rewrite Hperm|by rewrite Hl, Hperm].
      * split; [by rewrite <- Hperm|]. split; [done|]. by rewrite Hl, Hperm.
  - right. rewrite (obind_done (ret (Some true)) _ w true w Logic.eq_refl) in Hpre. cbv beta iota in Hpre.
    destruct (insert_search w p e fuel Hs Hpl Hc ltac:(lia) He ltac:(lia)) as (r & w' & E2 & Ht & Hr).
    exists r, w'. split; [rewrite <- E2; unfold htab_insert; apply obind_eq; exact Hpre|]. split; [done|].
    destruct Hr as [Hr|(? & ? & ->)]; [by left|by right].
Qed.

(** Cleaning up an entry changes the program's state only. *)
Lemma del_entry_run (w : @world Cl) p hs k x :
  0 < p -> entry_at (entries (tab w)) p hs k = Some x ->
  exists c, del_entry (slot p hs k) w = Done (tt, on_tab (fun h => set_counts (n_elements h) (u64 (n_deleted h + 1)) h)
     (World (tab (with_entries (<[Z.to_nat (slot p hs k) := HTAB_DELETED_ENTRY]> (entries (tab w))) w)) c)).
Proof.
  intros Hp Hx. unfold del_entry. erewrite bind_done by reflexivity. cbv beta.
  set (w0 := fun c => World (tab w) c). assert (Hdel : exists c, (match del_f (fns (tab w)) with
    | Some del => x <- read_slot (slot p hs k) ;; modify (on_cl (del x))
    | None => ret tt end) w = Done (tt, w0 c)).
  { destruct (del_f (fns (tab w))) as [del|]; [|exists (cl w); by destruct w].
    erewrite bind_done by (eapply read_slot_some; done). by eexists. }
  destruct Hdel as [c E]. erewrite bind_done by exact E.
  erewrite bind_done by (eapply (write_slot_run (w0 c)); [done|exact Hx]). by exists c.
Qed.

Lemma htab_remove_run e fuel w :
  table (tab w) -> 2147483647 <= Z.of_nat fuel ->
  exists w', htab_remove_elt fuel e w = Done (Some tt, w') /\ table (tab w') /\
    (absent (entries (tab w)) e /\ lives (entries (tab w')) = lives (entries (tab w)) \/
     exists x, eq x e = true /\ x :: lives (entries (tab w')) ≡ₚ lives (entries (tab w))).
Proof.
  intros (p & Hs & Hpl & Hc) Hf. pose proof (sized_p _ p Hs) as [_ Hp].
  destruct (table_search _ p e Hs Hpl Hc) as (n & y & Hend & Hy).
  destruct (search_slot_run p (hash e) e n y fuel NO_INSERT w Hs (hash_bound e) Hend ltac:(lia))
    as (pr & s & c & (fd & Hfd & ->) & E).
  assert (Hpre : htab_find_slot_with_hash fuel e (hash e) NO_INSERT w = search_slot fuel e (hash e) NO_INSERT w) by done.
  unfold htab_remove_elt, htab_remove_elt_with_hash. erewrite bind_done by reflexivity. rewrite (sized_fns _ p Hs).
  erewrite (obind_eq _ _ _ _ _ Hpre). destruct Hy as [[-> Habs]|(Hl & Hin & Heq)].
  - erewrite obind_done by (rewrite E; by destruct fd). cbv beta iota.
    exists (dbg s c w). split; [done|]. split; [|by left].
    exists p. split; [by apply sized_debug|]. split; [done|]. by destruct Hc.
  - rewrite live_not_empty in E by done. erewrite obind_done by exact E. cbv beta iota.
    destruct Hend as (_ & Hyn & _).
    destruct (del_entry_run (dbg s c w) p (hash e) n y ltac:(lia) Hyn) as [c2 E2].
    erewrite bind_done by exact E2. eexists. split; [reflexivity|].
    set (l := entries (tab w)) in *. set (j := Z.to_nat (slot p (hash e) n)).
    assert (Hk : y :: lives (<[j := HTAB_DELETED_ENTRY]> l) ≡ₚ lives l) by (by eapply lives_kill).
    split; [|right; by exists y]. exists p. split; [|split].
    + destruct Hs. split; try done. cbn. by rewrite length_insert.
    + by eapply placed_kill.
    + destruct Hc as [Hel Hdl Hr]. pose proof (live_spec y) as [Hy _]. specialize (Hy Hl) as [Hy0 Hy1].
      pose proof (length_filter_insert (fun x => x <> HTAB_EMPTY_ENTRY) l j _ HTAB_DELETED_ENTRY Hyn) as F1.
      pose proof (length_filter_insert (fun x => x = HTAB_DELETED_ENTRY) l j _ HTAB_DELETED_ENTRY Hyn) as F2.
      rewrite !decide_True in F1 by done. rewrite decide_True, decide_False in F2 by done.
      pose proof (used_split l). rewrite (sized_size _ p Hs) in Hr.
      split; cbn -[u64]; fold l in Hel, Hdl; fold l j; unfold used, deleted in *;
        rewrite ?u64_small; rewrite ?(sized_size _ p Hs); lia.
Qed.
(** *** Cleaning up *)

Lemma read_slot_nat (w : @world Cl) i x : entries (tab w) !! i = Some x -> read_slot (Z.of_nat i) w = Done (x, w).
Proof.
  intros Hx. unfold read_slot. destruct (Z.ltb_spec (Z.of_nat i) 0); [lia|]. by rewrite Nat2Z.id, Hx.
Qed.

(** The entries are cleaned from the last to the first, the live ones once
    each. *)
Definition clean (del : Z -> Cl -> Cl) (l : list Z) (c : Cl) : Cl :=
  foldl (fun c x => del x c) c (reverse (lives l)).

Lemma del_loop_run del n (w : @world Cl) : (n <= length (entries (tab w)))%nat ->
  del_loop del n w = Done (tt, World (tab w) (foldl (fun c x => del x c) (cl w) (reverse (lives (take n (entries (tab w))))))).
Proof.
  revert w. induction n as [|n IH]; intros w Hn; cbn [del_loop].
  { by destruct w. }
  destruct (lookup_lt_is_Some_2 (entries (tab w)) n) as [x Hx]; [lia|].
  erewrite bind_done by (by apply read_slot_nat). cbv beta.
  rewrite (take_S_r _ _ _ Hx). unfold clean, lives. rewrite filter_app. fold (lives (take n (entries (tab w)))).
  rewrite reverse_app, foldl_app. fold (lives [x]). rewrite lives_cons.
  destruct (live x); erewrite bind_done by reflexivity; rewrite IH by (cbn; lia); done.
Qed.

Definition clean_all (l : list Z) (c : Cl) : Cl :=
  match del_f F with Some del => clean del l c | None => c end.

Definition freed (q : Z) (c : Cl) : Cl :=
  match free_f F, free_with_arg_f F with
  | Some f, _ => f q c
  | None, Some f => f (alloc_arg F) q c
  | None, None => c
  end.

Lemma free_block_freed q (w : @world Cl) : fns (tab w) = F -> free_block q w = Done (tt, World (tab w) (freed q (cl w))).
Proof.
  intros Hf. unfold free_block, freed. erewrite bind_done by reflexivity. cbv beta. rewrite Hf.
  destruct (free_f F); [done|]. destruct (free_with_arg_f F); [done|]. by destruct w.
Qed.

Lemma del_all_run p (w : @world Cl) : sized (tab w) p ->
  del_all (htab_size (tab w)) w = Done (tt, World (tab w) (clean_all (entries (tab w)) (cl w))).
Proof.
  intros Hs. pose proof (sized_p _ p Hs) as [_ Hp]. unfold del_all, clean_all.
  erewrite bind_done by reflexivity. cbv beta. rewrite (sized_fns _ p Hs).
  destruct (del_f F) as [del|]; [|by destruct w].
  change (htab_size (tab w)) with (size (tab w)). rewrite (sized_size _ p Hs), i32_small by lia.
  pose proof (sized_entries _ p Hs) as Hl. rewrite del_loop_run by lia.
  by rewrite firstn_all2 by lia.
Qed.

(** Deleting a table cleans its live entries, then frees the array, then the
    structure. *)
Lemma htab_delete_run w : table (tab w) ->
  htab_delete w = Done (tt, World (tab w)
    (freed (self (tab w)) (freed (entries_at (tab w)) (clean_all (entries (tab w)) (cl w))))).
Proof.
  intros (p & Hs & _ & _). unfold htab_delete. erewrite bind_done by reflexivity. cbv beta.
  rewrite (bind_done _ _ _ _ _ (del_all_run p w Hs)).
  rewrite (bind_done _ _ _ _ _ (free_block_freed _ (World (tab w) _) (sized_fns _ p Hs))).
  by rewrite (free_block_freed _ (World (tab w) _) (sized_fns _ p Hs)).
Qed.

Lemma table_clear i n p h : primes !! Z.to_nat i = Some p -> 0 <= i < 29 -> fns h = F -> size h = p -> size_prime_index h = i ->
  entries h = replicate (Z.to_nat p) HTAB_EMPTY_ENTRY -> n_elements h = 0 -> n_deleted h = 0 -> n = p ->
  table h /\ lives (entries h) = [].
Proof.
  intros Hi Hr Hf Hn Hsi He Hne Hnd ->. pose proof (prime_size _ _ Hi) as (_ & ? & _). rewrite He. split; [|apply lives_empty].
  exists p. rewrite He. split; [|split].
  - split; try done; [lia|by rewrite Hsi|by rewrite He, length_replicate].
  - apply placed_empty.
  - split; rewrite ?He, ?Hn; [|by rewrite deleted_empty|lia].
    by rewrite used_split, lives_empty, deleted_empty.
Qed.

Lemma htab_empty_run `{!AllocsAll} w : table (tab w) ->
  exists w', htab_empty w = Done (Some tt, w') /\ table (tab w') /\ lives (entries (tab w')) = [].
Proof.
  intros (p & Hs & _ & _). pose proof (sized_p _ p Hs) as [_ Hp]. unfold htab_empty.
  erewrite bind_done by reflexivity. cbv beta zeta.
  rewrite (bind_done _ _ _ _ _ (del_all_run p w Hs)). set (w1 := World (tab w) _).
  change (htab_size (tab w)) with (size (tab w)). rewrite (sized_size _ p Hs).
  destruct (Z.ltb_spec (1024 * 1024 / 8) p) as [Hbig|_].
  - destruct (alloc_succeeds 251 (World (tab w) (freed (entries_at (tab w)) (cl w1))) (sized_fns _ p Hs))
      as (a & c & Ea & Ha).
    erewrite obind_done.
    2: { erewrite obind_done by reflexivity. erewrite bind_done by reflexivity. cbv beta zeta.
         rewrite (bind_done _ _ _ _ _ (free_block_freed _ w1 (sized_fns _ p Hs))).
         change (prime_of _) with 251. rewrite (obind_done _ _ _ _ _ Ea).
         erewrite bind_done by reflexivity. reflexivity. }
    cbv beta. erewrite bind_done by reflexivity. eexists. split; [reflexivity|].
    apply (table_clear 5 251 251); try done; [by destruct Hs|].
    cbn [tab on_tab set_counts set_array entries]. unfold fresh_entries. by rewrite (proj2 (Z.eqb_neq a 0) Ha).
  - erewrite obind_done.
    2: { unfold clear_entries. erewrite bind_done; [reflexivity|].
         change (entries (tab w1)) with (entries (tab w)). rewrite (sized_entries _ p Hs).
         destruct (Z.ltb_spec (Z.of_nat (Z.to_nat p)) p); [lia|]. reflexivity. }
    cbv beta. erewrite bind_done by reflexivity. eexists. split; [reflexivity|]. destruct Hs as [Hsf Hss Hsi Hsp Hse].
    apply (table_clear (size_prime_index (tab w)) p p); try done.
    cbn [tab on_tab set_counts set_array entries w1]. rewrite drop_ge by lia. apply app_nil_r.
Qed.

(** *** Traversal *)

(** A callback that looks at the entry of its slot and at the program's
    state, and may stop. *)
Definition visitor (visit : Z -> Cl -> bool * Cl) (slot : Z) : St (@world Cl) bool :=
  x <- read_slot slot ;;
  w <- get ;;
  let '(b, c) := visit x (cl w) in
  put (World (tab w) c) ;;; ret b.

Fixpoint visits (visit : Z -> Cl -> bool * Cl) (l : list Z) (c : Cl) : Cl :=
  match l with
  | [] => c
  | x :: l => let '(b, c) := visit x c in if b then visits visit l c else c
  end.

Lemma traverse_loop_run visit n i (w : @world Cl) : (i + n <= length (entries (tab w)))%nat ->
  traverse_loop n (Z.of_nat i) (visitor visit) w
  = Done (tt, World (tab w) (visits visit (lives (take n (drop i (entries (tab w))))) (cl w))).
Proof.
  revert i w. induction n as [|n IH]; intros i w Hn; cbn [traverse_loop]; [by destruct w|].
  destruct (lookup_lt_is_Some_2 (entries (tab w)) i) as [x Hx]; [lia|].
  rewrite (bind_done _ _ _ _ _ (read_slot_nat w i x Hx)).
  replace (Z.of_nat i + 1) with (Z.of_nat (S i)) by lia.
  rewrite (drop_S _ _ _ Hx). cbn [take]. rewrite lives_cons. destruct (live x).
  - assert (Hv : visitor visit (Z.of_nat i) w = Done (fst (visit x (cl w)), World (tab w) (snd (visit x (cl w))))).
    { unfold visitor. rewrite (bind_done _ _ _ _ _ (read_slot_nat w i x Hx)). unfold bind, get.
      by destruct (visit x (cl w)). }
    rewrite (bind_done _ _ _ _ _ Hv). cbn [visits]. destruct (visit x (cl w)) as [[] c]; [|done].
    cbn [fst snd]. rewrite IH by (cbn; lia). done.
  - erewrite bind_done by reflexivity. cbv beta iota. by rewrite IH by lia.
Qed.

(** A traversal visits the elements of the set once each, until the callback
    stops it. *)
Lemma htab_traverse_run visit fuel w : table (tab w) -> 2147483647 <= Z.of_nat fuel ->
  2 * Z.of_nat (length (lives (entries (tab w)))) <= 2147483647 ->
  exists w1, htab_traverse fuel (visitor visit) w
      = Done (Some tt, World (tab w1) (visits visit (lives (entries (tab w1))) (cl w1))) /\
    table (tab w1) /\ lives (entries (tab w1)) ≡ₚ lives (entries (tab w)).
Proof.
  intros (p & Hs & Hpl & Hc) Hf Hn. unfold htab_traverse. erewrite bind_done by reflexivity. cbv beta zeta.
  assert (Hexp : exists b w1, (if (u64 (htab_elements (tab w) * 8) <? htab_size (tab w)) && (32 <? htab_size (tab w))
      then htab_expand fuel else ret (Some true)) w = Done (Some b, w1) /\ table (tab w1) /\
      lives (entries (tab w1)) ≡ₚ lives (entries (tab w))).
  { destruct (_ && _).
    - destruct (htab_expand_run p w fuel Hs Hpl Hc Hn Hf) as
        [(c & n & E & _)|(w1 & p1 & E & Hs1 & Hpl1 & Hc1 & Hp1 & _)].
      + exists false, (World (tab w) c). split; [exact E|]. split; [by exists p|done].
      + exists true, w1. split; [exact E|]. split; [by exists p1|done].
    - exists true, w. split; [done|]. split; [by exists p|done]. }
  destruct Hexp as (b & w1 & E & Ht & Hperm). rewrite (obind_done _ _ _ _ _ E).
  exists w1. split; [|done]. destruct Ht as (p1 & Hs1 & _). pose proof (sized_p _ p1 Hs1) as [_ Hp1].
  pose proof (sized_entries _ p1 Hs1) as Hl. erewrite bind_done; [reflexivity|].
  unfold htab_traverse_noresize. erewrite bind_done by reflexivity. cbv beta.
  change (htab_size (tab w1)) with (size (tab w1)). rewrite (sized_size _ p1 Hs1).
  rewrite Nat.max_r by lia. rewrite (traverse_loop_run visit _ 0) by lia. by rewrite drop_0, firstn_all2 by lia.
Qed.

(** ** Sessions against finite sets *)

Inductive op :=
| Find (e : Z)
| Insert (e : Z)
| Remove (e : Z)
| Empty
| Traverse (visit : Z -> Cl -> bool * Cl).

(** Live pointers only are inserted. *)
Definition op_ok (o : op) : Prop := match o with Insert e => live e = true | _ => True end.

Definition run_op (fuel : nat) (o : op) : St (@world Cl) (option Z) :=
  match o with
  | Find e => r <- htab_find fuel e ;; ret (Some r)
  | Insert e => htab_insert fuel e
  | Remove e => _ <-? htab_remove_elt fuel e ;; ret (Some 0)
  | Empty => _ <-? htab_empty ;; ret (Some 0)
  | Traverse v => _ <-? htab_traverse fuel (visitor v) ;; ret (Some 0)
  end.

Fixpoint run_ops (fuel : nat) (os : list op) : St (@world Cl) (option (list Z)) :=
  match os with
  | [] => ret (Some [])
  | o :: os => r <-? run_op fuel o ;; rs <-? run_ops fuel os ;; ret (Some (r :: rs))
  end.

(** The set holds the inserted pointers; a lookup returns the one equal to the
    key, or a null pointer. *)
Definition set_find (X : gset Z) (e : Z) : Z :=
  default HTAB_EMPTY_ENTRY (head (filter (fun x => eq x e = true) (elements X))).

Definition set_op (X : gset Z) (o : op) : gset Z * Z :=
  match o with
  | Find e => (X, set_find X e)
  | Insert e => if set_find X e =? HTAB_EMPTY_ENTRY then ({[e]} ∪ X, e) else (X, set_find X e)
  | Remove e => (filter (fun x => eq x e = false) X, 0)
  | Empty => (∅, 0)
  | Traverse _ => (X, 0)
  end.

Fixpoint set_ops (X : gset Z) (os : list op) : list Z :=
  match os with
  | [] => []
  | o :: os => let '(X, r) := set_op X o in r :: set_ops X os
  end.

Definition holds (h : @htab Cl) (X : gset Z) : Prop :=
  table h /\ forall x, x ∈ X <-> x ∈ lives (entries h).

Lemma table_distinct h : table h -> distinct (lives (entries h)).
Proof. intros (p & _ & [H1 H2 _] & _). by split. Qed.

Lemma set_find_absent h X e : holds h X -> absent (entries h) e -> set_find X e = HTAB_EMPTY_ENTRY.
Proof.
  intros [_ HS] Habs. unfold set_find. destruct (filter _ (elements X)) as [|x l] eqn:E; [done|]. exfalso.
  assert (Hx : x ∈ filter (fun x => eq x e = true) (elements X)) by (rewrite E; set_solver).
  apply list_elem_of_filter in Hx as [Hx1 Hx2%elem_of_elements]. apply HS in Hx2.
  rewrite (Habs x Hx2) in Hx1. done.
Qed.

Lemma set_find_present h X e x :
  holds h X -> x ∈ lives (entries h) -> eq x e = true -> set_find X e = x.
Proof.
  intros [Ht HS] Hx Hxe. apply table_distinct in Ht as [_ Hd]. unfold set_find.
  destruct (filter _ (elements X)) as [|y l] eqn:E.
  - exfalso. assert (Hin : x ∈ filter (fun x => eq x e = true) (elements X)).
    { apply list_elem_of_filter. split; [done|]. by apply elem_of_elements, HS. }
    rewrite E in Hin. by apply not_elem_of_nil in Hin.
  - cbn. assert (Hy : y ∈ filter (fun x => eq x e = true) (elements X)) by (rewrite E; set_solver).
    apply list_elem_of_filter in Hy as [Hy1 Hy2%elem_of_elements]. apply HS in Hy2.
    apply Hd; [done|done|]. eapply keq_trans; [exact Hy1|by apply keq_sym].
Qed.

Lemma lives_live (h : @htab Cl) x : x ∈ lives (entries h) -> (x =? HTAB_EMPTY_ENTRY) = false.
Proof. intros [Hx _]%elem_of_lives. by apply live_not_empty. Qed.

Lemma run_op_spec `{!AllocsAll} fuel o w X :
  holds (tab w) X -> op_ok o -> 2147483647 <= Z.of_nat fuel -> 2 * Z.of_nat (base.size X) <= 2147483647 ->
  exists w', run_op fuel o w = Done (Some (snd (set_op X o)), w') /\ holds (tab w') (fst (set_op X o)).
Proof.
  intros [Ht HX] Ho Hf Hn.
  assert (Hlen : Z.of_nat (length (lives (entries (tab w)))) = Z.of_nat (base.size X)).
  { f_equal. rewrite <- (size_list_to_set (C := gset Z)) by apply (table_distinct _ Ht).
    f_equal. apply set_eq. intros x. rewrite elem_of_list_to_set. symmetry. apply HX. }
  rewrite <- Hlen in Hn. destruct o as [e|e|e| |v]; cbn [run_op set_op fst snd].
  - destruct (htab_find_run e fuel w Ht Hf) as (r & s & c & E & Hr). rewrite (bind_done _ _ _ _ _ E).
    exists (dbg s c w). split.
    + destruct Hr as [[-> Habs]|[Hin He]].
      * by rewrite (set_find_absent (tab w) X e) by done.
      * by rewrite (set_find_present (tab w) X e r) by done.
    + split; [|exact HX]. destruct Ht as (p & Hs & Hpl & Hc). exists p.
      split; [by apply sized_debug|]. split; [done|by destruct Hc].
  - cbn in Ho. destruct (htab_insert_run e fuel w Ht Ho Hf Hn) as [(c & n & _ & Ea)|(r & w' & E & Ht' & Hr)].
    + exfalso. destruct Ht as (p & Hs & _). destruct (alloc_succeeds n w (sized_fns _ p Hs)) as (a & c' & Ea' & Ha).
      rewrite Ea in Ea'. congruence.
    + exists w'. destruct Hr as [(-> & Habs & Hperm)|(Hin & He & Hperm)].
      * rewrite (set_find_absent (tab w) X e) by done. cbn [Z.eqb HTAB_EMPTY_ENTRY fst snd]. split; [done|].
        split; [done|]. intros x. rewrite Hperm. set_solver.
      * rewrite (set_find_present (tab w) X e r), (lives_live (tab w) r) by done. split; [done|].
        split; [done|]. intros x. by rewrite Hperm.
  - destruct (htab_remove_run e fuel w Ht Hf) as (w' & E & Ht' & Hr). rewrite (obind_done _ _ _ _ _ E).
    exists w'. split; [done|]. split; [done|]. intros x. rewrite elem_of_filter, HX.
    pose proof (table_distinct _ Ht) as [Hnd Hd]. destruct Hr as [[Habs ->]|(y & Hy & Hperm)].
    + split; [tauto|]. intros Hx. split; [by apply Habs|done].
    + rewrite <- Hperm in Hnd. apply NoDup_cons in Hnd as [Hny _].
      assert (Hyin : y ∈ lives (entries (tab w))) by (rewrite <- Hperm; set_solver).
      split.
      * intros [Hx1 Hx2]. rewrite <- Hperm in Hx2. apply elem_of_cons in Hx2 as [->|?]; [congruence|done].
      * intros Hx. assert (Hxin : x ∈ lives (entries (tab w))) by (rewrite <- Hperm; set_solver).
        split; [|done]. apply not_true_is_false. intros E1.
        assert (x = y) as -> by (apply Hd; [done|done|]; eapply keq_trans; [exact E1|by apply keq_sym]). done.
  - destruct (htab_empty_run w Ht) as (w' & E & Ht' & Hl). rewrite (obind_done _ _ _ _ _ E).
    exists w'. split; [done|]. split; [done|]. intros x. rewrite Hl. set_solver.
  - destruct (htab_traverse_run v fuel w Ht Hf Hn) as (w1 & E & Ht1 & Hperm). rewrite (obind_done _ _ _ _ _ E).
    eexists. split; [reflexivity|]. split; [done|]. intros x. cbn [tab]. by rewrite Hperm.
Qed.

Lemma set_op_size X o : (base.size (fst (set_op X o)) <= base.size X + 1)%nat.
Proof.
  destruct o as [e|e|e| |v]; cbn [set_op fst]; try (rewrite ?size_empty; lia).
  - destruct (_ =? _); cbn [fst]; [|lia]. rewrite size_union_alt, size_singleton.
    assert (base.size (X ∖ {[e]}) <= base.size X)%nat by (apply subseteq_size; set_solver). lia.
  - assert (base.size (filter (fun x => eq x e = false) X) <= base.size X)%nat by (apply subseteq_size; set_solver). lia.
Qed.

Lemma run_ops_spec `{!AllocsAll} fuel os w X :
  holds (tab w) X -> Forall op_ok os -> 2147483647 <= Z.of_nat fuel ->
  2 * Z.of_nat (base.size X + length os) <= 2147483647 ->
  exists w', run_ops fuel os w = Done (Some (set_ops X os), w').
Proof.
  intros HX Hos Hf. revert w X HX. induction Hos as [|o os Ho _ IH]; intros w X HX Hn; cbn [run_ops set_ops].
  { by eexists. }
  cbn [length] in Hn. destruct (run_op_spec fuel o w X HX Ho Hf ltac:(lia)) as (w1 & E & HX1).
  rewrite (obind_done _ _ _ _ _ E). pose proof (set_op_size X o). destruct (set_op X o) as [X1 r]. cbn [fst snd] in *.
  destruct (IH w1 X1 HX1 ltac:(lia)) as [w' E']. exists w'. by rewrite (obind_done _ _ _ _ _ E').
Qed.
End table.

(** A created table is empty. *)
Lemma htab_create_run {Cl} (n : Z) hash eq del (alloc : Z -> Z -> St Cl (option Z)) free c :
  (forall n m c, exists a c', alloc n m c = Done (Some a, c') /\ a <> 0) -> n <= 2147483647 ->
  exists h c', htab_create_alloc n hash eq del alloc free c = Done (Some (Some h), c') /\
    holds (HtabFns hash eq del (Some alloc) free 0 None None) h ∅.
Proof.
  intros Ha Hn. destruct (proj1 (higher_prime_index_spec n) ltac:(lia)) as (i & e & E & Hi & He & Hge & Hmin).
  assert (Hpe : primes !! Z.to_nat i = Some (prime_of e)) by (unfold primes; by rewrite list_lookup_fmap, He).
  assert (Hi29 : i < 29) by (destruct (decide (i < 29)); [done|];
    specialize (Hmin 28%nat 2147483647 Logic.eq_refl ltac:(lia)); lia).
  unfold htab_create_alloc, htab_create_typed_alloc.
  erewrite obind_done by (unfold lift; rewrite E; reflexivity). cbv beta.
  erewrite bind_done by (unfold lift, prime_at; rewrite He; reflexivity). cbv beta zeta.
  destruct (Ha 1 112 c) as (a1 & c1 & E1 & H1). rewrite (obind_done _ _ _ _ _ E1), (proj2 (Z.eqb_neq a1 0) H1).
  destruct (Ha (prime_of e) 8 c1) as (a2 & c2 & E2 & H2).
  rewrite (obind_done _ _ _ _ _ E2), (proj2 (Z.eqb_neq a2 0) H2).
  do 2 eexists. split; [reflexivity|].
  edestruct (table_clear (HtabFns hash eq del (Some alloc) free 0 None None) i (prime_of e) (prime_of e)) as [Ht Hl];
    [exact Hpe|lia|..|split; [exact Ht|]]; try done.
  intros x. rewrite Hl. set_solver.
Qed.

(** C15: Any session on a created table answers like the finite set of what
    was inserted and not removed: finds return the element equal to the key or
    a null pointer, inserts return the element already there or the new one,
    and every search, expansion and traversal terminates. *)
Theorem htab_session {Cl} n hash eq del (alloc : Z -> Z -> St Cl (option Z)) free c fuel os :
  Keys (HtabFns hash eq del (Some alloc) free 0 None None) ->
  (forall n m c, exists a c', alloc n m c = Done (Some a, c') /\ a <> 0) ->
  n <= 2147483647 -> Forall op_ok os -> 2147483647 <= Z.of_nat fuel -> 2 * Z.of_nat (length os) <= 2147483647 ->
  exists h c' w, htab_create_alloc n hash eq del alloc free c = Done (Some (Some h), c') /\
    run_ops fuel os (World h c') = Done (Some (set_ops (HtabFns hash eq del (Some alloc) free 0 None None) ∅ os), w).
Proof.
  intros HK Ha Hn Hos Hf Hl. destruct (htab_create_run n hash eq del alloc free c Ha Hn) as (h & c' & E & HX).
  assert (Hall : AllocsAll (HtabFns hash eq del (Some alloc) free 0 None None)).
  { intros m w Hw. unfold alloc_entries. destruct (Ha m 8 (cl w)) as (a & c2 & Ea & Hne). exists a, c2.
    split; [|done]. erewrite bind_done by reflexivity. rewrite Hw. cbn. unfold zoom. by rewrite Ea. }
  assert (Hrun : exists w, run_ops fuel os (World h c') =
    Done (Some (set_ops (HtabFns hash eq del (Some alloc) free 0 None None) ∅ os), w)).
  { apply (run_ops_spec _ fuel os (World h c') ∅ HX Hos Hf). rewrite size_empty. exact Hl. }
  destruct Hrun as [w Ew]. exists h, c', w. split; [exact E|exact Ew].
Qed.

Lemma htab_session_witness :
  let os := [Insert 16; Insert 32; Insert 16; Find 32; Remove 16; Find 16; Empty; Find 32] in
  let alloc := fun _ _ => ret (Some 4096) : St unit (option Z) in
  exists fuel h c' w, htab_create_alloc 5 u32 Z.eqb None alloc None tt = Done (Some (Some h), c') /\
    run_ops fuel os (World h c') = Done (Some [16; 32; 16; 32; 0; 0; 0; 0], w).
Proof.
  intros os alloc. exists (Z.to_nat 2147483647).
  destruct (htab_session 5 u32 Z.eqb None alloc None tt (Z.to_nat 2147483647) os) as (h & c' & w & E1 & E2).
  - split; [intros x; by apply wrap_range|intros x; apply Z.eqb_refl|..].
    + intros x y H%Z.eqb_eq. by apply Z.eqb_eq.
    + intros x y z H1%Z.eqb_eq H2%Z.eqb_eq. apply Z.eqb_eq. congruence.
    + intros x y ->%Z.eqb_eq. done.
  - intros n m c. exists 4096, c. done.
  - lia.
  - repeat constructor.
  - rewrite Z2Nat.id; lia.
  - cbn. lia.
  - exists h, c', w. split; [exact E1|]. rewrite E2. f_equal.
Defined.
