(* ===== verification/Ctype.v ===== *)
(** The character classes of [libiberty/safe-ctype.c]. *)
From S2P Require Import Prelude Bytes.

(** ** The source *)

Definition _sch_isblank : Z := 0x0001.
Definition _sch_iscntrl : Z := 0x0002.
Definition _sch_isdigit : Z := 0x0004.
Definition _sch_islower : Z := 0x0008.
Definition _sch_isprint : Z := 0x0010.
Definition _sch_ispunct : Z := 0x0020.
Definition _sch_isspace : Z := 0x0040.
Definition _sch_isupper : Z := 0x0080.
Definition _sch_isxdigit : Z := 0x0100.
Definition _sch_isidst : Z := 0x0200.
Definition _sch_isvsp : Z := 0x0400.
Definition _sch_isnvsp : Z := 0x0800.
Definition _sch_isalpha : Z := Z.lor _sch_isupper _sch_islower.
Definition _sch_isalnum : Z := Z.lor _sch_isalpha _sch_isdigit.
Definition _sch_isidnum : Z := Z.lor _sch_isidst _sch_isdigit.
Definition _sch_isgraph : Z := Z.lor _sch_isalnum _sch_ispunct.
Definition _sch_iscppsp : Z := Z.lor _sch_isvsp _sch_isnvsp.
Definition _sch_isbasic : Z := Z.lor _sch_isprint _sch_iscppsp.

(** The masks of the table, from lower case letters to the space. *)
Definition masks (l : list Z) : Z := foldr Z.lor 0 l.
Definition cL : Z := masks [_sch_islower; _sch_isidst; _sch_isprint].
Definition cXL : Z := masks [_sch_islower; _sch_isidst; _sch_isxdigit; _sch_isprint].
Definition cU : Z := masks [_sch_isupper; _sch_isidst; _sch_isprint].
Definition cXU : Z := masks [_sch_isupper; _sch_isidst; _sch_isxdigit; _sch_isprint].
Definition cD : Z := masks [_sch_isdigit; _sch_isxdigit; _sch_isprint].
Definition cP : Z := masks [_sch_ispunct; _sch_isprint].
Definition c_ : Z := masks [_sch_ispunct; _sch_isidst; _sch_isprint].
Definition cC : Z := masks [_sch_iscntrl].
Definition cZ : Z := masks [_sch_isnvsp; _sch_iscntrl].
Definition cM : Z := masks [_sch_isnvsp; _sch_isspace; _sch_iscntrl].
Definition cV : Z := masks [_sch_isvsp; _sch_isspace; _sch_iscntrl].
Definition cT : Z := masks [_sch_isnvsp; _sch_isspace; _sch_isblank; _sch_iscntrl].
Definition cS : Z := masks [_sch_isnvsp; _sch_isspace; _sch_isblank; _sch_isprint].

Definition _sch_istable : list Z :=
  [
     cZ;  cC;  cC;  cC;  cC;  cC;  cC;  cC;
     cC;  cT;  cV;  cM;  cM;  cV;  cC;  cC;
     cC;  cC;  cC;  cC;  cC;  cC;  cC;  cC;
     cC;  cC;  cC;  cC;  cC;  cC;  cC;  cC;
     cS;  cP;  cP;  cP;  cP;  cP;  cP;  cP;
     cP;  cP;  cP;  cP;  cP;  cP;  cP;  cP;
     cD;  cD;  cD;  cD;  cD;  cD;  cD;  cD;
     cD;  cD;  cP;  cP;  cP;  cP;  cP;  cP;
     cP; cXU; cXU; cXU; cXU; cXU; cXU;  cU;
     cU;  cU;  cU;  cU;  cU;  cU;  cU;  cU;
     cU;  cU;  cU;  cU;  cU;  cU;  cU;  cU;
     cU;  cU;  cU;  cP;  cP;  cP;  cP;  c_;
     cP; cXL; cXL; cXL; cXL; cXL; cXL;  cL;
     cL;  cL;  cL;  cL;  cL;  cL;  cL;  cL;
     cL;  cL;  cL;  cL;  cL;  cL;  cL;  cL;
     cL;  cL;  cL;  cP;  cP;  cP;  cP;  cC ] ++ replicate 128 0.

Definition _sch_tolower : list Z :=
  [
      0;   1;   2;   3;   4;   5;   6;   7;   8;   9;  10;  11;  12;  13;  14;  15;
     16;  17;  18;  19;  20;  21;  22;  23;  24;  25;  26;  27;  28;  29;  30;  31;
     32;  33;  34;  35;  36;  37;  38;  39;  40;  41;  42;  43;  44;  45;  46;  47;
     48;  49;  50;  51;  52;  53;  54;  55;  56;  57;  58;  59;  60;  61;  62;  63;
     64;  97;  98;  99; 100; 101; 102; 103; 104; 105; 106; 107; 108; 109; 110; 111;
    112; 113; 114; 115; 116; 117; 118; 119; 120; 121; 122;  91;  92;  93;  94;  95;
     96;  97;  98;  99; 100; 101; 102; 103; 104; 105; 106; 107; 108; 109; 110; 111;
    112; 113; 114; 115; 116; 117; 118; 119; 120; 121; 122; 123; 124; 125; 126; 127;
    128; 129; 130; 131; 132; 133; 134; 135; 136; 137; 138; 139; 140; 141; 142; 143;
    144; 145; 146; 147; 148; 149; 150; 151; 152; 153; 154; 155; 156; 157; 158; 159;
    160; 161; 162; 163; 164; 165; 166; 167; 168; 169; 170; 171; 172; 173; 174; 175;
    176; 177; 178; 179; 180; 181; 182; 183; 184; 185; 186; 187; 188; 189; 190; 191;
    192; 193; 194; 195; 196; 197; 198; 199; 200; 201; 202; 203; 204; 205; 206; 207;
    208; 209; 210; 211; 212; 213; 214; 215; 216; 217; 218; 219; 220; 221; 222; 223;
    224; 225; 226; 227; 228; 229; 230; 231; 232; 233; 234; 235; 236; 237; 238; 239;
    240; 241; 242; 243; 244; 245; 246; 247; 248; 249; 250; 251; 252; 253; 254; 255 ].

Definition _sch_toupper : list Z :=
  [
      0;   1;   2;   3;   4;   5;   6;   7;   8;   9;  10;  11;  12;  13;  14;  15;
     16;  17;  18;  19;  20;  21;  22;  23;  24;  25;  26;  27;  28;  29;  30;  31;
     32;  33;  34;  35;  36;  37;  38;  39;  40;  41;  42;  43;  44;  45;  46;  47;
     48;  49;  50;  51;  52;  53;  54;  55;  56;  57;  58;  59;  60;  61;  62;  63;
     64;  65;  66;  67;  68;  69;  70;  71;  72;  73;  74;  75;  76;  77;  78;  79;
     80;  81;  82;  83;  84;  85;  86;  87;  88;  89;  90;  91;  92;  93;  94;  95;
     96;  65;  66;  67;  68;  69;  70;  71;  72;  73;  74;  75;  76;  77;  78;  79;
     80;  81;  82;  83;  84;  85;  86;  87;  88;  89;  90; 123; 124; 125; 126; 127;
    128; 129; 130; 131; 132; 133; 134; 135; 136; 137; 138; 139; 140; 141; 142; 143;
    144; 145; 146; 147; 148; 149; 150; 151; 152; 153; 154; 155; 156; 157; 158; 159;
    160; 161; 162; 163; 164; 165; 166; 167; 168; 169; 170; 171; 172; 173; 174; 175;
    176; 177; 178; 179; 180; 181; 182; 183; 184; 185; 186; 187; 188; 189; 190; 191;
    192; 193; 194; 195; 196; 197; 198; 199; 200; 201; 202; 203; 204; 205; 206; 207;
    208; 209; 210; 211; 212; 213; 214; 215; 216; 217; 218; 219; 220; 221; 222; 223;
    224; 225; 226; 227; 228; 229; 230; 231; 232; 233; 234; 235; 236; 237; 238; 239;
    240; 241; 242; 243; 244; 245; 246; 247; 248; 249; 250; 251; 252; 253; 254; 255 ].

Definition _sch_test (c bit : Z) : bool :=
  negb (Z.land (_sch_istable !!! Z.to_nat (Z.land c 0xff)) bit =? 0).

Definition ISALPHA (c : Z) : bool := _sch_test c _sch_isalpha.
Definition ISALNUM (c : Z) : bool := _sch_test c _sch_isalnum.
Definition ISBLANK (c : Z) : bool := _sch_test c _sch_isblank.
Definition ISCNTRL (c : Z) : bool := _sch_test c _sch_iscntrl.
Definition ISDIGIT (c : Z) : bool := _sch_test c _sch_isdigit.
Definition ISGRAPH (c : Z) : bool := _sch_test c _sch_isgraph.
Definition ISLOWER (c : Z) : bool := _sch_test c _sch_islower.
Definition ISPRINT (c : Z) : bool := _sch_test c _sch_isprint.
Definition ISPUNCT (c : Z) : bool := _sch_test c _sch_ispunct.
Definition ISSPACE (c : Z) : bool := _sch_test c _sch_isspace.
Definition ISUPPER (c : Z) : bool := _sch_test c _sch_isupper.
Definition ISXDIGIT (c : Z) : bool := _sch_test c _sch_isxdigit.
Definition ISIDNUM (c : Z) : bool := _sch_test c _sch_isidnum.
Definition ISIDST (c : Z) : bool := _sch_test c _sch_isidst.
Definition IS_ISOBASIC (c : Z) : bool := _sch_test c _sch_isbasic.
Definition IS_VSPACE (c : Z) : bool := _sch_test c _sch_isvsp.
Definition IS_NVSPACE (c : Z) : bool := _sch_test c _sch_isnvsp.
Definition IS_SPACE_OR_NUL (c : Z) : bool := _sch_test c _sch_iscppsp.
Definition TOLOWER (c : Z) : Z := _sch_tolower !!! Z.to_nat (Z.land c 0xff).
Definition TOUPPER (c : Z) : Z := _sch_toupper !!! Z.to_nat (Z.land c 0xff).

(** ** The classes as ranges *)

Definition in_range (lo hi c : Z) : bool := (lo <=? c) && (c <=? hi).

Definition classes_ok (c : Z) : bool :=
  let low := in_range 97 122 c in let up := in_range 65 90 c in
  let digit := in_range 48 57 c in let print := in_range 32 126 c in
  eqb (ISLOWER c) low && eqb (ISUPPER c) up && eqb (ISALPHA c) (low || up)
  && eqb (ISDIGIT c) digit && eqb (ISALNUM c) (low || up || digit)
  && eqb (ISXDIGIT c) (digit || in_range 97 102 c || in_range 65 70 c)
  && eqb (ISSPACE c) ((c =? 32) || in_range 9 13 c) && eqb (ISBLANK c) ((c =? 32) || (c =? 9))
  && eqb (ISCNTRL c) (in_range 0 31 c || (c =? 127)) && eqb (ISPRINT c) print
  && eqb (ISPUNCT c) (print && negb (low || up || digit || (c =? 32)))
  && eqb (ISGRAPH c) (print && negb (c =? 32))
  && eqb (ISIDST c) (low || up || (c =? 95)) && eqb (ISIDNUM c) (low || up || digit || (c =? 95))
  && eqb (IS_VSPACE c) ((c =? 10) || (c =? 13)) && eqb (IS_NVSPACE c) (existsb (Z.eqb c) [0; 9; 11; 12; 32])
  && eqb (IS_SPACE_OR_NUL c) ((c =? 0) || (c =? 32) || in_range 9 13 c)
  && eqb (IS_ISOBASIC c) (print || (c =? 0) || in_range 9 13 c)
  && (TOLOWER c =? if up then c + 32 else c) && (TOUPPER c =? if low then c - 32 else c).

(** Every entry of the tables is the one the classes of ASCII call for. *)
Lemma classes_ascii c : is_byte c -> classes_ok c = true.
Proof.
  intros Hc. assert (H : forallb classes_ok (seqZ 0 256) = true) by (vm_compute; reflexivity).
  rewrite forallb_forall in H. apply H, list_elem_of_In, elem_of_seqZ. unfold is_byte in Hc. lia.
Qed.

Lemma ISSPACE_spec c : is_byte c -> ISSPACE c = (c =? 32) || in_range 9 13 c.
Proof.
  intros Hc. pose proof (classes_ascii c Hc) as H. unfold classes_ok in H.
  repeat (apply andb_true_iff in H as [H ?]). by apply eqb_prop.
Qed.
