(* ===== verification/Argv.v ===== *)
(** Argument vectors: [libiberty/argv.c]. Strings are lists of bytes other
    than NUL, a vector is the list of its strings; blocks of memory are values,
    so what is freed is not followed. *)
From S2P Require Import Prelude Bytes Ctype.

(** ** The source *)

(** The vector up to its null pointer. *)
Fixpoint dup_loop (argv : list (list Z)) : list (list Z) :=
  match argv with
  | [] => []
  | s :: argv => s :: dup_loop argv
  end.

Definition dupargv (argv : option (list (list Z))) : option (list (list Z)) :=
  match argv with None => None | Some argv => Some (dup_loop argv) end.

Fixpoint count_loop (argv : list (list Z)) (argc : Z) : Z :=
  match argv with
  | [] => argc
  | _ :: argv => count_loop argv (argc + 1)
  end.

Definition countargv (argv : option (list (list Z))) : Z :=
  match argv with None => 0 | Some argv => count_loop argv 0 end.

Fixpoint consume_whitespace (input : list Z) : list Z :=
  match input with
  | c :: rest => if ISSPACE c then consume_whitespace rest else input
  | [] => []
  end.

Fixpoint only_whitespace (input : list Z) : bool :=
  match input with
  | c :: rest => if ISSPACE c then only_whitespace rest else false
  | [] => true
  end.

(** [*arg++ = c] into the working buffer of [cap] bytes. *)
Definition store (cap : Z) (arg : list Z) (c : Z) : res (list Z) :=
  if Z.of_nat (length arg) <? cap then Done (arg ++ [c]) else Undef.

Record quotes := Quotes { squote : bool; dquote : bool; bsquote : bool }.

(** The loop that scans one argument: the rest of the input, the quotes still
    open, the argument. *)
Fixpoint scan_arg (cap : Z) (input : list Z) (q : quotes) (arg : list Z) : res (list Z * quotes * list Z) :=
  match input with
  | [] => Done ([], q, arg)
  | c :: rest =>
      if ISSPACE c && negb (squote q) && negb (dquote q) && negb (bsquote q) then Done (input, q, arg)
      else if bsquote q then
        let? arg := store cap arg c in scan_arg cap rest (Quotes (squote q) (dquote q) false) arg
      else if c =? 92 then scan_arg cap rest (Quotes (squote q) (dquote q) true) arg
      else if squote q then
        if c =? 39 then scan_arg cap rest (Quotes false (dquote q) (bsquote q)) arg
        else let? arg := store cap arg c in scan_arg cap rest q arg
      else if dquote q then
        if c =? 34 then scan_arg cap rest (Quotes (squote q) false (bsquote q)) arg
        else let? arg := store cap arg c in scan_arg cap rest q arg
      else if c =? 39 then scan_arg cap rest (Quotes true (dquote q) (bsquote q)) arg
      else if c =? 34 then scan_arg cap rest (Quotes (squote q) true (bsquote q)) arg
      else let? arg := store cap arg c in scan_arg cap rest q arg
  end.

Definition INITIAL_MAXARGC : Z := 8.

(** The room of the vector before [argv[argc]] is written. *)
Definition grow (argv : option (list (list Z))) (argc maxargc : Z) : Z :=
  if (maxargc =? 0) || (maxargc - 1 <=? argc)
  then match argv with None => INITIAL_MAXARGC | Some _ => maxargc * 2 end
  else maxargc.

(** The [do] loop. The argument is ended by a NUL and copied to [argv[argc]],
    a null pointer is written behind it. *)
Fixpoint build_loop (fuel : nat) (cap : Z) (input : list Z) (q : quotes)
    (argv : option (list (list Z))) (argc maxargc : Z) : res (list (list Z)) :=
  match fuel with
  | O => Hang
  | S fuel =>
      let input := consume_whitespace input in
      let maxargc := grow argv argc maxargc in
      let? r := scan_arg cap input q [] in
      let '(input, q, arg) := r in
      let? _ := store cap arg 0 in
      if argc + 1 <? maxargc then
        let argv := default [] argv ++ [arg] in
        match consume_whitespace input with
        | [] => Done argv
        | input => build_loop fuel cap input q (Some argv) (argc + 1) maxargc
        end
      else Undef
  end.

(** Every turn but the last consumes a character. *)
Definition buildargv (input : option (list Z)) : res (option (list (list Z))) :=
  match input with
  | None => Done None
  | Some input =>
      let? argv := build_loop (S (length input)) (Z.of_nat (length input) + 1) input
                              (Quotes false false false) None 0 0 in
      Done (Some argv)
  end.

(** *** Writing *)

(** A stdio stream: what is written, and whether the next byte fails. *)
Record stream := Stream { written : list Z; fails : list Z -> bool }.

(** [fputc]: false is [EOF]. *)
Definition fputc (c : Z) : St stream bool := fun f =>
  if fails f (written f) then Done (false, f) else Done (true, Stream (written f ++ [c]) (fails f)).

Definition special (c : Z) : bool := ISSPACE c || (c =? 92) || (c =? 39) || (c =? 34).

(** The loop over one argument; [false]: an error was met. *)
Fixpoint write_chars (arg : list Z) : St stream bool :=
  match arg with
  | [] => ret true
  | c :: arg =>
      ok <- (if special c then fputc 92 else ret true) ;;
      if negb ok then ret false else
      ok <- fputc c ;;
      if negb ok then ret false else write_chars arg
  end.

Fixpoint write_args (argv : list (list Z)) : St stream Z :=
  match argv with
  | [] => ret 0
  | arg :: argv =>
      ok <- write_chars arg ;;
      if negb ok then ret 1 else
      ok <- (if (length arg =? 0)%nat then ok <- fputc 34 ;; if ok then fputc 34 else ret false
             else ret true) ;;
      if negb ok then ret 1 else
      ok <- fputc 10 ;;
      if negb ok then ret 1 else write_args argv
  end.

Definition writeargv (argv : list (list Z)) (f : option stream) : res (Z * option stream) :=
  match f with
  | None => Done (1, None)
  | Some f => match write_args argv f with
              | Done (r, f) => Done (r, Some f)
              | Undef => Undef
              | Hang => Hang
              end
  end.

(** *** Response files *)

(** What the calls on a file give: [fseek] to the end and back, [ftell], the
    bytes [fread] reads, [ferror]. *)
Record file := File {
  seek_end : bool; tell : Z; seek_set : bool; bytes : list Z; error : bool }.

(** [stat]: none, or whether it is a directory. *)
Record response_files := ResponseFiles {
  stat : list Z -> option bool;
  fopen : list Z -> option file }.

(** A C string in a buffer ends at the first NUL. *)
Fixpoint up_to_nul (buffer : list Z) : list Z :=
  match buffer with
  | [] => []
  | c :: buffer => if c =? 0 then [] else c :: up_to_nul buffer
  end.

(** The options of a file; [None] is the jump to [error]. *)
Definition file_options (f : file) : res (option (list (list Z))) :=
  if negb (seek_end f) then Done None else
  let pos := tell f in
  if pos =? -1 then Done None else
  if negb (seek_set f) then Done None else
  let buffer := take (Z.to_nat pos) (bytes f) in
  if negb (Z.of_nat (length buffer) =? pos) && error f then Done None else
  if only_whitespace (up_to_nul buffer) then Done (Some []) else
  buildargv (Some (up_to_nul buffer)).

(** The file name of an argument of the form [@file]. *)
Definition at_file (arg : list Z) : option (list Z) :=
  match arg with
  | c :: filename => if c =? 64 then Some filename else None
  | [] => None
  end.

(** The [while] loop; [None]: the process exits. *)
Fixpoint expand_loop (fuel : nat) (fs : response_files) (i iteration_limit argc : Z) (argv : list (list Z))
  : res (option (Z * list (list Z))) :=
  match fuel with
  | O => Hang
  | S fuel =>
      let i := i + 1 in
      if negb (i <? argc) then Done (Some (argc, argv)) else
      match argv !! Z.to_nat i with
      | None => Undef
      | Some arg =>
          match at_file arg with
          | None => expand_loop fuel fs i iteration_limit argc argv
          | Some filename =>
              let iteration_limit := u32 (iteration_limit - 1) in
              if iteration_limit =? 0 then Done None else
              match stat fs filename with
              | None => expand_loop fuel fs i iteration_limit argc argv
              | Some true => Done None
              | Some false =>
                  match fopen fs filename with
                  | None => expand_loop fuel fs i iteration_limit argc argv
                  | Some f =>
                      let? file_argv := file_options f in
                      match file_argv with
                      | None => expand_loop fuel fs i iteration_limit argc argv
                      | Some file_argv =>
                          let argv := take (Z.to_nat i) argv ++ file_argv ++ drop (Z.to_nat (i + 1)) argv in
                          let argc := argc + (countargv (Some file_argv) - 1) in
                          expand_loop fuel fs (i - 1) iteration_limit argc argv
                      end
                  end
              end
          end
      end
  end.

Definition expandargv (fuel : nat) (fs : response_files) (argc : Z) (argv : list (list Z)) :=
  expand_loop fuel fs 0 2000 argc argv.

Example buildargv_quoted :
  buildargv (Some [97; 32; 39; 98; 32; 99; 39; 32; 34; 34]) = Done (Some [[97]; [98; 32; 99]; []]).
Proof. vm_compute. reflexivity. Qed.

(** ** [buildargv] *)

Definition unquoted : quotes := Quotes false false false.

Lemma store_ok cap arg c : Z.of_nat (length arg) < cap -> store cap arg c = Done (arg ++ [c]).
Proof. intros H. unfold store. destruct (Z.ltb_spec (Z.of_nat (length arg)) cap); [done|lia]. Qed.

(** Scanning stays within the buffer; it stops at the end or at a space that
    is not quoted. *)
Lemma scan_arg_ok cap input q arg :
  Z.of_nat (length arg + length input) < cap ->
  exists rest q' arg', scan_arg cap input q arg = Done (rest, q', arg') /\
    (length arg' + length rest <= length arg + length input)%nat /\ (length rest <= length input)%nat /\
    (rest <> [] -> q' = unquoted /\ exists c r, rest = c :: r /\ ISSPACE c = true).
Proof.
  revert q arg. induction input as [|c input IH]; intros q arg Hcap; cbn [scan_arg].
  { exists [], q, arg. split; [done|]. split; [lia|]. done. }
  cbn [length] in Hcap.
  destruct (ISSPACE c && negb (squote q) && negb (dquote q) && negb (bsquote q)) eqn:E.
  { exists (c :: input), q, arg. split; [done|]. split; [done|]. split; [done|]. intros _.
    rewrite !andb_true_iff, !negb_true_iff in E. destruct E as [[[Hc Hs] Hd] Hb]. destruct q. cbn in *. subst. eauto. }
  assert (Hskip : forall q, exists rest q' arg', scan_arg cap input q arg = Done (rest, q', arg') /\
    (length arg' + length rest <= length arg + length (c :: input))%nat /\ (length rest <= length (c :: input))%nat /\
    (rest <> [] -> q' = unquoted /\ exists c r, rest = c :: r /\ ISSPACE c = true)).
  { intros q0. destruct (IH q0 arg ltac:(lia)) as (r & q' & a & E1 & ? & ? & ?). exists r, q', a. cbn [length]. eauto with lia. }
  assert (Hstore : forall q, exists rest q' arg',
    (let? arg := store cap arg c in scan_arg cap input q arg) = Done (rest, q', arg') /\
    (length arg' + length rest <= length arg + length (c :: input))%nat /\ (length rest <= length (c :: input))%nat /\
    (rest <> [] -> q' = unquoted /\ exists c r, rest = c :: r /\ ISSPACE c = true)).
  { intros q0. rewrite store_ok by lia. cbn [rbind].
    destruct (IH q0 (arg ++ [c])) as (r & q' & a & E1 & ? & ? & ?); [rewrite length_app; cbn [length]; lia|].
    exists r, q', a. rewrite length_app in *. cbn [length] in *. eauto with lia. }
  destruct (bsquote q); [by apply Hstore|]. destruct (c =? 92); [by apply Hskip|].
  destruct (squote q); [destruct (c =? 39); [by apply Hskip|by apply Hstore]|].
  destruct (dquote q); [destruct (c =? 34); [by apply Hskip|by apply Hstore]|].
  destruct (c =? 39); [by apply Hskip|]. destruct (c =? 34); [by apply Hskip|by apply Hstore].
Qed.

Lemma consume_length input : (length (consume_whitespace input) <= length input)%nat.
Proof. induction input as [|c input IH]; cbn [consume_whitespace length]; [done|]. destruct (ISSPACE c); cbn [length]; lia. Qed.

Lemma consume_head input c rest : consume_whitespace input = c :: rest -> ISSPACE c = false.
Proof.
  induction input as [|x input IH]; cbn [consume_whitespace]; [done|]. destruct (ISSPACE x) eqn:E; [by apply IH|].
  by intros [= -> ->].
Qed.

(** An argument that starts with an unquoted character takes it. *)
Lemma scan_arg_progress cap c input arg :
  Z.of_nat (length arg + length (c :: input)) < cap -> ISSPACE c = false ->
  exists rest q' arg', scan_arg cap (c :: input) unquoted arg = Done (rest, q', arg') /\
    (length arg' + length rest <= length arg + length (c :: input))%nat /\ (length rest <= length input)%nat /\
    (rest <> [] -> q' = unquoted).
Proof.
  intros Hcap Hc. cbn [length] in Hcap. cbn [scan_arg]. rewrite Hc. cbn [andb unquoted squote dquote bsquote].
  assert (Hstore : exists rest q' arg',
    (let? arg := store cap arg c in scan_arg cap input unquoted arg) = Done (rest, q', arg') /\
    (length arg' + length rest <= length arg + length (c :: input))%nat /\ (length rest <= length input)%nat /\
    (rest <> [] -> q' = unquoted)).
  { rewrite store_ok by lia. cbn [rbind].
    destruct (scan_arg_ok cap input unquoted (arg ++ [c])) as (r & q' & a & E1 & Hl & ? & H);
      [rewrite length_app; cbn [length]; lia|].
    exists r, q', a. rewrite length_app in Hl. cbn [length] in *. split; [exact E1|]. split; [lia|]. split; [lia|]. intros; by apply H. }
  assert (Hskip : forall q, exists rest q' arg', scan_arg cap input q arg = Done (rest, q', arg') /\
    (length arg' + length rest <= length arg + length (c :: input))%nat /\ (length rest <= length input)%nat /\
    (rest <> [] -> q' = unquoted)).
  { intros q. destruct (scan_arg_ok cap input q arg ltac:(lia)) as (r & q' & a & E1 & ? & ? & H).
    exists r, q', a. cbn [length]. split; [done|]. split; [lia|]. split; [done|]. intros; by apply H. }
  destruct (c =? 92); [by apply Hskip|]. destruct (c =? 39); [by apply Hskip|].
  destruct (c =? 34); [by apply Hskip|exact Hstore].
Qed.

(** The vector always has room for two more pointers. *)
Definition vector_ok (argv : option (list (list Z))) (argc maxargc : Z) : Prop :=
  match argv with
  | None => argc = 0 /\ maxargc = 0
  | Some l => argc = Z.of_nat (length l) /\ argc < maxargc /\ 8 <= maxargc
  end.

Lemma grow_ok argv argc maxargc : vector_ok argv argc maxargc ->
  argc + 1 < grow argv argc maxargc /\ 8 <= grow argv argc maxargc.
Proof.
  unfold vector_ok, grow, INITIAL_MAXARGC. destruct argv as [l|].
  - intros (? & ? & ?). destruct (Z.eqb_spec maxargc 0), (Z.leb_spec (maxargc - 1) argc); cbn [orb]; lia.
  - intros [-> ->]. cbn. lia.
Qed.

Lemma build_loop_ok fuel cap input argv argc maxargc :
  (length input < fuel)%nat -> Z.of_nat (length input) < cap -> vector_ok argv argc maxargc ->
  exists l, build_loop fuel cap input unquoted argv argc maxargc = Done l /\ l <> [].
Proof.
  revert input argv argc maxargc. induction fuel as [|f IH]; intros input argv argc maxargc Hf Hcap Hv; [lia|].
  cbn [build_loop]. destruct (grow_ok _ _ _ Hv) as [Hg Hg8]. pose proof (consume_length input) as Hl.
  set (m := grow argv argc maxargc) in *.
  assert (Hone : exists rest q' arg', scan_arg cap (consume_whitespace input) unquoted [] = Done (rest, q', arg') /\
    (length arg' < Z.to_nat cap)%nat /\ (rest <> [] -> q' = unquoted) /\ (rest <> [] -> length rest < length input)%nat).
  { destruct (consume_whitespace input) as [|c r] eqn:E; rewrite ?E in Hl.
    - exists [], unquoted, []. split; [done|]. cbn. split; [lia|]. done.
    - destruct (scan_arg_progress cap c r [] ltac:(cbn [length] in *; lia) (consume_head _ _ _ E)) as (rest & q' & a & E1 & ? & ? & ?).
      exists rest, q', a. cbn [length] in *. split; [done|]. split; [lia|]. split; [done|lia]. }
  destruct Hone as (rest & q' & arg & -> & Ha & Hq & Hr). cbn [rbind]. rewrite store_ok by lia. cbn [rbind].
  destruct (Z.ltb_spec (argc + 1) m); [|lia].
  pose proof (consume_length rest) as Hl2. destruct (consume_whitespace rest) as [|c r] eqn:E; rewrite ?E in Hl2.
  - eexists. split; [reflexivity|]. by destruct (default [] argv).
  - assert (rest <> []) as Hne by (intros ->; done). rewrite (Hq Hne). specialize (Hr Hne). cbn [length] in Hl2.
    apply IH; [cbn [length]; lia|cbn [length]; lia|].
    unfold vector_ok in Hv |- *. rewrite length_app. clearbody m. destruct argv as [l|]; cbn in Hv |- *; lia.
Qed.

(** [buildargv] returns, within its buffers, at least one argument. *)
Lemma buildargv_total input : exists l, buildargv (Some input) = Done (Some l) /\ l <> [].
Proof.
  unfold buildargv. destruct (build_loop_ok (S (length input)) (Z.of_nat (length input) + 1) input None 0 0) as (l & E & Hl);
    [lia|lia|done|]. fold unquoted. rewrite E. by exists l.
Qed.

(** ** [writeargv] and [buildargv] *)

Definition quote (arg : list Z) : list Z :=
  (match arg with
   | [] => [34; 34]
   | _ => flat_map (fun c => if special c then [92; c] else [c]) arg
   end) ++ [10].

Definition quoted (argv : list (list Z)) : list Z := flat_map quote argv.

Lemma scan_chars cap arg0 a rest :
  Z.of_nat (length arg0 + length a) < cap ->
  scan_arg cap (flat_map (fun c => if special c then [92; c] else [c]) a ++ 10 :: rest) unquoted arg0
  = Done (10 :: rest, unquoted, arg0 ++ a).
Proof.
  revert arg0. induction a as [|c a IH]; intros arg0 Hcap; cbn [flat_map app].
  { cbn [scan_arg]. replace (ISSPACE 10) with true by reflexivity. cbn. by rewrite app_nil_r. }
  cbn [length] in Hcap. assert (Hnext : scan_arg cap (flat_map (fun c => if special c then [92; c] else [c]) a ++ 10 :: rest)
     unquoted (arg0 ++ [c]) = Done (10 :: rest, unquoted, arg0 ++ c :: a)).
  { rewrite IH by (rewrite length_app; cbn [length]; lia). by rewrite <- app_assoc. }
  unfold special at 1. destruct (ISSPACE c) eqn:Hs; cbn [orb].
  2: destruct (c =? 92) eqn:H92; cbn [orb].
  3: destruct (c =? 39) eqn:H39; cbn [orb].
  4: destruct (c =? 34) eqn:H34; cbn [orb].
  all: cbn [app scan_arg]; rewrite ?Hs, ?H92, ?H39, ?H34; replace (ISSPACE 92) with false by reflexivity;
    cbn [andb negb Z.eqb Pos.eqb unquoted squote dquote bsquote];
    rewrite ?andb_false_r; try rewrite store_ok by lia; exact Hnext.
Qed.

Lemma quote_head arg : exists c r, quote arg = c :: r /\ ISSPACE c = false.
Proof.
  destruct arg as [|c a]; [by exists 34, [34; 10]|]. unfold quote. cbn [flat_map].
  destruct (special c) eqn:E; [by eexists 92, _|]. eexists c, _. split; [reflexivity|].
  unfold special in E. by rewrite !orb_false_iff in E; destruct E as [[[? ?] ?] ?].
Qed.

Lemma scan_quote cap a rest : Z.of_nat (length a) < cap ->
  scan_arg cap (quote a ++ rest) unquoted [] = Done (10 :: rest, unquoted, a).
Proof.
  intros Hcap. destruct a as [|c a].
  2: { unfold quote. rewrite <- app_assoc. cbn [app]. by rewrite scan_chars. }
  unfold quote. cbn [app scan_arg]. by replace (ISSPACE 34) with false by reflexivity.
Qed.

Lemma quote_length a : (length a < length (quote a))%nat.
Proof.
  unfold quote. rewrite length_app. cbn [length]. destruct a as [|c a]; [cbn; lia|].
  enough (forall l : list Z, (length l <= length (flat_map (fun c => if special c then [92%Z; c] else [c]) l))%nat) as H
    by (specialize (H (c :: a)); lia).
  induction l as [|x l IH]; [done|]. cbn [flat_map]. rewrite length_app. destruct (special x); cbn [length]; lia.
Qed.

Lemma consume_quoted argv : consume_whitespace (quoted argv) = quoted argv.
Proof.
  destruct argv as [|a argv]; [done|]. unfold quoted. cbn [flat_map]. destruct (quote_head a) as (c & r & -> & Hc).
  cbn. by rewrite Hc.
Qed.

Lemma build_quoted fuel cap a args argv argc maxargc :
  (length args < fuel)%nat -> Z.of_nat (length (quoted (a :: args))) < cap -> vector_ok argv argc maxargc ->
  build_loop fuel cap (quoted (a :: args)) unquoted argv argc maxargc = Done (default [] argv ++ a :: args).
Proof.
  revert a args argv argc maxargc. induction fuel as [|f IH]; intros a args argv argc maxargc Hf Hcap Hv; [lia|].
  cbn [build_loop]. rewrite consume_quoted. destruct (grow_ok _ _ _ Hv) as [Hg Hg8].
  set (m := grow argv argc maxargc) in *. unfold quoted in Hcap |- *. cbn [flat_map] in Hcap |- *.
  fold (quoted args) in *. rewrite length_app in Hcap. pose proof (quote_length a).
  rewrite scan_quote by lia. cbn [rbind]. rewrite store_ok by lia. cbn [rbind].
  destruct (Z.ltb_spec (argc + 1) m); [|lia]. cbn [consume_whitespace].
  replace (ISSPACE 10) with true by reflexivity. rewrite consume_quoted.
  destruct args as [|b args]; [done|]. destruct (quoted (b :: args)) as [|c r] eqn:E.
  { exfalso. unfold quoted in E. cbn [flat_map] in E. destruct (quote_head b) as (c & r & E1 & _). by rewrite E1 in E. }
  rewrite <- E. rewrite <- E in Hcap. cbn [length] in Hf. rewrite IH; [|lia|lia|].
  - cbn [from_option id]. by rewrite <- app_assoc.
  - unfold vector_ok in Hv |- *. rewrite length_app. clearbody m. destruct argv as [l|]; cbn in Hv |- *; lia.
Qed.

Lemma buildargv_quoted_args args : args <> [] -> buildargv (Some (quoted args)) = Done (Some args).
Proof.
  intros Hne. destruct args as [|a args]; [done|]. unfold buildargv. fold unquoted.
  assert (Hlen : forall l, (length l <= length (quoted l))%nat).
  { induction l as [|x l IH]; [done|]. unfold quoted. cbn [flat_map]. rewrite length_app.
    pose proof (quote_length x). unfold quoted in IH. cbn [length]. lia. }
  specialize (Hlen (a :: args)). cbn [length] in Hlen.
  by rewrite build_quoted by (done || lia).
Qed.

(** A stream without room for every byte makes [writeargv] fail. *)
Lemma write_chars_ok a o fl : (forall l, fl l = false) ->
  write_chars a (Stream o fl) = Done (true, Stream (o ++ flat_map (fun c => if special c then [92; c] else [c]) a) fl).
Proof.
  intros Hfl. revert o. induction a as [|c a IH]; intros o; cbn [write_chars flat_map]; [by rewrite app_nil_r|].
  assert (Hput : forall x o, fputc x (Stream o fl) = Done (true, Stream (o ++ [x]) fl))
    by (intros; unfold fputc; cbn; by rewrite Hfl).
  destruct (special c).
  - rewrite (bind_done _ _ _ _ _ (Hput _ _)). cbn [negb]. rewrite (bind_done _ _ _ _ _ (Hput _ _)). cbn [negb].
    by rewrite IH, <- !app_assoc.
  - erewrite bind_done by reflexivity. cbn [negb]. rewrite (bind_done _ _ _ _ _ (Hput _ _)). cbn [negb].
    by rewrite IH, <- !app_assoc.
Qed.

Lemma write_args_ok argv o fl : (forall l, fl l = false) ->
  write_args argv (Stream o fl) = Done (0, Stream (o ++ quoted argv) fl).
Proof.
  intros Hfl. revert o. induction argv as [|a argv IH]; intros o; cbn [write_args]; [by rewrite app_nil_r|].
  assert (Hput : forall x o, fputc x (Stream o fl) = Done (true, Stream (o ++ [x]) fl))
    by (intros; unfold fputc; cbn; by rewrite Hfl).
  rewrite (bind_done _ _ _ _ _ (write_chars_ok a o fl Hfl)). cbn [negb].
  unfold quoted. cbn [flat_map]. fold (quoted argv).
  destruct a as [|c a]; cbn [length Nat.eqb flat_map app].
  - erewrite bind_done.
    2: { rewrite (bind_done _ _ _ _ _ (Hput _ _)). cbv iota. apply Hput. }
    cbn [negb]. rewrite (bind_done _ _ _ _ _ (Hput _ _)). cbn [negb]. rewrite IH. by rewrite <- !app_assoc.
  - erewrite bind_done by reflexivity. cbn [negb]. rewrite (bind_done _ _ _ _ _ (Hput _ _)). cbn [negb].
    rewrite IH. unfold quote. cbn [flat_map]. by rewrite <- !app_assoc.
Qed.

(** ** [expandargv] *)

(** Arguments that stay as they are: those without a leading [@], and those
    whose [@] is not followed by the name of a file. *)
Definition kept (fs : response_files) (arg : list Z) : Prop :=
  match at_file arg with None => True | Some name => stat fs name = None end.

(** The number of arguments with a leading [@]. *)
Fixpoint ats (argv : list (list Z)) : Z :=
  match argv with
  | [] => 0
  | a :: argv => match at_file a with None => ats argv | Some _ => 1 + ats argv end
  end.

Lemma ats_app l1 l2 : ats (l1 ++ l2) = ats l1 + ats l2.
Proof.
  induction l1 as [|a l1 IH]; [done|]. cbn [app ats]. destruct (at_file a); lia.
Qed.

Lemma ats_pos l : 0 <= ats l.
Proof. induction l as [|a l IH]; cbn [ats]; [lia|]. destruct (at_file a); lia. Qed.

Lemma up_to_nul_id l : 0 ∉ l -> up_to_nul l = l.
Proof.
  induction l as [|c l IH]; intros H; [done|]. cbn [up_to_nul]. destruct (Z.eqb_spec c 0) as [->|]; [set_solver|].
  rewrite IH; set_solver.
Qed.

Lemma quoted_no_nul args : Forall (fun a => 0 ∉ a) args -> 0 ∉ quoted args.
Proof.
  induction 1 as [|a args Ha _ IH]; [set_solver|]. unfold quoted. cbn [flat_map]. fold (quoted args).
  rewrite elem_of_app. intros [H|H]; [|done]. unfold quote in H. apply elem_of_app in H as [H|H]; [|set_solver].
  assert (Hf : forall l, 0 ∉ l -> 0 ∉ flat_map (fun c => if special c then [92; c] else [c]) l).
  { induction l as [|c l IHl]; intros Hl; [set_solver|]. cbn [flat_map]. destruct (special c); set_solver. }
  destruct a as [|c a]; [set_solver|]. by apply (Hf (c :: a)).
Qed.

Lemma countargv_length l : countargv (Some l) = Z.of_nat (length l).
Proof.
  cbn. assert (H : forall n, count_loop l n = n + Z.of_nat (length l)).
  { induction l as [|a l IH]; intros n; cbn [count_loop length]; [lia|]. rewrite IH. lia. }
  by rewrite H.
Qed.

Lemma only_whitespace_quoted args : only_whitespace (quoted args) = match args with [] => true | _ => false end.
Proof.
  destruct args as [|a args]; [done|]. unfold quoted. cbn [flat_map]. destruct (quote_head a) as (c & r & -> & Hc).
  cbn. by rewrite Hc.
Qed.

(** A file [writeargv] wrote has the options that were written. *)
Lemma file_options_quoted args :
  Forall (fun a => 0 ∉ a) args ->
  file_options (File true (Z.of_nat (length (quoted args))) true (quoted args) false) = Done (Some args).
Proof.
  intros Hn. unfold file_options. cbn [seek_end tell seek_set bytes error negb].
  destruct (Z.eqb_spec (Z.of_nat (length (quoted args))) (-1)); [lia|].
  rewrite Nat2Z.id, firstn_all, Z.eqb_refl. cbn [negb andb]. rewrite up_to_nul_id by by apply quoted_no_nul.
  rewrite only_whitespace_quoted. destruct args as [|a args]; [done|]. by apply buildargv_quoted_args.
Qed.

(** Arguments that name no file are passed over, each [@] counting against the
    limit. *)
Lemma expand_skip fs fuel pre mid post limit :
  Forall (kept fs) mid -> ats mid < limit < 2 ^ 32 ->
  expand_loop (length mid + fuel) fs (Z.of_nat (length pre) - 1) limit
    (Z.of_nat (length (pre ++ mid ++ post))) (pre ++ mid ++ post)
  = expand_loop fuel fs (Z.of_nat (length (pre ++ mid)) - 1) (limit - ats mid)
    (Z.of_nat (length (pre ++ mid ++ post))) (pre ++ mid ++ post).
Proof.
  intros Hm. revert pre limit. induction Hm as [|a mid Ha _ IH]; intros pre limit Hl.
  { cbn [ats]. by rewrite app_nil_r, Z.sub_0_r. }
  cbn [length plus expand_loop]. replace (Z.of_nat (length pre) - 1 + 1) with (Z.of_nat (length pre)) by lia.
  assert (Hlt : Z.of_nat (length pre) <? Z.of_nat (length (pre ++ (a :: mid) ++ post)) = true)
    by (apply Z.ltb_lt; rewrite length_app; cbn; lia).
  rewrite Hlt. cbn [negb app]. rewrite Nat2Z.id, list_lookup_middle by done.
  pose proof (ats_pos mid) as Hpos. cbn [ats] in Hl |- *. unfold kept in Ha.
  assert (Hi : Z.of_nat (length pre) = Z.of_nat (length (pre ++ [a])) - 1)
    by (rewrite length_app; cbn [length]; lia).
  destruct (at_file a) as [name|].
  - rewrite u32_small by lia. destruct (Z.eqb_spec (limit - 1) 0); [lia|]. rewrite Ha.
    specialize (IH (pre ++ [a]) (limit - 1) ltac:(lia)).
    rewrite <- !app_assoc, <- Hi in IH. cbn [app] in IH. rewrite IH. f_equal. lia.
  - specialize (IH (pre ++ [a]) limit Hl).
    rewrite <- !app_assoc, <- Hi in IH. cbn [app] in IH. by rewrite IH.
Qed.

Lemma expand_end fs limit argv fuel :
  expand_loop (S fuel) fs (Z.of_nat (length argv) - 1) limit (Z.of_nat (length argv)) argv
  = Done (Some (Z.of_nat (length argv), argv)).
Proof.
  cbn [expand_loop]. destruct (Z.ltb_spec (Z.of_nat (length argv) - 1 + 1) (Z.of_nat (length argv))); [lia|done].
Qed.

(** C16: Arguments written to a file with [writeargv] and passed as [@file]
    come back: [expandargv] replaces the file name by exactly those arguments,
    in order and byte for byte (blanks, quotes, backslashes, empty arguments,
    no argument at all), provided none of them is itself [@] followed by the
    name of a file, which would be expanded in turn ([kept]), and the limit of
    2000 expansions is not reached. *)
Theorem response_file_roundtrip fs prog pre post args name fl :
  let out := Stream [] fl in
  (forall l, fl l = false) ->
  Forall (kept fs) pre -> Forall (kept fs) post -> Forall (kept fs) args ->
  ats (pre ++ args ++ post) < 1999 -> Forall (fun a => 0 ∉ a) args ->
  stat fs name = Some false ->
  fopen fs name = Some (File true (Z.of_nat (length (quoted args))) true (quoted args) false) ->
  let argv := prog :: pre ++ (64 :: name) :: post in
  let expanded := prog :: pre ++ args ++ post in
  writeargv args (Some out) = Done (0, Some (Stream (quoted args) fl)) /\
  forall fuel, (length expanded + 2 <= fuel)%nat ->
    expandargv fuel fs (Z.of_nat (length argv)) argv = Done (Some (Z.of_nat (length expanded), expanded)).
Proof.
  intros out Hfl Hpre Hpost Hargs Hats Hn Hst Hop argv expanded. split.
  { unfold writeargv, out. by rewrite (write_args_ok _ _ _ Hfl). }
  intros fuel Hfuel. unfold expandargv, argv, expanded in *. cbn [length] in Hfuel. rewrite !length_app in Hfuel.
  rewrite ats_app in Hats. pose proof (ats_pos pre). pose proof (ats_pos (args ++ post)).
  set (k := (fuel - length pre - 1)%nat).
  replace fuel with (length pre + S k)%nat by lia.
  pose proof (expand_skip fs (S k) [prog] pre ((64 :: name) :: post) 2000 Hpre ltac:(lia)) as H1.
  cbn [app length] in H1 |- *. change (Z.of_nat 1 - 1) with 0 in H1. rewrite H1. clear H1. cbn [expand_loop].
  replace (Z.of_nat (S (length pre)) - 1 + 1) with (Z.of_nat (length (prog :: pre))) by (cbn [length]; lia).
  assert (Hlt : Z.of_nat (length (prog :: pre)) <? Z.of_nat (S (length (pre ++ (64 :: name) :: post))) = true)
    by (apply Z.ltb_lt; rewrite length_app; cbn [length]; lia).
  rewrite Hlt. cbn [negb]. rewrite Nat2Z.id.
  change (prog :: pre ++ (64 :: name) :: post) with ((prog :: pre) ++ (64 :: name) :: post).
  rewrite list_lookup_middle by done. cbn [at_file Z.eqb Pos.eqb].
  rewrite (u32_small (2000 - ats pre - 1)) by lia.
  destruct (Z.eqb_spec (2000 - ats pre - 1) 0); [lia|].
  rewrite Hst, Hop, file_options_quoted by done. cbn [rbind]. rewrite countargv_length.
  replace (Z.to_nat (Z.of_nat (length (prog :: pre)) + 1)) with (length (prog :: pre) + 1)%nat by lia.
  rewrite take_app_length, drop_app_add. cbn [drop].
  replace (Z.of_nat (S (length (pre ++ (64 :: name) :: post))) + (Z.of_nat (length args) - 1))
    with (Z.of_nat (length ((prog :: pre) ++ args ++ post))) by (cbn [app length]; rewrite !length_app; cbn [length]; lia).
  replace k with (length (args ++ post) + S (k - length (args ++ post) - 1))%nat by (rewrite length_app; lia).
  pose proof (expand_skip fs (S (k - length (args ++ post) - 1)) (prog :: pre) (args ++ post) []
    (2000 - ats pre - 1)) as H1.
  rewrite app_nil_r in H1. rewrite drop_0, H1 by (by apply Forall_app || lia). by rewrite expand_end.
Qed.

(** The file has four arguments, one of them an [@] that names no file. *)
Lemma response_file_roundtrip_witness :
  let args := [[45; 111]; [97; 32; 39; 98]; []; [64; 120]] in
  let fs := ResponseFiles (fun name => if decide (name = [102]) then Some false else None)
    (fun _ => Some (File true (Z.of_nat (length (quoted args))) true (quoted args) false)) in
  expandargv 100 fs 3 [[99; 99]; [64; 102]; [120]] = Done (Some (6, [99; 99] :: args ++ [[120]])).
Proof.
  intros args fs.
  refine (proj2 (response_file_roundtrip fs [99; 99] [] [[120]] args [102] (fun _ => false) _ _ _ _ _ _ _ _) 100%nat _).
  - done.
  - constructor.
  - repeat constructor.
  - repeat constructor.
  - reflexivity.
  - unfold args. repeat (constructor; [set_solver|]). constructor.
  - reflexivity.
  - reflexivity.
  - cbn. lia.
Defined.

(** A written argument that names a response file is expanded in turn: the
    file "f" holds "@g", and "g" holds "z". *)
Example response_file_nested :
  let fs := ResponseFiles (fun _ => Some false)
    (fun name => let text := if decide (name = [102]) then quoted [[64; 103]] else quoted [[122]] in
       Some (File true (Z.of_nat (length text)) true text false)) in
  expandargv 100 fs 2 [[99; 99]; [64; 102]] = Done (Some (2, [[99; 99]; [122]])).
Proof. vm_compute. reflexivity. Qed.

(** [expandargv] returns on every vector and every file system: a file name is
    replaced at most 1999 times, and in between [i] goes up. *)
Lemma expand_loop_total fs n i limit argv :
  0 <= i + 1 -> 0 < limit <= 2000 -> Z.to_nat limit = n ->
  exists fuel r, expand_loop fuel fs i limit (Z.of_nat (length argv)) argv = Done r.
Proof.
  revert i limit argv. induction n as [n IH] using lt_wf_ind. intros i limit argv.
  remember (Z.to_nat (Z.of_nat (length argv) - i)) as d eqn:Hd. revert i limit argv Hd.
  induction d as [d IHd] using lt_wf_ind. intros i limit argv Hd Hi Hl Hn.
  destruct (Z.ltb_spec (i + 1) (Z.of_nat (length argv))) as [Hlt|Hge].
  2: { exists 1%nat, (Some (Z.of_nat (length argv), argv)). cbn [expand_loop].
       destruct (Z.ltb_spec (i + 1) (Z.of_nat (length argv))); [lia|done]. }
  destruct (lookup_lt_is_Some_2 argv (Z.to_nat (i + 1))) as [arg Harg]; [lia|].
  assert (Hstep : forall r0, (forall f, expand_loop (S f) fs i limit (Z.of_nat (length argv)) argv = r0 f) ->
    (exists fuel r, r0 fuel = Done r) -> exists fuel r, expand_loop fuel fs i limit (Z.of_nat (length argv)) argv = Done r).
  { intros r0 E (f & r & Hr). exists (S f), r. by rewrite E. }
  eapply Hstep; [intros f; cbn [expand_loop]; rewrite (proj2 (Z.ltb_lt _ _) Hlt); cbn [negb]; rewrite Harg; reflexivity|].
  cbv beta. clear Hstep. destruct (at_file arg) as [name|] eqn:Hat.
  2: { apply (IHd (Z.to_nat (Z.of_nat (length argv) - (i + 1)))); lia. }
  rewrite (u32_small (limit - 1)) by lia. destruct (Z.eqb_spec (limit - 1) 0); [by exists 0%nat, None|].
  assert (Hskip : exists fuel r, expand_loop fuel fs (i + 1) (limit - 1) (Z.of_nat (length argv)) argv = Done r)
    by (apply (IH (Z.to_nat (limit - 1))); lia).
  destruct (stat fs name) as [[]|]; [by exists 0%nat, None| |exact Hskip].
  destruct (fopen fs name) as [f|]; [|exact Hskip].
  destruct (file_options f) as [[l|]| |] eqn:Ef; cbn [rbind].
  - rewrite countargv_length.
    set (argv' := take (Z.to_nat (i + 1)) argv ++ l ++ drop (Z.to_nat (i + 1 + 1)) argv).
    replace (Z.of_nat (length argv) + (Z.of_nat (length l) - 1)) with (Z.of_nat (length argv'))
      by (unfold argv'; rewrite !length_app, length_take, length_drop; lia).
    replace (i + 1 - 1) with i by lia.
    apply (IH (Z.to_nat (limit - 1))); lia.
  - exact Hskip.
  - exfalso. revert Ef. unfold file_options. repeat case_match; try done.
    destruct (buildargv_total (up_to_nul (take (Z.to_nat (tell f)) (bytes f)))) as (l & E & _). congruence.
  - exfalso. revert Ef. unfold file_options. repeat case_match; try done.
    destruct (buildargv_total (up_to_nul (take (Z.to_nat (tell f)) (bytes f)))) as (l & E & _). congruence.
Qed.
