(* ===== verification/Libbfd.v ===== *)
(** Integers in object files: the byte order and LEB128 routines of
    [bfd/libbfd.c]. *)
From S2P Require Import Prelude Bytes.

(** ** The source: byte order *)

Section accessors.
(** [addr] is a byte pointer into [m]; a write gives the new memory. *)
Variables (m : mem) (addr : Z).

Definition at_ (i : Z) : Z := mget m (addr + i).

Definition COERCE16 (x : Z) : Z := u64 (Z.lxor x 0x8000 - 0x8000).
Definition COERCE32 (x : Z) : Z := u64 (Z.lxor x 0x80000000 - 0x80000000).
Definition COERCE64 (x : Z) : Z := u64 (Z.lxor x (u64 (Z.shiftl 1 63)) - u64 (Z.shiftl 1 63)).

(** A [bfd_vma] returned as a [bfd_signed_vma]. *)
Definition as_signed (x : Z) : Z := sext 64 x.

Definition bfd_getb16 : Z := Z.lor (Z.shiftl (at_ 0) 8) (at_ 1).
Definition bfd_getl16 : Z := Z.lor (Z.shiftl (at_ 1) 8) (at_ 0).
Definition bfd_getb_signed_16 : Z := as_signed (COERCE16 (Z.lor (Z.shiftl (at_ 0) 8) (at_ 1))).
Definition bfd_getl_signed_16 : Z := as_signed (COERCE16 (Z.lor (Z.shiftl (at_ 1) 8) (at_ 0))).

Definition bfd_putb16 (data : Z) : mem :=
  let m := mput m (addr + 0) (Z.land (Z.shiftr data 8) 0xff) in
  let m := mput m (addr + 1) (Z.land data 0xff) in
  m.

Definition bfd_putl16 (data : Z) : mem :=
  let m := mput m (addr + 0) (Z.land data 0xff) in
  let m := mput m (addr + 1) (Z.land (Z.shiftr data 8) 0xff) in
  m.

Definition bfd_putb24 (data : Z) : mem :=
  let m := mput m (addr + 0) (Z.land (Z.shiftr data 16) 0xff) in
  let m := mput m (addr + 1) (Z.land (Z.shiftr data 8) 0xff) in
  let m := mput m (addr + 2) (Z.land data 0xff) in
  m.

Definition bfd_putl24 (data : Z) : mem :=
  let m := mput m (addr + 0) (Z.land data 0xff) in
  let m := mput m (addr + 1) (Z.land (Z.shiftr data 8) 0xff) in
  let m := mput m (addr + 2) (Z.land (Z.shiftr data 16) 0xff) in
  m.

Definition bfd_getb24 : Z :=
  let v := u32 (Z.shiftl (at_ 0) 16) in
  let v := Z.lor v (u32 (Z.shiftl (at_ 1) 8)) in
  let v := Z.lor v (at_ 2) in
  v.

Definition bfd_getl24 : Z :=
  let v := at_ 0 in
  let v := Z.lor v (u32 (Z.shiftl (at_ 1) 8)) in
  let v := Z.lor v (u32 (Z.shiftl (at_ 2) 16)) in
  v.

Definition bfd_getb32 : Z :=
  let v := u32 (Z.shiftl (at_ 0) 24) in
  let v := Z.lor v (u32 (Z.shiftl (at_ 1) 16)) in
  let v := Z.lor v (u32 (Z.shiftl (at_ 2) 8)) in
  let v := Z.lor v (at_ 3) in
  v.

Definition bfd_getl32 : Z :=
  let v := at_ 0 in
  let v := Z.lor v (u32 (Z.shiftl (at_ 1) 8)) in
  let v := Z.lor v (u32 (Z.shiftl (at_ 2) 16)) in
  let v := Z.lor v (u32 (Z.shiftl (at_ 3) 24)) in
  v.

Definition bfd_getb_signed_32 : Z :=
  let v := u32 (Z.shiftl (at_ 0) 24) in
  let v := Z.lor v (u32 (Z.shiftl (at_ 1) 16)) in
  let v := Z.lor v (u32 (Z.shiftl (at_ 2) 8)) in
  let v := Z.lor v (at_ 3) in
  as_signed (COERCE32 v).

Definition bfd_getl_signed_32 : Z :=
  let v := at_ 0 in
  let v := Z.lor v (u32 (Z.shiftl (at_ 1) 8)) in
  let v := Z.lor v (u32 (Z.shiftl (at_ 2) 16)) in
  let v := Z.lor v (u32 (Z.shiftl (at_ 3) 24)) in
  as_signed (COERCE32 v).

Definition bfd_getb64 : Z :=
  let v := at_ 0 in let v := u64 (Z.shiftl v 8) in
  let v := Z.lor v (at_ 1) in let v := u64 (Z.shiftl v 8) in
  let v := Z.lor v (at_ 2) in let v := u64 (Z.shiftl v 8) in
  let v := Z.lor v (at_ 3) in let v := u64 (Z.shiftl v 8) in
  let v := Z.lor v (at_ 4) in let v := u64 (Z.shiftl v 8) in
  let v := Z.lor v (at_ 5) in let v := u64 (Z.shiftl v 8) in
  let v := Z.lor v (at_ 6) in let v := u64 (Z.shiftl v 8) in
  let v := Z.lor v (at_ 7) in
  v.

Definition bfd_getl64 : Z :=
  let v := at_ 7 in let v := u64 (Z.shiftl v 8) in
  let v := Z.lor v (at_ 6) in let v := u64 (Z.shiftl v 8) in
  let v := Z.lor v (at_ 5) in let v := u64 (Z.shiftl v 8) in
  let v := Z.lor v (at_ 4) in let v := u64 (Z.shiftl v 8) in
  let v := Z.lor v (at_ 3) in let v := u64 (Z.shiftl v 8) in
  let v := Z.lor v (at_ 2) in let v := u64 (Z.shiftl v 8) in
  let v := Z.lor v (at_ 1) in let v := u64 (Z.shiftl v 8) in
  let v := Z.lor v (at_ 0) in
  v.

Definition bfd_getb_signed_64 : Z :=
  let v := at_ 0 in let v := u64 (Z.shiftl v 8) in
  let v := Z.lor v (at_ 1) in let v := u64 (Z.shiftl v 8) in
  let v := Z.lor v (at_ 2) in let v := u64 (Z.shiftl v 8) in
  let v := Z.lor v (at_ 3) in let v := u64 (Z.shiftl v 8) in
  let v := Z.lor v (at_ 4) in let v := u64 (Z.shiftl v 8) in
  let v := Z.lor v (at_ 5) in let v := u64 (Z.shiftl v 8) in
  let v := Z.lor v (at_ 6) in let v := u64 (Z.shiftl v 8) in
  let v := Z.lor v (at_ 7) in
  as_signed (COERCE64 v).

Definition bfd_getl_signed_64 : Z :=
  let v := at_ 7 in let v := u64 (Z.shiftl v 8) in
  let v := Z.lor v (at_ 6) in let v := u64 (Z.shiftl v 8) in
  let v := Z.lor v (at_ 5) in let v := u64 (Z.shiftl v 8) in
  let v := Z.lor v (at_ 4) in let v := u64 (Z.shiftl v 8) in
  let v := Z.lor v (at_ 3) in let v := u64 (Z.shiftl v 8) in
  let v := Z.lor v (at_ 2) in let v := u64 (Z.shiftl v 8) in
  let v := Z.lor v (at_ 1) in let v := u64 (Z.shiftl v 8) in
  let v := Z.lor v (at_ 0) in
  as_signed (COERCE64 v).

Definition bfd_putb32 (data : Z) : mem :=
  let m := mput m (addr + 0) (Z.land (Z.shiftr data 24) 0xff) in
  let m := mput m (addr + 1) (Z.land (Z.shiftr data 16) 0xff) in
  let m := mput m (addr + 2) (Z.land (Z.shiftr data 8) 0xff) in
  let m := mput m (addr + 3) (Z.land data 0xff) in
  m.

Definition bfd_putl32 (data : Z) : mem :=
  let m := mput m (addr + 0) (Z.land data 0xff) in
  let m := mput m (addr + 1) (Z.land (Z.shiftr data 8) 0xff) in
  let m := mput m (addr + 2) (Z.land (Z.shiftr data 16) 0xff) in
  let m := mput m (addr + 3) (Z.land (Z.shiftr data 24) 0xff) in
  m.

Definition bfd_putb64 (data : Z) : mem :=
  let m := mput m (addr + 0) (Z.land (Z.shiftr data 56) 0xff) in
  let m := mput m (addr + 1) (Z.land (Z.shiftr data 48) 0xff) in
  let m := mput m (addr + 2) (Z.land (Z.shiftr data 40) 0xff) in
  let m := mput m (addr + 3) (Z.land (Z.shiftr data 32) 0xff) in
  let m := mput m (addr + 4) (Z.land (Z.shiftr data 24) 0xff) in
  let m := mput m (addr + 5) (Z.land (Z.shiftr data 16) 0xff) in
  let m := mput m (addr + 6) (Z.land (Z.shiftr data 8) 0xff) in
  let m := mput m (addr + 7) (Z.land (Z.shiftr data 0) 0xff) in
  m.

Definition bfd_putl64 (data : Z) : mem :=
  let m := mput m (addr + 7) (Z.land (Z.shiftr data 56) 0xff) in
  let m := mput m (addr + 6) (Z.land (Z.shiftr data 48) 0xff) in
  let m := mput m (addr + 5) (Z.land (Z.shiftr data 40) 0xff) in
  let m := mput m (addr + 4) (Z.land (Z.shiftr data 32) 0xff) in
  let m := mput m (addr + 3) (Z.land (Z.shiftr data 24) 0xff) in
  let m := mput m (addr + 2) (Z.land (Z.shiftr data 16) 0xff) in
  let m := mput m (addr + 1) (Z.land (Z.shiftr data 8) 0xff) in
  let m := mput m (addr + 0) (Z.land (Z.shiftr data 0) 0xff) in
  m.

(** The loop of [bfd_get_bits]. *)
Fixpoint get_bits_loop (n : nat) (i bytes : Z) (big_p : bool) (data : Z) : Z :=
  match n with
  | O => data
  | S n =>
      let addr_index := if big_p then i else bytes - i - 1 in
      get_bits_loop n (i + 1) bytes big_p (Z.lor (u64 (Z.shiftl data 8)) (at_ addr_index))
  end.

(** [None] is the call of [abort]. *)
Definition bfd_get_bits (bits : Z) (big_p : bool) : option Z :=
  if negb (Z.rem bits 8 =? 0) then None else
  let bytes := Z.quot bits 8 in
  Some (get_bits_loop (Z.to_nat bytes) 0 bytes big_p 0).
End accessors.

(** The loop of [bfd_put_bits]. *)
Fixpoint put_bits_loop (n : nat) (i bytes : Z) (big_p : bool) (addr : Z) (data : Z) (m : mem) : mem :=
  match n with
  | O => m
  | S n =>
      let addr_index := if big_p then bytes - i - 1 else i in
      put_bits_loop n (i + 1) bytes big_p addr (Z.shiftr data 8) (mput m (addr + addr_index) (Z.land data 0xff))
  end.

Definition bfd_put_bits (m : mem) (data addr bits : Z) (big_p : bool) : option mem :=
  if negb (Z.rem bits 8 =? 0) then None else
  let bytes := Z.quot bits 8 in
  Some (put_bits_loop (Z.to_nat bytes) 0 bytes big_p addr data m).

(** ** The source: logarithm and LEB128 *)

(** The [do] loop shifts a 64-bit value: 64 turns are enough. *)
Fixpoint log2_loop (fuel : nat) (x result : Z) : res Z :=
  match fuel with
  | O => Hang
  | S fuel =>
      let result := u32 (result + 1) in
      let x := Z.shiftr x 1 in
      if x =? 0 then Done result else log2_loop fuel x result
  end.

Definition bfd_log2 (x : Z) : res Z := if x <=? 1 then Done 0 else log2_loop 64 (x - 1) 0.

(** One byte added to the result. *)
Definition leb_add (byte result shift : Z) : Z * Z :=
  if shift <? 64 then (Z.lor result (u64 (Z.shiftl (Z.land byte 0x7f) shift)), shift + 7)
  else (result, shift).

(** The [do] loops of the two readers, over the bytes from [buf] on; reading
    past them is undefined. *)
Fixpoint leb_loop (buf : list Z) (result shift num_read : Z) : res (Z * Z * Z * Z) :=
  match buf with
  | [] => Undef
  | byte :: buf =>
      let num_read := u32 (num_read + 1) in
      let '(result, shift) := leb_add byte result shift in
      if negb (Z.land byte 0x80 =? 0) then leb_loop buf result shift num_read
      else Done (result, shift, byte, num_read)
  end.

Definition _bfd_read_unsigned_leb128 (buf : list Z) : res (Z * Z) :=
  let? r := leb_loop buf 0 0 0 in
  let '(result, _, _, num_read) := r in
  Done (result, num_read).

Definition _bfd_read_signed_leb128 (buf : list Z) : res (Z * Z) :=
  let? r := leb_loop buf 0 0 0 in
  let '(result, shift, byte, num_read) := r in
  let result :=
    if (shift <? 64) && negb (Z.land byte 0x40 =? 0)
    then Z.lor result (u64 (Z.shiftl (u64 (-1)) shift)) else result in
  Done (as_signed result, num_read).

(** The loop of the safe reader, over the bytes before [end]. *)
Fixpoint safe_loop (data : list Z) (result shift byte : Z) : Z * Z * Z * list Z :=
  match data with
  | [] => (result, shift, byte, [])
  | byte :: data =>
      let '(result, shift) := leb_add byte result shift in
      if Z.land byte 0x80 =? 0 then (result, shift, byte, data)
      else safe_loop data result shift byte
  end.

(** The value and the bytes left. *)
Definition _bfd_safe_read_leb128 (data : list Z) (sign : bool) : Z * list Z :=
  let '(result, shift, byte, data) := safe_loop data 0 0 0 in
  let result :=
    if sign && (shift <? 64) && negb (Z.land byte 0x40 =? 0)
    then Z.lor result (u64 (- u64 (Z.shiftl 1 shift))) else result in
  (result, data).

(** The bytes stored from [p] on, at most up to [end]; [false]: a null pointer
    is returned, [true]: the pointer behind them. A 64-bit value takes at most
    ten turns. *)
Fixpoint leb_write (fuel : nat) (p end_ val : Z) (out : list Z) : res (bool * list Z) :=
  match fuel with
  | O => Hang
  | S fuel =>
      if end_ <? p then Done (false, out) else
      let c := Z.land val 0x7f in
      let val := Z.shiftr val 7 in
      let c := if val =? 0 then c else Z.lor c 0x80 in
      let out := out ++ [c] in
      if val =? 0 then Done (true, out) else leb_write fuel (p + 1) end_ val out
  end.

Definition _bfd_write_unsigned_leb128 (p end_ val : Z) : res (bool * list Z) := leb_write 10 p end_ val [].

(** ** Byte order *)

Lemma low_byte d : Z.land d 0xff = d mod 256.
Proof. change 0xff with (Z.ones 8). by rewrite Z.land_ones. Qed.

Lemma shifted_byte d k s : s = 8 * Z.of_nat k -> Z.land (Z.shiftr d s) 0xff = le_enc (S k) d !!! k.
Proof.
  intros ->. rewrite low_byte, Z.shiftr_div_pow2 by lia. revert d. induction k as [|k IH]; intros d.
  - cbn [le_enc]. by rewrite Z.div_1_r.
  - specialize (IH (d / 256)). cbn [le_enc] in IH |- *. rewrite lookup_total_cons_ne_0 by done. cbn [pred].
    rewrite <- IH, Z.div_div by (try apply Z.pow_pos_nonneg; lia). f_equal. f_equal.
    change 256 with (2 ^ 8). rewrite <- Z.pow_add_r by lia. f_equal. lia.
Qed.

Lemma lor_low hi lo k : 0 <= k -> 0 <= lo < 2 ^ k -> hi mod 2 ^ k = 0 -> Z.lor lo hi = hi + lo.
Proof. intros. rewrite Z.lor_comm. by apply lor_disj with k. Qed.

(** [v = (v << 8) | b] on 64 bits. *)
Lemma horner v b : 0 <= v -> is_byte b -> Z.lor (u64 (Z.shiftl v 8)) b = u64 (v * 256 + b).
Proof.
  intros Hv Hb. unfold is_byte in Hb. rewrite Z.shiftl_mul_pow2 by lia. change (2 ^ 8) with 256.
  assert (E : u64 (v * 256) = v mod 2 ^ 56 * 256).
  { unfold wrap. change (2 ^ 64) with (2 ^ 56 * 256). by rewrite Z.mul_mod_distr_r. }
  pose proof (Z.mod_pos_bound v (2 ^ 56) ltac:(lia)).
  rewrite E, lor_disj with (k := 8); [|lia|lia|apply Z.mod_mul; lia].
  rewrite <- (u64_small (v mod 2 ^ 56 * 256 + b)), <- E by lia. apply Zplus_mod_idemp_l.
Qed.

Lemma coerce x w : 0 < w <= 64 -> 0 <= x < 2 ^ w ->
  as_signed (u64 (Z.lxor x (2 ^ (w - 1)) - 2 ^ (w - 1))) = sext w x.
Proof.
  intros Hw Hx. set (h := 2 ^ (w - 1)).
  assert (H2 : 2 ^ w = 2 * h) by (unfold h; rewrite <- Z.pow_succ_r by lia; f_equal; lia).
  assert (Hh : 0 < h) by (apply Z.pow_pos_nonneg; lia).
  assert (H64 : h <= 2 ^ 63) by (apply Z.pow_le_mono_r; lia).
  assert (Hlow : forall y, 0 <= y < h -> Z.lxor y h = y + h).
  { intros y Hy. rewrite Z.add_comm, <- (lor_disj h y (w - 1)); [|lia|done|unfold h; apply Z.mod_same; lia].
    rewrite Z.lor_comm. rewrite <- Z.lxor_lor; [done|].
    apply Z.bits_inj'. intros i Hi. rewrite Z.land_spec, Z.bits_0. unfold h. destruct (decide (i = w - 1)) as [->|].
    - by rewrite (testbit_high y (w - 1)) by lia.
    - by rewrite Z.pow2_bits_false, andb_false_r by lia. }
  assert (E : Z.lxor x h - h = sext w x).
  { unfold sext. rewrite Z.mod_small by lia. fold h. destruct (Z.ltb_spec x h).
    - rewrite Hlow by lia. lia.
    - replace x with (x - h + h) at 1 by lia. rewrite <- Hlow, Z.lxor_assoc, Z.lxor_nilpotent, Z.lxor_0_r by lia. lia. }
  rewrite E. unfold as_signed. assert (Hr : - 2 ^ 63 <= sext w x < 2 ^ 63).
  { unfold sext. rewrite Z.mod_small by lia. fold h. destruct (Z.ltb_spec x h); lia. }
  unfold sext at 1, wrap. rewrite Zmod_mod. by apply sext_small.
Qed.

Lemma coerce16 x : 0 <= x < 2 ^ 16 -> as_signed (COERCE16 x) = sext 16 x.
Proof. intros Hx. by rewrite <- (coerce x 16). Qed.
Lemma coerce32 x : 0 <= x < 2 ^ 32 -> as_signed (COERCE32 x) = sext 32 x.
Proof. intros Hx. by rewrite <- (coerce x 32). Qed.
Lemma coerce64 x : 0 <= x < 2 ^ 64 -> as_signed (COERCE64 x) = sext 64 x.
Proof. intros Hx. by rewrite <- (coerce x 64). Qed.

Section reads.
Variables (m : mem) (p : Z).

Lemma at_byte i n : Forall is_byte (mgets m p n) -> 0 <= i < Z.of_nat n -> is_byte (at_ m p i).
Proof.
  intros H Hi. rewrite Forall_lookup in H. apply (H (Z.to_nat i)). rewrite mgets_lookup by lia.
  unfold at_. by rewrite Z2Nat.id by lia.
Qed.

Lemma at_list n : mgets m p n = map (at_ m p) (seqZ 0 (Z.of_nat n)).
Proof. apply mgets_offs. Qed.

(** The bytes of the word in the context, as numbers below 256. *)
Ltac word n :=
  let H := fresh in intros H; rewrite (at_list n);
  change (seqZ 0 (Z.of_nat n)) with (ltac:(let l := eval vm_compute in (seqZ 0 (Z.of_nat n)) in exact l));
  cbn [map rev app le_dec];
  repeat match goal with
  | |- context [at_ m p ?i] =>
      pose proof (at_byte i n H ltac:(lia)); generalize dependent (at_ m p i); intros
  end; unfold is_byte in *.

Lemma getl16 : Forall is_byte (mgets m p 2) -> bfd_getl16 m p = le_dec (mgets m p 2).
Proof. unfold bfd_getl16. word 2%nat. rewrite lor_shiftl by lia. lia. Qed.
Lemma getb16 : Forall is_byte (mgets m p 2) -> bfd_getb16 m p = le_dec (rev (mgets m p 2)).
Proof. unfold bfd_getb16. word 2%nat. rewrite lor_shiftl by lia. lia. Qed.

(** Shifted bytes or-ed together add up. *)
Ltac or_bytes k :=
  let c := eval vm_compute in (2 ^ k) in
  match goal with
  | |- context [Z.lor ?x ?y] =>
      lazymatch constr:((x, y)) with
      | context [Z.lor _ _] => fail
      | _ => first
          [ rewrite (lor_disj x y k) by (change (2 ^ k) with c; Z.to_euclidean_division_equations; lia)
          | rewrite (lor_low y x k) by (change (2 ^ k) with c; Z.to_euclidean_division_equations; lia) ]
      end
  end.

Ltac shl_bytes :=
  rewrite !shl_byte by (unfold is_byte; lia);
  change (2 ^ 8) with 256; change (2 ^ 16) with 65536; change (2 ^ 24) with 16777216.

Lemma getl24 : Forall is_byte (mgets m p 3) -> bfd_getl24 m p = le_dec (mgets m p 3).
Proof. unfold bfd_getl24. word 3%nat. shl_bytes. or_bytes 8. or_bytes 16. lia. Qed.
Lemma getb24 : Forall is_byte (mgets m p 3) -> bfd_getb24 m p = le_dec (rev (mgets m p 3)).
Proof. unfold bfd_getb24. word 3%nat. shl_bytes. or_bytes 16. or_bytes 8. lia. Qed.
Lemma getl32 : Forall is_byte (mgets m p 4) -> bfd_getl32 m p = le_dec (mgets m p 4).
Proof. unfold bfd_getl32. word 4%nat. shl_bytes. or_bytes 8. or_bytes 16. or_bytes 24. lia. Qed.
Lemma getb32 : Forall is_byte (mgets m p 4) -> bfd_getb32 m p = le_dec (rev (mgets m p 4)).
Proof. unfold bfd_getb32. word 4%nat. shl_bytes. or_bytes 24. or_bytes 16. or_bytes 8. lia. Qed.

(** Seven shifts of a byte stay below 2^64. *)
Lemma horner_small v b : 0 <= v < 2 ^ 56 -> is_byte b -> Z.lor (u64 (Z.shiftl v 8)) b = v * 256 + b.
Proof. intros Hv Hb. rewrite horner by (lia || done). unfold is_byte in Hb. apply u64_small. lia. Qed.

Ltac horners :=
  repeat match goal with
  | |- context [Z.lor (u64 (Z.shiftl ?v 8)) ?b] =>
      lazymatch v with
      | context [Z.lor _ _] => fail
      | _ => rewrite (horner_small v b) by (unfold is_byte; lia)
      end
  end.

Lemma getl64 : Forall is_byte (mgets m p 8) -> bfd_getl64 m p = le_dec (mgets m p 8).
Proof. unfold bfd_getl64. word 8%nat. horners. lia. Qed.
Lemma getb64 : Forall is_byte (mgets m p 8) -> bfd_getb64 m p = le_dec (rev (mgets m p 8)).
Proof. unfold bfd_getb64. word 8%nat. horners. lia. Qed.

Lemma get_range n : Forall is_byte (mgets m p n) ->
  0 <= le_dec (mgets m p n) < 256 ^ Z.of_nat n /\ 0 <= le_dec (rev (mgets m p n)) < 256 ^ Z.of_nat n.
Proof.
  intros H. split.
  - pose proof (le_dec_bound _ H) as B. by rewrite length_mgets in B.
  - assert (H' : Forall is_byte (rev (mgets m p n))) by (apply Forall_rev; by rewrite reverse_rev || exact H).
    pose proof (le_dec_bound _ H') as B. by rewrite length_rev, length_mgets in B.
Qed.

Lemma getl_signed_16 : Forall is_byte (mgets m p 2) -> bfd_getl_signed_16 m p = sext 16 (le_dec (mgets m p 2)).
Proof.
  intros H. pose proof (proj1 (get_range 2 H)) as Hr. change (256 ^ Z.of_nat 2) with (2 ^ 16) in Hr. rewrite <- getl16 in * by done.
  rewrite <- coerce16 by exact Hr. reflexivity.
Qed.
Lemma getb_signed_16 : Forall is_byte (mgets m p 2) -> bfd_getb_signed_16 m p = sext 16 (le_dec (rev (mgets m p 2))).
Proof.
  intros H. pose proof (proj2 (get_range 2 H)) as Hr. change (256 ^ Z.of_nat 2) with (2 ^ 16) in Hr. rewrite <- getb16 in * by done.
  rewrite <- coerce16 by exact Hr. reflexivity.
Qed.
Lemma getl_signed_32 : Forall is_byte (mgets m p 4) -> bfd_getl_signed_32 m p = sext 32 (le_dec (mgets m p 4)).
Proof.
  intros H. pose proof (proj1 (get_range 4 H)) as Hr. change (256 ^ Z.of_nat 4) with (2 ^ 32) in Hr. rewrite <- getl32 in * by done.
  rewrite <- coerce32 by exact Hr. unfold bfd_getl_signed_32, bfd_getl32. cbv zeta. reflexivity.
Qed.
Lemma getb_signed_32 : Forall is_byte (mgets m p 4) -> bfd_getb_signed_32 m p = sext 32 (le_dec (rev (mgets m p 4))).
Proof.
  intros H. pose proof (proj2 (get_range 4 H)) as Hr. change (256 ^ Z.of_nat 4) with (2 ^ 32) in Hr. rewrite <- getb32 in * by done.
  rewrite <- coerce32 by exact Hr. unfold bfd_getb_signed_32, bfd_getb32. cbv zeta. reflexivity.
Qed.
Lemma getl_signed_64 : Forall is_byte (mgets m p 8) -> bfd_getl_signed_64 m p = sext 64 (le_dec (mgets m p 8)).
Proof.
  intros H. pose proof (proj1 (get_range 8 H)) as Hr. change (256 ^ Z.of_nat 8) with (2 ^ 64) in Hr. rewrite <- getl64 in * by done.
  rewrite <- coerce64 by exact Hr. unfold bfd_getl_signed_64, bfd_getl64. cbv zeta. reflexivity.
Qed.
Lemma getb_signed_64 : Forall is_byte (mgets m p 8) -> bfd_getb_signed_64 m p = sext 64 (le_dec (rev (mgets m p 8))).
Proof.
  intros H. pose proof (proj2 (get_range 8 H)) as Hr. change (256 ^ Z.of_nat 8) with (2 ^ 64) in Hr. rewrite <- getb64 in * by done.
  rewrite <- coerce64 by exact Hr. unfold bfd_getb_signed_64, bfd_getb64. cbv zeta. reflexivity.
Qed.

(** [bfd_get_bits] reads any number of bytes, modulo 2^64. *)
Lemma u64_mul_add a b c : u64 (u64 a * b + c) = u64 (a * b + c).
Proof. unfold wrap. by rewrite <- Zplus_mod_idemp_l, Zmult_mod_idemp_l, Zplus_mod_idemp_l. Qed.

Lemma get_bits_big n i bytes data :
  Forall is_byte (mgets m (p + i) n) -> 0 <= data < 2 ^ 64 ->
  get_bits_loop m p n i bytes true data = u64 (data * 256 ^ Z.of_nat n + le_dec (rev (mgets m (p + i) n))).
Proof.
  revert i data. induction n as [|n IH]; intros i data Hb Hd; cbn [get_bits_loop mgets].
  { cbn [rev le_dec]. change (256 ^ Z.of_nat 0) with 1. rewrite u64_small; lia. }
  cbn [mgets] in Hb. apply Forall_cons in Hb as [Hb0 Hb].
  replace (p + i + 1) with (p + (i + 1)) in * by lia. unfold at_. rewrite horner by (done || lia).
  rewrite IH; [|done|apply wrap_range; lia]. cbn [rev].
  rewrite le_dec_app, length_rev, length_mgets. cbn [le_dec].
  rewrite Nat2Z.inj_succ, Z.pow_succ_r, u64_mul_add by lia. apply (f_equal (wrap 64)). ring.
Qed.

Lemma get_bits_little n i bytes data :
  i = bytes - Z.of_nat n -> Forall is_byte (mgets m p n) -> 0 <= data < 2 ^ 64 ->
  get_bits_loop m p n i bytes false data = u64 (data * 256 ^ Z.of_nat n + le_dec (mgets m p n)).
Proof.
  revert i data. induction n as [|n IH]; intros i data Hi Hb Hd; cbn [get_bits_loop].
  { cbn [mgets le_dec]. change (256 ^ Z.of_nat 0) with 1. rewrite u64_small; lia. }
  replace (S n) with (n + 1)%nat in Hb |- * by lia. rewrite mgets_app in Hb |- *. cbn [mgets] in Hb |- *.
  apply Forall_app in Hb as [Hb Hb0]. apply Forall_cons in Hb0 as [Hb0 _].
  unfold at_. replace (bytes - i - 1) with (Z.of_nat n) by lia. rewrite horner by (done || lia).
  rewrite IH; [|lia|done|apply wrap_range; lia]. rewrite le_dec_app, length_mgets. cbn [le_dec].
  rewrite Nat2Z.inj_add, Z.pow_add_r, u64_mul_add by lia. change (256 ^ Z.of_nat 1) with 256.
  apply (f_equal (wrap 64)). ring.
Qed.
End reads.

(** *** Writes *)

(** Bytes written from the last address down. *)
Fixpoint mputs_down (m : mem) (p : Z) (rs : list Z) : mem :=
  match rs with
  | [] => m
  | b :: rs => mputs_down (mput m (p + Z.of_nat (length rs)) b) p rs
  end.

Lemma mputs_down_rev m p rs : mputs_down m p rs = mputs m p (rev rs).
Proof.
  revert m. induction rs as [|b rs IH]; intros m; [done|]. cbn [mputs_down rev]. rewrite IH, mputs_app, length_rev.
  cbn [mputs]. apply mput_mputs_comm. rewrite length_rev. lia.
Qed.

Section writes.
Variables (m : mem) (p data : Z).

Ltac writes := cbv zeta; rewrite ?Z.add_0_r; cbn [mputs le_enc rev app];
  rewrite <- ?Z.add_assoc; rewrite ?low_byte, ?Z.shiftr_div_pow2, ?Z.div_div by lia;
  change (2 ^ 0) with 1; rewrite ?Z.div_1_r; reflexivity.

Lemma putl16 : bfd_putl16 m p data = mputs m p (le_enc 2 data).
Proof. unfold bfd_putl16. writes. Qed.
Lemma putb16 : bfd_putb16 m p data = mputs m p (rev (le_enc 2 data)).
Proof. unfold bfd_putb16. writes. Qed.
Lemma putl24 : bfd_putl24 m p data = mputs m p (le_enc 3 data).
Proof. unfold bfd_putl24. writes. Qed.
Lemma putb24 : bfd_putb24 m p data = mputs m p (rev (le_enc 3 data)).
Proof. unfold bfd_putb24. writes. Qed.
Lemma putl32 : bfd_putl32 m p data = mputs m p (le_enc 4 data).
Proof. unfold bfd_putl32. writes. Qed.
Lemma putb32 : bfd_putb32 m p data = mputs m p (rev (le_enc 4 data)).
Proof. unfold bfd_putb32. writes. Qed.
Lemma putb64 : bfd_putb64 m p data = mputs m p (rev (le_enc 8 data)).
Proof. unfold bfd_putb64. writes. Qed.
Lemma putl64 : bfd_putl64 m p data = mputs m p (le_enc 8 data).
Proof.
  rewrite <- (rev_involutive (le_enc 8 data)), <- mputs_down_rev. unfold bfd_putl64.
  cbn [le_enc rev app mputs_down length]. writes.
Qed.
End writes.

(** [bfd_put_bits] writes the low bytes. *)
Lemma put_bits_little n i bytes p d m :
  put_bits_loop n i bytes false p d m = mputs m (p + i) (le_enc n d).
Proof.
  revert i d m. induction n as [|n IH]; intros i d m; [done|]. cbn [put_bits_loop le_enc mputs].
  rewrite IH, low_byte, Z.shiftr_div_pow2 by lia. f_equal; lia.
Qed.

Lemma put_bits_big n i bytes p d m : i = bytes - Z.of_nat n ->
  put_bits_loop n i bytes true p d m = mputs m p (rev (le_enc n d)).
Proof.
  rewrite <- mputs_down_rev. revert i d m. induction n as [|n IH]; intros i d m Hi; [done|].
  cbn [put_bits_loop le_enc mputs_down]. rewrite IH by lia. rewrite low_byte, Z.shiftr_div_pow2, length_le_enc by lia.
  do 2 f_equal. lia.
Qed.

(** ** Reading back *)

Lemma mgets_le m p n d : mgets (mputs m p (le_enc n d)) p n = le_enc n d.
Proof. rewrite <- (length_le_enc n d) at 2. apply mgets_mputs_same. Qed.
Lemma mgets_be m p n d : mgets (mputs m p (rev (le_enc n d))) p n = rev (le_enc n d).
Proof. rewrite <- (length_le_enc n d) at 2. rewrite <- length_rev. apply mgets_mputs_same. Qed.

Lemma rev_bytes n d : Forall is_byte (rev (le_enc n d)).
Proof. apply Forall_rev, le_enc_bytes. Qed.

(** The value of the bytes just written, in either order. *)
Lemma le_back m p n d :
  Forall is_byte (mgets (mputs m p (le_enc n d)) p n) /\
  le_dec (mgets (mputs m p (le_enc n d)) p n) = d mod 256 ^ Z.of_nat n.
Proof. rewrite mgets_le. split; [apply le_enc_bytes|apply le_dec_enc]. Qed.
Lemma be_back m p n d :
  Forall is_byte (mgets (mputs m p (rev (le_enc n d))) p n) /\
  le_dec (rev (mgets (mputs m p (rev (le_enc n d))) p n)) = d mod 256 ^ Z.of_nat n.
Proof. rewrite mgets_be. split; [apply rev_bytes|]. rewrite rev_involutive. apply le_dec_enc. Qed.

Lemma sext_mod w d : sext w (d mod 2 ^ w) = sext w d.
Proof. unfold sext. by rewrite Zmod_mod. Qed.

(** Reading and writing any number of bytes, one by one. *)
Lemma bits_back m p d (n : nat) big_p : (n <= 8)%nat ->
  exists m', bfd_put_bits m d p (8 * Z.of_nat n) big_p = Some m' /\
    bfd_get_bits m' p (8 * Z.of_nat n) big_p = Some (d mod 2 ^ (8 * Z.of_nat n)) /\
    forall x, x < p \/ p + Z.of_nat n <= x -> mget m' x = mget m x.
Proof.
  intros Hn. unfold bfd_put_bits, bfd_get_bits.
  rewrite (Z.mul_comm 8), Z.rem_mul, Z.quot_mul, Nat2Z.id by lia. cbn [negb Z.eqb].
  assert (Hp : 256 ^ Z.of_nat n = 2 ^ (Z.of_nat n * 8)) by (rewrite Z.mul_comm, Z.pow_mul_r by lia; done).
  assert (Hb : 0 <= d mod 256 ^ Z.of_nat n < 2 ^ 64).
  { pose proof (Z.mod_pos_bound d (256 ^ Z.of_nat n) ltac:(lia)).
    pose proof (Z.pow_le_mono_r 2 (Z.of_nat n * 8) 64 ltac:(lia) ltac:(lia)). lia. }
  eexists. split; [reflexivity|]. rewrite <- Hp. destruct big_p.
  - rewrite put_bits_big by lia. destruct (be_back m p n d) as [H1 H2]. split.
    + rewrite get_bits_big by (rewrite ?Z.add_0_r; done || lia). rewrite Z.add_0_r, H2, Z.mul_0_l, Z.add_0_l.
      by rewrite u64_small.
    + intros x Hx. apply mget_mputs_out. by rewrite length_rev, length_le_enc.
  - rewrite put_bits_little, Z.add_0_r. destruct (le_back m p n d) as [H1 H2]. split.
    + rewrite get_bits_little by (done || lia). rewrite H2, Z.mul_0_l, Z.add_0_l. by rewrite u64_small.
    + intros x Hx. apply mget_mputs_out. by rewrite length_le_enc.
Qed.

(** C17: Every accessor reads back what its counterpart wrote: the low bits of
    the value, unsigned or sign-extended, in the same byte order; and a write
    touches no other byte. *)
Theorem bfd_endian m p d :
  let w s m' := forall x, x < p \/ p + s <= x -> mget m' x = mget m x in
  (bfd_getl16 (bfd_putl16 m p d) p = d mod 2 ^ 16 /\ bfd_getb16 (bfd_putb16 m p d) p = d mod 2 ^ 16 /\
   bfd_getl_signed_16 (bfd_putl16 m p d) p = sext 16 d /\ bfd_getb_signed_16 (bfd_putb16 m p d) p = sext 16 d /\
   w 2 (bfd_putl16 m p d) /\ w 2 (bfd_putb16 m p d)) /\
  (bfd_getl24 (bfd_putl24 m p d) p = d mod 2 ^ 24 /\ bfd_getb24 (bfd_putb24 m p d) p = d mod 2 ^ 24 /\
   w 3 (bfd_putl24 m p d) /\ w 3 (bfd_putb24 m p d)) /\
  (bfd_getl32 (bfd_putl32 m p d) p = d mod 2 ^ 32 /\ bfd_getb32 (bfd_putb32 m p d) p = d mod 2 ^ 32 /\
   bfd_getl_signed_32 (bfd_putl32 m p d) p = sext 32 d /\ bfd_getb_signed_32 (bfd_putb32 m p d) p = sext 32 d /\
   w 4 (bfd_putl32 m p d) /\ w 4 (bfd_putb32 m p d)) /\
  (bfd_getl64 (bfd_putl64 m p d) p = d mod 2 ^ 64 /\ bfd_getb64 (bfd_putb64 m p d) p = d mod 2 ^ 64 /\
   bfd_getl_signed_64 (bfd_putl64 m p d) p = sext 64 d /\ bfd_getb_signed_64 (bfd_putb64 m p d) p = sext 64 d /\
   w 8 (bfd_putl64 m p d) /\ w 8 (bfd_putb64 m p d)) /\
  forall (n : nat) big_p, (n <= 8)%nat -> exists m', bfd_put_bits m d p (8 * Z.of_nat n) big_p = Some m' /\
    bfd_get_bits m' p (8 * Z.of_nat n) big_p = Some (d mod 2 ^ (8 * Z.of_nat n)) /\ w (Z.of_nat n) m'.
Proof.
  intros w.
  assert (Hle : forall n, w (Z.of_nat n) (mputs m p (le_enc n d)))
    by (intros n x Hx; apply mget_mputs_out; by rewrite length_le_enc).
  assert (Hbe : forall n, w (Z.of_nat n) (mputs m p (rev (le_enc n d))))
    by (intros n x Hx; apply mget_mputs_out; by rewrite length_rev, length_le_enc).
  rewrite putl16, putb16, putl24, putb24, putl32, putb32, putl64, putb64.
  destruct (le_back m p 2 d) as [L2 l2], (be_back m p 2 d) as [B2 b2].
  destruct (le_back m p 3 d) as [L3 l3], (be_back m p 3 d) as [B3 b3].
  destruct (le_back m p 4 d) as [L4 l4], (be_back m p 4 d) as [B4 b4].
  destruct (le_back m p 8 d) as [L8 l8], (be_back m p 8 d) as [B8 b8].
  rewrite getl16, getb16, getl_signed_16, getb_signed_16, getl24, getb24, getl32, getb32, getl_signed_32,
    getb_signed_32, getl64, getb64, getl_signed_64, getb_signed_64 by done.
  rewrite l2, b2, l3, b3, l4, b4, l8, b8.
  change (256 ^ Z.of_nat 2) with (2 ^ 16). change (256 ^ Z.of_nat 3) with (2 ^ 24).
  change (256 ^ Z.of_nat 4) with (2 ^ 32). change (256 ^ Z.of_nat 8) with (2 ^ 64). rewrite !sext_mod.
  split_and!; try done; try apply (Hle 2%nat); try apply (Hbe 2%nat); try apply (Hle 3%nat); try apply (Hbe 3%nat);
    try apply (Hle 4%nat); try apply (Hbe 4%nat); try apply (Hle 8%nat); try apply (Hbe 8%nat).
  intros n big_p Hn. by apply bits_back.
Qed.

Lemma bfd_endian_witness :
  exists m', bfd_put_bits ∅ 0x1122334455 4096 24 true = Some m' /\ bfd_get_bits m' 4096 24 true = Some 0x334455.
Proof.
  destruct (proj2 (proj2 (proj2 (proj2 (bfd_endian ∅ 4096 0x1122334455)))) 3%nat true) as (m' & E1 & E2 & _); [lia|].
  exists m'. split; [exact E1|exact E2].
Defined.

(** ** The logarithm *)

Lemma log2_loop_spec fuel x result :
  0 < x < 2 ^ Z.of_nat fuel -> 0 <= result -> result + Z.of_nat fuel < 2 ^ 32 ->
  log2_loop fuel x result = Done (result + Z.log2 x + 1).
Proof.
  revert x result. induction fuel as [|f IH]; intros x result Hx Hr Hb; [cbn in Hx; lia|].
  cbn [log2_loop]. rewrite u32_small by lia. rewrite Z.shiftr_div_pow2 by lia. change (2 ^ 1) with 2.
  rewrite Nat2Z.inj_succ, Z.pow_succ_r in Hx by lia.
  destruct (Z.eqb_spec (x / 2) 0) as [E|E].
  - assert (x = 1) as -> by (pose proof (Z.div_mod x 2 ltac:(lia)); pose proof (Z.mod_pos_bound x 2 ltac:(lia)); lia).
    f_equal. cbn. lia.
  - assert (0 < x / 2) by (pose proof (Z.div_pos x 2 ltac:(lia) ltac:(lia)); lia).
    rewrite IH; [|split; [done|apply Z.div_lt_upper_bound; lia]|lia|lia]. f_equal.
    pose proof (Z.div_mod x 2 ltac:(lia)) as Hd. pose proof (Z.mod_pos_bound x 2 ltac:(lia)).
    assert (Z.log2 x = Z.succ (Z.log2 (x / 2))); [|lia].
    destruct (decide (x mod 2 = 0)) as [E0|E1].
    + replace x with (2 * (x / 2)) at 1 by lia. by apply Z.log2_double.
    + replace x with (2 * (x / 2) + 1) at 1 by lia. by apply Z.log2_succ_double.
Qed.

(** [bfd_log2] is the logarithm rounded up, of any 64-bit value. *)
Lemma bfd_log2_spec x : 0 <= x < 2 ^ 64 -> bfd_log2 x = Done (Z.log2_up x).
Proof.
  intros Hx. unfold bfd_log2. destruct (Z.leb_spec x 1).
  - by assert (x = 0 \/ x = 1) as [-> | ->] by lia.
  - rewrite log2_loop_spec by (cbn; lia). rewrite Z.log2_up_eqn by lia. f_equal.
Qed.

(** ** LEB128 *)

(** The encoding of a value in groups of seven bits, the lowest first. *)
Fixpoint uleb (n : nat) (v : Z) : list Z :=
  match n with
  | O => []
  | S n => if v / 128 =? 0 then [v mod 128] else (v mod 128 + 128) :: uleb n (v / 128)
  end.

Lemma low_seven b : Z.land b 0x7f = b mod 128.
Proof. change 0x7f with (Z.ones 7). by rewrite Z.land_ones. Qed.

Lemma seven_more c : 0 <= c < 128 ->
  Z.lor c 0x80 = c + 128 /\ (c + 128) mod 128 = c /\ Z.land (c + 128) 0x80 <> 0 /\ Z.land c 0x80 = 0.
Proof.
  intros Hc. assert (H : forallb (fun c => (Z.lor c 0x80 =? c + 128) && ((c + 128) mod 128 =? c)
    && negb (Z.land (c + 128) 0x80 =? 0) && (Z.land c 0x80 =? 0)) (seqZ 0 128) = true) by (vm_compute; reflexivity).
  rewrite forallb_forall in H. specialize (H c ltac:(apply list_elem_of_In, elem_of_seqZ; lia)).
  rewrite !andb_true_iff, negb_true_iff, Z.eqb_neq, !Z.eqb_eq in H. tauto.
Qed.

Lemma leb_write_spec fuel p end_ v out :
  0 <= v < 2 ^ (7 * Z.of_nat fuel) -> (0 < fuel)%nat ->
  leb_write fuel p end_ v out =
  Done (p + Z.of_nat (length (uleb fuel v)) - 1 <=? end_,
        out ++ take (Z.to_nat (end_ - p + 1)) (uleb fuel v)).
Proof.
  revert p v out. induction fuel as [|f IH]; intros p v out Hv Hf; [lia|].
  cbn [leb_write uleb]. rewrite low_seven, Z.shiftr_div_pow2 by lia. change (2 ^ 7) with 128.
  pose proof (Z.mod_pos_bound v 128 ltac:(lia)) as Hm. destruct (seven_more (v mod 128) Hm) as (-> & _).
  pose proof (Z.div_mod v 128 ltac:(lia)) as Hd.
  assert (Hv' : 0 <= v / 128 < 2 ^ (7 * Z.of_nat f)).
  { split; [apply Z.div_pos; lia|]. apply Z.div_lt_upper_bound; [lia|]. change 128 with (2 ^ 7).
    rewrite <- Z.pow_add_r by lia. replace (7 + 7 * Z.of_nat f) with (7 * Z.of_nat (S f)) by lia. lia. }
  destruct (Z.eqb_spec (v / 128) 0) as [E|E]; cbn [length].
  - destruct (Z.ltb_spec end_ p), (Z.leb_spec (p + Z.of_nat 1 - 1) end_); try lia.
    + replace (Z.to_nat (end_ - p + 1)) with 0%nat by lia. by rewrite take_0, app_nil_r.
    + by rewrite take_ge by (cbn [length]; lia).
  - assert (0 < f)%nat by (destruct f; [cbn in Hv'; lia|lia]).
    destruct (Z.ltb_spec end_ p) as [Hp|Hp].
    + replace (Z.to_nat (end_ - p + 1)) with 0%nat by lia. rewrite take_0, app_nil_r.
      destruct (Z.leb_spec (p + Z.of_nat (S (length (uleb f (v / 128)))) - 1) end_); [lia|done].
    + rewrite IH by done. rewrite <- app_assoc. cbn [app].
      replace (Z.to_nat (end_ - p + 1)) with (S (Z.to_nat (end_ - (p + 1) + 1))) by lia. cbn [take].
      replace (p + 1 + Z.of_nat (length (uleb f (v / 128))) - 1)
        with (p + Z.of_nat (S (length (uleb f (v / 128)))) - 1) by lia. done.
Qed.

(** Reading the groups of [v] above the low [7 k] bits of [v0]. *)
Lemma leb_add_group v0 r s v b :
  0 <= v0 < 2 ^ 64 -> 0 <= s < 64 -> r = v0 mod 2 ^ s -> v = v0 / 2 ^ s -> b mod 128 = v mod 128 ->
  leb_add b r s = (v0 mod 2 ^ (s + 7), s + 7) /\ v / 128 = v0 / 2 ^ (s + 7) /\ (v / 128 <> 0 -> s + 7 < 64).
Proof.
  intros Hv0 Hs -> -> Hb. unfold leb_add. destruct (Z.ltb_spec s 64); [|lia]. rewrite low_seven, Hb.
  assert (H2 : 0 < 2 ^ s) by (apply Z.pow_pos_nonneg; lia).
  assert (H7 : 2 ^ (s + 7) = 2 ^ s * 128) by (rewrite Z.pow_add_r by lia; done).
  assert (Hle : v0 / 2 ^ s mod 128 * 2 ^ s <= v0).
  { pose proof (Z.mod_le (v0 / 2 ^ s) 128 ltac:(apply Z.div_pos; lia) ltac:(lia)).
    pose proof (Z.mul_div_le v0 (2 ^ s) H2). nia. }
  pose proof (Z.mod_pos_bound (v0 / 2 ^ s) 128 ltac:(lia)).
  split; [|split].
  - rewrite Z.shiftl_mul_pow2 by lia. rewrite u64_small by nia.
    pose proof (Z.mod_pos_bound v0 (2 ^ s) H2).
    rewrite (lor_low _ _ s) by (try lia; apply Z.mod_mul; lia). rewrite H7, Z.rem_mul_r by lia. f_equal. ring.
  - rewrite H7, Z.div_div by lia. done.
  - intros Hne. destruct (decide (s + 7 < 64)); [done|]. exfalso. apply Hne.
    rewrite Z.div_div by lia. apply Z.div_small. rewrite <- H7.
    pose proof (Z.pow_le_mono_r 2 64 (s + 7) ltac:(lia) ltac:(lia)). lia.
Qed.

(** Where a reader stands after the encoding of [v0]. *)
Lemma leb_loop_uleb n v0 r s v k rest :
  0 <= v0 < 2 ^ 64 -> 0 <= s < 64 -> r = v0 mod 2 ^ s -> v = v0 / 2 ^ s -> v < 2 ^ (7 * Z.of_nat n) -> (0 < n)%nat ->
  0 <= k -> k + Z.of_nat n < 2 ^ 32 ->
  exists b, let s' := s + 7 * Z.of_nat (length (uleb n v)) in
    v0 < 2 ^ s' /\ (Z.land b 0x40 =? 0) = negb (Z.testbit v0 (s' - 1)) /\
    leb_loop (uleb n v ++ rest) r s k = Done (v0, s', b, k + Z.of_nat (length (uleb n v))) /\
    forall b0, safe_loop (uleb n v ++ rest) r s b0 = (v0, s', b, rest).
Proof.
  revert r s v k. induction n as [|n IH]; intros r s v k Hv0 Hs Hr Hv Hn Hpos Hk Hk2; [lia|].
  cbn [uleb]. pose proof (Z.mod_pos_bound v 128 ltac:(lia)) as Hm.
  destruct (seven_more (v mod 128) Hm) as (_ & E2 & E3 & E4).
  assert (Hvn : 0 <= v) by (rewrite Hv; apply Z.div_pos; [lia|apply Z.pow_pos_nonneg; lia]).
  destruct (Z.eqb_spec (v / 128) 0) as [E|E]; cbn [app leb_loop safe_loop length].
  - destruct (leb_add_group v0 r s v (v mod 128) Hv0 Hs Hr Hv (Zmod_mod v 128)) as (-> & Hd & _).
    rewrite E4. cbn [Z.eqb negb]. assert (Hfin : v0 mod 2 ^ (s + 7) = v0).
    { apply Z.mod_small. rewrite E in Hd. symmetry in Hd. apply Z.div_small_iff in Hd; [|apply Z.pow_nonzero; lia].
      destruct Hd as [Hd|Hd]; [done|]. pose proof (Z.pow_pos_nonneg 2 (s + 7) ltac:(lia) ltac:(lia)). lia. }
    rewrite Hfin, u32_small by lia. exists (v mod 128). cbv zeta.
    change (s + 7 * Z.of_nat 1) with (s + 7). split_and!.
    + rewrite <- Hfin. apply Z.mod_pos_bound, Z.pow_pos_nonneg; lia.
    + change 0x40 with (Z.shiftl 1 6). rewrite land_bit by lia. change 128 with (2 ^ 7).
      rewrite Z.mod_pow2_bits_low, Hv, Z.div_pow2_bits by lia. do 2 f_equal. lia.
    + done.
    + done.
  - destruct (leb_add_group v0 r s v (v mod 128 + 128) Hv0 Hs Hr Hv) as (-> & Hd & Hlt); [by rewrite E2|].
    specialize (Hlt E). rewrite (proj2 (Z.eqb_neq _ _) E3). cbn [negb]. rewrite (u32_small (k + 1)) by lia.
    assert (Hvn2 : v / 128 < 2 ^ (7 * Z.of_nat n)).
    { apply Z.div_lt_upper_bound; [lia|]. change 128 with (2 ^ 7). rewrite <- Z.pow_add_r by lia.
      replace (7 + 7 * Z.of_nat n) with (7 * Z.of_nat (S n)) by lia. done. }
    destruct (IH (v0 mod 2 ^ (s + 7)) (s + 7) (v / 128) (k + 1)) as (b & Hb & Hsg & E5 & E6); try done; try lia.
    { destruct n; [|lia]. cbn in Hvn2. pose proof (Z.div_pos v 128). lia. }
    exists b. cbv zeta.
    replace (s + 7 * Z.of_nat (S (length (uleb n (v / 128)))))
      with (s + 7 + 7 * Z.of_nat (length (uleb n (v / 128)))) by lia.
    split; [done|]. split; [done|]. split; [|intros; apply E6]. rewrite E5. do 2 f_equal. lia.
Qed.

(** The signed readers extend the sign the same way. *)
Lemma leb_sign s : 0 <= s < 64 -> u64 (Z.shiftl (u64 (-1)) s) = u64 (- u64 (Z.shiftl 1 s)).
Proof.
  intros Hs. rewrite !Z.shiftl_mul_pow2, Z.mul_1_l by lia. rewrite (u64_small (2 ^ s)).
  2: { split; [apply Z.pow_nonneg; lia|change 18446744073709551616 with (2 ^ 64); apply Z.pow_lt_mono_r; lia]. }
  unfold wrap. rewrite Zmult_mod_idemp_l. f_equal; ring.
Qed.

(** Extending the sign of a value of [s] bits by setting the bits above. *)
Lemma leb_extend v s : 0 < s < 64 -> 0 <= v < 2 ^ s -> Z.testbit v (s - 1) = true ->
  Z.lor v (u64 (- u64 (Z.shiftl 1 s))) = u64 (sext s v).
Proof.
  intros Hs Hv Hb. rewrite <- leb_sign by lia.
  assert (H2 : 0 < 2 ^ s) by (apply Z.pow_pos_nonneg; lia).
  assert (Hp : 2 ^ 64 = 2 ^ (64 - s) * 2 ^ s) by (rewrite <- Z.pow_add_r by lia; f_equal; lia).
  assert (H1 : 0 < 2 ^ (64 - s)) by (apply Z.pow_pos_nonneg; lia).
  assert (E : u64 (Z.shiftl (u64 (-1)) s) = (2 ^ (64 - s) - 1) * 2 ^ s).
  { rewrite leb_sign by lia. pose proof (Z.pow_lt_mono_r 2 s 64 ltac:(lia) ltac:(lia) ltac:(lia)).
    rewrite Z.shiftl_mul_pow2, Z.mul_1_l, (u64_small (2 ^ s)) by lia.
    unfold wrap. rewrite Hp. symmetry. apply Z.mod_unique with (-1); [left; nia|ring]. }
  rewrite E, (lor_low _ _ s) by (try lia; apply Z.mod_mul; lia).
  assert (Hh : 2 ^ s = 2 * 2 ^ (s - 1)) by (rewrite <- Z.pow_succ_r by lia; f_equal; lia).
  assert (Hge : 2 ^ (s - 1) <= v).
  { destruct (Z.lt_ge_cases v (2 ^ (s - 1))) as [Hlt|]; [|done].
    rewrite (testbit_high v (s - 1)) in Hb by lia. done. }
  unfold sext. rewrite Z.mod_small by lia. destruct (Z.ltb_spec v (2 ^ (s - 1))); [lia|].
  unfold wrap. rewrite Hp. apply Z.mod_unique with (-1); [left; nia|ring].
Qed.

Lemma sext_low v s : 0 < s -> 0 <= v < 2 ^ s -> Z.testbit v (s - 1) = false -> sext s v = v.
Proof.
  intros Hs Hv Hb. apply sext_small; [done|]. pose proof (Z.pow_pos_nonneg 2 (s - 1)).
  destruct (Z.lt_ge_cases v (2 ^ (s - 1))) as [|Hge]; [lia|]. exfalso.
  assert (Hh : 2 ^ s = 2 * 2 ^ (s - 1)) by (rewrite <- Z.pow_succ_r by lia; f_equal; lia).
  assert (Hd : v / 2 ^ (s - 1) = 1).
  { symmetry. apply Z.div_unique with (v - 2 ^ (s - 1)); [left; lia|ring]. }
  rewrite Z.testbit_odd, Z.shiftr_div_pow2, Hd in Hb by lia. done.
Qed.

(** The two readers' sign extensions: that of a value of [7 n] bits, or of 64. *)
Lemma leb_sext v n b : 0 < n -> 0 <= v < 2 ^ 64 -> v < 2 ^ (7 * n) ->
  (Z.land b 0x40 =? 0) = negb (Z.testbit v (7 * n - 1)) ->
  (if (7 * n <? 64) && negb (Z.land b 0x40 =? 0) then Z.lor v (u64 (- u64 (Z.shiftl 1 (7 * n)))) else v)
  = u64 (sext (Z.min (7 * n) 64) v).
Proof.
  intros Hn Hv Hn2 Hb. rewrite Hb, negb_involutive. destruct (Z.ltb_spec (7 * n) 64) as [Hlt|Hge]; cbn [andb].
  - rewrite Z.min_l by lia. destruct (Z.testbit v (7 * n - 1)) eqn:E.
    + by rewrite leb_extend by (done || lia).
    + rewrite sext_low by (done || lia). by rewrite u64_small.
  - rewrite Z.min_r by lia. unfold sext, wrap. rewrite (Z.mod_small v (2 ^ 64)) by lia.
    destruct (v <? 2 ^ (64 - 1)); [by rewrite Z.mod_small|].
    symmetry. replace (v - 2 ^ 64) with (v + -1 * 2 ^ 64) by ring. by rewrite Z.mod_add, Z.mod_small.
Qed.

Lemma as_signed_sext w v : 0 < w <= 64 -> as_signed (u64 (sext w v)) = sext w v.
Proof.
  intros Hw. unfold as_signed, sext at 1, wrap. rewrite Zmod_mod. apply sext_small; [done|].
  pose proof (Z.pow_le_mono_r 2 (w - 1) (64 - 1) ltac:(lia) ltac:(lia)).
  assert (Hh : 2 ^ w = 2 * 2 ^ (w - 1)) by (rewrite <- Z.pow_succ_r by lia; f_equal; lia).
  pose proof (Z.mod_pos_bound v (2 ^ w) ltac:(lia)). pose proof (Z.pow_pos_nonneg 2 (w - 1)).
  unfold sext. destruct (Z.ltb_spec (v mod 2 ^ w) (2 ^ (w - 1))); lia.
Qed.

(** C18: Writing a 64-bit value in LEB128 stores its groups, the shortest
    encoding, as far as there is room, and returns a pointer exactly when they
    all fit. From the whole encoding the unsigned readers give the value back;
    the signed readers give the two's complement reading of its [7 n] bits
    (at most 64), so a value whose highest group has bit 6 set comes back
    negative; all of them stop behind the encoding. *)
Theorem leb128_roundtrip v p end_ rest :
  0 <= v < 2 ^ 64 ->
  let bytes := uleb 10 v in
  let n := Z.of_nat (length bytes) in
  let w := Z.min (7 * n) 64 in
  _bfd_write_unsigned_leb128 p end_ v = Done (p + n - 1 <=? end_, take (Z.to_nat (end_ - p + 1)) bytes) /\
  _bfd_read_unsigned_leb128 (bytes ++ rest) = Done (v, n) /\
  _bfd_safe_read_leb128 (bytes ++ rest) false = (v, rest) /\
  _bfd_read_signed_leb128 (bytes ++ rest) = Done (sext w v, n) /\
  _bfd_safe_read_leb128 (bytes ++ rest) true = (u64 (sext w v), rest).
Proof.
  intros Hv bytes n w. split.
  { unfold _bfd_write_unsigned_leb128. rewrite leb_write_spec by (cbn; lia). done. }
  destruct (leb_loop_uleb 10 v 0 0 v 0 rest) as (b & Hlt & Hb & E1 & E2); try (cbn; lia).
  { by rewrite Z.mod_1_r. }
  { by rewrite Z.div_1_r. }
  fold bytes in Hlt, Hb, E1, E2. rewrite !Z.add_0_l in *. fold n in Hlt, Hb, E1, E2.
  assert (Hn : 0 < n) by (unfold n, bytes; cbn [uleb]; destruct (v / 128 =? 0); cbn [length]; lia).
  pose proof (leb_sext v n b Hn Hv Hlt Hb) as Hs. fold w in Hs.
  unfold _bfd_read_unsigned_leb128, _bfd_read_signed_leb128, _bfd_safe_read_leb128.
  rewrite E1, E2. cbn [rbind andb]. rewrite Hs. split_and!; try done.
  do 2 f_equal. rewrite <- (as_signed_sext w v) by lia. rewrite <- Hs. f_equal.
  destruct (Z.ltb_spec (7 * n) 64); [|done]. by rewrite leb_sign by lia.
Qed.

(** 624485 needs three groups; 64 fits one, whose bit 6 is its sign. *)
Lemma leb128_roundtrip_witness :
  _bfd_write_unsigned_leb128 0 9 624485 = Done (true, [229; 142; 38]) /\
  _bfd_write_unsigned_leb128 0 1 624485 = Done (false, [229; 142]) /\
  _bfd_read_unsigned_leb128 [229; 142; 38; 7] = Done (624485, 3) /\
  _bfd_safe_read_leb128 [229; 142; 38; 7] false = (624485, [7]) /\
  _bfd_read_signed_leb128 [64; 7] = Done (-64, 1) /\
  _bfd_safe_read_leb128 [64; 7] true = (2 ^ 64 - 64, [7]).
Proof.
  destruct (leb128_roundtrip 624485 0 9 [7]) as (E1 & E2 & E3 & _); [lia|].
  destruct (leb128_roundtrip 624485 0 1 [7]) as (E4 & _); [lia|].
  destruct (leb128_roundtrip 64 0 9 [7]) as (_ & _ & _ & E5 & E6); [lia|].
  split; [exact E1|]. split; [exact E4|]. split; [exact E2|]. split; [exact E3|]. split; [exact E5|exact E6].
Defined.
