(* ===== verification/Sort.v ===== *)
(** The radix sort of [libiberty/sort.c] and [include/sort.h]: eight stable
    counting sorts of an array of 64-bit pointers, one for each byte in memory,
    between two arrays that change roles. *)
From stdpp Require Import sorting.
From S2P Require Import Prelude Bytes.

(** ** The source *)

Definition SIZEOF_PTR : Z := 8.
Definition DIGIT_MAX : Z := 256.

(** The bytes of a 64-bit word, by address. *)
Definition bytes_of (be : bool) (x : Z) : list Z := if be then rev (le_enc 8 x) else le_enc 8 x.

(** The byte [off] bytes from the start of an array of words. *)
Definition byte_at (be : bool) (arr : list Z) (off : Z) : res Z :=
  if 0 <=? off then
    match arr !! Z.to_nat (off / SIZEOF_PTR) with
    | Some x => Done (bytes_of be x !!! Z.to_nat (off mod SIZEOF_PTR))
    | None => Undef
    end
  else Undef.

Fixpoint endian_word (n : nat) (i j : Z) : Z :=
  match n with
  | O => j
  | S n => endian_word n (i + 1) (u64 (u64 (j * DIGIT_MAX) + i))
  end.

Definition big_endian_p (be : bool) : bool := bytes_of be (endian_word 8 0 0) !!! 0%nat =? 0.

(** [++count[*digit]] for [n] digits from [digit] on, one in each word. *)
Fixpoint count_digits (be : bool) (arr : list Z) (n : nat) (digit : Z) (count : list Z) : res (list Z) :=
  match n with
  | O => Done count
  | S n =>
      let? d := byte_at be arr digit in
      count_digits be arr n (digit + SIZEOF_PTR)
        (<[Z.to_nat d := u32 (count !!! Z.to_nat d + 1)]> count)
  end.

(** [*countp += countp[-1]]. *)
Fixpoint cumulate (prev : Z) (count : list Z) : list Z :=
  match count with
  | [] => []
  | c :: count => let c := u32 (c + prev) in c :: cumulate c count
  end.

Definition cumulated (count : list Z) : list Z :=
  match count with [] => [] | c :: count => c :: cumulate c count end.

(** [work[--count[digit]] = *pointerp] for the first [n] pointers, from the
    last one down. *)
Fixpoint drop_pointers (be : bool) (pointers : list Z) (j : Z) (n : nat) (count work : list Z) : res (list Z) :=
  match n with
  | O => Done work
  | S n =>
      let? d := byte_at be pointers (Z.of_nat n * SIZEOF_PTR + j) in
      let c := u32 (count !!! Z.to_nat d - 1) in
      match pointers !! n with
      | Some p =>
          if c <? Z.of_nat (length work) then
            drop_pointers be pointers j n (<[Z.to_nat d := c]> count) (<[Z.to_nat c := p]> work)
          else Undef
      | None => Undef
      end
  end.

(** One turn of the outer loop: what [work] holds behind it. *)
Definition sort_digit (be : bool) (n : nat) (i : Z) (pointers work : list Z) : res (list Z) :=
  let j := if big_endian_p be then u64 (SIZEOF_PTR - i) else i in
  let count := replicate (Z.to_nat DIGIT_MAX) 0 in
  let? count := count_digits be pointers n j count in
  drop_pointers be pointers j n (cumulated count) work.

(** The outer loop. [swapped] tells whether the variable [pointers] is the
    caller's work array; the result is the caller's two arrays. *)
Fixpoint sort_loop (be : bool) (n : nat) (turns : nat) (i : Z) (pointers work : list Z) (swapped : bool)
  : res (list Z * list Z) :=
  match turns with
  | O => Done (if swapped then (work, pointers) else (pointers, work))
  | S turns =>
      let? work := sort_digit be n i pointers work in
      sort_loop be n turns (i + 1) work pointers (negb swapped)
  end.

(** [None]: the process was aborted. *)
Definition sort_pointers (be : bool) (n : nat) (pointers work : list Z) : res (option (list Z * list Z)) :=
  if negb (SIZEOF_PTR mod 2 =? 0) then Done None
  else let? r := sort_loop be n (Z.to_nat SIZEOF_PTR) 0 pointers work false in Done (Some r).

Example sort_pointers_ex :
  sort_pointers false 5 [3000; 7; 2 ^ 40 + 1; 7; 65536] [0; 0; 0; 0; 0]
  = Done (Some ([7; 7; 3000; 65536; 2 ^ 40 + 1], [7; 7; 3000; 65536; 2 ^ 40 + 1])).
Proof. vm_compute. reflexivity. Qed.

(** ** A stable sort by one digit *)

Section buckets.
Context (dg : Z -> nat).

Definition bucket (d : nat) (l : list Z) : list Z := filter (fun x => dg x = d) l.

Fixpoint buckets (m : nat) (l : list Z) : list Z :=
  match m with
  | O => []
  | S m => buckets m l ++ bucket m l
  end.

(** The number of pointers whose digit is below [m]. *)
Definition below (m : nat) (l : list Z) : nat := length (buckets m l).

Lemma below_S m l : below (S m) l = (below m l + length (bucket m l))%nat.
Proof. unfold below. cbn. by rewrite length_app. Qed.

Lemma below_mono m k l : (m <= k)%nat -> (below m l <= below k l)%nat.
Proof. induction 1; [done|]. rewrite below_S. lia. Qed.

Lemma bucket_snoc d l x : bucket d (l ++ [x]) = bucket d l ++ (if decide (dg x = d) then [x] else []).
Proof. unfold bucket. by rewrite filter_app. Qed.

Lemma bucket_cons d x l : bucket d (x :: l) = (if decide (dg x = d) then [x] else []) ++ bucket d l.
Proof. unfold bucket. rewrite filter_cons. by case_decide. Qed.

Lemma buckets_perm m l : buckets m l ≡ₚ filter (fun x => (dg x < m)%nat) l.
Proof.
  induction m as [|m IH]; cbn [buckets].
  - induction l as [|x l IH]; [done|]. rewrite filter_cons, decide_False by lia. done.
  - rewrite IH. clear IH. induction l as [|x l IH]; [done|]. rewrite bucket_cons, !filter_cons.
    destruct (decide (dg x < m)%nat), (decide (dg x = m)), (decide (dg x < S m)%nat); try lia; cbn [app].
    + by rewrite IH.
    + by rewrite <- Permutation_middle, IH.
    + done.
Qed.

Lemma buckets_all m l : Forall (fun x => (dg x < m)%nat) l -> buckets m l ≡ₚ l.
Proof.
  intros H. rewrite buckets_perm. induction H as [|x l Hx _ IH]; [done|].
  by rewrite filter_cons, decide_True, IH by done.
Qed.

Lemma buckets_lookup m l p x :
  buckets m l !! p = Some x ->
  exists d k, (d < m)%nat /\ p = (below d l + k)%nat /\ bucket d l !! k = Some x.
Proof.
  induction m as [|m IH]; cbn [buckets]; [done|]. intros [Hx|[Hp Hx]]%lookup_app_Some.
  - destruct (IH Hx) as (d & k & ? & ? & ?). exists d, k. auto with lia.
  - exists m, (p - below m l)%nat. unfold below in *. repeat split; auto with lia.
Qed.

(** Places of different buckets differ. *)
Lemma place_inj l d1 k1 d2 k2 :
  (k1 < length (bucket d1 l))%nat -> (k2 < length (bucket d2 l))%nat ->
  (below d1 l + k1 = below d2 l + k2)%nat -> d1 = d2 /\ k1 = k2.
Proof.
  intros H1 H2 E. destruct (Nat.lt_trichotomy d1 d2) as [H|[->|H]].
  - pose proof (below_mono (S d1) d2 l ltac:(lia)). rewrite below_S in *. lia.
  - lia.
  - pose proof (below_mono (S d2) d1 l ltac:(lia)). rewrite below_S in *. lia.
Qed.

(** Sorting by a digit refines an order stably. *)
Lemma buckets_sorted (R : Z -> Z -> Prop) m l :
  StronglySorted R l ->
  StronglySorted (fun x y => (dg x < dg y)%nat \/ dg x = dg y /\ R x y) (buckets m l).
Proof.
  intros Hl. induction m as [|m IH]; cbn [buckets]; [constructor|].
  apply StronglySorted_app. split_and!; [|done|].
  - intros x y Hx Hy. left. rewrite buckets_perm in Hx.
    apply list_elem_of_filter in Hx as [? _], Hy as [-> _]. lia.
  - clear IH. induction Hl as [|x l Hl IH Hx]; [constructor|]. unfold bucket. rewrite filter_cons.
    case_decide; [|done]. constructor; [done|]. apply Forall_forall.
    intros y [Hy Hin]%list_elem_of_filter. rewrite Forall_forall in Hx. right. split; [congruence|auto].
Qed.
End buckets.

(** ** One turn *)

Lemma le_enc_lookup n v k :
  (k < n)%nat -> le_enc n v !! k = Some (v / 256 ^ Z.of_nat k mod 256).
Proof.
  revert v k. induction n as [|n IH]; intros v k Hk; [lia|]. destruct k as [|k]; cbn [le_enc].
  - by rewrite Z.div_1_r.
  - cbn [lookup list_lookup]. rewrite IH by lia.
    rewrite Nat2Z.inj_succ, Z.pow_succ_r, Z.div_div by lia. done.
Qed.

Lemma big_endian_p_ok be : big_endian_p be = be.
Proof. by destruct be. Qed.

Section turn.
Context (j : Z) (Hj : 0 <= j < 8).

Definition digit (x : Z) : nat := Z.to_nat (x / 256 ^ j mod 256).

Lemma digit_lt x : (digit x < 256)%nat.
Proof. clear Hj. unfold digit. pose proof (Z.mod_pos_bound (x / 256 ^ j) 256). lia. Qed.

Lemma byte_at_digit arr n x :
  arr !! n = Some x -> byte_at false arr (Z.of_nat n * SIZEOF_PTR + j) = Done (Z.of_nat (digit x)).
Proof.
  intros Hx. unfold byte_at, SIZEOF_PTR. rewrite (proj2 (Z.leb_le 0 _)) by lia.
  rewrite Z.div_add_l, Z.div_small, Z.add_0_r, Nat2Z.id, Hx by lia.
  rewrite Z.add_comm, Z.mod_add, Z.mod_small by lia. cbn [bytes_of].
  rewrite (list_lookup_total_correct (A := Z) _ _ _ (le_enc_lookup 8 x (Z.to_nat j) ltac:(lia))).
  unfold digit. pose proof (Z.mod_pos_bound (x / 256 ^ j) 256). by rewrite !Z2Nat.id by lia.
Qed.

Abbreviation cnt d l := (length (bucket digit d l)).

Lemma cnt_le d l : (cnt d l <= length l)%nat.
Proof. apply length_filter. Qed.

Definition counts (l count : list Z) : Prop :=
  length count = 256%nat /\ forall d, (d < 256)%nat -> count !! d = Some (Z.of_nat (cnt d l)).

Lemma counts_snoc l count x :
  Z.of_nat (length l) < 2 ^ 32 - 1 -> counts l count ->
  counts (l ++ [x]) (<[digit x := u32 (count !!! digit x + 1)]> count).
Proof.
  intros Hl [Hc Hd]. split; [by rewrite length_insert|]. intros d Hlt.
  rewrite (list_lookup_total_correct (A := Z) _ _ _ (Hd _ (digit_lt x))), bucket_snoc, length_app.
  pose proof (cnt_le (digit x) l). pose proof (digit_lt x). case_decide as E.
  - rewrite <- E, list_lookup_insert_eq by lia. f_equal. rewrite u32_small by lia. cbn [length]. lia.
  - rewrite list_lookup_insert_ne, Hd by done. f_equal. cbn [length]. lia.
Qed.

Lemma count_digits_spec rest pre count arr :
  arr = pre ++ rest -> Z.of_nat (length arr) < 2 ^ 32 -> counts pre count ->
  exists count', count_digits false arr (length rest) (Z.of_nat (length pre) * SIZEOF_PTR + j) count = Done count'
    /\ counts arr count'.
Proof.
  revert pre count. induction rest as [|x rest IH]; intros pre count -> Hn Hc; cbn [count_digits length].
  - exists count. by rewrite app_nil_r.
  - rewrite (byte_at_digit _ _ x) by (by apply list_lookup_middle). cbn [rbind]. rewrite Nat2Z.id.
    rewrite length_app in Hn. cbn [length] in Hn.
    destruct (IH (pre ++ [x]) (<[digit x := u32 (count !!! digit x + 1)]> count)) as (count' & E & H).
    + by rewrite <- app_assoc.
    + rewrite length_app. cbn [length]. lia.
    + apply counts_snoc; [lia|done].
    + exists count'. rewrite <- E. split; [|done]. f_equal.
      rewrite length_app. cbn [length]. unfold SIZEOF_PTR. lia.
Qed.

Lemma cumulate_spec l cs m d :
  Z.of_nat (length l) < 2 ^ 32 -> (m + length cs <= 256)%nat ->
  (forall i, (i < length cs)%nat -> cs !! i = Some (Z.of_nat (cnt (m + i) l))) ->
  (d < length cs)%nat ->
  cumulate (Z.of_nat (below digit m l)) cs !! d = Some (Z.of_nat (below digit (S (m + d)) l)).
Proof.
  intros Hn. revert m d. induction cs as [|c cs IH]; intros m d Hm Hc Hd; cbn [length] in *; [lia|].
  pose proof (Hc 0%nat ltac:(lia)) as H0. rewrite Nat.add_0_r in H0. injection H0 as ->.
  cbn [cumulate]. assert (Hle : (below digit (S m) l <= length l)%nat).
  { unfold below. rewrite buckets_perm. apply length_filter. }
  rewrite below_S in Hle.
  replace (u32 (Z.of_nat (cnt m l) + Z.of_nat (below digit m l))) with (Z.of_nat (below digit (S m) l))
    by (rewrite u32_small, below_S; lia).
  destruct d as [|d]; cbn [lookup list_lookup].
  - by rewrite Nat.add_0_r.
  - rewrite IH; [|lia| |lia].
    + by replace (S m + d)%nat with (m + S d)%nat by lia.
    + intros i Hi. specialize (Hc (S i) ltac:(lia)). by replace (S m + i)%nat with (m + S i)%nat by lia.
Qed.

Lemma cumulated_spec l count d :
  Z.of_nat (length l) < 2 ^ 32 -> counts l count -> (d < 256)%nat ->
  cumulated count !! d = Some (Z.of_nat (below digit (S d) l)).
Proof.
  intros Hn [Hl Hc] Hd. destruct count as [|c cs]; [done|]. cbn [length cumulated] in *.
  pose proof (Hc 0%nat ltac:(lia)) as H0. injection H0 as ->.
  destruct d as [|d]; [done|]. cbn [lookup list_lookup].
  apply (cumulate_spec l cs 1 d Hn); [lia| |lia]. intros i Hi. apply (Hc (S i)). lia.
Qed.

Lemma length_cumulated count : length (cumulated count) = length count.
Proof.
  destruct count as [|c cs]; [done|]. cbn. f_equal. revert c.
  induction cs as [|c' cs IH]; intros c; cbn; [done|by rewrite IH].
Qed.

(** What holds when the first [n] pointers are still to be dropped: [count] has
    the ends of what is left of the buckets, the rest of each is in place. *)
Record dropping (l : list Z) (n : nat) (count work : list Z) : Prop := Dropping {
  dr_counts : length count = 256%nat;
  dr_count : forall d, (d < 256)%nat ->
    count !! d = Some (Z.of_nat (below digit d l + cnt d (take n l)));
  dr_length : length work = length l;
  dr_work : forall d k x, (d < 256)%nat -> (cnt d (take n l) <= k)%nat ->
    bucket digit d l !! k = Some x -> work !! (below digit d l + k)%nat = Some x }.

Lemma below_256 l : below digit 256 l = length l.
Proof.
  unfold below. rewrite buckets_all; [done|]. apply Forall_true. apply digit_lt.
Qed.

Lemma bucket_split l n x :
  l !! n = Some x ->
  bucket digit (digit x) l = bucket digit (digit x) (take n l) ++ x :: bucket digit (digit x) (drop (S n) l).
Proof.
  intros Hx. rewrite <- (take_drop_middle l n x Hx) at 1. unfold bucket.
  by rewrite filter_app, filter_cons, decide_True.
Qed.

Lemma dropping_step l n x count work :
  Z.of_nat (length l) < 2 ^ 32 -> l !! n = Some x -> dropping l (S n) count work ->
  let c := (below digit (digit x) l + cnt (digit x) (take n l))%nat in
  u32 (count !!! digit x - 1) = Z.of_nat c /\ (c < length work)%nat
  /\ dropping l n (<[digit x := Z.of_nat c]> count) (<[c := x]> work).
Proof.
  intros Hn Hx [Hc1 Hc2 Hw1 Hw2] c. pose proof (digit_lt x) as Hd.
  pose proof (bucket_split l n x Hx) as Hb.
  assert (Hcnt : forall d, cnt d (take (S n) l) = (cnt d (take n l) + if decide (digit x = d) then 1 else 0)%nat).
  { intros d. rewrite (take_S_r _ _ _ Hx), bucket_snoc, length_app. by case_decide. }
  assert (Hcl : (c < length l)%nat).
  { pose proof (below_mono digit (S (digit x)) 256 l ltac:(lia)) as H. rewrite below_256, below_S, Hb, length_app in H.
    cbn [length] in H. unfold c. lia. }
  split_and!; [|lia|split].
  - rewrite (list_lookup_total_correct (A := Z) _ _ _ (Hc2 _ Hd)), Hcnt, decide_True by done.
    rewrite u32_small; unfold c; lia.
  - by rewrite length_insert.
  - intros d Hlt. destruct (decide (digit x = d)) as [<-|Hne].
    + by rewrite list_lookup_insert_eq by lia.
    + rewrite list_lookup_insert_ne, Hc2, Hcnt, decide_False by done. do 2 f_equal. lia.
  - by rewrite length_insert.
  - intros d k y Hlt Hk Hy. destruct (decide (c = below digit d l + k)%nat) as [E|Hne].
    + assert (Hbx : bucket digit (digit x) l !! cnt (digit x) (take n l) = Some x)
        by (rewrite Hb; by apply list_lookup_middle).
      destruct (place_inj digit l (digit x) (cnt (digit x) (take n l)) d k) as [<- <-];
        [by apply lookup_lt_Some in Hbx|by apply lookup_lt_Some in Hy|done|].
      rewrite <- E, list_lookup_insert_eq by lia. congruence.
    + rewrite list_lookup_insert_ne by done. apply Hw2; [done| |done].
      rewrite Hcnt. destruct (decide (digit x = d)) as [<-|]; [|lia].
      unfold c in Hne. lia.
Qed.

Lemma drop_pointers_spec l n count work :
  Z.of_nat (length l) < 2 ^ 32 -> (n <= length l)%nat -> dropping l n count work ->
  exists count' work', drop_pointers false l j n count work = Done work' /\ dropping l 0 count' work'.
Proof.
  intros Hl. revert count work. induction n as [|n IH]; intros count work Hn H; cbn [drop_pointers].
  - by exists count, work.
  - destruct (lookup_lt_is_Some_2 l n ltac:(lia)) as [x Hx].
    rewrite (byte_at_digit _ _ x Hx), Hx. cbn [rbind]. rewrite Nat2Z.id.
    destruct (dropping_step l n x count work Hl Hx H) as (-> & Hc & H').
    rewrite (proj2 (Z.ltb_lt _ _)), Nat2Z.id by lia. apply (IH _ _ ltac:(lia) H').
Qed.

Lemma dropped l count work : dropping l 0 count work -> work = buckets digit 256 l.
Proof.
  intros [_ _ Hl Hw]. symmetry. apply list_eq_same_length with (length l).
  - done.
  - apply below_256.
  - intros p x y Hp Hx Hy. destruct (buckets_lookup _ _ _ _ _ Hx) as (d & k & Hd & -> & Hk).
    rewrite (Hw d k x Hd (Nat.le_0_l _) Hk) in Hy. congruence.
Qed.

(** A turn on a little-endian host sorts stably by byte [j]. *)
Lemma sort_digit_spec l work :
  Z.of_nat (length l) < 2 ^ 32 -> length work = length l ->
  sort_digit false (length l) j l work = Done (buckets digit 256 l).
Proof.
  intros Hl Hw. unfold sort_digit. rewrite big_endian_p_ok.
  destruct (count_digits_spec l [] (replicate 256 0) l) as (count & E & Hc); [done|done| |].
  { split; [done|]. intros d Hd. by apply lookup_replicate. }
  change (count_digits false l (length l) j (replicate (Z.to_nat DIGIT_MAX) 0) = Done count) in E.
  rewrite E. cbn [rbind].
  destruct (drop_pointers_spec l (length l) (cumulated count) work Hl ltac:(done)) as (c' & w' & -> & H).
  - split; [by rewrite length_cumulated; apply Hc| |done|].
    + intros d Hd. rewrite (cumulated_spec l count d Hl Hc Hd), firstn_all, below_S. done.
    + intros d k x Hd Hk Hx%lookup_lt_Some. rewrite firstn_all in Hk. lia.
  - by rewrite (dropped l c' w' H).
Qed.
End turn.

(** ** The sort *)

Definition low (i : Z) (x y : Z) : Prop := x mod 256 ^ i <= y mod 256 ^ i.

Lemma low_digit i x y :
  0 <= i -> (digit i x < digit i y)%nat \/ digit i x = digit i y /\ low i x y -> low (i + 1) x y.
Proof.
  intros Hi H. unfold low, digit in *. rewrite Z.pow_add_r, Z.pow_1_r by lia.
  assert (0 < 256 ^ i) by (apply Z.pow_pos_nonneg; lia). pose proof (Z.pow_pos_nonneg 256 i). rewrite !Z.rem_mul_r by lia.
  pose proof (Z.mod_pos_bound (x / 256 ^ i) 256). pose proof (Z.mod_pos_bound (y / 256 ^ i) 256).
  pose proof (Z.mod_pos_bound x (256 ^ i)). pose proof (Z.mod_pos_bound y (256 ^ i)). nia.
Qed.

(** What [turns] turns leave. *)
Fixpoint radix (turns : nat) (i : Z) (l : list Z) : list Z :=
  match turns with
  | O => l
  | S turns => radix turns (i + 1) (buckets (digit i) 256 l)
  end.

Lemma radix_perm turns i l : radix turns i l ≡ₚ l.
Proof.
  revert i l. induction turns as [|t IH]; intros i l; [done|]. cbn [radix]. rewrite IH.
  apply buckets_all, Forall_true, digit_lt.
Qed.

Lemma StronglySorted_mono {A} (R1 R2 : A -> A -> Prop) l :
  (forall x y, R1 x y -> R2 x y) -> StronglySorted R1 l -> StronglySorted R2 l.
Proof. intros H. induction 1; constructor; eauto using Forall_impl. Qed.

Lemma radix_sorted turns i l :
  0 <= i -> StronglySorted (low i) l -> StronglySorted (low (i + Z.of_nat turns)) (radix turns i l).
Proof.
  revert i l. induction turns as [|t IH]; intros i l Hi Hl; cbn [radix]; [by rewrite Z.add_0_r|].
  replace (i + Z.of_nat (S t)) with (i + 1 + Z.of_nat t) by lia. apply IH; [lia|].
  eapply StronglySorted_mono; [|apply buckets_sorted, Hl]. intros x y. by apply low_digit.
Qed.

Lemma sort_loop_spec turns i l work swapped :
  0 <= i -> i + Z.of_nat turns <= 8 -> Z.of_nat (length l) < 2 ^ 32 -> length work = length l ->
  exists work', length work' = length l /\
    sort_loop false (length l) turns i l work swapped
    = Done (if xorb swapped (Nat.odd turns) then (work', radix turns i l) else (radix turns i l, work')).
Proof.
  revert i l work swapped. induction turns as [|t IH]; intros i l work sw Hi Ht Hl Hw; cbn [sort_loop radix].
  - exists work. split; [done|]. by destruct sw.
  - rewrite sort_digit_spec by (done || lia). cbn [rbind].
    assert (E : length (buckets (digit i) 256 l) = length l) by apply below_256.
    destruct (IH (i + 1) (buckets (digit i) 256 l) l (negb sw)) as (w' & Hw' & H); [lia..|by rewrite E|done|].
    exists w'. split; [congruence|]. rewrite E in H. rewrite H, Nat.odd_succ, <- Nat.negb_odd.
    by destruct sw, (Nat.odd t).
Qed.

(** Counting one word too far reads past the end of the array. *)
Lemma count_past_end be arr n k count :
  (n + k = S (length arr))%nat -> (0 < n)%nat ->
  count_digits be arr n (Z.of_nat k * SIZEOF_PTR) count = Undef.
Proof.
  revert k count. induction n as [|n IH]; intros k count Hk H0; [lia|]. cbn [count_digits].
  unfold byte_at. unfold SIZEOF_PTR at 1 2 3 4. rewrite (proj2 (Z.leb_le 0 _)) by lia.
  rewrite Z.div_mul, Nat2Z.id by done. destruct (arr !! k) eqn:Ek; [|done]. cbn [rbind].
  replace (Z.of_nat k * SIZEOF_PTR + SIZEOF_PTR) with (Z.of_nat (S k) * SIZEOF_PTR) by lia.
  apply lookup_lt_Some in Ek. apply IH; lia.
Qed.

(** C28: [sort_pointers] sorts: on a little-endian host, with fewer than 2^32
    64-bit pointers and a work array as long, it returns with the caller's
    array in ascending order and a permutation of what it held; no index leaves
    an array. On a big-endian host the offset of
    the digit is one byte too high, and the first turn reads past the end of any
    array that is not empty. *)
Theorem sort_pointers_spec (pointers work : list Z)
    (Hr : Forall (fun p => 0 <= p < 2 ^ 64) pointers) (Hn : Z.of_nat (length pointers) < 2 ^ 32)
    (Hw : length work = length pointers) :
  (exists sorted work', sort_pointers false (length pointers) pointers work = Done (Some (sorted, work'))
    /\ StronglySorted Z.le sorted /\ sorted ≡ₚ pointers /\ length work' = length work) /\
  sort_pointers true (length pointers) pointers work
  = (if decide (pointers = []) then Done (Some ([], [])) else Undef).
Proof.
  split.
  - destruct (sort_loop_spec 8 0 pointers work false) as (w' & Hw' & E); [done..|].
    exists (radix 8 0 pointers), w'. split_and!; [|..|congruence].
    + unfold sort_pointers. change (Z.to_nat SIZEOF_PTR) with 8%nat. by rewrite E.
    + assert (H : StronglySorted (low 8) (radix 8 0 pointers)).
      { apply (radix_sorted 8 0); [done|]. clear. induction pointers; constructor; [done|].
        apply Forall_true. intros x. unfold low. by rewrite !Z.mod_1_r. }
      rewrite <- (radix_perm 8 0) in Hr. clear - H Hr. induction H as [|x l H IH Hx]; constructor.
      * apply IH. by apply Forall_cons_1 in Hr as [_ ?].
      * apply Forall_cons_1 in Hr as [Hxr Hr]. rewrite !Forall_forall in *. intros y Hy.
        specialize (Hx y Hy). unfold low in Hx. by rewrite !Z.mod_small in Hx by auto.
    + apply radix_perm.
  - case_decide as E; [subst pointers; by destruct work|].
    destruct pointers as [|p l]; [done|].
    assert (H : sort_digit true (length (p :: l)) 0 (p :: l) work = Undef).
    2: { unfold sort_pointers. change (Z.to_nat SIZEOF_PTR) with (S 7). cbn [sort_loop negb]. by rewrite H. }
    unfold sort_digit. rewrite big_endian_p_ok. change (u64 (SIZEOF_PTR - 0)) with (1 * SIZEOF_PTR).
    by rewrite (count_past_end true (p :: l) (length (p :: l)) 1) by (cbn [length]; lia).
Qed.

Lemma sort_pointers_spec_witness :
  let l := [3; 2 ^ 63; 1; 3] in
  ((exists sorted work', sort_pointers false 4 l (replicate 4 0) = Done (Some (sorted, work'))
    /\ StronglySorted Z.le sorted /\ sorted ≡ₚ l /\ length work' = length (replicate 4 0)) /\
  sort_pointers true 4 l (replicate 4 0)
  = (if decide (l = []) then Done (Some ([], [])) else Undef)) /\
  sort_pointers false 4 l (replicate 4 0) = Done (Some ([1; 3; 3; 2 ^ 63], [2 ^ 63; 1; 3; 3])).
Proof.
  split; [|vm_compute; reflexivity].
  apply (sort_pointers_spec [3; 2 ^ 63; 1; 3] (replicate 4 0)); [|done|done].
  repeat (apply Forall_cons_2; [split; vm_compute; congruence|]). apply Forall_nil_2.
Defined.
