(* ===== verification/DynString.v ===== *)
(** The dynamic strings of [libiberty/dyn-string.c] and [include/dyn-string.h],
    over a store of string structures by address; the refinement of every
    operation to an operation on lists of characters. *)
From S2P Require Import Prelude Bytes.

(** ** The source *)

(** The characters are numbers below 256; [ds_s] is the content of the buffer
    of [ds_allocated] bytes the structure points to. *)
Record dyn_string := Ds { ds_allocated : Z; ds_length : Z; ds_s : mem }.

Abbreviation store := (gmap Z dyn_string).

(** The allocator: whether a request is met, and what a met one yields. The
    library is built without RETURN_ON_ALLOCATION_FAILURE: [xmalloc] ends the
    process when [malloc] fails. *)
Class Malloc := {
  malloc_ok : Z -> bool;
  new_struct : store -> Z;
  new_chars : store -> mem }.

Class MallocLaws `{Malloc} := { new_struct_fresh : forall w, w !! new_struct w = None }.

Section source.
Context `{Malloc}.

Definition deref (p : Z) : St store (option dyn_string) := fun w =>
  match w !! p with Some d => Done (Some d, w) | None => Undef end.

Definition assign (p : Z) (d : dyn_string) : St store (option unit) := fun w => Done (Some tt, <[p := d]> w).

(** The result of arithmetic on [int]. *)
Definition int_ (v : Z) : St store (option Z) :=
  if (- 2147483648 <=? v) && (v <? 2147483648) then ret (Some v) else undef.

Definition pure {A} (r : res A) : St store (option A) := fun w =>
  match r with Done a => Done (Some a, w) | Undef => Undef | Hang => Hang end.

Definition abort {A} : St store (option A) := ret None.

(** [p->s[i]]. *)
Definition getc (p i : Z) : St store (option Z) :=
  ds <-? deref p ;;
  if (0 <=? i) && (i <? ds_allocated ds) then ret (Some (mget (ds_s ds) i)) else undef.

(** [p->s[i] = c]. *)
Definition setc (p i c : Z) : St store (option unit) :=
  ds <-? deref p ;;
  if (0 <=? i) && (i <? ds_allocated ds)
  then assign p (Ds (ds_allocated ds) (ds_length ds) (mput (ds_s ds) i c)) else undef.

Definition set_length (p len : Z) : St store (option unit) :=
  ds <-? deref p ;; assign p (Ds (ds_allocated ds) len (ds_s ds)).

(** *** strcpy, strncpy, memcpy and strcmp *)

Fixpoint store_chars (p off : Z) (cs : list Z) : St store (option unit) :=
  match cs with
  | [] => ret (Some tt)
  | c :: cs => _ <-? setc p off c ;; store_chars p (off + 1) cs
  end.

(** The string at the start of a buffer with [n] bytes left from [k] on. *)
Fixpoint cstr (n : nat) (s : mem) (k : Z) : res (list Z) :=
  match n with
  | O => Undef
  | S n => if mget s k =? 0 then Done [] else let? r := cstr n s (k + 1) in Done (mget s k :: r)
  end.

Definition buf_cstr (p : Z) : St store (option (list Z)) :=
  ds <-? deref p ;; pure (cstr (Z.to_nat (ds_allocated ds)) (ds_s ds) 0).

(** [strcpy (p->s + off, cs)], for a string elsewhere. *)
Definition strcpy (p off : Z) (cs : list Z) : St store (option unit) := store_chars p off (cs ++ [0]).

(** The [n] characters [strncpy] writes: padded with NUL. *)
Fixpoint cstrn (n : nat) (allocated : Z) (s : mem) (k : Z) : res (list Z) :=
  match n with
  | O => Done []
  | S n' =>
      if k <? allocated then
        if mget s k =? 0 then Done (replicate n 0)
        else let? r := cstrn n' allocated s (k + 1) in Done (mget s k :: r)
      else Undef
  end.

(** [strncpy (p->s + off, src->s, n)]: a negative [n] is a huge [size_t]. *)
Definition strncpy (p off src n : Z) : St store (option unit) :=
  ds <-? deref src ;;
  cs <-? pure (if 0 <=? n then cstrn (Z.to_nat n) (ds_allocated ds) (ds_s ds) 0 else Undef) ;;
  store_chars p off cs.

(** [strcmp] of two buffers: the difference of the first characters that
    differ, of which only the sign counts. *)
Fixpoint strcmp (fuel : nat) (d1 d2 : dyn_string) (k : Z) : res Z :=
  match fuel with
  | O => Undef
  | S fuel =>
      if (k <? ds_allocated d1) && (k <? ds_allocated d2) then
        let c1 := mget (ds_s d1) k in
        let c2 := mget (ds_s d2) k in
        if negb (c1 =? c2) then Done (c1 - c2)
        else if c1 =? 0 then Done 0 else strcmp fuel d1 d2 (k + 1)
      else Undef
  end.

Definition dyn_string_compare (ds1 ds2 : Z) : St store (option Z) :=
  d1 <-? deref ds1 ;;
  d2 <-? deref ds2 ;;
  pure (strcmp (S (Z.to_nat (ds_allocated d1))) d1 d2 0).

(** *** Operations *)

Definition XNEWVEC (n : Z) : St store (option mem) :=
  if malloc_ok (u64 n) then gets (fun w => Some (new_chars w)) else abort.

(** [sizeof (struct dyn_string)]. *)
Definition SIZEOF_DS : Z := 16.

Definition XNEW : St store (option Z) :=
  if malloc_ok SIZEOF_DS then gets (fun w => Some (new_struct w)) else abort.

Definition dyn_string_init (ds_struct_ptr space : Z) : St store (option Z) :=
  let space := if space =? 0 then 1 else space in
  s <-? XNEWVEC space ;;
  _ <-? assign ds_struct_ptr (Ds space 0 s) ;;
  _ <-? setc ds_struct_ptr 0 0 ;;
  ret (Some 1).

Definition dyn_string_new (space : Z) : St store (option Z) :=
  result <-? XNEW ;;
  _ <-? dyn_string_init result space ;;
  ret (Some result).

Definition free (p : Z) : St store (option unit) :=
  _ <-? deref p ;; modify (delete p) ;;; ret (Some tt).

Definition dyn_string_delete (ds : Z) : St store (option unit) := free ds.

(** The buffer outlives the structure. *)
Definition dyn_string_release (ds : Z) : St store (option (Z * mem)) :=
  d <-? deref ds ;;
  _ <-? free ds ;;
  ret (Some (ds_allocated d, ds_s d)).

(** [while (space > new_allocated) new_allocated *= 2]: 33 turns from a
    positive size reach the limit of [int]. *)
Fixpoint double_loop (fuel : nat) (space new_allocated : Z) : res Z :=
  match fuel with
  | O => Hang
  | S fuel =>
      if new_allocated <? space then
        if (- 2147483648 <=? new_allocated * 2) && (new_allocated * 2 <? 2147483648)
        then double_loop fuel space (new_allocated * 2) else Undef
      else Done new_allocated
  end.

Definition dyn_string_resize (ds space : Z) : St store (option Z) :=
  d <-? deref ds ;;
  space <-? int_ (space + 1) ;;
  new_allocated <-? pure (double_loop 33 space (ds_allocated d)) ;;
  if negb (new_allocated =? ds_allocated d) then
    if malloc_ok (u64 new_allocated) then
      _ <-? assign ds (Ds new_allocated (ds_length d) (ds_s d)) ;;
      ret (Some ds)
    else abort
  else ret (Some ds).

Definition dyn_string_clear (ds : Z) : St store (option unit) :=
  _ <-? setc ds 0 0 ;; set_length ds 0.

Definition dyn_string_copy (dest src : Z) : St store (option Z) :=
  if dest =? src then abort else
  s <-? deref src ;;
  _ <-? dyn_string_resize dest (ds_length s) ;;
  cs <-? buf_cstr src ;;
  _ <-? strcpy dest 0 cs ;;
  _ <-? set_length dest (ds_length s) ;;
  ret (Some 1).

(** A C string is given by its characters; its length is converted to [int]. *)
Definition strlen (src : list Z) : Z := i32 (Z.of_nat (length src)).

Definition dyn_string_copy_cstr (dest : Z) (src : list Z) : St store (option Z) :=
  let length := strlen src in
  _ <-? dyn_string_resize dest length ;;
  _ <-? strcpy dest 0 src ;;
  _ <-? set_length dest length ;;
  ret (Some 1).

(** [for (i = length; i >= pos; --i) dest->s[i + by_] = dest->s[i]], for [n]
    turns from [i] down. *)
Fixpoint shift (dest by_ : Z) (n : nat) (i : Z) : St store (option unit) :=
  match n with
  | O => ret (Some tt)
  | S n =>
      c <-? getc dest i ;;
      _ <-? setc dest (i + by_) c ;;
      shift dest by_ n (i - 1)
  end.

(** Room for [by_] characters at [pos]. *)
Definition make_room (dest pos by_ : Z) : St store (option unit) :=
  d <-? deref dest ;;
  len <-? int_ (ds_length d + by_) ;;
  _ <-? dyn_string_resize dest len ;;
  shift dest by_ (Z.to_nat (ds_length d - pos + 1)) (ds_length d).

Definition add_length (dest by_ : Z) : St store (option Z) :=
  d <-? deref dest ;;
  len <-? int_ (ds_length d + by_) ;;
  _ <-? set_length dest len ;;
  ret (Some 1).

Definition dyn_string_insert (dest pos src : Z) : St store (option Z) :=
  if src =? dest then abort else
  s <-? deref src ;;
  _ <-? make_room dest pos (ds_length s) ;;
  _ <-? strncpy dest pos src (ds_length s) ;;
  add_length dest (ds_length s).

Definition dyn_string_insert_cstr (dest pos : Z) (src : list Z) : St store (option Z) :=
  let length := strlen src in
  _ <-? make_room dest pos length ;;
  _ <-? (if 0 <=? length then store_chars dest pos (take (Z.to_nat length) src) else undef) ;;
  add_length dest length.

Definition dyn_string_insert_char (dest pos c : Z) : St store (option Z) :=
  _ <-? make_room dest pos 1 ;;
  _ <-? setc dest pos (u8 c) ;;
  add_length dest 1.

Definition dyn_string_prepend (dest src : Z) : St store (option Z) := dyn_string_insert dest 0 src.

Definition dyn_string_prepend_cstr (dest : Z) (src : list Z) : St store (option Z) :=
  dyn_string_insert_cstr dest 0 src.

(** A copy of a string to its own end overlaps: [strcpy] is undefined there. *)
Definition dyn_string_append (dest s : Z) : St store (option Z) :=
  d <-? deref dest ;;
  ds <-? deref s ;;
  len <-? int_ (ds_length d + ds_length ds) ;;
  _ <-? dyn_string_resize dest len ;;
  cs <-? buf_cstr s ;;
  _ <-? (if dest =? s then undef else strcpy dest (ds_length d) cs) ;;
  add_length dest (ds_length ds).

Definition dyn_string_append_cstr (dest : Z) (s : list Z) : St store (option Z) :=
  let len := strlen s in
  d <-? deref dest ;;
  new <-? int_ (ds_length d + len) ;;
  _ <-? dyn_string_resize dest new ;;
  _ <-? strcpy dest (ds_length d) s ;;
  add_length dest len.

Definition dyn_string_append_char (dest c : Z) : St store (option Z) :=
  d <-? deref dest ;;
  len <-? int_ (ds_length d + 1) ;;
  _ <-? dyn_string_resize dest len ;;
  _ <-? setc dest (ds_length d) (u8 c) ;;
  _ <-? setc dest (ds_length d + 1) 0 ;;
  add_length dest 1.

(** [for (i = n; --i >= 0; ) dest->s[i] = src->s[start + i]]. *)
Fixpoint copy_down (dest src start : Z) (n : nat) : St store (option unit) :=
  match n with
  | O => ret (Some tt)
  | S n =>
      c <-? getc src (start + Z.of_nat n) ;;
      _ <-? setc dest (Z.of_nat n) c ;;
      copy_down dest src start n
  end.

Definition dyn_string_substring (dest src start end_ : Z) : St store (option Z) :=
  length <-? int_ (end_ - start) ;;
  s <-? deref src ;;
  if (end_ <? start) || (ds_length s <? start) || (ds_length s <? end_) then abort else
  _ <-? dyn_string_resize dest length ;;
  _ <-? copy_down dest src start (Z.to_nat length) ;;
  _ <-? setc dest length 0 ;;
  _ <-? set_length dest length ;;
  ret (Some 1).

Definition dyn_string_eq (ds1 ds2 : Z) : St store (option Z) :=
  d1 <-? deref ds1 ;;
  d2 <-? deref ds2 ;;
  if negb (ds_length d1 =? ds_length d2) then ret (Some 0)
  else r <-? dyn_string_compare ds1 ds2 ;; ret (Some (if r =? 0 then 1 else 0)).
End source.

(** ** Contents *)

Definition chars (l : list Z) : Prop := Forall (fun c => 0 < c < 256) l.

(** The structure holds the string [l]. *)
Record rep (d : dyn_string) (l : list Z) : Prop := Rep {
  rep_length : ds_length d = Z.of_nat (length l);
  rep_room : Z.of_nat (length l) < ds_allocated d < 2147483648;
  rep_chars : chars l;
  rep_s : mgets (ds_s d) 0 (S (length l)) = l ++ [0] }.

Lemma mgets_sub m a n i k L :
  mgets m a n = L -> (i + k <= n)%nat -> mgets m (a + Z.of_nat i) k = take k (drop i L).
Proof.
  intros <- H. replace n with (i + (k + (n - i - k)))%nat by lia. rewrite !mgets_app.
  rewrite drop_app_length' by (by rewrite length_mgets).
  by rewrite take_app_length' by (by rewrite length_mgets).
Qed.

Lemma rep_prefix d l i : rep d l -> (i <= length l)%nat -> mgets (ds_s d) 0 i = take i l.
Proof.
  intros [_ _ _ H] Hi. pose proof (mgets_sub _ 0 _ 0 i _ H ltac:(lia)) as E.
  by rewrite drop_0, take_app_le in E by lia.
Qed.

Lemma rep_suffix d l i :
  rep d l -> (i <= length l)%nat ->
  mgets (ds_s d) (Z.of_nat i) (S (length l - i)) = drop i l ++ [0].
Proof.
  intros [_ _ _ H] Hi. rewrite <- (Z.add_0_l (Z.of_nat i)). rewrite (mgets_sub _ 0 _ i _ _ H) by lia.
  rewrite drop_app_le by lia. apply take_ge. rewrite length_app, length_drop. cbn [length]. lia.
Qed.

Lemma rep_sub d l i k :
  rep d l -> (i + k <= length l)%nat -> mgets (ds_s d) (Z.of_nat i) k = take k (drop i l).
Proof.
  intros [_ _ _ H] Hi. rewrite <- (Z.add_0_l (Z.of_nat i)). rewrite (mgets_sub _ 0 _ i _ _ H) by lia.
  rewrite drop_app_le, take_app_le by (rewrite ?length_drop; lia). done.
Qed.

Lemma cstr_mgets n s k l :
  chars l -> mgets s k (S (length l)) = l ++ [0] -> (length l < n)%nat -> cstr n s k = Done l.
Proof.
  intros Hc. revert n k. induction Hc as [|c l Hc _ IH]; intros n k E Hn; destruct n as [|n];
    cbn [length] in *; try lia; cbn [cstr].
  - injection E as ->. done.
  - injection E as E0 E. rewrite E0. rewrite (proj2 (Z.eqb_neq c 0)) by lia. by rewrite (IH n (k + 1) E ltac:(lia)).
Qed.

Lemma cstrn_mgets n A s k l :
  chars l -> mgets s k (length l) = l -> n = length l -> k + Z.of_nat n <= A -> cstrn n A s k = Done l.
Proof.
  intros Hc. revert n k. induction Hc as [|c l Hc _ IH]; intros n k E -> Hn; [done|].
  cbn [length] in *. injection E as E0 E. cbn [cstrn].
  rewrite (proj2 (Z.ltb_lt k A)), E0, (proj2 (Z.eqb_neq c 0)) by lia.
  by rewrite (IH (length l) (k + 1) E eq_refl ltac:(lia)).
Qed.

Lemma rep_cstr d l : rep d l -> cstr (Z.to_nat (ds_allocated d)) (ds_s d) 0 = Done l.
Proof. intros [? ? ? ?]. apply cstr_mgets; [done..|lia]. Qed.

Lemma rep_cstrn d l : rep d l -> cstrn (length l) (ds_allocated d) (ds_s d) 0 = Done l.
Proof.
  intros H. pose proof (rep_prefix d l _ H (Nat.le_refl _)) as E. rewrite firstn_all in E.
  destruct H as [? ? ? _]. apply cstrn_mgets; [done..|lia].
Qed.

(** [strcmp] of two strings of the same length. *)
Lemma strcmp_mgets fuel d1 d2 k l1 l2 :
  chars l1 -> chars l2 -> length l1 = length l2 ->
  mgets (ds_s d1) k (S (length l1)) = l1 ++ [0] -> mgets (ds_s d2) k (S (length l2)) = l2 ++ [0] ->
  k + Z.of_nat (length l1) < ds_allocated d1 -> k + Z.of_nat (length l2) < ds_allocated d2 ->
  (length l1 < fuel)%nat ->
  exists r, strcmp fuel d1 d2 k = Done r /\ (r = 0 <-> l1 = l2).
Proof.
  intros H1. revert l2 k fuel. induction H1 as [|c1 l1 Hc1 _ IH];
    intros l2 k fuel H2 Hl E1 E2 A1 A2 Hf; destruct fuel as [|fuel]; try lia; cbn [strcmp];
    (rewrite (proj2 (Z.ltb_lt k _)), (proj2 (Z.ltb_lt k _)) by lia); cbn [andb];
    destruct l2 as [|c2 l2]; try done.
  - injection E1 as ->. injection E2 as ->. by exists 0.
  - injection E1 as -> E1. injection E2 as -> E2. apply Forall_cons_1 in H2 as [Hc2 H2]. cbn [length] in *.
    destruct (Z.eqb_spec c1 c2) as [<-|Hne]; cbn [negb].
    + rewrite (proj2 (Z.eqb_neq c1 0)) by lia.
      destruct (IH l2 (k + 1) fuel H2 ltac:(lia) E1 E2 ltac:(lia) ltac:(lia) ltac:(lia)) as (r & Er & Hr).
      exists r. split; [done|]. rewrite Hr. split; [by intros ->|by intros [= ->]].
    + exists (c1 - c2). split; [done|]. split; [lia|]. intros [= ]. done.
Qed.

Lemma rep_strcmp d1 d2 l1 l2 :
  rep d1 l1 -> rep d2 l2 -> length l1 = length l2 ->
  exists r, strcmp (S (Z.to_nat (ds_allocated d1))) d1 d2 0 = Done r /\ (r = 0 <-> l1 = l2).
Proof. intros [] [] ?. apply strcmp_mgets; try done; lia. Qed.

Lemma double_loop_spec fuel space n :
  0 < n < 2147483648 -> space <= 1073741824 -> space <= n * 2 ^ (Z.of_nat fuel - 1) -> (0 < fuel)%nat ->
  exists n', double_loop fuel space n = Done n' /\ n <= n' < 2147483648 /\ space <= n'.
Proof.
  revert n. induction fuel as [|fuel IH]; intros n Hn Hs Hf H0; [lia|]. cbn [double_loop].
  destruct (Z.ltb_spec n space).
  - rewrite (proj2 (Z.leb_le _ _)), (proj2 (Z.ltb_lt _ _)) by lia. cbn [andb].
    destruct fuel as [|fuel]; [rewrite Z.pow_0_r in Hf; lia|].
    destruct (IH (n * 2)) as (n' & ? & ? & ?); [lia..| |lia|exists n'; auto with lia].
    replace (Z.of_nat (S (S fuel)) - 1) with (Z.succ (Z.of_nat (S fuel) - 1)) in Hf by lia.
    rewrite Z.pow_succ_r in Hf by lia. lia.
  - exists n. auto with lia.
Qed.

(** ** The effect of each step on the store *)

Lemma wp_obind {W A B} (m : St W (option A)) (f : A -> St W (option B)) Q w :
  wp m (fun r w' => match r with Some a => wp (f a) Q w' | None => Q None w' end) w -> wp (obind m f) Q w.
Proof.
  intros Hm. apply wp_bind. eapply wp_mono; [exact Hm|]. intros [a|] w' Ha; [done|by apply wp_ret].
Qed.

Section steps.
Context `{Malloc}.

(** A request the allocator does not meet ended the process. *)
Definition refused : Prop := exists n, 0 < n < 2147483648 /\ malloc_ok n = false.

(** The outcome [Q], unless memory ran out. *)
Definition unless_refused {A} (Q : A -> store -> Prop) (r : option A) (w : store) : Prop :=
  match r with Some a => Q a w | None => refused end.
Abbreviation wpr m Q w := (wp m (unless_refused Q) w).

Lemma wpr_obind {A B} (m : St store (option A)) (f : A -> St store (option B)) Q w :
  wpr m (fun a w' => wpr (f a) Q w') w -> wpr (obind m f) Q w.
Proof. intros Hm. apply wp_obind. eapply wp_mono; [exact Hm|]. by intros [a|] w'. Qed.

Lemma wpr_done {A B} (m : St store (option A)) (f : A -> St store (option B)) Q w a w' :
  m w = Done (Some a, w') -> wpr (f a) Q w' -> wpr (obind m f) Q w.
Proof. intros E Hf. apply wp_obind. by eapply wp_eq. Qed.

Lemma wpr_mono {A} (m : St store (option A)) (P Q : A -> store -> Prop) w :
  wpr m P w -> (forall a w', P a w' -> Q a w') -> wpr m Q w.
Proof. intros Hm HPQ. eapply wp_mono; [exact Hm|]. intros [a|] w'; [apply HPQ|done]. Qed.

Lemma deref_done w p d : w !! p = Some d -> deref p w = Done (Some d, w).
Proof. unfold deref. by intros ->. Qed.

Lemma int_done v w : - 2147483648 <= v < 2147483648 -> int_ v w = Done (Some v, w).
Proof. intros. unfold int_. by rewrite (proj2 (Z.leb_le _ _)), (proj2 (Z.ltb_lt _ _)) by lia. Qed.

Lemma getc_done p w1 d i : w1 !! p = Some d -> 0 <= i < ds_allocated d -> getc p i w1 = Done (Some (mget (ds_s d) i), w1).
Proof.
  intros Hd Hi. unfold getc. rewrite (obind_done _ _ _ _ _ (deref_done _ _ _ Hd)).
  by rewrite (proj2 (Z.leb_le _ _)), (proj2 (Z.ltb_lt _ _)) by lia.
Qed.

Section at_p.
Context (w : store) (p A L : Z).
Abbreviation at_p m := (<[p := Ds A L m]> w).

Lemma setc_done m i c : 0 <= i < A -> setc p i c (at_p m) = Done (Some tt, at_p (mput m i c)).
Proof.
  intros Hi. unfold setc. rewrite (obind_done _ _ _ _ _ (deref_done _ _ _ (lookup_insert_eq _ _ _))).
  cbn [ds_allocated ds_length ds_s]. rewrite (proj2 (Z.leb_le _ _)), (proj2 (Z.ltb_lt _ _)) by lia. cbn [andb].
  unfold assign. by rewrite insert_insert_eq.
Qed.

Lemma store_chars_done m off cs :
  0 <= off -> off + Z.of_nat (length cs) <= A ->
  store_chars p off cs (at_p m) = Done (Some tt, at_p (mputs m off cs)).
Proof.
  revert m off. induction cs as [|c cs IH]; intros m off H0 Hc; [done|]. cbn [store_chars length mputs] in *.
  rewrite (obind_done _ _ _ _ _ (setc_done m off c ltac:(lia))). apply IH; lia.
Qed.

Lemma set_length_done m len : set_length p len (at_p m) = Done (Some tt, <[p := Ds A len m]> w).
Proof.
  unfold set_length. rewrite (obind_done _ _ _ _ _ (deref_done _ _ _ (lookup_insert_eq _ _ _))).
  unfold assign. by rewrite insert_insert_eq.
Qed.

Lemma add_length_done m by_ :
  - 2147483648 <= L + by_ < 2147483648 ->
  add_length p by_ (at_p m) = Done (Some 1, <[p := Ds A (L + by_) m]> w).
Proof.
  intros Hi. unfold add_length. rewrite (obind_done _ _ _ _ _ (deref_done _ _ _ (lookup_insert_eq _ _ _))).
  rewrite (obind_done _ _ _ _ _ (int_done _ _ Hi)).
  by rewrite (obind_done _ _ _ _ _ (set_length_done m (L + by_))).
Qed.

(** The overlapping move of [n] characters up from [i]. *)
Lemma shift_done by_ n i m :
  0 <= by_ -> Z.of_nat n <= i + 1 -> i + by_ < A ->
  exists m', shift p by_ n i (at_p m) = Done (Some tt, at_p m') /\
    forall x, mget m' x = if decide (i - Z.of_nat n + by_ < x <= i + by_) then mget m (x - by_) else mget m x.
Proof.
  intros Hb. revert i m. induction n as [|n IH]; intros i m Hn Hi; cbn [shift].
  - exists m. split; [done|]. intros x. by rewrite decide_False by lia.
  - rewrite (obind_done _ _ _ _ _ (getc_done p (at_p m) _ i (lookup_insert_eq _ _ _) ltac:(cbn [ds_allocated]; lia))).
    cbn [ds_s]. rewrite (obind_done _ _ _ _ _ (setc_done m (i + by_) (mget m i) ltac:(lia))).
    destruct (IH (i - 1) (mput m (i + by_) (mget m i)) ltac:(lia) ltac:(lia)) as (m' & E & Hm).
    exists m'. split; [exact E|]. intros x. rewrite Hm, !mget_mput.
    destruct (decide (x = i + by_)) as [->|Hne].
    + rewrite decide_False by lia. rewrite decide_True by lia. f_equal. lia.
    + destruct (decide (i - 1 - Z.of_nat n + by_ < x <= i - 1 + by_)).
      * rewrite decide_False by lia. by rewrite decide_True by lia.
      * by rewrite decide_False by lia.
Qed.

(** A copy from another string, from its last character on. *)
Lemma copy_down_done src d start n m :
  src <> p -> w !! src = Some d -> 0 <= start -> start + Z.of_nat n <= ds_allocated d -> Z.of_nat n <= A ->
  exists m', copy_down p src start n (at_p m) = Done (Some tt, at_p m') /\
    forall x, mget m' x = if decide (0 <= x < Z.of_nat n) then mget (ds_s d) (start + x) else mget m x.
Proof.
  intros Hne Hd Hs. revert m. induction n as [|n IH]; intros m Hn Hi; cbn [copy_down].
  - exists m. split; [done|]. intros x. by rewrite decide_False by lia.
  - assert (Hd' : at_p m !! src = Some d) by (by rewrite lookup_insert_ne by congruence).
    rewrite (obind_done _ _ _ _ _ (getc_done src (at_p m) d (start + Z.of_nat n) Hd' ltac:(lia))).
    rewrite (obind_done _ _ _ _ _ (setc_done m (Z.of_nat n) _ ltac:(lia))).
    destruct (IH (mput m (Z.of_nat n) (mget (ds_s d) (start + Z.of_nat n))) ltac:(lia) ltac:(lia)) as (m' & E & Hm).
    exists m'. split; [exact E|]. intros x. rewrite Hm, mget_mput.
    destruct (decide (x = Z.of_nat n)) as [->|].
    + rewrite decide_False by lia. by rewrite decide_True by lia.
    + destruct (decide (0 <= x < Z.of_nat n)); [by rewrite decide_True by lia|by rewrite decide_False by lia].
Qed.
End at_p.

(** Growing keeps the buffer's content and makes room for [space] characters
    and a NUL. *)
Lemma resize_wp w p d space :
  w !! p = Some d -> 0 < ds_allocated d < 2147483648 -> 0 <= space < 1073741824 ->
  wpr (dyn_string_resize p space) (fun r w' => r = p /\ exists A,
    w' = <[p := Ds A (ds_length d) (ds_s d)]> w /\ ds_allocated d <= A < 2147483648 /\ space < A) w.
Proof.
  intros Hd HA Hs. unfold dyn_string_resize.
  apply (wpr_done _ _ _ _ _ _ (deref_done _ _ _ Hd)).
  apply (wpr_done _ _ _ _ _ _ (int_done (space + 1) _ ltac:(lia))).
  destruct (double_loop_spec 33 (space + 1) (ds_allocated d)) as (n & En & Hn & Hsn); [lia..|].
  apply (wpr_done (pure (double_loop 33 (space + 1) (ds_allocated d))) _ _ w n w); [unfold pure; by rewrite En|].
  destruct (Z.eqb_spec n (ds_allocated d)) as [->|Hne]; cbn [negb].
  - apply wp_ret. split; [done|]. exists (ds_allocated d). split; [|lia]. symmetry. apply insert_id. by destruct d.
  - rewrite u64_small by lia. destruct (malloc_ok n) eqn:Em.
    + apply (wpr_done _ _ _ _ tt (<[p := Ds n (ds_length d) (ds_s d)]> w)); [done|]. apply wp_ret. split; [done|]. exists n. auto with lia.
    + apply wp_ret. exists n. auto with lia.
Qed.

(** *** New contents *)

Lemma rep_parts A m l1 l2 :
  chars (l1 ++ l2) -> Z.of_nat (length (l1 ++ l2)) < A < 2147483648 ->
  mgets m 0 (length l1) = l1 -> mgets m (Z.of_nat (length l1)) (S (length l2)) = l2 ++ [0] ->
  rep (Ds A (Z.of_nat (length (l1 ++ l2))) m) (l1 ++ l2).
Proof.
  intros Hc HA E1 E2. split; [done..|]. cbn [ds_s].
  rewrite length_app, <- Nat.add_succ_r, mgets_app, E1, Z.add_0_l, E2. by rewrite app_assoc.
Qed.

Lemma rep_end A s l1 l2 :
  chars (l1 ++ l2) -> Z.of_nat (length (l1 ++ l2)) < A < 2147483648 -> mgets s 0 (length l1) = l1 ->
  rep (Ds A (Z.of_nat (length (l1 ++ l2))) (mputs s (Z.of_nat (length l1)) (l2 ++ [0]))) (l1 ++ l2).
Proof.
  intros Hc HA E. apply rep_parts; [done..| |].
  - rewrite mgets_mputs_disj by lia. done.
  - replace (S (length l2)) with (length (l2 ++ [0])) by (rewrite length_app; cbn; lia). apply mgets_mputs_same.
Qed.

Lemma rep_self d l : rep d l -> mgets (ds_s d) 0 (length l) = l.
Proof. intros Hr. by rewrite (rep_prefix d l _ Hr), firstn_all. Qed.

(** The store changes at [p] only, which now holds [l]. *)
Definition becomes (w : store) (p : Z) (l : list Z) (r : Z) (w' : store) : Prop :=
  r = 1 /\ exists d, w' = <[p := d]> w /\ rep d l.

Definition fits (l : list Z) : Prop := Z.of_nat (length l) < 1073741823.

Context (w : store) (dest : Z) (d : dyn_string) (l : list Z).
Context (Hd : w !! dest = Some d) (Hr : rep d l).

Lemma resize_rep space :
  0 <= space < 1073741824 ->
  wpr (dyn_string_resize dest space) (fun _ w' => exists A,
    w' = <[dest := Ds A (Z.of_nat (length l)) (ds_s d)]> w /\ A < 2147483648 /\ space < A
    /\ Z.of_nat (length l) < A) w.
Proof.
  intros Hs. pose proof (rep_room d l Hr). rewrite <- (rep_length d l Hr).
  eapply wpr_mono; [apply (resize_wp w dest d); [done|lia|done]|].
  intros r w' (_ & A & -> & ? & ?). exists A. split; [done|]. rewrite (rep_length d l Hr). lia.
Qed.

Lemma clear_done :
  exists d', dyn_string_clear dest w = Done (Some tt, <[dest := d']> w) /\ rep d' [].
Proof.
  pose proof (rep_room d l Hr) as HA.
  exists (Ds (ds_allocated d) 0 (mput (ds_s d) 0 0)). split.
  - rewrite <- (insert_id w dest d Hd) at 1. destruct d as [A L s]. cbn [ds_allocated ds_s] in *.
    unfold dyn_string_clear. rewrite (obind_done _ _ _ _ _ (setc_done w dest A L s 0 0 ltac:(lia))).
    apply set_length_done.
  - apply (rep_end (ds_allocated d) (ds_s d) [] []); [constructor|cbn; lia|done].
Qed.

Lemma copy_cstr_wp cs :
  chars cs -> fits cs -> wpr (dyn_string_copy_cstr dest cs) (becomes w dest cs) w.
Proof.
  intros Hc Hf. unfold fits in Hf. unfold dyn_string_copy_cstr, strlen. rewrite i32_small by lia.
  apply wpr_obind. eapply wpr_mono; [apply resize_rep; lia|]. intros r w1 (A & -> & HA & Hs & _).
  eapply wpr_done; [apply store_chars_done; rewrite ?length_app; cbn; lia|].
  eapply wpr_done; [apply set_length_done|]. apply wp_ret. split; [done|]. eexists. split; [done|].
  apply (rep_end A (ds_s d) [] cs); [done|cbn; lia|done].
Qed.

Lemma copy_wp src ds cs :
  w !! src = Some ds -> rep ds cs -> dest <> src -> fits cs ->
  wpr (dyn_string_copy dest src) (becomes w dest cs) w.
Proof.
  intros Hs Hrs Hne Hf. unfold fits in Hf. unfold dyn_string_copy. rewrite (proj2 (Z.eqb_neq _ _) Hne).
  apply (wpr_done _ _ _ _ _ _ (deref_done _ _ _ Hs)). rewrite (rep_length ds cs Hrs).
  apply wpr_obind. eapply wpr_mono; [apply resize_rep; lia|]. intros r w1 (A & -> & HA & HsA & _).
  eapply wpr_done.
  { unfold buf_cstr. erewrite obind_done by (apply deref_done; by rewrite lookup_insert_ne).
    unfold pure. by rewrite (rep_cstr ds cs Hrs). }
  eapply wpr_done; [apply store_chars_done; rewrite ?length_app; cbn; lia|].
  eapply wpr_done; [apply set_length_done|]. apply wp_ret. split; [done|]. eexists. split; [done|].
  apply (rep_end A (ds_s d) [] cs); [apply Hrs|cbn; lia|done].
Qed.

Lemma append_end A cs :
  chars cs -> Z.of_nat (length (l ++ cs)) < A < 2147483648 ->
  wpr (add_length dest (Z.of_nat (length cs))) (becomes w dest (l ++ cs))
    (<[dest := Ds A (Z.of_nat (length l)) (mputs (ds_s d) (Z.of_nat (length l)) (cs ++ [0]))]> w).
Proof.
  intros Hc HA. rewrite length_app in HA. eapply wp_eq; [apply add_length_done; lia|].
  split; [done|]. eexists. split; [done|]. rewrite <- Nat2Z.inj_add, <- length_app.
  apply rep_end; [apply Forall_app; split; [apply Hr|done]|rewrite length_app; lia|by apply rep_self].
Qed.

Lemma append_cstr_wp cs :
  chars cs -> fits (l ++ cs) -> wpr (dyn_string_append_cstr dest cs) (becomes w dest (l ++ cs)) w.
Proof.
  intros Hc Hf. unfold fits in Hf. rewrite length_app in Hf. unfold dyn_string_append_cstr, strlen.
  rewrite i32_small by lia. apply (wpr_done _ _ _ _ _ _ (deref_done _ _ _ Hd)). rewrite (rep_length d l Hr).
  eapply wpr_done; [apply int_done; lia|].
  apply wpr_obind. eapply wpr_mono; [apply resize_rep; lia|]. intros r w1 (A & -> & HA & HsA & _).
  eapply wpr_done; [apply store_chars_done; rewrite ?length_app; cbn; lia|].
  apply append_end; [done|rewrite length_app; lia].
Qed.

Lemma append_wp src ds cs :
  w !! src = Some ds -> rep ds cs -> dest <> src -> fits (l ++ cs) ->
  wpr (dyn_string_append dest src) (becomes w dest (l ++ cs)) w.
Proof.
  intros Hs Hrs Hne Hf. unfold fits in Hf. rewrite length_app in Hf. unfold dyn_string_append.
  apply (wpr_done _ _ _ _ _ _ (deref_done _ _ _ Hd)), (wpr_done _ _ _ _ _ _ (deref_done _ _ _ Hs)).
  rewrite (rep_length d l Hr), (rep_length ds cs Hrs).
  eapply wpr_done; [apply int_done; lia|].
  apply wpr_obind. eapply wpr_mono; [apply resize_rep; lia|]. intros r w1 (A & -> & HA & HsA & _).
  eapply wpr_done.
  { unfold buf_cstr. erewrite obind_done by (apply deref_done; by rewrite lookup_insert_ne).
    unfold pure. by rewrite (rep_cstr ds cs Hrs). }
  rewrite (proj2 (Z.eqb_neq _ _) Hne).
  eapply wpr_done; [apply store_chars_done; rewrite ?length_app; cbn; lia|].
  apply append_end; [apply Hrs|rewrite length_app; lia].
Qed.

Lemma append_char_wp c :
  0 < u8 c -> fits (l ++ [u8 c]) -> wpr (dyn_string_append_char dest c) (becomes w dest (l ++ [u8 c])) w.
Proof.
  intros Hc Hf. unfold fits in Hf. rewrite length_app in Hf. cbn [length] in Hf. unfold dyn_string_append_char.
  apply (wpr_done _ _ _ _ _ _ (deref_done _ _ _ Hd)). rewrite (rep_length d l Hr).
  eapply wpr_done; [apply int_done; lia|].
  apply wpr_obind. eapply wpr_mono; [apply resize_rep; lia|]. intros r w1 (A & -> & HA & HsA & _).
  eapply wpr_done; [apply setc_done; lia|]. eapply wpr_done; [apply setc_done; lia|].
  apply (append_end A [u8 c]); [|rewrite length_app; cbn; lia].
  apply Forall_singleton. pose proof (wrap_range 8 c). lia.
Qed.

(** The characters from [pos] on, with their NUL, moved up. *)
Lemma make_room_wp pos by_ :
  0 <= pos <= Z.of_nat (length l) -> 0 <= by_ -> Z.of_nat (length l) + by_ < 1073741823 ->
  wpr (make_room dest pos by_) (fun _ w' => exists A m,
    w' = <[dest := Ds A (Z.of_nat (length l)) m]> w /\ Z.of_nat (length l) + by_ < A < 2147483648
    /\ mgets m 0 (Z.to_nat pos) = take (Z.to_nat pos) l
    /\ mgets m (pos + by_) (S (length l - Z.to_nat pos)) = drop (Z.to_nat pos) l ++ [0]) w.
Proof.
  intros Hp Hb Hf. unfold make_room.
  apply (wpr_done _ _ _ _ _ _ (deref_done _ _ _ Hd)). rewrite (rep_length d l Hr).
  eapply wpr_done; [apply int_done; lia|].
  apply wpr_obind. eapply wpr_mono; [apply resize_rep; lia|]. intros r w1 (A & -> & HA & HsA & _).
  destruct (shift_done w dest A (Z.of_nat (length l)) by_ (Z.to_nat (Z.of_nat (length l) - pos + 1))
              (Z.of_nat (length l)) (ds_s d)) as (m & E & Hm); [lia..|].
  eapply wp_eq; [exact E|]. exists A, m. split_and!; [done|lia|lia|..].
  - rewrite <- (rep_prefix d l _ Hr) by lia. apply mgets_ext. intros i Hi.
    by rewrite Hm, decide_False by lia.
  - rewrite <- (rep_suffix d l _ Hr) by lia. apply mgets_ext. intros i Hi.
    rewrite Hm, decide_True by lia. f_equal. lia.
Qed.

(** New characters in the room made for them. *)
Lemma insert_end A m pos cs :
  chars cs -> 0 <= pos <= Z.of_nat (length l) ->
  Z.of_nat (length l) + Z.of_nat (length cs) < A < 2147483648 ->
  mgets m 0 (Z.to_nat pos) = take (Z.to_nat pos) l ->
  mgets m (pos + Z.of_nat (length cs)) (S (length l - Z.to_nat pos)) = drop (Z.to_nat pos) l ++ [0] ->
  wpr (add_length dest (Z.of_nat (length cs)))
    (becomes w dest (take (Z.to_nat pos) l ++ cs ++ drop (Z.to_nat pos) l))
    (<[dest := Ds A (Z.of_nat (length l)) (mputs m pos cs)]> w).
Proof.
  intros Hc Hp HA E1 E2. eapply wp_eq; [apply add_length_done; lia|].
  split; [done|]. eexists. split; [done|].
  set (l1 := take (Z.to_nat pos) l) in *. set (l2 := drop (Z.to_nat pos) l) in *.
  assert (Hl : l = l1 ++ l2) by (symmetry; apply take_drop).
  assert (H1 : length l1 = Z.to_nat pos) by (unfold l1; rewrite length_take; lia).
  assert (H2 : length l2 = (length l - Z.to_nat pos)%nat) by apply length_drop.
  assert (Hch : chars l1 /\ chars l2) by (apply Forall_app; rewrite <- Hl; apply Hr).
  replace (Z.of_nat (length l) + Z.of_nat (length cs)) with (Z.of_nat (length ((l1 ++ cs) ++ l2)))
    by (rewrite !length_app; lia).
  rewrite app_assoc. apply rep_parts.
  - unfold chars. rewrite !Forall_app. tauto.
  - rewrite !length_app. lia.
  - rewrite length_app, mgets_app, H1, Z.add_0_l, Z2Nat.id, mgets_mputs_same by lia.
    rewrite mgets_mputs_disj by lia. by rewrite E1.
  - rewrite length_app, Nat2Z.inj_add, H1, Z2Nat.id, H2, mgets_mputs_disj by lia. exact E2.
Qed.

Lemma insert_cstr_wp pos cs :
  chars cs -> 0 <= pos <= Z.of_nat (length l) -> fits (l ++ cs) ->
  wpr (dyn_string_insert_cstr dest pos cs)
    (becomes w dest (take (Z.to_nat pos) l ++ cs ++ drop (Z.to_nat pos) l)) w.
Proof.
  intros Hc Hp Hf. unfold fits in Hf. rewrite length_app in Hf. unfold dyn_string_insert_cstr, strlen.
  rewrite i32_small by lia. apply wpr_obind. eapply wpr_mono; [apply make_room_wp; lia|].
  intros r w1 (A & m & -> & HA & E1 & E2). rewrite (proj2 (Z.leb_le _ _)) by lia.
  rewrite Nat2Z.id, firstn_all. eapply wpr_done; [apply store_chars_done; lia|]. by apply insert_end.
Qed.

Lemma insert_char_wp pos c :
  0 < u8 c -> 0 <= pos <= Z.of_nat (length l) -> fits (l ++ [u8 c]) ->
  wpr (dyn_string_insert_char dest pos c)
    (becomes w dest (take (Z.to_nat pos) l ++ [u8 c] ++ drop (Z.to_nat pos) l)) w.
Proof.
  intros Hc Hp Hf. unfold fits in Hf. rewrite length_app in Hf. cbn [length] in Hf. unfold dyn_string_insert_char.
  apply wpr_obind. eapply wpr_mono; [apply make_room_wp; lia|].
  intros r w1 (A & m & -> & HA & E1 & E2).
  eapply wpr_done; [apply setc_done; lia|]. apply (insert_end A m pos [u8 c]); [|done..].
  apply Forall_singleton. pose proof (wrap_range 8 c). lia.
Qed.

Lemma insert_wp src ds pos cs :
  w !! src = Some ds -> rep ds cs -> dest <> src -> 0 <= pos <= Z.of_nat (length l) -> fits (l ++ cs) ->
  wpr (dyn_string_insert dest pos src)
    (becomes w dest (take (Z.to_nat pos) l ++ cs ++ drop (Z.to_nat pos) l)) w.
Proof.
  intros Hs Hrs Hne Hp Hf. unfold fits in Hf. rewrite length_app in Hf. unfold dyn_string_insert.
  rewrite (proj2 (Z.eqb_neq src dest)) by congruence.
  apply (wpr_done _ _ _ _ _ _ (deref_done _ _ _ Hs)). rewrite (rep_length ds cs Hrs).
  apply wpr_obind. eapply wpr_mono; [apply make_room_wp; lia|].
  intros r w1 (A & m & -> & HA & E1 & E2).
  eapply wpr_done.
  { unfold strncpy. erewrite obind_done by (apply deref_done; by rewrite lookup_insert_ne).
    rewrite (proj2 (Z.leb_le _ _)), Nat2Z.id, (rep_cstrn ds cs Hrs) by lia.
    erewrite obind_done by done. apply store_chars_done; lia. }
  apply insert_end; [apply Hrs|done..].
Qed.

Lemma substring_wp src ds cs start end_ :
  w !! src = Some ds -> rep ds cs -> dest <> src -> 0 <= start <= end_ -> end_ <= Z.of_nat (length cs) ->
  fits cs ->
  wpr (dyn_string_substring dest src start end_)
    (becomes w dest (take (Z.to_nat (end_ - start)) (drop (Z.to_nat start) cs))) w.
Proof.
  intros Hs Hrs Hne Hse He Hf. unfold fits in Hf. unfold dyn_string_substring.
  eapply wpr_done; [apply int_done; lia|]. apply (wpr_done _ _ _ _ _ _ (deref_done _ _ _ Hs)).
  rewrite (rep_length ds cs Hrs), !(proj2 (Z.ltb_ge _ _)) by lia. cbn [orb].
  apply wpr_obind. eapply wpr_mono; [apply resize_rep; lia|]. intros r w1 (A & -> & HA & HsA & _).
  set (k := Z.to_nat (end_ - start)). set (sub := take k (drop (Z.to_nat start) cs)).
  pose proof (rep_room ds cs Hrs).
  destruct (copy_down_done w dest A (Z.of_nat (length l)) src ds start k (ds_s d)) as (m & E & Hm);
    [congruence|done|lia..|].
  eapply wpr_done; [exact E|]. eapply wpr_done; [apply setc_done; lia|].
  eapply wpr_done; [apply set_length_done|]. apply wp_ret. split; [done|]. eexists. split; [done|].
  assert (Hk : length sub = k) by (unfold sub; rewrite length_take, length_drop; lia).
  replace (end_ - start) with (Z.of_nat (length ([] ++ sub))) by (cbn [app]; lia).
  replace (mput m (Z.of_nat (length ([] ++ sub))) 0) with (mputs m (Z.of_nat (length sub)) ([] ++ [0])) by done.
  change ([] ++ sub) with sub. rewrite <- (app_nil_r sub) at 1 3. apply rep_end; rewrite ?app_nil_r.
  - apply Forall_take, Forall_drop, Hrs.
  - lia.
  - rewrite Hk. unfold sub. rewrite <- (rep_sub ds cs _ k Hrs) by lia. apply mgets_ext.
    intros i Hi. rewrite Hm, decide_True by lia. f_equal. lia.
Qed.

Lemma eq_done p2 d2 l2 :
  w !! p2 = Some d2 -> rep d2 l2 ->
  dyn_string_eq dest p2 w = Done (Some (if decide (l = l2) then 1 else 0), w).
Proof.
  intros H2 Hr2. unfold dyn_string_eq.
  rewrite (obind_done _ _ _ _ _ (deref_done _ _ _ Hd)), (obind_done _ _ _ _ _ (deref_done _ _ _ H2)).
  rewrite (rep_length d l Hr), (rep_length d2 l2 Hr2). destruct (Z.eqb_spec (Z.of_nat (length l)) (Z.of_nat (length l2))).
  - destruct (rep_strcmp d d2 l l2 Hr Hr2 ltac:(lia)) as (r & E & Hiff). cbn [negb].
    erewrite obind_done.
    2: { unfold dyn_string_compare.
         rewrite (obind_done _ _ _ _ _ (deref_done _ _ _ Hd)), (obind_done _ _ _ _ _ (deref_done _ _ _ H2)).
         unfold pure. by rewrite E. }
    unfold ret. do 3 f_equal. destruct (Z.eqb_spec r 0), (decide (l = l2)); tauto.
  - cbn [negb]. rewrite decide_False by congruence. done.
Qed.

Lemma release_done :
  dyn_string_release dest w = Done (Some (ds_allocated d, ds_s d), delete dest w).
Proof.
  unfold dyn_string_release, free. rewrite (obind_done _ _ _ _ _ (deref_done _ _ _ Hd)).
  erewrite obind_done; [done|]. by rewrite (obind_done _ _ _ _ _ (deref_done _ _ _ Hd)).
Qed.
End steps.

(** ** The abstract strings *)

Inductive op :=
| New (space : Z)
| Delete (ds : Z)
| Release (ds : Z)
| Clear (ds : Z)
| Copy (dest src : Z)
| CopyCstr (dest : Z) (src : list Z)
| Prepend (dest src : Z)
| PrependCstr (dest : Z) (src : list Z)
| Insert (dest pos src : Z)
| InsertCstr (dest pos : Z) (src : list Z)
| InsertChar (dest pos c : Z)
| Append (dest s : Z)
| AppendCstr (dest : Z) (s : list Z)
| AppendChar (dest c : Z)
| Substring (dest src start end_ : Z)
| Eq (ds1 ds2 : Z).

(** What a call returns: a number, or a buffer with its size. *)
Inductive out :=
| Num (r : Z)
| Buf (size : Z) (s : mem).

Section ops.
Context `{Malloc}.

Definition num (m : St store (option Z)) : St store (option out) := r <-? m ;; ret (Some (Num r)).
Definition void (m : St store (option unit)) : St store (option out) := _ <-? m ;; ret (Some (Num 0)).

Definition run (o : op) : St store (option out) :=
  match o with
  | New space => num (dyn_string_new space)
  | Delete ds => void (dyn_string_delete ds)
  | Release ds => r <-? dyn_string_release ds ;; ret (Some (Buf r.1 r.2))
  | Clear ds => void (dyn_string_clear ds)
  | Copy dest src => num (dyn_string_copy dest src)
  | CopyCstr dest src => num (dyn_string_copy_cstr dest src)
  | Prepend dest src => num (dyn_string_prepend dest src)
  | PrependCstr dest src => num (dyn_string_prepend_cstr dest src)
  | Insert dest pos src => num (dyn_string_insert dest pos src)
  | InsertCstr dest pos src => num (dyn_string_insert_cstr dest pos src)
  | InsertChar dest pos c => num (dyn_string_insert_char dest pos c)
  | Append dest s => num (dyn_string_append dest s)
  | AppendCstr dest s => num (dyn_string_append_cstr dest s)
  | AppendChar dest c => num (dyn_string_append_char dest c)
  | Substring dest src start end_ => num (dyn_string_substring dest src start end_)
  | Eq ds1 ds2 => num (dyn_string_eq ds1 ds2)
  end.

End ops.

(** The strings that are live. *)
Abbreviation strings := (gmap Z (list Z)).

(** [cs] inserted in [l]. *)
Definition splice (l : list Z) (pos : Z) (cs : list Z) : list Z :=
  take (Z.to_nat pos) l ++ cs ++ drop (Z.to_nat pos) l.

#[global] Instance chars_dec l : Decision (chars l).
Proof. unfold chars. apply _. Defined.

#[global] Instance fits_dec l : Decision (fits l).
Proof. unfold fits. apply _. Defined.

(** The string an editing call changes, and its new content; [None] when the
    call is not allowed: a string that is not live, a source that is the
    destination, a position outside the string, a NUL among the characters, a
    result of [2^30 - 1] characters or more. *)
Definition edit (sg : strings) (o : op) : option (Z * list Z) :=
  match o with
  | Copy d s =>
      _ ← sg !! d; l ← sg !! s;
      if decide (d <> s /\ fits l) then Some (d, l) else None
  | CopyCstr d l => _ ← sg !! d; if decide (chars l /\ fits l) then Some (d, l) else None
  | Prepend d s =>
      l ← sg !! d; k ← sg !! s;
      if decide (d <> s /\ fits (l ++ k)) then Some (d, k ++ l) else None
  | PrependCstr d k =>
      l ← sg !! d; if decide (chars k /\ fits (l ++ k)) then Some (d, k ++ l) else None
  | Insert d pos s =>
      l ← sg !! d; k ← sg !! s;
      if decide (d <> s /\ 0 <= pos <= Z.of_nat (length l) /\ fits (l ++ k)) then Some (d, splice l pos k) else None
  | InsertCstr d pos k =>
      l ← sg !! d;
      if decide (chars k /\ 0 <= pos <= Z.of_nat (length l) /\ fits (l ++ k)) then Some (d, splice l pos k) else None
  | InsertChar d pos c =>
      l ← sg !! d;
      if decide (0 < u8 c /\ 0 <= pos <= Z.of_nat (length l) /\ fits (l ++ [u8 c]))
      then Some (d, splice l pos [u8 c]) else None
  | Append d s =>
      l ← sg !! d; k ← sg !! s;
      if decide (d <> s /\ fits (l ++ k)) then Some (d, l ++ k) else None
  | AppendCstr d k => l ← sg !! d; if decide (chars k /\ fits (l ++ k)) then Some (d, l ++ k) else None
  | AppendChar d c =>
      l ← sg !! d; if decide (0 < u8 c /\ fits (l ++ [u8 c])) then Some (d, l ++ [u8 c]) else None
  | Substring d s start end_ =>
      _ ← sg !! d; k ← sg !! s;
      if decide (d <> s /\ 0 <= start <= end_ /\ end_ <= Z.of_nat (length k) /\ fits k)
      then Some (d, take (Z.to_nat (end_ - start)) (drop (Z.to_nat start) k)) else None
  | _ => None
  end.

(** What a call on live strings may return and leave; [None]: not allowed. *)
Definition spec (sg : strings) (o : op) : option (out -> strings -> Prop) :=
  match o with
  | New space =>
      if decide (0 <= space < 2147483648)
      then Some (fun r sg' => exists p, r = Num p /\ sg !! p = None /\ sg' = <[p := []]> sg) else None
  | Delete d => _ ← sg !! d; Some (fun r sg' => r = Num 0 /\ sg' = delete d sg)
  | Release d =>
      l ← sg !! d;
      Some (fun r sg' => sg' = delete d sg /\
        exists size s, r = Buf size s /\ cstr (Z.to_nat size) s 0 = Done l)
  | Clear d => _ ← sg !! d; Some (fun r sg' => r = Num 0 /\ sg' = <[d := []]> sg)
  | Eq d1 d2 =>
      l1 ← sg !! d1; l2 ← sg !! d2;
      Some (fun r sg' => r = Num (if decide (l1 = l2) then 1 else 0) /\ sg' = sg)
  | _ => e ← edit sg o; Some (fun r sg' => r = Num 1 /\ sg' = <[e.1 := e.2]> sg)
  end.

Definition Rel (w : store) (sg : strings) : Prop := forall p, option_Forall2 rep (w !! p) (sg !! p).

Lemma Rel_lookup w sg p l : Rel w sg -> sg !! p = Some l -> exists d, w !! p = Some d /\ rep d l.
Proof. intros HR E. specialize (HR p). rewrite E in HR. inversion HR; subst. eauto. Qed.

Lemma Rel_insert w sg p d l : Rel w sg -> rep d l -> Rel (<[p := d]> w) (<[p := l]> sg).
Proof.
  intros HR Hd q. destruct (decide (p = q)) as [->|].
  - rewrite !lookup_insert_eq. by constructor.
  - rewrite !lookup_insert_ne by done. apply HR.
Qed.

Lemma Rel_delete w sg p : Rel w sg -> Rel (delete p w) (delete p sg).
Proof.
  intros HR q. destruct (decide (p = q)) as [->|].
  - rewrite !lookup_delete_eq. constructor.
  - rewrite !lookup_delete_ne by done. apply HR.
Qed.

Lemma Rel_none w sg p : Rel w sg -> w !! p = None -> sg !! p = None.
Proof. intros HR E. specialize (HR p). rewrite E in HR. by inversion HR. Qed.

Section refine.
Context `{MallocLaws}.
Abbreviation wpr m Q w := (wp m (unless_refused Q) w).

Lemma new_wp space w :
  0 <= space < 2147483648 ->
  wpr (dyn_string_new space) (fun p w' => w !! p = None /\ exists d, w' = <[p := d]> w /\ rep d []) w.
Proof.
  intros Hs. unfold dyn_string_new, XNEW. destruct (malloc_ok SIZEOF_DS) eqn:E1.
  2: { apply wpr_obind, wp_ret. exists SIZEOF_DS. unfold SIZEOF_DS in *. split; [lia|done]. }
  apply (wpr_done (gets _) _ _ w (new_struct w) w eq_refl).
  set (n := if space =? 0 then 1 else space).
  assert (Hn : 0 < n < 2147483648) by (unfold n; destruct (Z.eqb_spec space 0); lia).
  apply wpr_obind. unfold dyn_string_init. fold n. unfold XNEWVEC. rewrite u64_small by lia.
  destruct (malloc_ok n) eqn:E2; [|apply wpr_obind, wp_ret; by exists n].
  apply (wpr_done (gets _) _ _ w (new_chars w) w eq_refl).
  eapply wpr_done; [done|]. eapply wpr_done; [apply setc_done; lia|].
  apply wp_ret. apply wp_ret. split; [apply new_struct_fresh|]. eexists. split; [done|].
  apply (rep_end n (new_chars w) [] []); [constructor|cbn; lia|done].
Qed.

Definition Meets (post : out -> strings -> Prop) (r : out) (w : store) : Prop :=
  exists sg, post r sg /\ Rel w sg.

Lemma num_wp m (P : Z -> store -> Prop) post w :
  wpr m P w -> (forall r w', P r w' -> Meets post (Num r) w') -> wpr (num m) (Meets post) w.
Proof.
  intros Hm HP. apply wpr_obind. eapply wpr_mono; [exact Hm|]. intros r w' Hr. apply wp_ret, HP, Hr.
Qed.

Lemma edit_wp m w sg p l :
  Rel w sg -> wpr m (becomes w p l) w ->
  wpr (num m) (Meets (fun r sg' => r = Num 1 /\ sg' = <[p := l]> sg)) w.
Proof.
  intros HR Hm. eapply num_wp; [exact Hm|]. intros r w' (-> & d & -> & Hd).
  exists (<[p := l]> sg). split; [done|]. by apply Rel_insert.
Qed.

Ltac live HR :=
  repeat match goal with
  | E : ?sg !! ?p = Some ?l |- _ =>
      let d := fresh "d" in let H1 := fresh "Hw" in let H2 := fresh "Hr" in
      destruct (Rel_lookup _ _ _ _ HR E) as (d & H1 & H2); clear E
  end.

Ltac cases :=
  repeat match goal with
  | E : mbind _ ?x = Some _ |- _ => destruct x eqn:?; cbn [mbind option_bind] in E; [|discriminate E]
  | E : (if ?b then _ else None) = Some _ |- _ => destruct b; [|discriminate E]
  end.

(** Each editing call replaces one string by its new content. *)
Lemma edit_refines w sg o p l :
  Rel w sg -> edit sg o = Some (p, l) ->
  wpr (run o) (Meets (fun r sg' => r = Num 1 /\ sg' = <[p := l]> sg)) w.
Proof.
  intros HR E. destruct o; cbn [edit] in E; try discriminate E; cases; injection E as <- <-;
    destruct_and?; live HR; apply edit_wp; try done.
  - by eapply copy_wp.
  - by eapply copy_cstr_wp.
  - apply (insert_wp w dest d0 l0 Hw0 Hr0 src d 0 l1); [done..|lia|done].
  - apply (insert_cstr_wp w dest d l0 Hw Hr 0); [done|lia|done].
  - by eapply insert_wp.
  - by eapply insert_cstr_wp.
  - by eapply insert_char_wp.
  - by eapply append_wp.
  - by eapply append_cstr_wp.
  - by eapply append_char_wp.
  - by eapply substring_wp.
Qed.

Lemma op_refines w sg o post :
  Rel w sg -> spec sg o = Some post -> wpr (run o) (Meets post) w.
Proof.
  intros HR E. destruct o; cbn [spec] in E;
    try (destruct (edit _ _) as [[p l]|] eqn:Ee; [|discriminate E]; injection E as <-; by apply edit_refines);
    cases; injection E as <-; live HR.
  - eapply num_wp; [by apply new_wp|]. intros p w' (Hp & d & -> & Hd).
    exists (<[p := []]> sg). split; [|by apply Rel_insert]. exists p. eauto using Rel_none.
  - cbn [run]. unfold void, dyn_string_delete, free. eapply wpr_done.
    { rewrite (obind_done _ _ _ _ _ (deref_done _ _ _ Hw)). done. }
    apply wp_ret. exists (delete ds sg). split; [done|by apply Rel_delete].
  - cbn [run]. eapply wpr_done; [by apply release_done|]. apply wp_ret.
    exists (delete ds sg). split; [|by apply Rel_delete]. split; [done|].
    eexists _, _. split; [done|]. by apply rep_cstr.
  - destruct (clear_done w ds d _ Hw Hr) as (d' & Ec & Hd'). cbn [run]. eapply wpr_done; [exact Ec|].
    apply wp_ret. exists (<[ds := []]> sg). split; [done|by apply Rel_insert].
  - apply (num_wp _ (fun r w' => r = (if decide (l = l0) then 1 else 0) /\ w' = w)).
    + eapply wp_eq; [by eapply eq_done|]. done.
    + intros r w' [-> ->]. by exists sg.
Qed.

(** C19: Any client of the dynamic strings whose calls are allowed by the abstract
    specification, over any number of live strings, runs without undefined
    behaviour and returns: the doubling of the buffers ends, every character
    written lies in its buffer, and at the end the store holds, string for
    string, what the list operations give; the only other outcome is that the
    allocator refused a request below 2^31 and ended the process. *)
Theorem dyn_string_session (c : client op out) (w : store) (sg : strings) (Q : strings -> Prop)
    (HR : Rel w sg) (Hc : safe spec c sg Q) :
  wpr (run_client run c) (fun _ w' => exists sg', Rel w' sg' /\ Q sg') w.
Proof. eapply (client_refines run spec (fun _ => refused) Rel); [|exact HR|exact Hc]. intros o w' a post. apply op_refines. Qed.

(** Calls outside the specification: the two that test for it abort when the
    source is the destination, as does a substring outside its source; an
    append of a string to itself copies overlapping strings. *)
Lemma dyn_string_misuse w d ds pos start end_ :
  w !! d = Some ds -> 0 <= ds_length ds < 1073741823 -> - 1073741824 <= start < 1073741824 ->
  - 1073741824 <= end_ < 1073741824 ->
  dyn_string_copy d d w = Done (None, w) /\ dyn_string_insert d pos d w = Done (None, w) /\
  (end_ < start \/ ds_length ds < start \/ ds_length ds < end_ ->
   dyn_string_substring d d start end_ w = Done (None, w)).
Proof.
  intros Hd Hl Hs He. split_and!.
  - unfold dyn_string_copy. by rewrite Z.eqb_refl.
  - unfold dyn_string_insert. by rewrite Z.eqb_refl.
  - intros Hb. unfold dyn_string_substring.
    rewrite (obind_done _ _ _ _ _ (int_done (end_ - start) w ltac:(lia))).
    rewrite (obind_done _ _ _ _ _ (deref_done _ _ _ Hd)).
    replace ((end_ <? start) || (ds_length ds <? start) || (ds_length ds <? end_)) with true; [done|].
    symmetry. rewrite !orb_true_iff, !Z.ltb_lt. tauto.
Qed.
End refine.

(** ** A concrete allocator *)

Module Ample.
#[export] Instance ample : Malloc := {
  malloc_ok n := true; new_struct w := infinite_fresh (map_to_list w).*1; new_chars _ := ∅ }.

#[export] Instance ample_laws : MallocLaws.
Proof.
  split. intros w. apply eq_None_not_Some. intros [d Hd].
  apply (infinite_is_fresh (map_to_list w).*1), list_elem_of_fmap. exists (new_struct w, d).
  split; [done|]. by apply elem_of_map_to_list.
Qed.
End Ample.
Import Ample.

(** Two strings: "ab" becomes "a-b", its tail "-b" is copied to the second,
    which is then released. *)
Definition two_strings : client op out :=
  Do (New 1) (fun r1 => match r1 with Buf _ _ => Stop | Num p =>
  Do (New 0) (fun r2 => match r2 with Buf _ _ => Stop | Num q =>
  Do (AppendCstr p [97; 98]) (fun _ =>
  Do (InsertChar p 1 45) (fun _ =>
  Do (Substring q p 1 3) (fun _ =>
  Do (Eq p q) (fun _ =>
  Do (Release q) (fun _ => Stop))))) end) end).

Lemma two_inserts (p q : Z) (a b c : list Z) :
  p <> q -> (<[p := b]> (<[p := a]> (<[q := c]> (<[p := c]> (∅ : strings))))) = <[q := c]> {[p := b]}.
Proof.
  intros Hpq. apply map_eq. intros i. destruct (decide (i = p)) as [->|].
  - by rewrite lookup_insert_eq, lookup_insert_ne, lookup_singleton_eq by done.
  - rewrite !(lookup_insert_ne _ p) by done. destruct (decide (i = q)) as [->|].
    + by rewrite !lookup_insert_eq.
    + by rewrite !lookup_insert_ne, lookup_singleton_ne by done.
Qed.

Lemma two_strings_safe : safe spec two_strings ∅ (fun sg => exists p, sg = {[p := [97; 45; 98]]}).
Proof.
  cbn [two_strings safe spec]. rewrite decide_True by lia. intros r1 sg1 (p & -> & Hp & ->).
  cbn [safe spec]. rewrite decide_True by lia. intros r2 sg2 (q & -> & Hq & ->).
  assert (Hpq : p <> q) by (intros <-; by rewrite lookup_insert_eq in Hq).
  cbn [safe spec edit]. rewrite lookup_insert_ne, lookup_insert_eq by done. cbn [mbind option_bind].
  rewrite decide_True by (split; [repeat constructor|unfold fits; cbn; lia]). cbn [mbind option_bind fst snd].
  intros r3 sg3 [_ ->]. cbn [safe spec edit]. rewrite lookup_insert_eq. cbn [mbind option_bind app].
  rewrite decide_True by (split_and!; [done|done|cbn; lia|unfold fits; cbn; lia]).
  change (splice [97; 98] 1 [u8 45]) with [97; 45; 98].
  cbn [mbind option_bind fst snd]. intros r4 sg4 [_ ->]. cbn [safe spec edit].
  rewrite (two_inserts p q) by done. rewrite lookup_insert_eq, lookup_insert_ne, lookup_singleton_eq by done. cbn [mbind option_bind].
  rewrite decide_True by (split_and!; [done|lia|lia|cbn; lia|unfold fits; cbn; lia]).
  cbn [mbind option_bind fst snd]. intros r5 sg5 [_ ->]. cbn [safe spec edit].
  rewrite insert_insert_eq, (lookup_insert_ne _ q p), lookup_singleton_eq by congruence.
  cbn [mbind option_bind]. rewrite lookup_insert_eq.
  cbn [mbind option_bind]. intros r6 sg6 [_ ->]. cbn [safe spec edit]. rewrite lookup_insert_eq.
  cbn [mbind option_bind]. intros r7 sg7 [-> _]. exists p.
  rewrite delete_insert_id; [done|]. by rewrite lookup_singleton_ne.
Qed.

Lemma dyn_string_session_witness :
  wp (run_client run two_strings) (unless_refused (fun _ w' => exists sg, Rel w' sg /\
    exists p, sg = {[p := [97; 45; 98]]})) ∅ /\
  match run_client run two_strings ∅ with
  | Done (Some _, w) => map (fun pd => mgets (ds_s pd.2) 0 4) (map_to_list w)
  | _ => []
  end = [[97; 45; 98; 0]].
Proof.
  split; [|by vm_compute].
  apply (dyn_string_session two_strings ∅ ∅ _); [|apply two_strings_safe]. intros p. constructor.
Defined.

(** A string made the substring of itself is garbled, not
    cut: the copy runs downwards over what it still has to read. *)
Lemma substring_of_itself :
  match run_client run (Do (New 0) (fun r => match r with Buf _ _ => Stop | Num p =>
    Do (AppendCstr p [1; 2; 3; 4; 5]) (fun _ => Do (Substring p p 1 4) (fun _ => Stop)) end)) ∅ with
  | Done (Some _, w) => map (fun pd => mgets (ds_s pd.2) 0 4) (map_to_list w)
  | _ => []
  end = [[4; 4; 4; 0]].
Proof. vm_compute. reflexivity. Qed.

(** Doubling beyond 2^30 overflows [int]. *)
Lemma resize_overflows w ds d : w !! ds = Some d -> ds_allocated d = 1 -> dyn_string_resize ds 1073741824 w = Undef.
Proof.
  intros Hd HA. unfold dyn_string_resize. rewrite (obind_done _ _ _ _ _ (deref_done _ _ _ Hd)).
  rewrite (obind_done _ _ _ _ _ (int_done (1073741824 + 1) w ltac:(lia))), HA. done.
Qed.
