(* ===== verification/Sha1hw.v ===== *)
(** The path of [libiberty/sha1.c] through the SHA instructions of x86
    processors: [sha1_hw_process_bytes], [sha1_hw_process_block] and the choice
    between the two paths. The instructions are a parameter, a class of their
    documented behaviour, with a concrete instance. *)
From S2P Require Import Prelude Bytes Digest Sha1.

(** ** The instructions *)

(** The compiler intrinsics the code uses; a vector is stored as 16 bytes. *)
Class Sse := {
  m128i : Type;
  _mm_loadu_si128 : list Z -> m128i;
  _mm_storeu_si128 : m128i -> list Z;
  _mm_set_epi64x : Z -> Z -> m128i;
  _mm_set_epi32 : Z -> Z -> Z -> Z -> m128i;
  _mm_extract_epi32 : m128i -> Z -> Z;
  _mm_add_epi32 : m128i -> m128i -> m128i;
  _mm_xor_si128 : m128i -> m128i -> m128i;
  _mm_shuffle_epi32 : m128i -> Z -> m128i;
  _mm_shuffle_epi8 : m128i -> m128i -> m128i;
  _mm_sha1rnds4_epu32 : m128i -> m128i -> Z -> m128i;
  _mm_sha1nexte_epu32 : m128i -> m128i -> m128i;
  _mm_sha1msg1_epu32 : m128i -> m128i -> m128i;
  _mm_sha1msg2_epu32 : m128i -> m128i -> m128i }.

(** Doubleword [i] of a vector, 0 being the lowest. *)
Definition dword `{Sse} (x : m128i) (i : Z) : Z := le_dec (slice (_mm_storeu_si128 x) (4 * i) 4).

(** The four doublewords, highest first. *)
Definition dwords `{Sse} (x : m128i) : list Z := [dword x 3; dword x 2; dword x 1; dword x 0].

(** The functions and constants SHA1RNDS4 selects by its immediate. *)
Definition rnds_f (imm : Z) (b c d : Z) : Z :=
  if imm =? 0 then Z.lxor (Z.land b c) (Z.land (Z.lnot b) d)
  else if imm =? 2 then Z.lxor (Z.lxor (Z.land b c) (Z.land b d)) (Z.land c d)
  else Z.lxor (Z.lxor b c) d.

Definition rnds_k (imm : Z) : Z :=
  if imm =? 0 then 0x5a827999 else if imm =? 1 then 0x6ed9eba1
  else if imm =? 2 then 0x8f1bbcdc else 0xca62c1d6.

(** One of the four rounds; the first one has no E. *)
Definition rnds_round (imm : Z) (s : sha1_words) (w : Z) : sha1_words :=
  Sha1Words (u32 (rnds_f imm (hB s) (hC s) (hD s) + rol (hA s) 5 + w + hE s + rnds_k imm))
    (hA s) (rol (hB s) 30) (hC s) (hD s).

(** The behaviour the instruction set reference gives. *)
Class SseLaws `{Sse} := {
  storeu_ok x : length (_mm_storeu_si128 x) = 16%nat /\ Forall is_byte (_mm_storeu_si128 x);
  storeu_inj x y : _mm_storeu_si128 x = _mm_storeu_si128 y -> x = y;
  loadu_ok bs : length bs = 16%nat -> Forall is_byte bs -> _mm_storeu_si128 (_mm_loadu_si128 bs) = bs;
  set_epi64x_ok hi lo : _mm_storeu_si128 (_mm_set_epi64x hi lo) = le_enc 8 lo ++ le_enc 8 hi;
  set_epi32_ok a b c d : dwords (_mm_set_epi32 a b c d) = [u32 a; u32 b; u32 c; u32 d];
  extract_epi32_ok x i : 0 <= i < 4 -> _mm_extract_epi32 x i = dword x i;
  add_epi32_ok x y i : 0 <= i < 4 -> dword (_mm_add_epi32 x y) i = u32 (dword x i + dword y i);
  xor_si128_ok x y i : 0 <= i < 4 -> dword (_mm_xor_si128 x y) i = Z.lxor (dword x i) (dword y i);
  shuffle_epi32_ok x imm i : 0 <= i < 4 ->
    dword (_mm_shuffle_epi32 x imm) i = dword x (Z.land (Z.shiftr imm (2 * i)) 3);
  shuffle_epi8_ok x m i : (i < 16)%nat ->
    _mm_storeu_si128 (_mm_shuffle_epi8 x m) !! i =
    Some (let c := _mm_storeu_si128 m !!! i in
          if Z.testbit c 7 then 0 else _mm_storeu_si128 x !!! Z.to_nat (Z.land c 15));
  sha1rnds4_ok x y imm : 0 <= imm < 4 ->
    let r := foldl (rnds_round imm) (Sha1Words (dword x 3) (dword x 2) (dword x 1) (dword x 0) 0)
               (dwords y) in
    dwords (_mm_sha1rnds4_epu32 x y imm) = [hA r; hB r; hC r; hD r];
  sha1nexte_ok x y :
    dwords (_mm_sha1nexte_epu32 x y) = [u32 (dword y 3 + rol (dword x 3) 30); dword y 2; dword y 1; dword y 0];
  sha1msg1_ok x y :
    dwords (_mm_sha1msg1_epu32 x y) =
    [Z.lxor (dword x 1) (dword x 3); Z.lxor (dword x 0) (dword x 2);
     Z.lxor (dword y 3) (dword x 1); Z.lxor (dword y 2) (dword x 0)];
  sha1msg2_ok x y :
    let w16 := rol (Z.lxor (dword x 3) (dword y 2)) 1 in
    dwords (_mm_sha1msg2_epu32 x y) =
    [w16; rol (Z.lxor (dword x 2) (dword y 1)) 1; rol (Z.lxor (dword x 1) (dword y 0)) 1;
     rol (Z.lxor (dword x 0) w16) 1] }.

(** ** The source *)

Section source.
Context `{Sse}.

(** The vector variables of [sha1_hw_process_block]. *)
Inductive vreg := ABCD | E0 | E1 | MSG0 | MSG1 | MSG2 | MSG3.

Record vregs := Vregs { abcd : m128i; e0 : m128i; e1 : m128i; msg0 : m128i; msg1 : m128i; msg2 : m128i; msg3 : m128i }.

Definition vget (r : vreg) (s : vregs) : m128i :=
  match r with
  | ABCD => abcd s | E0 => e0 s | E1 => e1 s | MSG0 => msg0 s | MSG1 => msg1 s | MSG2 => msg2 s | MSG3 => msg3 s
  end.

Definition vset (r : vreg) (v : m128i) (s : vregs) : vregs :=
  match r with
  | ABCD => Vregs v (e0 s) (e1 s) (msg0 s) (msg1 s) (msg2 s) (msg3 s)
  | E0 => Vregs (abcd s) v (e1 s) (msg0 s) (msg1 s) (msg2 s) (msg3 s)
  | E1 => Vregs (abcd s) (e0 s) v (msg0 s) (msg1 s) (msg2 s) (msg3 s)
  | MSG0 => Vregs (abcd s) (e0 s) (e1 s) v (msg1 s) (msg2 s) (msg3 s)
  | MSG1 => Vregs (abcd s) (e0 s) (e1 s) (msg0 s) v (msg2 s) (msg3 s)
  | MSG2 => Vregs (abcd s) (e0 s) (e1 s) (msg0 s) (msg1 s) v (msg3 s)
  | MSG3 => Vregs (abcd s) (e0 s) (e1 s) (msg0 s) (msg1 s) (msg2 s) v
  end.

Definition shuf_mask : m128i := _mm_set_epi64x 0x0001020304050607 0x08090a0b0c0d0e0f.

(** The statements: [x = f (x, y)] for each instruction. *)
Definition mov (x y : vreg) (s : vregs) : vregs := vset x (vget y s) s.
Definition load (blk : list Z) (x : vreg) (k : Z) (s : vregs) : vregs :=
  vset x (_mm_loadu_si128 (slice blk (16 * k) 16)) s.
Definition swap (x : vreg) (s : vregs) : vregs := vset x (_mm_shuffle_epi8 (vget x s) shuf_mask) s.
Definition add (x y : vreg) (s : vregs) : vregs := vset x (_mm_add_epi32 (vget x s) (vget y s)) s.
Definition xor (x y : vreg) (s : vregs) : vregs := vset x (_mm_xor_si128 (vget x s) (vget y s)) s.
Definition rnds4 (y : vreg) (imm : Z) (s : vregs) : vregs :=
  vset ABCD (_mm_sha1rnds4_epu32 (vget ABCD s) (vget y s) imm) s.
Definition nexte (x y : vreg) (s : vregs) : vregs := vset x (_mm_sha1nexte_epu32 (vget x s) (vget y s)) s.
Definition smsg1 (x y : vreg) (s : vregs) : vregs := vset x (_mm_sha1msg1_epu32 (vget x s) (vget y s)) s.
Definition smsg2 (x y : vreg) (s : vregs) : vregs := vset x (_mm_sha1msg2_epu32 (vget x s) (vget y s)) s.

(** Rounds 0 to 15, which read the block. *)
Definition hw_first (blk : list Z) : list (list (vregs -> vregs)) :=
  [ (* 0..3 *)
    [load blk MSG0 0; swap MSG0; add E0 MSG0; mov E1 ABCD; rnds4 E0 0];
    (* 4..7 *)
    [load blk MSG1 1; swap MSG1; nexte E1 MSG1; mov E0 ABCD; rnds4 E1 0; smsg1 MSG0 MSG1];
    (* 8..11 *)
    [load blk MSG2 2; swap MSG2; nexte E0 MSG2; mov E1 ABCD; rnds4 E0 0; smsg1 MSG1 MSG2; xor MSG0 MSG2];
    (* 12..15 *)
    [load blk MSG3 3; swap MSG3; nexte E1 MSG3; mov E0 ABCD; smsg2 MSG0 MSG3; rnds4 E1 0; smsg1 MSG2 MSG3;
     xor MSG1 MSG3] ].

(** Rounds 16 to 67. *)
Definition hw_middle : list (list (vregs -> vregs)) :=
  [ (* 16..19 *)
    [nexte E0 MSG0; mov E1 ABCD; smsg2 MSG1 MSG0; rnds4 E0 0; smsg1 MSG3 MSG0; xor MSG2 MSG0];
    (* 20..23 *)
    [nexte E1 MSG1; mov E0 ABCD; smsg2 MSG2 MSG1; rnds4 E1 1; smsg1 MSG0 MSG1; xor MSG3 MSG1];
    (* 24..27 *)
    [nexte E0 MSG2; mov E1 ABCD; smsg2 MSG3 MSG2; rnds4 E0 1; smsg1 MSG1 MSG2; xor MSG0 MSG2];
    (* 28..31 *)
    [nexte E1 MSG3; mov E0 ABCD; smsg2 MSG0 MSG3; rnds4 E1 1; smsg1 MSG2 MSG3; xor MSG1 MSG3];
    (* 32..35 *)
    [nexte E0 MSG0; mov E1 ABCD; smsg2 MSG1 MSG0; rnds4 E0 1; smsg1 MSG3 MSG0; xor MSG2 MSG0];
    (* 36..39 *)
    [nexte E1 MSG1; mov E0 ABCD; smsg2 MSG2 MSG1; rnds4 E1 1; smsg1 MSG0 MSG1; xor MSG3 MSG1];
    (* 40..43 *)
    [nexte E0 MSG2; mov E1 ABCD; smsg2 MSG3 MSG2; rnds4 E0 2; smsg1 MSG1 MSG2; xor MSG0 MSG2];
    (* 44..47 *)
    [nexte E1 MSG3; mov E0 ABCD; smsg2 MSG0 MSG3; rnds4 E1 2; smsg1 MSG2 MSG3; xor MSG1 MSG3];
    (* 48..51 *)
    [nexte E0 MSG0; mov E1 ABCD; smsg2 MSG1 MSG0; rnds4 E0 2; smsg1 MSG3 MSG0; xor MSG2 MSG0];
    (* 52..55 *)
    [nexte E1 MSG1; mov E0 ABCD; smsg2 MSG2 MSG1; rnds4 E1 2; smsg1 MSG0 MSG1; xor MSG3 MSG1];
    (* 56..59 *)
    [nexte E0 MSG2; mov E1 ABCD; smsg2 MSG3 MSG2; rnds4 E0 2; smsg1 MSG1 MSG2; xor MSG0 MSG2];
    (* 60..63 *)
    [nexte E1 MSG3; mov E0 ABCD; smsg2 MSG0 MSG3; rnds4 E1 3; smsg1 MSG2 MSG3; xor MSG1 MSG3];
    (* 64..67 *)
    [nexte E0 MSG0; mov E1 ABCD; smsg2 MSG1 MSG0; rnds4 E0 3; smsg1 MSG3 MSG0; xor MSG2 MSG0] ].

(** Rounds 68 to 79. *)
Definition hw_last : list (list (vregs -> vregs)) :=
  [ (* 68..71 *)
    [nexte E1 MSG1; mov E0 ABCD; smsg2 MSG2 MSG1; rnds4 E1 3; xor MSG3 MSG1];
    (* 72..75 *)
    [nexte E0 MSG2; mov E1 ABCD; smsg2 MSG3 MSG2; rnds4 E0 3];
    (* 76..79 *)
    [nexte E1 MSG3; mov E0 ABCD; rnds4 E1 3] ].

(** The statements of a group, in order. *)
Definition exec (s : vregs) (group : list (vregs -> vregs)) : vregs := foldl (fun s op => op s) s group.

(** The body of the loop, on [abcd] and [e0]; the other variables are set
    before they are used. *)
Definition hw_block (st : m128i * m128i) (blk : list Z) : m128i * m128i :=
  let zero := _mm_set_epi32 0 0 0 0 in
  let s := Vregs st.1 st.2 zero zero zero zero zero in
  let s := foldl exec s (hw_first blk ++ hw_middle ++ hw_last) in
  (_mm_add_epi32 (abcd s) st.1, _mm_sha1nexte_epu32 (e0 s) st.2).

(** [while (words < endp)] takes a turn for each begun 64 bytes; [abcd] is
    loaded from and stored to the consecutive fields A, B, C and D. *)
Definition sha1_hw_process_block (buf : list Z) (len : Z) (c : sha1_ctx) : res sha1_ctx :=
  let t := add_total (total0 c) (total1 c) len in
  let w := words c in
  let abcd := _mm_loadu_si128 (le_enc 4 (hA w) ++ le_enc 4 (hB w) ++ le_enc 4 (hC w) ++ le_enc 4 (hD w)) in
  let e0 := _mm_set_epi32 (hE w) 0 0 0 in
  let abcd := _mm_shuffle_epi32 abcd 0x1b in
  let? st := compress_loop hw_block (Z.to_nat ((len + 63) / 64)) buf (abcd, e0) in
  let abcd := _mm_storeu_si128 (_mm_shuffle_epi32 st.1 0x1b) in
  Done (Ctx (Sha1Words (le_dec (slice abcd 0 4)) (le_dec (slice abcd 4 4)) (le_dec (slice abcd 8 4))
               (le_dec (slice abcd 12 4)) (_mm_extract_epi32 st.2 3)) t.1 t.2 (buflen c) (buffer c)).

(** *** [sha1_hw_process_bytes] *)

Fixpoint sha1_hw_unaligned (fuel : nat) (buf : list Z) (c : sha1_ctx) : res (list Z * sha1_ctx) :=
  match fuel with
  | O => Hang
  | S fuel =>
      if 64 <? Z.of_nat (length buf) then
        let? b := blit (buffer c) 0 (take 64 buf) in
        let? c := sha1_hw_process_block b 64 (Ctx (words c) (total0 c) (total1 c) (buflen c) b) in
        sha1_hw_unaligned fuel (drop 64 buf) c
      else Done (buf, c)
  end.

Definition sha1_hw_fill (buf : list Z) (c : sha1_ctx) : res (list Z * sha1_ctx) :=
  let len := Z.of_nat (length buf) in
  let left_over := buflen c in
  let add := if len <? 128 - left_over then len else 128 - left_over in
  let? b := blit (buffer c) left_over (take (Z.to_nat add) buf) in
  let c := Ctx (words c) (total0 c) (total1 c) (u32 (left_over + add)) b in
  let? c :=
    (if 64 <? buflen c then
       let? c := sha1_hw_process_block b (Z.land (buflen c) (Z.lnot 63)) c in
       let rest := Z.land (buflen c) 63 in
       let? b := blit b 0 (slice b (Z.land (left_over + add) (Z.lnot 63)) rest) in
       Done (Ctx (words c) (total0 c) (total1 c) rest b)
     else Done c) in
  Done (drop (Z.to_nat add) buf, c).

Definition sha1_hw_keep (buf : list Z) (c : sha1_ctx) : res sha1_ctx :=
  let left_over := buflen c in
  let? b := blit (buffer c) left_over buf in
  let left_over := left_over + Z.of_nat (length buf) in
  let c := Ctx (words c) (total0 c) (total1 c) (buflen c) b in
  if 64 <=? left_over then
    let? c := sha1_hw_process_block b 64 c in
    let left_over := left_over - 64 in
    let? b := blit b 0 (slice b 64 left_over) in
    Done (Ctx (words c) (total0 c) (total1 c) left_over b)
  else Done (Ctx (words c) (total0 c) (total1 c) left_over b).

Definition sha1_hw_process_bytes (unaligned : bool) (buf : list Z) (c : sha1_ctx) : res sha1_ctx :=
  let? (buf, c) := (if buflen c =? 0 then Done (buf, c) else sha1_hw_fill buf c) in
  let len := Z.of_nat (length buf) in
  let? (buf, c) :=
    (if 64 <=? len then
       if unaligned then sha1_hw_unaligned (S (length buf)) buf c
       else
         let whole := Z.land len (Z.lnot 63) in
         let? c := sha1_hw_process_block buf whole c in
         Done (drop (Z.to_nat whole) buf, c)
     else Done (buf, c)) in
  if 0 <? Z.of_nat (length buf) then sha1_hw_keep buf c else Done c.

(** *** The choice *)

(** [__get_cpuid_count] and [__get_cpuid]: [None] when the leaf is not
    supported, else EBX and ECX. [hw_support] is HAVE_X86_SHA1_HW_SUPPORT. *)
Definition bit_SHA : Z := 0x20000000.
Definition bit_SSE4_1 : Z := 0x80000.

Definition sha1_choose_process_bytes (hw_support : bool) (cpuid : Z -> option (Z * Z))
  : bool -> list Z -> sha1_ctx -> res sha1_ctx :=
  if hw_support then
    match cpuid 7 with
    | Some (ebx, _) =>
        if negb (Z.land ebx bit_SHA =? 0) then
          match cpuid 1 with
          | Some (_, ecx) =>
              if negb (Z.land ecx bit_SSE4_1 =? 0) then sha1_hw_process_bytes else sha1_process_bytes
          | None => sha1_process_bytes
          end
        else sha1_process_bytes
    | None => sha1_process_bytes
    end
  else sha1_process_bytes.
End source.

(** ** Vectors as doublewords *)

Section laws.
Context `{SseLaws}.

Definition wd (v : Z) : Prop := 0 <= v < 2 ^ 32.

Lemma dword_range x i : 0 <= i < 4 -> wd (dword x i).
Proof.
  intros Hi. destruct (storeu_ok x) as [Hl Hb]. unfold dword, wd.
  assert (Hs : length (slice (_mm_storeu_si128 x) (4 * i) 4) = 4%nat).
  { unfold slice. rewrite length_take, length_drop. lia. }
  pose proof (le_dec_bound (slice (_mm_storeu_si128 x) (4 * i) 4)) as Hd. rewrite Hs in Hd.
  apply Hd. unfold slice. by apply Forall_take, Forall_drop.
Qed.

Lemma slices_eq (l1 l2 : list Z) :
  length l1 = 16%nat -> length l2 = 16%nat -> Forall is_byte l1 -> Forall is_byte l2 ->
  (forall i, 0 <= i < 4 -> le_dec (slice l1 (4 * i) 4) = le_dec (slice l2 (4 * i) 4)) -> l1 = l2.
Proof.
  intros H1 H2 B1 B2 E.
  assert (S4 : forall i, 0 <= i < 4 -> slice l1 (4 * i) 4 = slice l2 (4 * i) 4).
  { intros i Hi. apply le_dec_inj; [..|by apply E].
    - unfold slice. by apply Forall_take, Forall_drop.
    - unfold slice. by apply Forall_take, Forall_drop.
    - unfold slice. rewrite !length_take, !length_drop. lia. }
  assert (parts : forall l : list Z, length l = 16%nat ->
    l = slice l (4 * 0) 4 ++ slice l (4 * 1) 4 ++ slice l (4 * 2) 4 ++ slice l (4 * 3) 4).
  { intros l Hl. do 16 (destruct l as [|? l]; [discriminate Hl|]). destruct l; [done|discriminate Hl]. }
  rewrite (parts l1 H1), (parts l2 H2), !S4 by lia. done.
Qed.

Lemma vec_ext x y : dwords x = dwords y -> x = y.
Proof.
  intros E. injection E as E3 E2 E1 E0. apply storeu_inj.
  apply slices_eq; try apply storeu_ok. intros i Hi. fold (dword x i) (dword y i).
  assert (i = 0 \/ i = 1 \/ i = 2 \/ i = 3) as [->|[->|[->| ->]]] by lia; done.
Qed.

Abbreviation P := _mm_set_epi32.

Lemma dword_P a b c d :
  wd a -> wd b -> wd c -> wd d ->
  dword (P a b c d) 3 = a /\ dword (P a b c d) 2 = b /\ dword (P a b c d) 1 = c /\ dword (P a b c d) 0 = d.
Proof.
  intros Ha Hb Hc Hd. pose proof (set_epi32_ok a b c d) as E. unfold dwords in E. injection E as -> -> -> ->.
  unfold wd in *. by rewrite !u32_small.
Qed.

(** A vector is the vector of its doublewords. *)
Lemma vec_P x a b c d : dwords x = [a; b; c; d] -> x = P a b c d.
Proof.
  intros E. apply vec_ext. rewrite set_epi32_ok, E. unfold dwords in E. injection E as <- <- <- <-.
  by rewrite !u32_small by (apply dword_range; lia).
Qed.

Lemma P_u32 a b c d : P (u32 a) b c d = P a b c d.
Proof. apply vec_ext. by rewrite !set_epi32_ok, wrap_wrap. Qed.

Lemma rol_range v s : wd v -> 0 <= s <= 32 -> wd (rol v s).
Proof.
  intros Hv Hs. unfold rol, wd in *. pose proof (wrap_range 32 (Z.shiftl v s) ltac:(lia)).
  assert (0 <= Z.shiftr v (32 - s) < 2 ^ 32).
  { rewrite Z.shiftr_div_pow2 by lia. pose proof (Z.pow_pos_nonneg 2 (32 - s) ltac:(lia) ltac:(lia)).
    split; [apply Z.div_pos; lia|]. apply Z.div_lt_upper_bound; [lia|]. nia. }
  set (x := u32 _) in *. set (y := Z.shiftr _ _) in *. clearbody x y.
  assert (E : Z.lor x y mod 2 ^ 32 = Z.lor x y).
  { apply Z.bits_inj'. intros i Hi. destruct (decide (i < 32)); [by rewrite Z.mod_pow2_bits_low|].
    rewrite Z.mod_pow2_bits_high by lia.
    by rewrite Z.lor_spec, (testbit_high x 32), (testbit_high y 32) by lia. }
  rewrite <- E. apply Z.mod_pos_bound. lia.
Qed.

Lemma add_P a b c d a' b' c' d' :
  wd a -> wd b -> wd c -> wd d -> wd a' -> wd b' -> wd c' -> wd d' ->
  _mm_add_epi32 (P a b c d) (P a' b' c' d') = P (a + a') (b + b') (c + c') (d + d').
Proof.
  intros. destruct (dword_P a b c d) as (E3 & E2 & E1 & E0); [done..|].
  destruct (dword_P a' b' c' d') as (F3 & F2 & F1 & F0); [done..|].
  apply vec_ext. rewrite set_epi32_ok. unfold dwords.
  by rewrite !add_epi32_ok, E3, E2, E1, E0, F3, F2, F1, F0 by lia.
Qed.

Lemma nexte_P a b c d w0 w1 w2 w3 :
  wd a -> wd b -> wd c -> wd d -> wd w0 -> wd w1 -> wd w2 -> wd w3 ->
  _mm_sha1nexte_epu32 (P a b c d) (P w0 w1 w2 w3) = P (w0 + rol a 30) w1 w2 w3.
Proof.
  intros. destruct (dword_P a b c d) as (E3 & E2 & E1 & E0); [done..|].
  destruct (dword_P w0 w1 w2 w3) as (F3 & F2 & F1 & F0); [done..|].
  rewrite <- (P_u32 (w0 + rol a 30)). apply vec_P. by rewrite sha1nexte_ok, E3, F3, F2, F1, F0.
Qed.

(** ** Rounds and schedule *)

Section rounds.
Variable W : list Z.
Hypothesis HW : forall t, (16 <= t < 80)%nat ->
  W !!! t = rol (Z.lxor (Z.lxor (Z.lxor (W !!! (t - 3)%nat) (W !!! (t - 8)%nat))
                           (W !!! (t - 14)%nat)) (W !!! (t - 16)%nat)) 1.
Hypothesis HWr : forall t, (t < 80)%nat -> wd (W !!! t).
Variable w : sha1_words.
Hypothesis Hw : words_ok w.

(** The working variables before round [4 * g], and the words of its group. *)
Definition state (g : nat) : sha1_words := foldl (fips_step W) w (seq 0 (4 * g)).
Definition Sv (g : nat) : m128i := P (hA (state g)) (hB (state g)) (hC (state g)) (hD (state g)).
Definition Mv (g : nat) : m128i :=
  P (W !!! (4 * g)%nat) (W !!! (4 * g + 1)%nat) (W !!! (4 * g + 2)%nat) (W !!! (4 * g + 3)%nat).

Lemma fips_step_ok s t : words_ok s -> words_ok (fips_step W s t).
Proof.
  intros (Ha & Hb & Hc & Hd & He). unfold fips_step.
  assert (Hgen : forall f k, words_ok
    (Sha1Words (u32 (hE s + (rol (hA s) 5 + f (hB s) (hC s) (hD s) + k + W !!! t))) (hA s) (rol (hB s) 30) (hC s) (hD s))).
  { intros f k. unfold words_ok. cbn [hA hB hC hD hE]. split_and!; try lia.
    1, 2: apply wrap_range; lia. 1, 2: apply rol_range; [done|lia]. }
  destruct (t / 20)%nat as [|[|[|n]]]; apply Hgen.
Qed.

Lemma state_ok g : words_ok (state g).
Proof.
  unfold state. generalize (seq 0 (4 * g)) as l. intros l. revert w Hw.
  induction l as [|t l IH]; intros w' Hw'; [done|]. cbn [foldl]. by apply IH, fips_step_ok.
Qed.

Lemma state_S g :
  state (S g) = foldl (fips_step W) (state g) [(4 * g)%nat; (4 * g + 1)%nat; (4 * g + 2)%nat; (4 * g + 3)%nat].
Proof.
  unfold state. replace (4 * S g)%nat with (4 * g + 4)%nat by lia. rewrite seq_app, foldl_app, Nat.add_0_l.
  cbn [seq]. do 2 f_equal; repeat (f_equal; try lia).
Qed.

(** One round of the instruction is a step of FIPS 180. *)
Lemma round_fips t s v e :
  (t < 80)%nat -> u32 (v + e) = u32 (W !!! t + hE s) ->
  rnds_round (Z.of_nat (t / 20)) (Sha1Words (hA s) (hB s) (hC s) (hD s) e) v = fips_step W s t.
Proof.
  intros Ht Hv. unfold rnds_round, fips_step. cbn [hA hB hC hD hE].
  assert (Hf : forall f k f' k', f (hB s) (hC s) (hD s) = f' (hB s) (hC s) (hD s) -> k = k' ->
    u32 (f (hB s) (hC s) (hD s) + rol (hA s) 5 + v + e + k)
    = u32 (hE s + (rol (hA s) 5 + f' (hB s) (hC s) (hD s) + k' + W !!! t))).
  { intros f k f' k' -> ->.
    replace (f' (hB s) (hC s) (hD s) + rol (hA s) 5 + v + e + k') with
      (v + e + (f' (hB s) (hC s) (hD s) + rol (hA s) 5 + k')) by lia.
    replace (hE s + (rol (hA s) 5 + f' (hB s) (hC s) (hD s) + k' + W !!! t)) with
      (W !!! t + hE s + (f' (hB s) (hC s) (hD s) + rol (hA s) 5 + k')) by lia.
    unfold wrap in *. rewrite <- Z.add_mod_idemp_l, Hv, Z.add_mod_idemp_l by lia. done. }
  assert (Hq : (t / 20 < 4)%nat) by (apply Nat.Div0.div_lt_upper_bound; lia).
  destruct (t / 20)%nat as [|[|[|[|n]]]]; [| | | |lia]; f_equal; apply Hf; try done.
  change (rnds_f (Z.of_nat 0)) with (fun b c d => Z.lxor (Z.land b c) (Z.land (Z.lnot b) d)). cbv beta.
  unfold Ch. apply Z.bits_inj'. intros i Hi. rewrite Z.lxor_spec, Z.lor_spec, !Z.land_spec, Z.lnot_spec by done.
  by destruct (Z.testbit (hB s) i), (Z.testbit (hC s) i), (Z.testbit (hD s) i).
Qed.

Lemma group_quarter g i : (i < 4)%nat -> ((4 * g + i) / 20)%nat = (g / 5)%nat.
Proof. intros Hi. change 20%nat with (4 * 5)%nat. rewrite <- Nat.Div0.div_div. f_equal. symmetry. apply (Nat.div_unique _ _ _ i); lia. Qed.

(** Four rounds. *)
Lemma rnds_ok g imm :
  (g < 20)%nat -> imm = Z.of_nat (g / 5) ->
  _mm_sha1rnds4_epu32 (Sv g) (P (W !!! (4 * g)%nat + hE (state g)) (W !!! (4 * g + 1)%nat) (W !!! (4 * g + 2)%nat)
                                (W !!! (4 * g + 3)%nat)) imm = Sv (S g).
Proof.
  intros Hg Himm. destruct (state_ok g) as (Ha & Hb & Hc & Hd & He).
  destruct (dword_P (hA (state g)) (hB (state g)) (hC (state g)) (hD (state g))) as (E3 & E2 & E1 & E0); [done..|].
  assert (Hq : (g / 5 < 4)%nat) by (apply Nat.Div0.div_lt_upper_bound; lia).
  apply vec_P. rewrite sha1rnds4_ok by lia. unfold Sv. rewrite E3, E2, E1, E0.
  rewrite set_epi32_ok, !(u32_small (W !!! _)) by (apply HWr; lia). rewrite state_S.
  cbn [foldl]. rewrite Himm. clear Himm.
  assert (H0' : rnds_round (Z.of_nat (g / 5)) (Sha1Words (hA (state g)) (hB (state g)) (hC (state g)) (hD (state g)) 0)
                  (u32 (W !!! (4 * g)%nat + hE (state g))) = fips_step W (state g) (4 * g)).
  { rewrite <- (group_quarter g 0), Nat.add_0_r by lia. apply round_fips; [lia|]. by rewrite Z.add_0_r, wrap_wrap. }
  rewrite H0'.
  assert (Hr : forall i s, (i < 4)%nat ->
    rnds_round (Z.of_nat (g / 5)) s (W !!! (4 * g + i)%nat) = fips_step W s (4 * g + i)).
  { intros i s Hi. rewrite <- (group_quarter g i) by done. destruct s as [a b c d e].
    by apply (round_fips (4 * g + i) (Sha1Words a b c d e)); [lia|]. }
  by rewrite !Hr by lia.
Qed.

Lemma state_E g : hE (state (S g)) = rol (hA (state g)) 30.
Proof.
  rewrite state_S. cbn [foldl].
  assert (Hf : forall s t, hB (fips_step W s t) = hA s /\ hC (fips_step W s t) = rol (hB s) 30 /\
    hD (fips_step W s t) = hC s /\ hE (fips_step W s t) = hD s).
  { intros s t. unfold fips_step. by destruct (t / 20)%nat as [|[|[|?]]]. }
  by rewrite (proj2 (proj2 (proj2 (Hf _ _)))), (proj1 (proj2 (proj2 (Hf _ _)))),
    (proj1 (proj2 (Hf _ _))), (proj1 (Hf _ _)).
Qed.

Lemma rnds_nexte g imm :
  (S g < 20)%nat -> imm = Z.of_nat (S g / 5) ->
  _mm_sha1rnds4_epu32 (Sv (S g)) (_mm_sha1nexte_epu32 (Sv g) (Mv (S g))) imm = Sv (S (S g)).
Proof.
  intros Hg Himm. rewrite <- (rnds_ok (S g) imm) by done. f_equal. unfold Sv at 1, Mv.
  destruct (state_ok g) as (Ha & Hb & Hc & Hd & He).
  rewrite nexte_P by (done || (apply HWr; lia)). by rewrite state_E.
Qed.

Lemma Mv_dwords g : (g < 20)%nat ->
  dword (Mv g) 3 = W !!! (4 * g)%nat /\ dword (Mv g) 2 = W !!! (4 * g + 1)%nat /\
  dword (Mv g) 1 = W !!! (4 * g + 2)%nat /\ dword (Mv g) 0 = W !!! (4 * g + 3)%nat.
Proof. intros Hg. apply dword_P; apply HWr; lia. Qed.

(** The schedule, as the three message instructions compute it. *)
Definition Yv (g : nat) : m128i := _mm_sha1msg1_epu32 (Mv g) (Mv (S g)).
Definition Xv (g : nat) : m128i := _mm_xor_si128 (Yv g) (Mv (S (S g))).

Lemma Mv_next g : (g < 16)%nat -> _mm_sha1msg2_epu32 (Xv g) (Mv (S (S (S g)))) = Mv (S (S (S (S g)))).
Proof.
  intros Hg. apply vec_P. rewrite sha1msg2_ok. unfold Xv. rewrite !xor_si128_ok by lia.
  pose proof (sha1msg1_ok (Mv g) (Mv (S g))) as E. fold (Yv g) in E. unfold dwords in E.
  injection E as -> -> -> ->.
  destruct (Mv_dwords g) as (-> & -> & -> & ->); [lia|].
  destruct (Mv_dwords (S g)) as (A3 & A2 & A1 & A0); [lia|]. rewrite A3, A2. clear A3 A2 A1 A0.
  destruct (Mv_dwords (S (S g))) as (-> & -> & -> & ->); [lia|].
  destruct (Mv_dwords (S (S (S g)))) as (A3 & A2 & A1 & A0); [lia|]. rewrite A2, A1, A0. clear A3 A2 A1 A0.
  assert (Hx : forall t a b c d e, (16 <= t < 80)%nat -> a = W !!! (t - 14)%nat -> b = W !!! (t - 16)%nat ->
    c = W !!! (t - 8)%nat -> d = W !!! (t - 3)%nat -> e = t ->
    rol (Z.lxor (Z.lxor (Z.lxor a b) c) d) 1 = W !!! e).
  { intros t a b c d e Ht -> -> -> -> ->. rewrite (HW t Ht). f_equal. apply Z.bits_inj'. intros i Hi.
    rewrite !Z.lxor_spec.
    by destruct (Z.testbit _ i), (Z.testbit _ i), (Z.testbit _ i), (Z.testbit _ i). }
  assert (H16 : rol (Z.lxor (Z.lxor (Z.lxor (W !!! (4 * g + 2)%nat) (W !!! (4 * g)%nat)) (W !!! (4 * S (S g))%nat))
     (W !!! (4 * S (S (S g)) + 1)%nat)) 1 = W !!! (4 * S (S (S (S g))))%nat).
  { apply (Hx (4 * S (S (S (S g))))%nat); [lia|f_equal; lia..]. }
  rewrite H16, (Hx (4 * S (S (S (S g))) + 1)%nat _ _ _ _ (4 * S (S (S (S g))) + 1)%nat),
    (Hx (4 * S (S (S (S g))) + 2)%nat _ _ _ _ (4 * S (S (S (S g))) + 2)%nat),
    (Hx (4 * S (S (S (S g))) + 3)%nat _ _ _ _ (4 * S (S (S (S g))) + 3)%nat) by (lia || (f_equal; lia)). done.
Qed.

(** ** The block *)

(** Before group [g] of the middle part: the working variables, their value
    four rounds ago, and the message words as far as they are computed. *)
Definition inv (g : nat) (s : vregs) : Prop :=
  let m := Mv (S (S (S (S g)))) in
  let x := Xv (S g) in
  let y := Yv (S (S g)) in
  let z := Mv (S (S (S g))) in
  abcd s = Sv (S (S (S (S g)))) /\
  match (g mod 4)%nat with
  | 0%nat => e0 s = Sv (S (S (S g))) /\ msg0 s = m /\ msg1 s = x /\ msg2 s = y /\ msg3 s = z
  | 1%nat => e1 s = Sv (S (S (S g))) /\ msg1 s = m /\ msg2 s = x /\ msg3 s = y /\ msg0 s = z
  | 2%nat => e0 s = Sv (S (S (S g))) /\ msg2 s = m /\ msg3 s = x /\ msg0 s = y /\ msg1 s = z
  | _ => e1 s = Sv (S (S (S g))) /\ msg3 s = m /\ msg0 s = x /\ msg1 s = y /\ msg2 s = z
  end.

Ltac run_ops := cbn [exec foldl mov load swap add xor rnds4 nexte smsg1 smsg2 vget vset
  abcd e0 e1 msg0 msg1 msg2 msg3].

(** A group of the middle part computes four rounds and four message words. *)
Definition group_ok (e : nat * list (vregs -> vregs)) : Prop :=
  forall s, inv e.1 s -> inv (S e.1) (exec s e.2).

Lemma middle_ok : Forall group_ok (zip (seq 0 13) hw_middle).
Proof.
  unfold hw_middle. cbn [seq zip zip_with].
  repeat first [apply Forall_nil_2 | apply Forall_cons_2].
  all: intros [va v0 v1 m0 m1 m2 m3] Hs; cbn [fst snd] in *; unfold inv in Hs |- *.
  all: cbn [Nat.modulo Nat.divmod Nat.sub fst snd abcd e0 e1 msg0 msg1 msg2 msg3] in Hs |- *.
  all: destruct Hs as (-> & -> & -> & -> & -> & ->); run_ops.
  all: rewrite Mv_next, rnds_nexte by (lia || reflexivity).
  all: split_and!; reflexivity.
Qed.

Lemma groups_run groups n g s :
  length groups = n -> Forall group_ok (zip (seq g n) groups) -> inv g s -> inv (g + n) (foldl exec s groups).
Proof.
  revert groups g s. induction n as [|n IH]; intros [|grp groups] g s Hl Ho Hs; try done.
  - by rewrite Nat.add_0_r.
  - apply Forall_cons_1 in Ho as [H1 Ho]. cbn [foldl]. rewrite <- Nat.add_succ_comm.
    apply IH; [by injection Hl|exact Ho|by apply H1].
Qed.

Section block.
Variable blk : list Z.
Hypothesis Hload : forall k, (k < 4)%nat ->
  _mm_shuffle_epi8 (_mm_loadu_si128 (slice blk (16 * Z.of_nat k) 16)) shuf_mask = Mv k.

Lemma first_ok v1 m0 m1 m2 m3 :
  inv 0 (foldl exec (Vregs (Sv 0) (P (hE w) 0 0 0) v1 m0 m1 m2 m3) (hw_first blk)).
Proof.
  unfold hw_first. cbn [foldl]. unfold inv. cbn [Nat.modulo Nat.divmod Nat.sub fst snd]. run_ops.
  pose proof (Hload 0 ltac:(lia)) as H0'. pose proof (Hload 1 ltac:(lia)) as H1.
  pose proof (Hload 2 ltac:(lia)) as H2. pose proof (Hload 3 ltac:(lia)) as H3.
  change (Z.of_nat 0) with 0 in H0'. change (Z.of_nat 1) with 1 in H1.
  change (Z.of_nat 2) with 2 in H2. change (Z.of_nat 3) with 3 in H3. rewrite H0', H1, H2, H3.
  assert (E : _mm_sha1rnds4_epu32 (Sv 0) (_mm_add_epi32 (P (hE w) 0 0 0) (Mv 0)) 0 = Sv 1).
  { rewrite <- (rnds_ok 0 0) by (lia || done). f_equal. unfold Mv. destruct (state_ok 0) as (_ & _ & _ & _ & He).
    rewrite add_P by (done || (apply HWr; lia) || (unfold wd; lia)).
    f_equal; change (state 0) with w; lia. }
  rewrite E, !rnds_nexte by (lia || reflexivity).
  change (_mm_xor_si128 (_mm_sha1msg1_epu32 (Mv 0) (Mv 1)) (Mv 2)) with (Xv 0).
  rewrite Mv_next by lia. split_and!; reflexivity.
Qed.

Lemma last_ok s : inv 13 s -> let s' := foldl exec s hw_last in abcd s' = Sv 20 /\ e0 s' = Sv 19.
Proof.
  destruct s as [va v0 v1 m0 m1 m2 m3]. unfold inv. intros Hs.
  cbn [Nat.modulo Nat.divmod Nat.sub fst snd abcd e0 e1 msg0 msg1 msg2 msg3] in Hs.
  destruct Hs as (-> & -> & -> & -> & -> & ->). unfold hw_last. cbn [foldl]. run_ops.
  rewrite (Mv_next 14), rnds_nexte by (lia || reflexivity).
  change (_mm_xor_si128 (Yv 15) (Mv 17)) with (Xv 15). rewrite (Mv_next 15) by lia.
  rewrite !rnds_nexte by (lia || reflexivity). done.
Qed.

(** A turn of the loop adds the result of the 80 rounds to the chaining words. *)
Lemma hw_block_run :
  hw_block (Sv 0, P (hE w) 0 0 0) blk =
  (P (hA (state 20) + hA w) (hB (state 20) + hB w) (hC (state 20) + hC w) (hD (state 20) + hD w),
   P (hE (state 20) + hE w) 0 0 0).
Proof.
  unfold hw_block. cbn [fst snd]. rewrite !foldl_app.
  set (s1 := foldl exec _ (hw_first blk)). assert (H1 : inv 0 s1) by apply first_ok. clearbody s1.
  pose proof (groups_run hw_middle 13 0 s1 eq_refl middle_ok H1) as H2. change (0 + 13)%nat with 13%nat in H2.
  set (s2 := foldl exec s1 hw_middle) in *. clearbody s2. destruct (last_ok s2 H2) as [-> ->].
  destruct (state_ok 20) as (A1 & A2 & A3 & A4 & _). destruct Hw as (B1 & B2 & B3 & B4 & B5).
  destruct (state_ok 19) as (C1 & C2 & C3 & C4 & _).
  unfold Sv. change (state 0) with w. rewrite add_P, nexte_P, (state_E 19) by (done || (unfold wd; lia)).
  f_equal. f_equal. lia.
Qed.
End block.
End rounds.

(** ** Against the portable block function *)

Lemma shuf_mask_bytes : _mm_storeu_si128 shuf_mask = [15; 14; 13; 12; 11; 10; 9; 8; 7; 6; 5; 4; 3; 2; 1; 0].
Proof. unfold shuf_mask. by rewrite set_epi64x_ok. Qed.

(** The shuffle reverses the 16 bytes. *)
Lemma shuffle_rev x : _mm_storeu_si128 (_mm_shuffle_epi8 x shuf_mask) = rev (_mm_storeu_si128 x).
Proof.
  destruct (storeu_ok x) as [Hl _]. destruct (storeu_ok (_mm_shuffle_epi8 x shuf_mask)) as [Hl' _].
  apply list_eq_same_length with 16%nat; [by rewrite length_rev|done|].
  intros i a b Hi Ha Hb. rewrite shuffle_epi8_ok, shuf_mask_bytes in Ha by done. injection Ha as <-.
  set (l := _mm_storeu_si128 x) in *. clearbody l.
  do 16 (destruct l as [|? l]; [discriminate Hl|]). destruct l; [|discriminate Hl].
  do 16 (destruct i as [|i]; [by injection Hb|]). lia.
Qed.

Lemma load_swapped blk k :
  length blk = 64%nat -> Forall is_byte blk -> (k < 4)%nat ->
  _mm_shuffle_epi8 (_mm_loadu_si128 (slice blk (16 * Z.of_nat k) 16)) shuf_mask
  = Mv (schedule 64 (fips_words blk)) k.
Proof.
  intros Hl Hb Hk. unfold Mv. apply vec_P.
  assert (Hs : length (slice blk (16 * Z.of_nat k) 16) = 16%nat).
  { unfold slice. rewrite length_take, length_drop. lia. }
  unfold dwords, dword. rewrite shuffle_rev, loadu_ok; [|done|unfold slice; by apply Forall_take, Forall_drop].
  rewrite !schedule_prefix by (unfold fips_words; rewrite length_map, length_seqZ; lia).
  do 64 (destruct blk as [|? blk]; [discriminate Hl|]). destruct blk; [|discriminate Hl]. clear Hl Hb Hs.
  by destruct k as [|[|[|[|k]]]]; [..|lia].
Qed.

Lemma be_dec_wd bs : length bs = 4%nat -> Forall is_byte bs -> wd (be_dec bs).
Proof.
  intros Hl Hb. unfold be_dec, wd. pose proof (le_dec_bound (rev bs)) as Hd. rewrite length_rev, Hl in Hd.
  by apply Hd, Forall_rev.
Qed.

Lemma lxor_wd a b : wd a -> wd b -> wd (Z.lxor a b).
Proof. intros. apply (lxor_range a b 32); [lia|done..]. Qed.

Lemma schedule_wd n ws t : length ws = 16%nat -> Forall wd ws -> (t < 16 + n)%nat -> wd (schedule n ws !!! t).
Proof.
  intros Hl Hw. induction t as [t IH] using lt_wf_ind. intros Ht. destruct (decide (t < 16)%nat).
  - rewrite schedule_prefix by lia. destruct (lookup_lt_is_Some_2 ws t ltac:(lia)) as [x Hx].
    rewrite (list_lookup_total_correct _ _ _ Hx). by apply (Forall_lookup_1 _ _ _ _ Hw Hx).
  - rewrite (schedule_step n ws t) by lia. apply rol_range; [|lia].
    repeat apply lxor_wd; apply IH; lia.
Qed.

Lemma P_mod a b c d a' b' c' d' :
  u32 a = u32 a' -> u32 b = u32 b' -> u32 c = u32 c' -> u32 d = u32 d' -> P a b c d = P a' b' c' d'.
Proof. intros E1 E2 E3 E4. apply vec_ext. by rewrite !set_epi32_ok, E1, E2, E3, E4. Qed.

Definition packed (w : sha1_words) : m128i * m128i := (P (hA w) (hB w) (hC w) (hD w), P (hE w) 0 0 0).

Lemma hw_block_fips w blk :
  words_ok w -> length blk = 64%nat -> Forall is_byte blk -> hw_block (packed w) blk = packed (fips_block w blk).
Proof.
  intros Hw Hl Hb. set (W := schedule 64 (fips_words blk)).
  assert (Hfw : length (fips_words blk) = 16%nat) by (unfold fips_words; by rewrite length_map, length_seqZ).
  assert (Hr : forall t, (t < 80)%nat -> wd (W !!! t)).
  { intros t Ht. apply schedule_wd; [done| |lia]. unfold fips_words. apply Forall_map, Forall_forall.
    intros k Hk%elem_of_seqZ. apply be_dec_wd; [by apply slice_4; [|lia]|].
    unfold slice. by apply Forall_take, Forall_drop. }
  pose proof (hw_block_run W (fun t Ht => schedule_step 64 _ t Hfw ltac:(lia)) Hr w Hw blk) as E.
  change (Sv W w 0) with (P (hA w) (hB w) (hC w) (hD w)) in E. fold (packed w) in E.
  rewrite E by (intros k Hk; by apply load_swapped).
  change (state W w 20) with (foldl (fips_step W) w (seq 0 80)). unfold packed, fips_block. fold W.
  cbn [hA hB hC hD hE]. f_equal; apply P_mod; rewrite ?wrap_wrap; f_equal; lia.
Qed.

Lemma hw_loop_eq n buf w :
  words_ok w -> Forall is_byte buf ->
  compress_loop hw_block n buf (packed w) = rbind (compress_loop sha1_block n buf w) (fun r => Done (packed r)).
Proof.
  revert buf w. induction n as [|n IH]; intros buf w Hw Hb; [done|]. cbn [compress_loop].
  destruct (Nat.ltb_spec (length buf) 64) as [|Hl]; [done|].
  assert (Ht : length (take 64 buf) = 64%nat) by (rewrite length_take; lia).
  rewrite hw_block_fips, <- sha1_block_fips by (done || by apply Forall_take).
  apply IH; [apply sha1_block_ok|by apply Forall_drop].
Qed.

Lemma loop_words_ok n buf w r : words_ok w -> compress_loop sha1_block n buf w = Done r -> words_ok r.
Proof.
  revert buf w. induction n as [|n IH]; intros buf w Hw; cbn [compress_loop]; [by intros [= <-]|].
  destruct (length buf <? 64)%nat; [done|]. apply IH, sha1_block_ok.
Qed.

Lemma load_abcd w : words_ok w ->
  _mm_shuffle_epi32 (_mm_loadu_si128 (le_enc 4 (hA w) ++ le_enc 4 (hB w) ++ le_enc 4 (hC w) ++ le_enc 4 (hD w))) 0x1b
  = P (hA w) (hB w) (hC w) (hD w).
Proof.
  intros (Ha & Hb & Hc & Hd & _). apply vec_P. unfold dwords. rewrite !shuffle_epi32_ok by lia.
  unfold dword. rewrite loadu_ok; [|done|repeat (apply Forall_app; split); apply le_enc_bytes].
  assert (E : forall v, 0 <= v < 2 ^ 32 -> le_dec (le_enc 4 v) = v).
  { intros v Hv. rewrite le_dec_enc. by apply Z.mod_small. }
  rewrite <- (E (hA w)) at 5 by done. rewrite <- (E (hB w)) at 5 by done.
  rewrite <- (E (hC w)) at 5 by done. rewrite <- (E (hD w)) at 5 by done. done.
Qed.

Lemma store_abcd a b c d : wd a -> wd b -> wd c -> wd d ->
  let bs := _mm_storeu_si128 (_mm_shuffle_epi32 (P a b c d) 0x1b) in
  le_dec (slice bs 0 4) = a /\ le_dec (slice bs 4 4) = b /\ le_dec (slice bs 8 4) = c /\ le_dec (slice bs 12 4) = d.
Proof.
  intros Ha Hb Hc Hd bs. destruct (dword_P a b c d) as (E3 & E2 & E1 & E0); [done..|]. unfold bs.
  change (slice ?x 0 4) with (slice x (4 * 0) 4). change (slice ?x 4 4) with (slice x (4 * 1) 4).
  change (slice ?x 8 4) with (slice x (4 * 2) 4). change (slice ?x 12 4) with (slice x (4 * 3) 4).
  fold (dword (_mm_shuffle_epi32 (P a b c d) 0x1b) 0) (dword (_mm_shuffle_epi32 (P a b c d) 0x1b) 1)
    (dword (_mm_shuffle_epi32 (P a b c d) 0x1b) 2) (dword (_mm_shuffle_epi32 (P a b c d) 0x1b) 3).
  rewrite !shuffle_epi32_ok by lia. done.
Qed.

(** On whole blocks the two block functions agree. *)
Lemma hw_process_block_eq buf len k c :
  len = 64 * k -> words_ok (words c) -> Forall is_byte buf ->
  sha1_hw_process_block buf len c = sha1_process_block buf len c.
Proof.
  intros -> Hw Hb. unfold sha1_hw_process_block, sha1_process_block, process_block. cbv zeta.
  rewrite load_abcd by done. fold (packed (words c)). rewrite hw_loop_eq by done.
  replace ((64 * k + 63) / 64) with k by (Z.div_mod_to_equations; lia).
  replace ((64 * k / 4 + 15) / 16) with k by (Z.div_mod_to_equations; lia).
  destruct (compress_loop sha1_block _ _ _) as [r| |] eqn:E; [|done..]. cbn [rbind].
  destruct (loop_words_ok _ _ _ _ Hw E) as (A1 & A2 & A3 & A4 & A5). cbn [packed fst snd].
  destruct (store_abcd (hA r) (hB r) (hC r) (hD r)) as (-> & -> & -> & ->); [done..|].
  rewrite extract_epi32_ok by lia.
  destruct (dword_P (hE r) 0 0 0) as (-> & _); [done|by unfold wd..|]. by destruct r.
Qed.
End laws.

(** ** The two paths agree *)

Definition ctx_ok (c : sha1_ctx) : Prop := words_ok (words c) /\ Forall is_byte (buffer c).

(** Two computations are the same, and what they return satisfies [Q]. *)
Definition same {A} (Q : A -> Prop) (r r' : res A) : Prop := r = r' /\ forall a, r' = Done a -> Q a.

Lemma same_bind {A B} (P : A -> Prop) (Q : B -> Prop) (m m' : res A) (f f' : A -> res B) :
  same P m m' -> (forall a, P a -> same Q (f a) (f' a)) -> same Q (rbind m f) (rbind m' f').
Proof. intros [-> Hm] Hf. destruct m' as [a| |]; [by apply Hf, Hm|done..]. Qed.

Lemma same_done {A} (Q : A -> Prop) a : Q a -> same Q (Done a) (Done a).
Proof. intros HQ. split; [done|]. by intros ? [= <-]. Qed.

Lemma same_if {A} (Q : A -> Prop) (b : bool) (r1 r2 r1' r2' : res A) :
  (b = true -> same Q r1 r1') -> (b = false -> same Q r2 r2') ->
  same Q (if b then r1 else r2) (if b then r1' else r2').
Proof. destruct b; auto. Qed.

Lemma slice_bytes l p n : Forall is_byte l -> Forall is_byte (slice l p n).
Proof. intros. unfold slice. by apply Forall_take, Forall_drop. Qed.

Lemma same_blit b p bs :
  Forall is_byte b -> Forall is_byte bs -> same (Forall is_byte) (blit b p bs) (blit b p bs).
Proof.
  intros Hb Hs. split; [done|]. intros a. unfold blit. destruct (_ && _); [|done]. intros [= <-].
  apply Forall_app. split; [by apply Forall_take|]. apply Forall_app. split; [done|by apply Forall_drop].
Qed.

Section paths.
Context `{SseLaws}.

Lemma same_process buf len k c :
  len = 64 * k -> ctx_ok c -> Forall is_byte buf ->
  same ctx_ok (sha1_hw_process_block buf len c) (sha1_process_block buf len c).
Proof.
  intros Hk [Hw Hc] Hb. split; [by apply (hw_process_block_eq _ _ k)|]. intros a.
  unfold sha1_process_block, process_block. cbv zeta.
  destruct (compress_loop _ _ _ _) as [r| |] eqn:E; [|done..]. intros [= <-].
  split; [by apply (loop_words_ok _ _ _ _ Hw E)|done].
Qed.

(** What is left of the input, and the context. *)
Definition rest_ok (x : list Z * sha1_ctx) : Prop := Forall is_byte x.1 /\ ctx_ok x.2.

Lemma same_unaligned fuel buf c :
  Forall is_byte buf -> ctx_ok c -> same rest_ok (sha1_hw_unaligned fuel buf c) (sha1_unaligned fuel buf c).
Proof.
  revert buf c. induction fuel as [|fuel IH]; intros buf c Hb Hc; [by split|].
  cbn [sha1_hw_unaligned sha1_unaligned]. apply same_if; intros _; [|by apply same_done].
  eapply same_bind; [apply same_blit; [apply Hc|by apply Forall_take]|]. intros b Hbb.
  eapply same_bind; [apply (same_process _ _ 1); [done|split; [apply Hc|done]|done]|].
  intros c' Hc'. by apply IH; [apply Forall_drop|].
Qed.

Lemma not63 x : 0 <= x -> exists k, Z.land x (Z.lnot 63) = 64 * k.
Proof. intros. rewrite land_not63 by done. eauto. Qed.

Lemma same_fill buf c :
  Forall is_byte buf -> ctx_ok c -> same rest_ok (sha1_hw_fill buf c) (sha1_fill buf c).
Proof.
  intros Hb Hc. unfold sha1_hw_fill, sha1_fill. cbv zeta. cbn [words total0 total1 buflen buffer].
  set (add := if _ <? _ then _ else _).
  eapply same_bind; [apply same_blit; [apply Hc|by apply Forall_take]|]. intros b Hbb.
  destruct (not63 (u32 (buflen c + add))) as [k Hk]; [apply wrap_range; lia|].
  eapply (same_bind ctx_ok); [|intros c' Hc'; apply same_done; split; [by apply Forall_drop|done]].
  apply same_if; intros _; [|apply same_done; split; [apply Hc|done]].
  eapply same_bind; [apply (same_process _ _ k); [done|split; [apply Hc|done]|done]|]. intros c' [Hw' _].
  eapply same_bind; [apply same_blit; [done|by apply slice_bytes]|]. intros b' Hbb'. by apply same_done.
Qed.

Lemma same_keep buf c :
  Forall is_byte buf -> ctx_ok c -> same ctx_ok (sha1_hw_keep buf c) (sha1_keep buf c).
Proof.
  intros Hb Hc. unfold sha1_hw_keep, sha1_keep. cbv zeta.
  eapply same_bind; [apply same_blit; [apply Hc|done]|]. intros b Hbb.
  apply same_if; intros _; [|apply same_done; split; [apply Hc|done]].
  eapply same_bind; [apply (same_process _ _ 1); [done|split; [apply Hc|done]|done]|]. intros c' [Hw' _].
  eapply same_bind; [apply same_blit; [done|by apply slice_bytes]|]. intros b' Hbb'. by apply same_done.
Qed.

Lemma same_process_bytes un buf c :
  Forall is_byte buf -> ctx_ok c -> same ctx_ok (sha1_hw_process_bytes un buf c) (sha1_process_bytes un buf c).
Proof.
  intros Hb Hc. unfold sha1_hw_process_bytes, sha1_process_bytes.
  eapply (same_bind rest_ok).
  { apply same_if; intros _; [by apply same_done|by apply same_fill]. }
  intros [buf1 c1] [Hb1 Hc1]. cbn [fst snd] in *. cbv zeta. eapply (same_bind rest_ok).
  { apply same_if; intros _; [|by apply same_done]. apply same_if; intros _; [by apply same_unaligned|].
    destruct (not63 (Z.of_nat (length buf1))) as [k Hk]; [lia|].
    eapply same_bind; [by apply (same_process _ _ k)|]. intros c2 Hc2. apply same_done.
    split; [by apply Forall_drop|done]. }
  intros [buf2 c2] [Hb2 Hc2]. cbn [fst snd] in *. apply same_if; intros _; [by apply same_keep|by apply same_done].
Qed.

(** Successive calls of a chosen function, each with its alignment. *)
Fixpoint update_with (process : bool -> list Z -> sha1_ctx -> res sha1_ctx) (chunks : list (bool * list Z))
    (c : sha1_ctx) : res sha1_ctx :=
  match chunks with
  | [] => Done c
  | (un, buf) :: chunks => let? c := process un buf c in update_with process chunks c
  end.

Lemma update_with_eq hw cpuid chunks c :
  Forall is_byte (concat (map snd chunks)) -> ctx_ok c ->
  update_with (sha1_choose_process_bytes hw cpuid) chunks c = sha1_update_all chunks c.
Proof.
  revert c. induction chunks as [|[un buf] chunks IH]; intros c Hb Hc; [done|].
  cbn [update_with sha1_update_all map concat snd] in *. apply Forall_app in Hb as [Hb1 Hb2].
  destruct (same_process_bytes un buf c Hb1 Hc) as [E HQ].
  assert (E' : sha1_choose_process_bytes hw cpuid un buf c = sha1_process_bytes un buf c).
  { unfold sha1_choose_process_bytes. destruct hw; [|done]. destruct (cpuid 7) as [[ebx ?]|]; [|done].
    destruct (negb _); [|done]. destruct (cpuid 1) as [[? ecx]|]; [|done]. by destruct (negb _). }
  rewrite E'. destruct (sha1_process_bytes un buf c) as [c'| |]; [|done..]. cbn [rbind]. by apply IH; [|apply HQ].
Qed.

(** C25: Whatever path [sha1_choose_process_bytes] selects for the processor, the
    portable one or the one through the SHA instructions, hashing a message in
    any pieces at any alignment gives its FIPS 180 digest; and on whole blocks
    the vector code, which computes four rounds and four schedule words at a
    time, returns the very context the portable rounds return. *)
Theorem sha1_choose_correct (hw_support : bool) (cpuid : Z -> option (Z * Z)) (uninit : list Z)
    (chunks : list (bool * list Z)) (blocks : list Z) (k : Z) (c : sha1_ctx)
    (Hu : length uninit = 128%nat) (Hub : Forall is_byte uninit)
    (Hc : Forall (fun x => Z.of_nat (length x.2) < 2 ^ 32) chunks)
    (Hb : Forall is_byte (concat (map snd chunks)))
    (Hw : words_ok (words c)) (Hbl : Forall is_byte blocks) :
  (let? c := update_with (sha1_choose_process_bytes hw_support cpuid) chunks (sha1_init_ctx uninit) in
   sha1_finish_ctx c) = Done (fips_sha1 (concat (map snd chunks))) /\
  sha1_hw_process_block blocks (64 * k) c = sha1_process_block blocks (64 * k) c.
Proof.
  split; [|by apply (hw_process_block_eq _ _ k)].
  rewrite update_with_eq; [|done|by split].
  destruct (sha1_update_all_ok chunks [] _ Hc (sha1_init_absorbed _ Hu)) as (c' & -> & Ha).
  cbn [rbind]. by rewrite (sha1_finish_ok _ _ Ha Hb).
Qed.
End paths.

(** ** A concrete processor *)

Module Cpu.
Record v128 := V128 { v_bytes : list Z; v_ok : bool_decide (length v_bytes = 16%nat /\ Forall is_byte v_bytes) = true }.

Lemma enc16_ok v : bool_decide (length (le_enc 16 v) = 16%nat /\ Forall is_byte (le_enc 16 v)) = true.
Proof. apply bool_decide_eq_true. split; [apply length_le_enc|apply le_enc_bytes]. Qed.

Definition of_bytes (bs : list Z) : v128 := V128 (le_enc 16 (le_dec bs)) (enc16_ok _).

(** From four doublewords, highest first. *)
Definition of_dwords (a b c d : Z) : v128 :=
  of_bytes (le_enc 4 d ++ le_enc 4 c ++ le_enc 4 b ++ le_enc 4 a).

Definition dw (x : v128) (i : Z) : Z := le_dec (slice (v_bytes x) (4 * i) 4).

Definition map2 (f : Z -> Z -> Z) (x y : v128) : v128 :=
  of_dwords (f (dw x 3) (dw y 3)) (f (dw x 2) (dw y 2)) (f (dw x 1) (dw y 1)) (f (dw x 0) (dw y 0)).

Definition rounds4 (x y : v128) (imm : Z) : v128 :=
  let r := foldl (rnds_round imm) (Sha1Words (dw x 3) (dw x 2) (dw x 1) (dw x 0) 0)
             [dw y 3; dw y 2; dw y 1; dw y 0] in
  of_dwords (hA r) (hB r) (hC r) (hD r).

#[export] Instance sse : Sse := {|
  m128i := v128;
  _mm_loadu_si128 := of_bytes;
  _mm_storeu_si128 := v_bytes;
  _mm_set_epi64x hi lo := of_bytes (le_enc 8 lo ++ le_enc 8 hi);
  _mm_set_epi32 := of_dwords;
  _mm_extract_epi32 := dw;
  _mm_add_epi32 := map2 (fun a b => u32 (a + b));
  _mm_xor_si128 := map2 Z.lxor;
  _mm_shuffle_epi32 x imm :=
    of_dwords (dw x (Z.land (Z.shiftr imm 6) 3)) (dw x (Z.land (Z.shiftr imm 4) 3))
      (dw x (Z.land (Z.shiftr imm 2) 3)) (dw x (Z.land (Z.shiftr imm 0) 3));
  _mm_shuffle_epi8 x m :=
    of_bytes (map (fun c => if Z.testbit c 7 then 0 else v_bytes x !!! Z.to_nat (Z.land c 15)) (v_bytes m));
  _mm_sha1rnds4_epu32 := rounds4;
  _mm_sha1nexte_epu32 x y := of_dwords (u32 (dw y 3 + rol (dw x 3) 30)) (dw y 2) (dw y 1) (dw y 0);
  _mm_sha1msg1_epu32 x y :=
    of_dwords (Z.lxor (dw x 1) (dw x 3)) (Z.lxor (dw x 0) (dw x 2)) (Z.lxor (dw y 3) (dw x 1))
      (Z.lxor (dw y 2) (dw x 0));
  _mm_sha1msg2_epu32 x y :=
    let w16 := rol (Z.lxor (dw x 3) (dw y 2)) 1 in
    of_dwords w16 (rol (Z.lxor (dw x 2) (dw y 1)) 1) (rol (Z.lxor (dw x 1) (dw y 0)) 1)
      (rol (Z.lxor (dw x 0) w16) 1)
|}.

Lemma v_ok' x : length (v_bytes x) = 16%nat /\ Forall is_byte (v_bytes x).
Proof. exact (proj1 (bool_decide_eq_true _) (v_ok x)). Qed.

Lemma of_bytes_id bs : length bs = 16%nat -> Forall is_byte bs -> v_bytes (of_bytes bs) = bs.
Proof. intros Hl Hb. cbn [of_bytes v_bytes]. rewrite <- Hl. by apply le_enc_dec. Qed.

Lemma dw_of_dwords a b c d :
  dw (of_dwords a b c d) 3 = u32 a /\ dw (of_dwords a b c d) 2 = u32 b /\
  dw (of_dwords a b c d) 1 = u32 c /\ dw (of_dwords a b c d) 0 = u32 d.
Proof.
  unfold dw, of_dwords.
  rewrite of_bytes_id; [|by rewrite !length_app, !length_le_enc|repeat (apply Forall_app; split); apply le_enc_bytes].
  assert (E : forall v, u32 v = le_dec (le_enc 4 v)) by (intros v; by rewrite le_dec_enc).
  rewrite !E. done.
Qed.

Lemma dw_range x i : 0 <= i < 4 -> wd (dw x i).
Proof.
  intros Hi. destruct (v_ok' x) as [Hl Hb]. unfold dw, wd.
  assert (Hs : length (slice (v_bytes x) (4 * i) 4) = 4%nat).
  { unfold slice. rewrite length_take, length_drop. lia. }
  pose proof (le_dec_bound (slice (v_bytes x) (4 * i) 4)) as Hd. rewrite Hs in Hd. by apply Hd, slice_bytes.
Qed.

Lemma dwords_of a b c d : wd a -> wd b -> wd c -> wd d -> dwords (H := sse) (of_dwords a b c d) = [a; b; c; d].
Proof.
  intros Ha Hb Hc Hd. unfold dwords. change (dword (H := sse)) with dw.
  destruct (dw_of_dwords a b c d) as (-> & -> & -> & ->). unfold wd in *. by rewrite !u32_small.
Qed.

Lemma dword_of a b c d i : wd a -> wd b -> wd c -> wd d -> 0 <= i < 4 ->
  dword (H := sse) (of_dwords a b c d) i = (if i =? 3 then a else if i =? 2 then b else if i =? 1 then c else d).
Proof.
  intros Ha Hb Hc Hd Hi. pose proof (dwords_of a b c d Ha Hb Hc Hd) as E. injection E as E3 E2 E1 E0.
  assert (i = 0 \/ i = 1 \/ i = 2 \/ i = 3) as [->|[->|[->| ->]]] by lia; done.
Qed.

Lemma foldl_round_ok imm s ws : words_ok s -> words_ok (foldl (rnds_round imm) s ws).
Proof.
  revert s. induction ws as [|v ws IH]; intros s Hs; [done|]. cbn [foldl]. apply IH.
  destruct Hs as (Ha & Hb & Hc & Hd & He). unfold rnds_round, words_ok. cbn [hA hB hC hD hE].
  split_and!; try (apply wrap_range; lia); try done; try (apply rol_range; [done|lia]).
  all: try lia. all: apply rol_range; [done|lia].
Qed.

#[export] Instance sse_laws : SseLaws (H := sse).
Proof.
  assert (W4 : forall x, wd (dw x 3) /\ wd (dw x 2) /\ wd (dw x 1) /\ wd (dw x 0))
    by (intros x; split_and!; apply dw_range; lia).
  split.
  - exact v_ok'.
  - intros [l Hl] [l' Hl'] E. cbn in E. subst l'. f_equal. apply proof_irrel.
  - exact of_bytes_id.
  - intros hi lo. apply of_bytes_id; [by rewrite length_app, !length_le_enc|apply Forall_app; split; apply le_enc_bytes].
  - intros a b c d. unfold dwords. change (dword (H := sse)) with dw.
    change (_mm_set_epi32 a b c d) with (of_dwords a b c d).
    by destruct (dw_of_dwords a b c d) as (-> & -> & -> & ->).
  - done.
  - intros x y i Hi.
    change (_mm_add_epi32 x y) with (map2 (fun a b => u32 (a + b)) x y). unfold map2.
    rewrite dword_of by (done || (apply wrap_range; lia)).
    assert (i = 0 \/ i = 1 \/ i = 2 \/ i = 3) as [->|[->|[->| ->]]] by lia; done.
  - intros x y i Hi. destruct (W4 x) as (? & ? & ? & ?), (W4 y) as (? & ? & ? & ?).
    change (_mm_xor_si128 x y) with (map2 Z.lxor x y). unfold map2. rewrite dword_of by (done || by apply lxor_wd).
    assert (i = 0 \/ i = 1 \/ i = 2 \/ i = 3) as [->|[->|[->| ->]]] by lia; done.
  - intros x imm i Hi. cbn [_mm_shuffle_epi32 sse].
    assert (Hs : forall k, wd (dw x (Z.land (Z.shiftr imm k) 3))).
    { intros k. apply dw_range. change 3 with (Z.ones 2). rewrite Z.land_ones by lia. apply Z.mod_pos_bound. lia. }
    rewrite dword_of by (done || apply Hs).
    assert (i = 0 \/ i = 1 \/ i = 2 \/ i = 3) as [->|[->|[->| ->]]] by lia; done.
  - intros x m i Hi. cbn [_mm_shuffle_epi8 _mm_storeu_si128 sse]. destruct (v_ok' x) as [Hl Hb], (v_ok' m) as [Hml _].
    rewrite of_bytes_id.
    + rewrite list_lookup_fmap. destruct (lookup_lt_is_Some_2 (v_bytes m) i ltac:(lia)) as [c Hc].
      by rewrite Hc, (list_lookup_total_correct _ _ _ Hc).
    + by rewrite length_map.
    + apply Forall_map, Forall_true. intros c. destruct (Z.testbit c 7); [by unfold is_byte|].
      assert (Hr : 0 <= Z.land c 15 < 16).
      { change 15 with (Z.ones 4). rewrite Z.land_ones by lia. apply Z.mod_pos_bound. lia. }
      destruct (lookup_lt_is_Some_2 (v_bytes x) (Z.to_nat (Z.land c 15)) ltac:(lia)) as [b Hxb].
      rewrite (list_lookup_total_correct _ _ _ Hxb). by apply (Forall_lookup_1 _ _ _ _ Hb Hxb).
  - intros x y imm Himm r. destruct (W4 x) as (? & ? & ? & ?).
    assert (Hs : words_ok (Sha1Words (dw x 3) (dw x 2) (dw x 1) (dw x 0) 0)).
    { unfold words_ok, wd in *. cbn [hA hB hC hD hE]. lia. }
    apply dwords_of; by apply (foldl_round_ok imm _ (dwords y)) in Hs as (? & ? & ? & ? & ?).
  - intros x y. destruct (W4 x) as (? & ? & ? & ?), (W4 y) as (? & ? & ? & ?).
    apply dwords_of; [apply wrap_range; lia|done..].
  - intros x y. destruct (W4 x) as (? & ? & ? & ?), (W4 y) as (? & ? & ? & ?). apply dwords_of; by apply lxor_wd.
  - intros x y w16. destruct (W4 x) as (? & ? & ? & ?), (W4 y) as (? & ? & ? & ?).
    assert (wd w16) by (apply rol_range; [by apply lxor_wd|lia]).
    apply dwords_of; [done|apply rol_range; [by apply lxor_wd|lia]..].
Qed.
End Cpu.

(** "abc" on a processor with SSE4.1 and the SHA instructions. *)
Lemma sha1_choose_correct_witness :
  let cpuid leaf := if leaf =? 7 then Some (0x20000000, 0) else Some (0, 0x80000) in
  sha1_choose_process_bytes (H := Cpu.sse) true cpuid = sha1_hw_process_bytes (H := Cpu.sse) /\
  (let? c := update_with (sha1_choose_process_bytes (H := Cpu.sse) true cpuid) [(true, [97]); (false, [98; 99])]
               (sha1_init_ctx (replicate 128 7)) in sha1_finish_ctx c) =
  Done [169; 153; 62; 54; 71; 6; 129; 106; 186; 62; 37; 113; 120; 80; 194; 108; 156; 208; 216; 157].
Proof.
  split; [reflexivity|].
  destruct (@sha1_choose_correct Cpu.sse Cpu.sse_laws true (fun leaf => if leaf =? 7 then Some (0x20000000, 0) else Some (0, 0x80000))
    (replicate 128 7) [(true, [97]); (false, [98; 99])] [] 0 (sha1_init_ctx [])) as [-> _];
    [done|by apply Forall_replicate|by repeat constructor|by repeat constructor|by repeat split|by constructor|by vm_compute].
Defined.
