(* ===== verification/SplayTree.v ===== *)
(** The splay trees of [libiberty/splay-tree.c] and [include/splay-tree.h], on
    a heap of nodes, against sorted association lists. *)
From stdpp Require Import sorting.
From S2P Require Import Prelude Bytes.

(** ** The source *)

(** [struct splay_tree_node_s]; a pointer to a node is its address, 0 is
    NULL. *)
Record node := Nd { key : Z; value : Z; left : Z; right : Z }.

Section source.
(** What the client's functions work on. *)
Context {Cl : Type}.

(** [struct splay_tree_s] without its root. An allocator chooses an address
    from the size, its data and the heap, or ends the process ([None]). *)
Record splay_fns := SplayFns {
  comp : Z -> Z -> Z;
  delete_key : option (Z -> Cl -> Cl);
  delete_value : option (Z -> Cl -> Cl);
  allocate : Z -> Z -> gmap Z node -> option Z;
  allocate_data : Z }.

(** The root ([None] when the tree structure is freed), the nodes that are
    allocated, the client's state. *)
Record world := World { root : option Z; nodes : gmap Z node; cl : Cl }.

Definition get_root : St world Z := fun w => match root w with Some r => Done (r, w) | None => Undef end.

(** What [p] points at, and the assignments to its fields. *)
Definition ld (p : Z) : St world node := fun w =>
  match nodes w !! p with Some n => Done (n, w) | None => Undef end.

Definition st (p : Z) (f : node -> node) : St world unit := fun w =>
  match nodes w !! p with
  | Some n => Done (tt, World (root w) (<[p := f n]> (nodes w)) (cl w))
  | None => Undef
  end.

Definition set_key (k : Z) (n : node) : node := Nd k (value n) (left n) (right n).
Definition set_value (v : Z) (n : node) : node := Nd (key n) v (left n) (right n).
Definition set_left (l : Z) (n : node) : node := Nd (key n) (value n) l (right n).
Definition set_right (r : Z) (n : node) : node := Nd (key n) (value n) (left n) r.

Definition set_root (r : Z) : St world unit := fun w =>
  match root w with Some _ => Done (tt, World (Some r) (nodes w) (cl w)) | None => Undef end.

(** [sp->deallocate] of [p]: freeing what is not allocated is undefined. *)
Definition dealloc (p : Z) : St world unit := fun w =>
  match nodes w !! p with
  | Some _ => Done (tt, World (root w) (delete p (nodes w)) (cl w))
  | None => Undef
  end.

(** KDEL and VDEL. *)
Definition call (f : option (Z -> Cl -> Cl)) (x : Z) : St world unit :=
  match f with
  | Some f => modify (fun w => World (root w) (nodes w) (f x (cl w)))
  | None => ret tt
  end.

(** What a pointer to a [splay_tree_node] points at. *)
Inductive place := RootP | LeftP (n : Z) | RightP (n : Z).

Definition store_place (pp : place) (n : Z) : St world unit :=
  match pp with
  | RootP => set_root n
  | LeftP p => st p (set_left n)
  | RightP p => st p (set_right n)
  end.

Definition rotate_left (pp : place) (p n : Z) : St world unit :=
  nd <- ld n ;;
  let tmp := right nd in
  st n (set_right p) ;;;
  st p (set_left tmp) ;;;
  store_place pp n.

Definition rotate_right (pp : place) (p n : Z) : St world unit :=
  nd <- ld n ;;
  let tmp := left nd in
  st n (set_left p) ;;;
  st p (set_right tmp) ;;;
  store_place pp n.

Section tree.
Context (sp : splay_fns).

(** One turn of the loop of [splay_tree_splay]. *)
Definition splay_turn (k : Z) : St world (ctl unit unit) :=
  n <- get_root ;;
  nd <- ld n ;;
  let cmp1 := comp sp k (key nd) in
  if cmp1 =? 0 then ret (Exit tt) else
  let c := if cmp1 <? 0 then left nd else right nd in
  if c =? 0 then ret (Exit tt) else
  cd <- ld c ;;
  let cmp2 := comp sp k (key cd) in
  if (cmp2 =? 0) || ((cmp2 <? 0) && (left cd =? 0)) || ((0 <? cmp2) && (right cd =? 0)) then
    (if cmp1 <? 0 then rotate_left RootP n c else rotate_right RootP n c) ;;; ret (Exit tt)
  else if (cmp1 <? 0) && (cmp2 <? 0) then
    rotate_left (LeftP n) c (left cd) ;;;
    nd <- ld n ;; rotate_left RootP n (left nd) ;;; ret (Next tt)
  else if (0 <? cmp1) && (0 <? cmp2) then
    rotate_right (RightP n) c (right cd) ;;;
    nd <- ld n ;; rotate_right RootP n (right nd) ;;; ret (Next tt)
  else if (cmp1 <? 0) && (0 <? cmp2) then
    rotate_right (LeftP n) c (right cd) ;;;
    nd <- ld n ;; rotate_left RootP n (left nd) ;;; ret (Next tt)
  else if (0 <? cmp1) && (cmp2 <? 0) then
    rotate_left (RightP n) c (left cd) ;;;
    nd <- ld n ;; rotate_right RootP n (right nd) ;;; ret (Next tt)
  else ret (Next tt).

Definition splay_tree_splay (fuel : nat) (k : Z) : St world unit :=
  r <- get_root ;;
  if r =? 0 then ret tt else cloop fuel (fun _ => splay_turn k) tt.

(** [sizeof] of a node and of a tree. *)
Definition SIZEOF_NODE : Z := 32.
Definition SIZEOF_TREE : Z := 56.

Definition alloc_node : St world (option Z) := fun w =>
  match allocate sp SIZEOF_NODE (allocate_data sp) (nodes w) with
  | Some p => Done (Some p, World (root w) (<[p := Nd 0 0 0 0]> (nodes w)) (cl w))
  | None => Done (None, w)
  end.

Definition splay_tree_insert (fuel : nat) (k v : Z) : St world (option Z) :=
  splay_tree_splay fuel k ;;;
  r <- get_root ;;
  comparison <- (if r =? 0 then ret 0 else rd <- ld r ;; ret (comp sp (key rd) k)) ;;
  if negb (r =? 0) && (comparison =? 0) then
    rd <- ld r ;;
    call (delete_key sp) (key rd) ;;;
    call (delete_value sp) (value rd) ;;;
    st r (set_key k) ;;;
    st r (set_value v) ;;;
    ret (Some r)
  else
    node <-? alloc_node ;;
    st node (set_key k) ;;;
    st node (set_value v) ;;;
    (if r =? 0 then
       st node (set_right 0) ;;; st node (set_left 0)
     else if comparison <? 0 then
       st node (set_left r) ;;;
       rd <- ld r ;;
       st node (set_right (right rd)) ;;;
       st r (set_right 0)
     else
       st node (set_right r) ;;;
       rd <- ld r ;;
       st node (set_left (left rd)) ;;;
       st r (set_left 0)) ;;;
    set_root node ;;;
    ret (Some node).

(** [while (n->right) n = n->right], and its mirror image. *)
Definition rightmost (fuel : nat) (n : Z) : St world Z :=
  cloop fuel (fun n => nd <- ld n ;; ret (if right nd =? 0 then Exit n else Next (right nd))) n.

Definition leftmost (fuel : nat) (n : Z) : St world Z :=
  cloop fuel (fun n => nd <- ld n ;; ret (if left nd =? 0 then Exit n else Next (left nd))) n.

Definition splay_tree_remove (fuel : nat) (k : Z) : St world unit :=
  splay_tree_splay fuel k ;;;
  r <- get_root ;;
  if r =? 0 then ret tt else
  rd <- ld r ;;
  if comp sp (key rd) k =? 0 then
    call (delete_key sp) (key rd) ;;;
    call (delete_value sp) (value rd) ;;;
    dealloc r ;;;
    if negb (left rd =? 0) then
      set_root (left rd) ;;;
      if negb (right rd =? 0) then
        m <- rightmost fuel (left rd) ;;
        st m (set_right (right rd))
      else ret tt
    else set_root (right rd)
  else ret tt.

Definition splay_tree_lookup (fuel : nat) (k : Z) : St world Z :=
  splay_tree_splay fuel k ;;;
  r <- get_root ;;
  if r =? 0 then ret 0 else
  rd <- ld r ;;
  ret (if comp sp (key rd) k =? 0 then r else 0).

Definition splay_tree_max (fuel : nat) : St world Z :=
  n <- get_root ;; if n =? 0 then ret 0 else rightmost fuel n.

Definition splay_tree_min (fuel : nat) : St world Z :=
  n <- get_root ;; if n =? 0 then ret 0 else leftmost fuel n.

Definition splay_tree_predecessor (fuel : nat) (k : Z) : St world Z :=
  r <- get_root ;;
  if r =? 0 then ret 0 else
  splay_tree_splay fuel k ;;;
  r <- get_root ;;
  rd <- ld r ;;
  let comparison := comp sp (key rd) k in
  if comparison <? 0 then ret r
  else if left rd =? 0 then ret (left rd) else rightmost fuel (left rd).

Definition splay_tree_successor (fuel : nat) (k : Z) : St world Z :=
  r <- get_root ;;
  if r =? 0 then ret 0 else
  splay_tree_splay fuel k ;;;
  r <- get_root ;;
  rd <- ld r ;;
  let comparison := comp sp (key rd) k in
  if 0 <? comparison then ret r
  else if right rd =? 0 then ret (right rd) else leftmost fuel (right rd).
End tree.

(** *** Traversal *)

(** Whether [xmalloc] and [xrealloc] get a block of this size. *)
Context (xmalloc_ok : Z -> bool).

Definition INITIAL_STACK_SIZE : Z := 100.

(** [while (node != NULL)]: the stack, first element on top, and the entries
    its array has room for. *)
Definition push_turn (s : Z * list Z * Z) : St world (ctl (Z * list Z * Z) (option (list Z * Z))) :=
  let '(node, stack, stack_size) := s in
  if node =? 0 then ret (Exit (Some (stack, stack_size))) else
  let full := Z.of_nat (length stack) =? stack_size in
  if full && negb (stack_size * 2 <? 2147483648) then undef else
  let stack_size := if full then stack_size * 2 else stack_size in
  if full && negb (xmalloc_ok (8 * stack_size)) then ret (Exit None) else
  if negb (Z.of_nat (length stack) <? stack_size) then undef else
  nd <- ld node ;;
  ret (Next (left nd, node :: stack, stack_size)).

(** [fn] gets the address, key and value of a node. *)
Definition visit (fn : Z -> Z -> Z -> Cl -> Z * Cl) (p : Z) : St world Z :=
  nd <- ld p ;;
  fun w => let '(val, c) := fn p (key nd) (value nd) (cl w) in Done (val, World (root w) (nodes w) c).

Definition each_turn (fuel : nat) (fn : Z -> Z -> Z -> Cl -> Z * Cl) (s : Z * list Z * Z)
  : St world (ctl (Z * list Z * Z) (option Z)) :=
  r <- cloop fuel push_turn s ;;
  match r with
  | None => ret (Exit None)
  | Some ([], _) => ret (Exit (Some 0))
  | Some (node :: stack, stack_size) =>
      val <- visit fn node ;;
      if negb (val =? 0) then ret (Exit (Some val)) else
      nd <- ld node ;;
      ret (Next (right nd, stack, stack_size))
  end.

Definition splay_tree_foreach_helper (fuel : nat) (node : Z) (fn : Z -> Z -> Z -> Cl -> Z * Cl)
  : St world (option Z) :=
  if xmalloc_ok (8 * INITIAL_STACK_SIZE) then cloop fuel (each_turn fuel fn) (node, [], INITIAL_STACK_SIZE)
  else ret None.

Definition splay_tree_foreach (fuel : nat) (fn : Z -> Z -> Z -> Cl -> Z * Cl) : St world (option Z) :=
  r <- get_root ;; splay_tree_foreach_helper fuel r fn.

(** *** Creation and deletion *)

(** A tree starts without nodes; the structure itself is not followed beyond
    whether it is allocated. *)
Definition splay_tree_new_typed_alloc (compare_fn : Z -> Z -> Z) (delete_key_fn delete_value_fn : option (Z -> Cl -> Cl))
    (tree_allocate_fn node_allocate_fn : Z -> Z -> gmap Z node -> option Z) (allocate_data : Z) (c : Cl)
  : option (splay_fns * world) :=
  match tree_allocate_fn SIZEOF_TREE allocate_data ∅ with
  | Some _ => Some (SplayFns compare_fn delete_key_fn delete_value_fn node_allocate_fn allocate_data,
                    World (Some 0) ∅ c)
  | None => None
  end.

Definition splay_tree_new_with_allocator compare_fn delete_key_fn delete_value_fn allocate_fn allocate_data :=
  splay_tree_new_typed_alloc compare_fn delete_key_fn delete_value_fn allocate_fn allocate_fn allocate_data.

(** [malloc_at]: the address [malloc] chooses. *)
Definition splay_tree_xmalloc_allocate (malloc_at : gmap Z node -> Z) (size data : Z) (h : gmap Z node) : option Z :=
  if xmalloc_ok size then Some (malloc_at h) else None.

Definition splay_tree_new malloc_at compare_fn delete_key_fn delete_value_fn :=
  splay_tree_new_with_allocator compare_fn delete_key_fn delete_value_fn (splay_tree_xmalloc_allocate malloc_at) 0.

(** Queue a child: its key and value are disposed of, and its key becomes the
    link to the rest of the pending nodes. *)
Definition queue (sp : splay_fns) (p pending : Z) : St world Z :=
  nd <- ld p ;;
  call (delete_key sp) (key nd) ;;;
  call (delete_value sp) (value nd) ;;;
  st p (set_key pending) ;;;
  ret p.

(** [while (active)]: the result is the pending list. *)
Definition free_turn (sp : splay_fns) (s : Z * Z) : St world (ctl (Z * Z) Z) :=
  let '(active, pending) := s in
  if active =? 0 then ret (Exit pending) else
  nd <- ld active ;;
  pending <- (if negb (left nd =? 0) then queue sp (left nd) pending else ret pending) ;;
  pending <- (if negb (right nd =? 0) then queue sp (right nd) pending else ret pending) ;;
  nd <- ld active ;;
  dealloc active ;;;
  ret (Next (key nd, pending)).

Definition splay_tree_delete_helper (sp : splay_fns) (fuel : nat) (node : Z) : St world unit :=
  if node =? 0 then ret tt else
  pending <- queue sp node 0 ;;
  cloop fuel (fun pending =>
    if pending =? 0 then ret (Exit tt)
    else pending <- cloop fuel (free_turn sp) (pending, 0) ;; ret (Next pending)) pending.

Definition splay_tree_delete (sp : splay_fns) (fuel : nat) : St world unit :=
  r <- get_root ;;
  splay_tree_delete_helper sp fuel r ;;;
  modify (fun w => World None (nodes w) (cl w)).

(** *** Functions for the client *)

Definition splay_tree_compare_ints (k1 k2 : Z) : Z :=
  if i32 k1 <? i32 k2 then -1 else if i32 k2 <? i32 k1 then 1 else 0.

Definition splay_tree_compare_pointers (k1 k2 : Z) : Z :=
  if k1 <? k2 then -1 else if k2 <? k1 then 1 else 0.

(** [strcmp]: the difference of the first characters that differ, of which
    only the sign counts. *)
Fixpoint strcmp (s1 s2 : list Z) : Z :=
  match s1, s2 with
  | [], [] => 0
  | [], c2 :: _ => - c2
  | c1 :: _, [] => c1
  | c1 :: s1, c2 :: s2 => if c1 =? c2 then strcmp s1 s2 else c1 - c2
  end.

(** [str_at]: the string a key points at. *)
Definition splay_tree_compare_strings (str_at : Z -> list Z) (k1 k2 : Z) : Z := strcmp (str_at k1) (str_at k2).
End source.
Arguments splay_fns : clear implicits.
Arguments world : clear implicits.

(** ** Trees *)

Inductive tree := Leaf | Node (l : tree) (a k v : Z) (r : tree).

#[export] Instance tree_eq_dec : EqDecision tree.
Proof. solve_decision. Defined.

Definition ptr (t : tree) : Z := match t with Leaf => 0 | Node _ a _ _ _ => a end.

(** A node as its client knows it: its address, its key and its value. *)
Abbreviation item := (Z * (Z * Z))%type.

Fixpoint items (t : tree) : list item :=
  match t with Leaf => [] | Node l a k v r => items l ++ (a, (k, v)) :: items r end.

Fixpoint addrs (t : tree) : list Z :=
  match t with Leaf => [] | Node l a _ _ r => addrs l ++ a :: addrs r end.

Fixpoint size (t : tree) : nat :=
  match t with Leaf => O | Node l _ _ _ r => S (size l + size r) end.

Lemma addrs_items t : addrs t = (items t).*1.
Proof. induction t as [|l IHl a k v r IHr]; [done|]. cbn. by rewrite IHl, IHr, fmap_app. Qed.

Lemma size_items t : size t = length (items t).
Proof. induction t as [|l IHl a k v r IHr]; [done|]. cbn. rewrite length_app. cbn. lia. Qed.

(** The nodes of [t] at their places. *)
Fixpoint tree_at (h : gmap Z node) (t : tree) : Prop :=
  match t with
  | Leaf => True
  | Node l a k v r => a <> 0 /\ h !! a = Some (Nd k v (ptr l) (ptr r)) /\ tree_at h l /\ tree_at h r
  end.

(** No node is in two places, and there are no others. *)
Record heap_ok (h : gmap Z node) (t : tree) : Prop := HeapOk {
  ok_at : tree_at h t;
  ok_nodup : NoDup (addrs t);
  ok_dom : forall a, a ∈ dom h <-> a ∈ addrs t }.

Lemma tree_at_insert h t a n : tree_at h t -> a ∉ addrs t -> tree_at (<[a := n]> h) t.
Proof.
  induction t as [|l IHl b k v r IHr]; [done|]. cbn. intros (Hb & Eb & Hl & Hr) Ha.
  rewrite elem_of_app, elem_of_cons in Ha. rewrite lookup_insert_ne by set_solver. split_and!; [done..|apply IHl|apply IHr]; tauto.
Qed.

Lemma tree_at_delete h t a : tree_at h t -> a ∉ addrs t -> tree_at (delete a h) t.
Proof.
  induction t as [|l IHl b k v r IHr]; [done|]. cbn. intros (Hb & Eb & Hl & Hr) Ha.
  rewrite elem_of_app, elem_of_cons in Ha. rewrite lookup_delete_ne by set_solver. split_and!; [done..|apply IHl|apply IHr]; tauto.
Qed.

Lemma tree_at_dom h t a : tree_at h t -> a ∈ addrs t -> a <> 0 /\ is_Some (h !! a).
Proof.
  induction t as [|l IHl b k v r IHr]; cbn; [by intros _ ?%elem_of_nil|].
  intros (Hb & Eb & Hl & Hr). rewrite elem_of_app, elem_of_cons. intros [H|[->|H]]; eauto.
Qed.

Lemma ptr_leaf h t : tree_at h t -> ptr t = 0 -> t = Leaf.
Proof. destruct t as [|l a k v r]; [done|]. cbn. by intros (? & _) ?. Qed.

Lemma nodup_node l a k v r :
  NoDup (addrs (Node l a k v r)) <->
  NoDup (addrs l) /\ NoDup (addrs r) /\ a ∉ addrs l /\ a ∉ addrs r /\ addrs l ## addrs r.
Proof.
  cbn. rewrite NoDup_app, NoDup_cons. split.
  - intros (Hl & Hd & Ha & Hr). split_and!; [done..| |done|].
    + intros H. apply (Hd a H). by left.
    + intros x H1 H2. apply (Hd x H1). by right.
  - intros (Hl & Hr & Ha & Hb & Hd). split_and!; [done| |done..].
    intros x H1 [->|H2]%elem_of_cons; [done|]. by apply (Hd x).
Qed.

(** ** Rules for the accesses *)

Section rules.
Context {Cl : Type}.
Implicit Types (h : gmap Z node) (c : Cl).

Lemma wp_get_root (Q : Z -> world Cl -> Prop) r h c : Q r (World (Some r) h c) -> wp get_root Q (World (Some r) h c).
Proof. done. Qed.

Lemma wp_set_root (Q : unit -> world Cl -> Prop) r r' h c :
  Q tt (World (Some r') h c) -> wp (set_root r') Q (World (Some r) h c).
Proof. done. Qed.

Lemma wp_ld_node (Q : node -> world Cl -> Prop) p n r h c :
  h !! p = Some n -> Q n (World r h c) -> wp (ld p) Q (World r h c).
Proof. intros E. unfold wp, ld. cbn [nodes]. by rewrite E. Qed.

Lemma wp_st_node (Q : unit -> world Cl -> Prop) p n f r h c :
  h !! p = Some n -> Q tt (World r (<[p := f n]> h) c) -> wp (st p f) Q (World r h c).
Proof. intros E. unfold wp, st. cbn [nodes root cl]. by rewrite E. Qed.

Lemma wp_dealloc (Q : unit -> world Cl -> Prop) p n r h c :
  h !! p = Some n -> Q tt (World r (delete p h) c) -> wp (dealloc p) Q (World r h c).
Proof. intros E. unfold wp, dealloc. cbn [nodes root cl]. by rewrite E. Qed.
End rules.

(** Find what is at an address. *)
Ltac find_node :=
  lazymatch goal with
  | |- <[_ := _]> _ !! _ = _ =>
      first [rewrite lookup_insert_eq; reflexivity | rewrite lookup_insert_ne by congruence; find_node]
  | _ => eassumption
  end.

(** Run straight-line accesses. *)
Ltac reduce := cbn [left right key value set_left set_right set_key set_value ptr store_place].

Ltac run_one :=
  lazymatch goal with
  | |- wp (bind _ _) _ _ => apply wp_bind
  | |- wp get_root _ _ => apply wp_get_root
  | |- wp (set_root _) _ _ => apply wp_set_root
  | |- wp (ld _) _ _ => eapply wp_ld_node; [find_node|]
  | |- wp (st _ _) _ _ => eapply wp_st_node; [find_node|]
  | |- wp (rotate_left _ _ _) _ _ => unfold rotate_left
  | |- wp (rotate_right _ _ _) _ _ => unfold rotate_right
  | |- wp (ret _) _ _ => apply wp_ret
  end.

Ltac run := reduce; repeat (run_one; reduce).

(** Decide the comparisons whose sign is known, or make a case of one. *)
Ltac signs :=
  repeat match goal with
  | H : ?c < 0 |- context [?c =? 0] => rewrite (proj2 (Z.eqb_neq c 0)) by lia
  | H : ?c < 0 |- context [?c <? 0] => rewrite (proj2 (Z.ltb_lt c 0)) by lia
  | H : ?c < 0 |- context [0 <? ?c] => rewrite (proj2 (Z.ltb_ge 0 c)) by lia
  | H : ?c = 0 |- context [?c =? 0] => rewrite (proj2 (Z.eqb_eq c 0)) by lia
  | H : ?c = 0 |- context [?c <? 0] => rewrite (proj2 (Z.ltb_ge c 0)) by lia
  | H : ?c = 0 |- context [0 <? ?c] => rewrite (proj2 (Z.ltb_ge 0 c)) by lia
  | H : 0 < ?c |- context [?c =? 0] => rewrite (proj2 (Z.eqb_neq c 0)) by lia
  | H : 0 < ?c |- context [?c <? 0] => rewrite (proj2 (Z.ltb_ge c 0)) by lia
  | H : 0 < ?c |- context [0 <? ?c] => rewrite (proj2 (Z.ltb_lt 0 c)) by lia
  | H : ?c <> 0 |- context [?c =? 0] => rewrite (proj2 (Z.eqb_neq c 0) H)
  | |- context [0 =? 0] => change (0 =? 0) with true
  end;
  cbn [andb orb negb].

Ltac exec := repeat (progress (run; signs)).

Ltac sign c := destruct (Z.lt_total c 0) as [?|[?|?]]; signs.

(** ** One turn of a splay *)

Section compare.
Context (cmp : Z -> Z -> Z).

(** The tree a turn leaves, and whether there is another turn. *)
Definition turn (x : Z) (t : tree) : tree * bool :=
  match t with
  | Leaf => (t, false)
  | Node l a k v r =>
      if cmp x k =? 0 then (t, false)
      else if cmp x k <? 0 then
        match l with
        | Leaf => (t, false)
        | Node ll b kb vb lr =>
            let up := (Node ll b kb vb (Node lr a k v r), false) in
            if cmp x kb =? 0 then up
            else if cmp x kb <? 0 then
              match ll with
              | Leaf => up
              | Node m e ke ve n => (Node m e ke ve (Node (Node n b kb vb lr) a k v r), true)
              end
            else
              match lr with
              | Leaf => up
              | Node m e ke ve n => (Node (Node ll b kb vb m) e ke ve (Node n a k v r), true)
              end
        end
      else
        match r with
        | Leaf => (t, false)
        | Node rl b kb vb rr =>
            let up := (Node (Node l a k v rl) b kb vb rr, false) in
            if cmp x kb =? 0 then up
            else if 0 <? cmp x kb then
              match rr with
              | Leaf => up
              | Node m e ke ve n => (Node (Node l a k v (Node rl b kb vb m)) e ke ve n, true)
              end
            else
              match rl with
              | Leaf => up
              | Node m e ke ve n => (Node (Node l a k v m) e ke ve (Node n b kb vb rr), true)
              end
        end
  end.

Lemma turn_items x t : items (turn x t).1 = items t.
Proof.
  destruct t as [|l a k v r]; [done|]. cbn. destruct (cmp x k =? 0); [done|]. destruct (cmp x k <? 0).
  - destruct l as [|ll b kb vb lr]; [done|]. destruct (cmp x kb =? 0).
    { cbn. by rewrite <- app_assoc. }
    destruct (cmp x kb <? 0); [destruct ll|destruct lr]; cbn; by rewrite <- ?app_assoc, <- ?app_comm_cons, <- ?app_assoc.
  - destruct r as [|rl b kb vb rr]; [done|]. destruct (cmp x kb =? 0).
    { cbn. by rewrite <- app_assoc. }
    destruct (0 <? cmp x kb); [destruct rr|destruct rl]; cbn; by rewrite <- ?app_assoc, <- ?app_comm_cons, <- ?app_assoc.
Qed.

(** The nodes on the way to [x]. *)
Fixpoint path (x : Z) (t : tree) : nat :=
  match t with
  | Leaf => O
  | Node l _ k _ r => S (if cmp x k =? 0 then O else if cmp x k <? 0 then path x l else path x r)
  end.

(** Whether the first two steps go the same way. *)
Definition straight (x : Z) (t : tree) : nat :=
  match t with
  | Leaf => 0
  | Node l _ k _ r =>
      if cmp x k <? 0
      then match l with Leaf => 0 | Node _ _ kb _ _ => if cmp x kb <? 0 then 1 else 0 end
      else match r with Leaf => 0 | Node _ _ kb _ _ => if 0 <? cmp x kb then 1 else 0 end
  end.

Definition variant (x : Z) (t : tree) : nat := 2 * path x t + straight x t.

Lemma path_size x t : (path x t <= size t)%nat.
Proof. induction t as [|l IHl a k v r IHr]; cbn; [done|]. repeat case_match; lia. Qed.

Lemma straight_le x t : (straight x t <= 1)%nat.
Proof. unfold straight. repeat case_match; lia. Qed.

Lemma variant_size x t : (variant x t <= 2 * size t + 1)%nat.
Proof. unfold variant. pose proof (path_size x t). pose proof (straight_le x t). lia. Qed.

Lemma turn_variant x t : (turn x t).2 = true -> (variant x (turn x t).1 < variant x t)%nat.
Proof.
  unfold variant. destruct t as [|l a k v r]; [done|]. cbn [turn]. sign (cmp x k); [|done|].
  - destruct l as [|ll b kb vb lr]; [done|]. sign (cmp x kb); [destruct ll as [|m e ke ve n]|done|destruct lr as [|m e ke ve n]];
      try done; intros _; cbn [fst path straight]; signs; sign (cmp x ke);
      repeat case_match; lia.
  - destruct r as [|rl b kb vb rr]; [done|]. sign (cmp x kb); [destruct rl as [|m e ke ve n]|done|destruct rr as [|m e ke ve n]];
      try done; intros _; cbn [fst path straight]; signs; sign (cmp x ke);
      repeat case_match; lia.
Qed.

(** *** Order *)

(** What the client's comparison function promises: [values as for qsort]. *)
Class CompLaws := {
  cmp_antisym : forall x y, Z.sgn (cmp y x) = - Z.sgn (cmp x y);
  cmp_trans : forall x y z, cmp x y < 0 -> cmp y z < 0 -> cmp x z < 0;
  cmp_cong : forall x y z, cmp x y = 0 -> Z.sgn (cmp x z) = Z.sgn (cmp y z) }.

Definition precedes (p q : item) : Prop := cmp p.2.1 q.2.1 < 0.

(** The nodes before [x] and after [x]. *)
Definition below (x : Z) (p : item) : Prop := 0 < cmp x p.2.1.
Definition above (x : Z) (p : item) : Prop := cmp x p.2.1 < 0.

Abbreviation ordered := (StronglySorted precedes).

Lemma ordered_app (L1 L2 : list item) :
  ordered (L1 ++ L2) <-> ordered L1 /\ ordered L2 /\ (forall p q, p ∈ L1 -> q ∈ L2 -> precedes p q).
Proof. rewrite StronglySorted_app. tauto. Qed.

Lemma ordered_cons p (L : list item) : ordered (p :: L) <-> Forall (precedes p) L /\ ordered L.
Proof. split; [intros [? ?]%StronglySorted_inv; done|intros [? ?]; by constructor]. Qed.

(** At the end of a splay of [x] no node lies between [x] and the root. *)
Definition near (x : Z) (t : tree) : Prop :=
  match t with
  | Leaf => True
  | Node l _ k _ r =>
      cmp x k = 0 \/ (cmp x k < 0 /\ Forall (below x) (items l)) \/ (0 < cmp x k /\ Forall (above x) (items r))
  end.

Context {laws : CompLaws}.

Lemma cmp_neg x y : cmp x y < 0 <-> 0 < cmp y x.
Proof. pose proof (cmp_antisym x y). lia. Qed.

Lemma cmp_zero x y : cmp x y = 0 <-> cmp y x = 0.
Proof. pose proof (cmp_antisym x y). lia. Qed.

Lemma above_trans x p q : above x p -> precedes p q -> above x q.
Proof. apply cmp_trans. Qed.

Lemma below_trans x p q : below x q -> precedes p q -> below x p.
Proof. unfold below, precedes. rewrite <- !cmp_neg. intros H1 H2. eapply cmp_trans; eauto. Qed.

Lemma above_root x l a k v r : ordered (items (Node l a k v r)) -> cmp x k < 0 -> Forall (above x) ((a, (k, v)) :: items r).
Proof.
  cbn. rewrite ordered_app, ordered_cons. intros (_ & [Hr _] & _) H. constructor; [done|].
  eapply Forall_impl; [exact Hr|]. intros p. by apply above_trans.
Qed.

Lemma below_root x l a k v r : ordered (items (Node l a k v r)) -> 0 < cmp x k -> Forall (below x) (items l ++ [(a, (k, v))]).
Proof.
  cbn. rewrite ordered_app. intros (_ & _ & Hl) H. apply Forall_app; split; [|by constructor].
  apply Forall_forall. intros p Hp. apply (below_trans x p (a, (k, v))); [done|]. apply Hl; set_solver.
Qed.

Lemma turn_near x t : ordered (items t) -> (turn x t).2 = false -> near x (turn x t).1.
Proof.
  destruct t as [|l a k v r]; [done|]. intros Ho. cbn [turn]. sign (cmp x k); intros Hn.
  - destruct l as [|ll b kb vb lr]; [right; left; by split; [|constructor]|].
    pose proof (above_root _ _ _ _ _ _ Ho ltac:(eassumption)) as Ha.
    revert Hn. sign (cmp x kb); intros Hn.
    + destruct ll; [|done]. right; left. by split; [|constructor].
    + by left.
    + destruct lr; [|done]. right; right. by split.
  - by left.
  - destruct r as [|rl b kb vb rr]; [right; right; by split; [|constructor]|].
    pose proof (below_root _ _ _ _ _ _ Ho ltac:(eassumption)) as Ha.
    revert Hn. sign (cmp x kb); intros Hn.
    + destruct rl; [|done]. right; left. by split.
    + by left.
    + destruct rr; [|done]. right; right. by split; [|constructor].
Qed.

(** The nodes of a tree against [x]: those before, the one with an equal key,
    those after. *)
Definition locate (x : Z) (L lo : list item) (e : option item) (hi : list item) : Prop :=
  L = lo ++ option_list e ++ hi /\ Forall (below x) lo
  /\ (forall p, e = Some p -> cmp x p.2.1 = 0) /\ Forall (above x) hi.

Lemma near_locate x l a k v r :
  ordered (items (Node l a k v r)) -> near x (Node l a k v r) ->
  (cmp k x = 0 /\ locate x (items (Node l a k v r)) (items l) (Some (a, (k, v))) (items r))
  \/ (0 < cmp k x /\ locate x (items (Node l a k v r)) (items l) None ((a, (k, v)) :: items r))
  \/ (cmp k x < 0 /\ locate x (items (Node l a k v r)) (items l ++ [(a, (k, v))]) None (items r)).
Proof.
  intros Ho [E|[[Hlt Hl]|[Hlt Hr]]].
  - left. split; [by apply cmp_zero|]. revert Ho. cbn. rewrite ordered_app, ordered_cons. intros (Hol & [Hpr Hor] & Hx).
    split_and!; [done| |by intros p [= <-]|].
    + apply Forall_forall. intros p Hp. specialize (Hx p (a, (k, v)) Hp ltac:(set_solver)).
      unfold below, precedes in *. cbn in *. pose proof (cmp_cong x k p.2.1 E). rewrite cmp_neg in Hx. lia.
    + eapply Forall_impl; [exact Hpr|]. intros p Hp. unfold above, precedes in *. cbn in *.
      pose proof (cmp_cong x k p.2.1 E). lia.
  - right; left. split; [by apply cmp_neg|]. split_and!; [done..|by apply (above_root x l)].
  - right; right. split; [by apply cmp_neg|]. split_and!; [cbn; by rewrite <- app_assoc|by apply (below_root x l a k v r)|done..].
Qed.
End compare.

(** ** The heap follows the trees *)

Abbreviation ordered cmp := (StronglySorted (precedes cmp)).

Section heap.
Context {Cl : Type} (sp : splay_fns Cl).
Implicit Types (h : gmap Z node) (c : Cl).

(** The world of a tree. *)
Record Rep (w : world Cl) (t : tree) : Prop := RepI {
  rep_root : root w = Some (ptr t);
  rep_heap : heap_ok (nodes w) t }.

Lemma heap_ok_same h h' t t' :
  heap_ok h t -> items t' = items t -> (forall a, a ∈ dom h' <-> a ∈ dom h) -> tree_at h' t' -> heap_ok h' t'.
Proof.
  intros [_ Hn Hd] Hi He Ht. rewrite addrs_items, <- Hi, <- addrs_items in Hn.
  split; [done..|]. intros a. rewrite He, Hd, !addrs_items. by rewrite Hi.
Qed.

(** A subtree is untouched by stores elsewhere. *)
Ltac framed := repeat first [assumption | apply tree_at_insert].

Lemma not_in_node b l a k v r : b ∉ addrs (Node l a k v r) <-> b ∉ addrs l /\ b <> a /\ b ∉ addrs r.
Proof. cbn. set_solver. Qed.

Lemma disjoint_node (X : list Z) l a k v r :
  addrs (Node l a k v r) ## X <-> addrs l ## X /\ a ∉ X /\ addrs r ## X.
Proof. cbn. set_solver. Qed.

Lemma disjoint_node_r (X : list Z) l a k v r :
  X ## addrs (Node l a k v r) <-> X ## addrs l /\ a ∉ X /\ X ## addrs r.
Proof. cbn. set_solver. Qed.

Ltac fresh_nodes :=
  repeat match goal with
  | H : NoDup (addrs (Node _ _ _ _ _)) |- _ => apply nodup_node in H as (? & ? & ? & ? & ?)
  | H : _ ∉ addrs (Node _ _ _ _ _) |- _ => apply not_in_node in H as (? & ? & ?)
  | H : addrs (Node _ _ _ _ _) ## _ |- _ => apply disjoint_node in H as (? & ? & ?)
  | H : _ ## addrs (Node _ _ _ _ _) |- _ => apply disjoint_node_r in H as (? & ? & ?)
  end.

Ltac turned :=
  eexists; split; [reflexivity|]; split; [|reflexivity];
  eapply heap_ok_same; [eassumption|assumption| |];
  [intros ?; rewrite !dom_insert_lookup_L by (eexists; find_node); reflexivity|];
  fresh_nodes; cbn; simplify_map_eq; split_and!; try done; framed.

Ltac grandchild H Eb a b e :=
  cbn in H; destruct H as (? & ? & ? & ?); cbn [ptr] in Eb;
  assert (a <> e /\ b <> e) as [??] by (fresh_nodes; split; congruence); exec; turned.

Lemma splay_turn_wp x t h c :
  heap_ok h t -> t <> Leaf ->
  wp (splay_turn sp x) (fun s w' => exists h', w' = World (Some (ptr (turn (comp sp) x t).1)) h' c
    /\ heap_ok h' (turn (comp sp) x t).1
    /\ s = if (turn (comp sp) x t).2 then Next tt else Exit tt) (World (Some (ptr t)) h c).
Proof.
  intros Hok Ht. pose proof (turn_items (comp sp) x t) as Hi. pose proof (ok_at _ _ Hok) as Hat.
  pose proof (ok_nodup _ _ Hok) as Hnd.
  destruct t as [|l a k v r]; [done|]. cbn in Hat. destruct Hat as (Ha & Ea & Hl & Hr). unfold splay_turn. run.
  revert Hi. cbn [turn]. sign (comp sp x k); [|intros _; exec; by exists h|].
  - destruct l as [|ll b kb vb lr]; [intros _; exec; by exists h|].
    cbn in Hl. destruct Hl as (Hb & Eb & Hll & Hlr). cbn [ptr] in Ea.
    assert (a <> b) by (fresh_nodes; congruence).
    sign (comp sp x kb); [destruct ll as [|m e ke ve n]| |destruct lr as [|m e ke ve n]]; intros Hi; exec.
    + cbn. turned.
    + grandchild Hll Eb a b e.
    + cbn. turned.
    + cbn. turned.
    + grandchild Hlr Eb a b e.
  - destruct r as [|rl b kb vb rr]; [intros _; exec; by exists h|].
    cbn in Hr. destruct Hr as (Hb & Eb & Hrl & Hrr). cbn [ptr] in Ea.
    assert (a <> b) by (fresh_nodes; congruence).
    sign (comp sp x kb); [destruct rl as [|m e ke ve n]| |destruct rr as [|m e ke ve n]]; intros Hi; exec.
    + cbn. turned.
    + grandchild Hrl Eb a b e.
    + cbn. turned.
    + cbn. turned.
    + grandchild Hrr Eb a b e.
Qed.

Context {laws : CompLaws (comp sp)}.

Lemma splay_wp fuel x t h c :
  heap_ok h t -> ordered (comp sp) (items t) -> (2 * size t + 2 <= fuel)%nat ->
  wp (splay_tree_splay sp fuel x) (fun _ w' => exists h' t', w' = World (Some (ptr t')) h' c
    /\ heap_ok h' t' /\ items t' = items t /\ near (comp sp) x t') (World (Some (ptr t)) h c).
Proof.
  intros Hok Ho Hf. unfold splay_tree_splay. run. destruct (Z.eqb_spec (ptr t) 0) as [E|E].
  { apply (ptr_leaf h) in E as ->; [|apply Hok]. exec. by exists h, Leaf. }
  assert (Hv : (variant (comp sp) x t < fuel)%nat) by (pose proof (variant_size (comp sp) x t); lia).
  assert (Hne : t <> Leaf) by (by intros ->). clear E Hf. revert t h Hok Ho Hv Hne.
  induction fuel as [|fuel IH]; intros t h Hok Ho Hv Hne; [lia|]. cbn [cloop]. apply wp_bind.
  eapply wp_mono; [apply splay_turn_wp; done|]. intros s w' (h' & -> & Hok' & ->).
  pose proof (turn_items (comp sp) x t) as Hi. pose proof (turn_variant (comp sp) x t) as Hd.
  pose proof (turn_near (comp sp) x t Ho) as Hn. destruct (turn (comp sp) x t) as [t' []]; cbn [fst snd] in *.
  - eapply wp_mono.
    + apply IH; [done|by rewrite Hi|by specialize (Hd eq_refl); lia|].
      intros ->. destruct t; [done|]. cbn in Hi. by apply app_cons_not_nil in Hi.
    + intros [] w2 (h2 & t2 & -> & ? & Hi2 & ?). exists h2, t2. by rewrite Hi2, Hi.
  - run. exists h', t'. auto.
Qed.

(** A splay of [x] brings a node next to [x], if there is one, to the root. *)
Definition at_root (x : Z) (c : Cl) (L : list item) (w : world Cl) : Prop :=
  (exists h, w = World (Some 0) h c /\ heap_ok h Leaf /\ L = []) \/
  exists l a k v r h, w = World (Some a) h c /\ heap_ok h (Node l a k v r) /\ L = items (Node l a k v r) /\ a <> 0
    /\ h !! a = Some (Nd k v (ptr l) (ptr r)) /\
    ((comp sp k x = 0 /\ locate (comp sp) x L (items l) (Some (a, (k, v))) (items r))
     \/ (0 < comp sp k x /\ locate (comp sp) x L (items l) None ((a, (k, v)) :: items r))
     \/ (comp sp k x < 0 /\ locate (comp sp) x L (items l ++ [(a, (k, v))]) None (items r))).

Lemma splay_at_root fuel x t h c :
  heap_ok h t -> ordered (comp sp) (items t) -> (2 * size t + 2 <= fuel)%nat ->
  wp (splay_tree_splay sp fuel x) (fun _ => at_root x c (items t)) (World (Some (ptr t)) h c).
Proof.
  intros Hok Ho Hf. eapply wp_mono; [by apply splay_wp|]. intros [] w' (h' & t' & -> & Hok' & Hi & Hn).
  destruct t' as [|l a k v r]; [left; by exists h'|right].
  pose proof (ok_at _ _ Hok') as Hat. cbn in Hat. destruct Hat as (Ha & Ea & _).
  exists l, a, k, v, r, h'. rewrite <- Hi. rewrite <- Hi in Ho. split_and!; [done..|]. by apply near_locate.
Qed.

(** *** The last and the first node *)

Definition addr_of (p : option item) : Z := match p with Some (a, _) => a | None => 0 end.

Lemma items_nil t : items t = [] -> t = Leaf.
Proof. destruct t as [|l a k v r]; [done|]. cbn. by intros ?%eq_sym%app_cons_not_nil. Qed.

Lemma last_node l a k v r : r <> Leaf -> last (items (Node l a k v r)) = last (items r).
Proof.
  intros Hr. cbn. rewrite last_app, last_cons. destruct (last (items r)) eqn:E; [done|].
  by apply last_None, items_nil in E.
Qed.

Lemma head_node l a k v r : l <> Leaf -> head (items (Node l a k v r)) = head (items l).
Proof. intros Hl. cbn. destruct (items l) eqn:E; [|done]. by apply items_nil in E. Qed.

Lemma rightmost_wp fuel t r h c :
  tree_at h t -> t <> Leaf -> (size t < fuel)%nat ->
  wp (rightmost fuel (ptr t)) (fun n w' => n = addr_of (last (items t)) /\ w' = World r h c) (World r h c).
Proof.
  revert t. unfold rightmost. induction fuel as [|fuel IH]; intros t Ht Hne Hf; [lia|]. cbn [cloop].
  destruct t as [|l a k v rt]; [done|]. cbn in Ht, Hf. destruct Ht as (Ha & Ea & Hl & Hr). run.
  destruct (Z.eqb_spec (ptr rt) 0) as [E|E].
  - apply (ptr_leaf h) in E as ->; [|done]. run. split; [|done]. cbn. by rewrite last_snoc.
  - assert (rt <> Leaf) by (by intros ->). rewrite last_node by done. apply IH; [done..|lia].
Qed.

Lemma leftmost_wp fuel t r h c :
  tree_at h t -> t <> Leaf -> (size t < fuel)%nat ->
  wp (leftmost fuel (ptr t)) (fun n w' => n = addr_of (head (items t)) /\ w' = World r h c) (World r h c).
Proof.
  revert t. unfold leftmost. induction fuel as [|fuel IH]; intros t Ht Hne Hf; [lia|]. cbn [cloop].
  destruct t as [|l a k v rt]; [done|]. cbn in Ht, Hf. destruct Ht as (Ha & Ea & Hl & Hr). run.
  destruct (Z.eqb_spec (ptr l) 0) as [E|E].
  - apply (ptr_leaf h) in E as ->; [|done]. by run.
  - assert (l <> Leaf) by (by intros ->). rewrite head_node by done. apply IH; [done..|lia].
Qed.

(** *** Operations *)

(** The tree holds the nodes of [L] in this order, the client's state is [c]. *)
Definition holds (L : list item) (c : Cl) (w : world Cl) : Prop :=
  exists t h, w = World (Some (ptr t)) h c /\ heap_ok h t /\ items t = L /\ ordered (comp sp) L.

Context (fuel : nat).

Lemma at_root_holds x c L w : ordered (comp sp) L -> at_root x c L w -> holds L c w.
Proof.
  intros Ho [(h & -> & Hok & ->)|(l & a & k & v & r & h & -> & Hok & -> & _)].
  - by exists Leaf, h.
  - by exists (Node l a k v r), h.
Qed.

Lemma splay_holds x L c w :
  holds L c w -> (2 * length L + 2 <= fuel)%nat -> wp (splay_tree_splay sp fuel x) (fun _ => at_root x c L) w.
Proof. intros (t & h & -> & Hok & <- & Ho) Hf. rewrite <- size_items in Hf. by apply splay_at_root. Qed.

Lemma locate_nil x : locate (comp sp) x [] [] None [].
Proof. by split_and!. Qed.

Ltac splayed :=
  apply wp_bind; eapply wp_mono; [by apply splay_holds|]; intros [] w' Hw;
  pose proof (at_root_holds _ _ _ _ ltac:(eassumption) Hw) as Hh;
  destruct Hw as [(h & -> & Hok & ->)|(l & a & k & v & r & h & -> & Hok & -> & Ha & Ea & Hx)].

Lemma lookup_wp x L c w :
  holds L c w -> (2 * length L + 2 <= fuel)%nat ->
  wp (splay_tree_lookup sp fuel x) (fun n w' => holds L c w' /\
    exists lo e hi, locate (comp sp) x L lo e hi /\ n = addr_of e) w.
Proof.
  intros HL Hf. assert (Ho : ordered (comp sp) L) by (by destruct HL as (? & ? & _ & _ & <- & ?)).
  unfold splay_tree_lookup. splayed; exec.
  - split; [done|]. exists [], None, []. by split; [apply locate_nil|].
  - destruct Hx as [[E Hx]|[[E Hx]|[E Hx]]]; exec; (split; [done|]); eauto 6.
Qed.

Lemma max_wp L c w :
  holds L c w -> (2 * length L + 2 <= fuel)%nat ->
  wp (splay_tree_max fuel) (fun n w' => holds L c w' /\ n = addr_of (last L)) w.
Proof.
  intros HL Hf. pose proof HL as (t & h & -> & Hok & <- & Ho). unfold splay_tree_max. run.
  destruct (Z.eqb_spec (ptr t) 0) as [E|E].
  - apply (ptr_leaf h) in E as ->; [|apply Hok]. by run.
  - rewrite <- size_items in Hf. eapply wp_mono; [apply rightmost_wp; [apply Hok|by intros ->|lia]|].
    by intros n w' [-> ->].
Qed.

Lemma min_wp L c w :
  holds L c w -> (2 * length L + 2 <= fuel)%nat ->
  wp (splay_tree_min fuel) (fun n w' => holds L c w' /\ n = addr_of (head L)) w.
Proof.
  intros HL Hf. pose proof HL as (t & h & -> & Hok & <- & Ho). unfold splay_tree_min. run.
  destruct (Z.eqb_spec (ptr t) 0) as [E|E].
  - apply (ptr_leaf h) in E as ->; [|apply Hok]. by run.
  - rewrite <- size_items in Hf. eapply wp_mono; [apply leftmost_wp; [apply Hok|by intros ->|lia]|].
    by intros n w' [-> ->].
Qed.

Lemma predecessor_wp x L c w :
  holds L c w -> (2 * length L + 2 <= fuel)%nat ->
  wp (splay_tree_predecessor sp fuel x) (fun n w' => holds L c w' /\
    exists lo e hi, locate (comp sp) x L lo e hi /\ n = addr_of (last lo)) w.
Proof.
  intros HL Hf. assert (Ho : ordered (comp sp) L) by (by destruct HL as (? & ? & _ & _ & <- & ?)).
  unfold splay_tree_predecessor. pose proof HL as (t & h0 & Ew & Hok0 & Hi & _). rewrite Ew. run. rewrite <- Ew.
  destruct (Z.eqb_spec (ptr t) 0) as [E|E].
  { apply (ptr_leaf h0) in E as ->; [|apply Hok0]. cbn in Hi. subst L. run. split; [done|].
    exists [], None, []. by split; [apply locate_nil|]. }
  splayed; exec.
  { apply items_nil in Hi as ->. done. }
  destruct Hx as [[E1 Hx]|[[E1 Hx]|[E1 Hx]]]; exec.
  3: { split; [done|]. eexists _, _, _. split; [exact Hx|]. by rewrite last_snoc. }
  all: destruct (Z.eqb_spec (ptr l) 0) as [El|El].
  all: (pose proof (ok_at _ _ Hok) as Hat; cbn in Hat; destruct Hat as (_ & _ & Hl & _)).
  all: (try (apply (ptr_leaf h) in El as ->; [|done]; run; split; [done|]; eexists _, _, _; by split; [exact Hx|])).
  all: (cbn in Hf; rewrite length_app in Hf; pose proof (size_items l);
        eapply wp_mono; [apply rightmost_wp; [done|by intros ->|lia]|];
        intros n w' [-> ->]; split; [done|]; eauto).
Qed.

Lemma successor_wp x L c w :
  holds L c w -> (2 * length L + 2 <= fuel)%nat ->
  wp (splay_tree_successor sp fuel x) (fun n w' => holds L c w' /\
    exists lo e hi, locate (comp sp) x L lo e hi /\ n = addr_of (head hi)) w.
Proof.
  intros HL Hf. assert (Ho : ordered (comp sp) L) by (by destruct HL as (? & ? & _ & _ & <- & ?)).
  unfold splay_tree_successor. pose proof HL as (t & h0 & Ew & Hok0 & Hi & _). rewrite Ew. run. rewrite <- Ew.
  destruct (Z.eqb_spec (ptr t) 0) as [E|E].
  { apply (ptr_leaf h0) in E as ->; [|apply Hok0]. cbn in Hi. subst L. run. split; [done|].
    exists [], None, []. by split; [apply locate_nil|]. }
  splayed; exec.
  { apply items_nil in Hi as ->. done. }
  destruct Hx as [[E1 Hx]|[[E1 Hx]|[E1 Hx]]]; exec.
  2: { split; [done|]. eexists _, _, _. by split; [exact Hx|]. }
  all: destruct (Z.eqb_spec (ptr r) 0) as [El|El].
  all: (pose proof (ok_at _ _ Hok) as Hat; cbn in Hat; destruct Hat as (_ & _ & _ & Hr)).
  all: (try (apply (ptr_leaf h) in El as ->; [|done]; run; split; [done|]; eexists _, _, _; by split; [exact Hx|])).
  all: (cbn in Hf; rewrite length_app in Hf; cbn in Hf; pose proof (size_items r);
        eapply wp_mono; [apply leftmost_wp; [done|by intros ->|lia]|];
        intros n w' [-> ->]; split; [done|]; eauto).
Qed.

(** KDEL and VDEL of a key and its value. *)
Definition dispose (kv : Z * Z) (c : Cl) : Cl :=
  let c := match delete_key sp with Some f => f kv.1 c | None => c end in
  match delete_value sp with Some f => f kv.2 c | None => c end.

Lemma wp_dispose {A} (f : unit -> St (world Cl) A) Q k v r h c :
  wp (f tt) Q (World r h (dispose (k, v) c)) ->
  wp (call (delete_key sp) k) (fun _ w' => wp (bind (call (delete_value sp) v) f) Q w') (World r h c).
Proof.
  unfold dispose, call. intros HQ.
  destruct (delete_key sp); cbn [fst snd] in *;
    destruct (delete_value sp); exact HQ.
Qed.

(** What the allocator promises: "never return zero", and new memory. *)
Class AllocLaws := {
  alloc_fresh : forall h p, allocate sp SIZEOF_NODE (allocate_data sp) h = Some p -> p <> 0 /\ h !! p = None }.

Context (xmalloc_ok : Z -> bool).

(** A request that the allocator does not meet ends the process. *)
Definition refused : Prop :=
  (exists n, xmalloc_ok n = false) \/ exists h, allocate sp SIZEOF_NODE (allocate_data sp) h = None.

Definition unless_refused {A} (Q : A -> world Cl -> Prop) (r : option A) (w' : world Cl) : Prop :=
  match r with Some a => Q a w' | None => refused end.

Lemma locate_app x L lo e hi : locate (comp sp) x L lo e hi -> L = lo ++ option_list e ++ hi.
Proof. by intros [? _]. Qed.

(** A node with the key [x] fits between those before and those after. *)
Lemma locate_ordered x L lo e hi a k v :
  ordered (comp sp) L -> locate (comp sp) x L lo e hi -> comp sp x k = 0 ->
  ordered (comp sp) (lo ++ (a, (k, v)) :: hi).
Proof.
  intros Ho (-> & Hlo & _ & Hhi) E. rewrite !ordered_app in Ho. destruct Ho as (H1 & (_ & H3 & _) & H4).
  rewrite ordered_app, ordered_cons. rewrite Forall_forall in Hlo, Hhi. split_and!; [done| |done|].
  - apply Forall_forall. intros p Hp. specialize (Hhi p Hp). unfold precedes, above in *. cbn.
    pose proof (cmp_cong (comp sp) x k p.2.1 E). lia.
  - assert (Hk : forall p, p ∈ lo -> comp sp p.2.1 k < 0).
    { intros p Hp. specialize (Hlo p Hp). unfold below in Hlo.
      pose proof (cmp_cong (comp sp) x k p.2.1 E). apply (cmp_neg (comp sp)). lia. }
    intros p q Hp [->|Hq]%elem_of_cons; [by apply Hk|]. apply H4; [done|]. set_solver.
Qed.

Lemma alloc_wp {B} (f : Z -> St (world Cl) (option B)) Q r h c :
  AllocLaws ->
  (forall p, p <> 0 -> h !! p = None -> wp (f p) (unless_refused Q) (World r (<[p := Nd 0 0 0 0]> h) c)) ->
  wp (obind (alloc_node sp) f) (unless_refused Q) (World r h c).
Proof.
  intros Hal Hf. unfold obind. apply wp_bind. unfold wp at 1, alloc_node. cbn [nodes root cl].
  destruct (allocate sp SIZEOF_NODE (allocate_data sp) h) as [p|] eqn:E.
  - destruct (alloc_fresh h p E). by apply Hf.
  - apply wp_ret. right. by exists h.
Qed.

Lemma heap_ok_new h h' t t' a k v :
  heap_ok h t -> h !! a = None -> items t' ≡ₚ (a, (k, v)) :: items t ->
  (forall b, b ∈ dom h' <-> b = a \/ b ∈ dom h) -> tree_at h' t' -> heap_ok h' t'.
Proof.
  intros [_ Hn Hd] Ha Hi Hdom Ht.
  assert (Hp : addrs t' ≡ₚ a :: addrs t) by (by rewrite !addrs_items, Hi).
  split; [done| |].
  - rewrite Hp. apply NoDup_cons. split; [|done]. rewrite <- Hd. by apply not_elem_of_dom.
  - intros b. rewrite Hdom, Hp, elem_of_cons, <- Hd. done.
Qed.

Lemma heap_ok_fresh h t a : heap_ok h t -> h !! a = None -> a ∉ addrs t.
Proof. intros [_ _ Hd] Ha. rewrite <- Hd. by apply not_elem_of_dom. Qed.

Definition insert_spec (x v : Z) (L : list item) (c : Cl) (n : Z) (L' : list item) (c' : Cl) : Prop :=
  exists lo e hi, locate (comp sp) x L lo e hi /\ L' = lo ++ (n, (x, v)) :: hi /\
    match e with
    | Some (a, old) => n = a /\ c' = dispose old c
    | None => n <> 0 /\ n ∉ L.*1 /\ c' = c
    end.

Lemma cmp_refl x : comp sp x x = 0.
Proof. pose proof (cmp_antisym (comp sp) x x). lia. Qed.

(** What is left when the new tree is in place. *)
Lemma inserted x v L c n t' h' lo e hi c' :
  ordered (comp sp) L -> locate (comp sp) x L lo e hi -> heap_ok h' t' -> items t' = lo ++ (n, (x, v)) :: hi ->
  match e with
  | Some (a, old) => n = a /\ c' = dispose old c
  | None => n <> 0 /\ n ∉ L.*1 /\ c' = c
  end ->
  exists L2 c2, holds L2 c2 (World (Some (ptr t')) h' c') /\ insert_spec x v L c n L2 c2.
Proof.
  intros Ho Hx Hok Hi He. exists (lo ++ (n, (x, v)) :: hi), c'. split.
  - exists t', h'. split_and!; [done..|]. eapply locate_ordered; [done..|apply cmp_refl].
  - exists lo, e, hi. auto.
Qed.

Ltac new_node p :=
  apply alloc_wp; [done|]; intros p Hp0 Hp; exec.

Ltac in_place := first [reflexivity | assumption | find_node | framed].

Lemma splay_insert_wp x y L c w :
  AllocLaws -> holds L c w -> (2 * length L + 2 <= fuel)%nat ->
  wp (splay_tree_insert sp fuel x y) (unless_refused (fun n w' => exists L' c', holds L' c' w' /\ insert_spec x y L c n L' c')) w.
Proof.
  intros Hal HL Hf. assert (Ho : ordered (comp sp) L) by (by destruct HL as (? & ? & _ & _ & <- & ?)).
  unfold splay_tree_insert. splayed; clear HL Hh w; exec.
  - new_node p. apply (inserted x y [] c p (Node Leaf p x y Leaf) _ [] None []); [done|apply locate_nil| |done|].
    + eapply heap_ok_new; [exact Hok|exact Hp|cbn; reflexivity| |].
      * intros b. rewrite !dom_insert. set_solver.
      * cbn. split_and!; try done. find_node.
    + split_and!; [done|set_solver|done].
  - pose proof (ok_at _ _ Hok) as Hat. cbn in Hat. destruct Hat as (_ & _ & Hl & Hr).
    pose proof (ok_nodup _ _ Hok) as Hnd. destruct Hx as [[E Hx]|[[E Hx]|[E Hx]]]; exec.
    + apply wp_dispose. exec.
      eapply (inserted x y _ c a (Node l a x y r)); [exact Ho|exact Hx| |done|done].
      fresh_nodes. split.
      * cbn. split_and!; [done|find_node|framed..].
      * by apply nodup_node.
      * intros b. rewrite !dom_insert_lookup_L by (eexists; find_node). apply Hok.
    + new_node p. pose proof (heap_ok_fresh _ _ _ Hok Hp) as Hpf. fresh_nodes.
      eapply (inserted x y _ c p (Node l p x y (Node Leaf a k v r))); [exact Ho|exact Hx| |done|].
      * eapply heap_ok_new; [exact Hok|exact Hp|cbn; by rewrite <- Permutation_middle| |].
        -- intros b. rewrite !dom_insert. apply elem_of_dom_2 in Ea. set_solver.
        -- cbn. split_and!; [done|find_node|framed|done|find_node|done|framed].
      * split_and!; [done|by rewrite <- addrs_items, not_in_node|done].
    + new_node p. pose proof (heap_ok_fresh _ _ _ Hok Hp) as Hpf. fresh_nodes.
      eapply (inserted x y _ c p (Node (Node l a k v Leaf) p x y r)); [exact Ho|exact Hx| |done|].
      * eapply heap_ok_new; [exact Hok|exact Hp|cbn; rewrite <- Permutation_middle; by rewrite <- app_assoc| |].
        -- intros b. rewrite !dom_insert. apply elem_of_dom_2 in Ea. set_solver.
        -- cbn. split_and!; [done|find_node|done|find_node|framed|done|framed].
      * split_and!; [done|by rewrite <- addrs_items, not_in_node|done].
Qed.

(** [r] hung off the rightmost node of [l]. *)
Fixpoint join (l r : tree) : tree :=
  match l with Leaf => r | Node ll a k v lr => Node ll a k v (join lr r) end.

Lemma join_items l r : items (join l r) = items l ++ items r.
Proof. induction l as [|ll _ a k v lr IH]; [done|]. cbn. by rewrite IH, <- app_assoc. Qed.

Lemma join_ptr l r : l <> Leaf -> ptr (join l r) = ptr l.
Proof. by destruct l. Qed.

Lemma addr_of_last t : t <> Leaf -> addr_of (last (items t)) ∈ addrs t.
Proof.
  intros Ht. rewrite addrs_items. destruct (last (items t)) as [[a kv]|] eqn:E.
  - apply last_Some in E as [L ->]. rewrite fmap_app. set_solver.
  - by apply last_None, items_nil in E.
Qed.

Lemma join_at h l r :
  l <> Leaf -> NoDup (addrs l) -> addrs l ## addrs r -> tree_at h l -> tree_at h r ->
  exists n, h !! addr_of (last (items l)) = Some n /\
    tree_at (<[addr_of (last (items l)) := set_right (ptr r) n]> h) (join l r).
Proof.
  induction l as [|ll _ a k v lr IH]; [done|]. intros _ Hnd Hd Hl Hr. cbn in Hl. destruct Hl as (Ha & Ea & Hll & Hlr).
  fresh_nodes. destruct (decide (lr = Leaf)) as [->|Hne].
  - cbn [items]. rewrite last_snoc. cbn [addr_of]. eexists; split; [exact Ea|]. cbn.
    split_and!; [done|find_node|framed..].
  - destruct IH as (n & En & Hj); [done..|]. rewrite last_node by done. exists n. split; [done|].
    pose proof (addr_of_last lr Hne) as Hin. cbn. rewrite join_ptr by done.
    split_and!; [done|rewrite lookup_insert_ne by set_solver; done| |done].
    apply tree_at_insert; [done|]. set_solver.
Qed.

Lemma heap_ok_removed h h' l a k v r t' :
  heap_ok h (Node l a k v r) -> items t' = items l ++ items r ->
  (forall b, b ∈ dom h' <-> b ∈ dom h /\ b <> a) -> tree_at h' t' -> heap_ok h' t'.
Proof.
  intros [_ Hn Hd] Hi Hdom Ht. assert (Ht' : addrs t' = addrs l ++ addrs r) by (by rewrite !addrs_items, Hi, fmap_app).
  split; [done| |].
  - rewrite Ht'. fresh_nodes. by apply NoDup_app.
  - intros b. rewrite Hdom, Hd, Ht'. fresh_nodes. cbn. set_solver.
Qed.

Definition remove_spec (x : Z) (L : list item) (c : Cl) (L' : list item) (c' : Cl) : Prop :=
  exists lo e hi, locate (comp sp) x L lo e hi /\ L' = lo ++ hi /\
    c' = match e with Some (_, old) => dispose old c | None => c end.

Lemma removed x L c t' h' lo p hi :
  ordered (comp sp) L -> locate (comp sp) x L lo (Some p) hi -> heap_ok h' t' -> items t' = lo ++ hi ->
  exists L2 c2, holds L2 c2 (World (Some (ptr t')) h' (dispose p.2 c)) /\ remove_spec x L c L2 c2.
Proof.
  intros Ho Hx Hok Hi. exists (lo ++ hi), (dispose p.2 c). split.
  - exists t', h'. split_and!; [done..|]. rewrite (locate_app _ _ _ _ _ Hx) in Ho.
    rewrite !ordered_app in *. set_solver.
  - exists lo, (Some p), hi. by destruct p.
Qed.

Lemma remove_wp x L c w :
  holds L c w -> (2 * length L + 2 <= fuel)%nat ->
  wp (splay_tree_remove sp fuel x) (fun _ w' => exists L' c', holds L' c' w' /\ remove_spec x L c L' c') w.
Proof.
  intros HL Hf. assert (Ho : ordered (comp sp) L) by (by destruct HL as (? & ? & _ & _ & <- & ?)).
  unfold splay_tree_remove. splayed; exec.
  { exists [], c. split; [done|]. exists [], None, []. by split; [apply locate_nil|]. }
  destruct Hx as [[E Hx]|Hx]; [|assert (Hne : comp sp k x <> 0) by (destruct Hx as [[? _]|[? _]]; lia); exec;
    exists (items (Node l a k v r)), c; split; [done|];
    destruct Hx as [[_ Hx]|[_ Hx]]; (eexists _, None, _; split; [exact Hx|]; split; [|done]; by rewrite (locate_app _ _ _ _ _ Hx))].
  exec. apply wp_dispose. run. eapply wp_dealloc; [exact Ea|].
  pose proof (ok_at _ _ Hok) as Hat. cbn in Hat. destruct Hat as (_ & _ & Hl & Hr).
  pose proof (ok_nodup _ _ Hok) as Hnd. fresh_nodes.
  assert (Hdom : forall b, b ∈ dom (delete a h) <-> b ∈ dom h /\ b <> a) by (intros b; rewrite dom_delete; set_solver).
  assert (Hl' : tree_at (delete a h) l) by (by apply tree_at_delete).
  assert (Hr' : tree_at (delete a h) r) by (by apply tree_at_delete).
  destruct (Z.eqb_spec (ptr l) 0) as [El|El]; cbn [negb].
  - apply (ptr_leaf h) in El as ->; [|done]. run. eapply (removed x _ c r _ _ (a, (k, v))); [exact Ho|exact Hx| |done].
    by eapply heap_ok_removed.
  - run. destruct (Z.eqb_spec (ptr r) 0) as [Er|Er]; cbn [negb].
    + apply (ptr_leaf h) in Er as ->; [|done]. run. eapply (removed x _ c l _ _ (a, (k, v))); [exact Ho|exact Hx| |by rewrite app_nil_r].
      eapply heap_ok_removed; [exact Hok|by rewrite app_nil_r|done..].
    + assert (Hne : l <> Leaf) by (by intros ->). cbn in Hf. rewrite length_app in Hf. pose proof (size_items l). apply wp_bind.
      eapply wp_mono; [apply rightmost_wp; [exact Hl'|done|lia]|]. intros m w' [-> ->].
      destruct (join_at (delete a h) l r) as (n & En & Hj); [done..|]. run.
      rewrite <- (join_ptr l r Hne). eapply (removed x _ c (join l r) _ _ (a, (k, v))); [exact Ho|exact Hx| |apply join_items].
      eapply heap_ok_removed; [exact Hok|apply join_items| |exact Hj].
      intros b. rewrite dom_insert_lookup_L by eauto. apply Hdom.
Qed.

(** *** Traversal *)

(** [fn] on the nodes in order, until it answers something but 0. *)
Fixpoint visit_all (fn : Z -> Z -> Z -> Cl -> Z * Cl) (L : list item) (c : Cl) : Z * Cl :=
  match L with
  | [] => (0, c)
  | (a, (k, v)) :: L =>
      let '(val, c) := fn a k v c in if val =? 0 then visit_all fn L c else (val, c)
  end.

(** The nodes that wait on the stack, each with what is on its right. *)
Definition waiting (t : tree) : list item :=
  match t with Leaf => [] | Node _ a k v r => (a, (k, v)) :: items r end.

Definition stacked (h : gmap Z node) (ts : list tree) : Prop := Forall (fun t => t <> Leaf /\ tree_at h t) ts.

Abbreviation rest ts := (concat (waiting <$> ts)).

Lemma length_rest h ts : stacked h ts -> (length ts <= length (rest ts))%nat.
Proof.
  induction 1 as [|t ts [Hne _] _ IH]; [done|]. cbn. rewrite length_app. destruct t; [done|]. cbn in *. lia.
Qed.

Lemma push_wp n t ts stack_size r h c :
  tree_at h t -> stacked h ts -> (size t < n)%nat ->
  Z.of_nat (length (items t ++ rest ts)) < 1073741824 -> Z.of_nat (length ts) <= stack_size -> 0 < stack_size ->
  wp (cloop n (push_turn xmalloc_ok) (ptr t, ptr <$> ts, stack_size)) (fun s w' => w' = World r h c /\
    match s with
    | None => refused
    | Some (stack, stack_size') => exists ts', stack = ptr <$> ts' /\ stacked h ts' /\
        rest ts' = items t ++ rest ts /\ Z.of_nat (length ts') <= stack_size' /\ 0 < stack_size'
    end) (World r h c).
Proof.
  revert t ts stack_size. induction n as [|n IH]; intros t ts stack_size Ht Hts Hn Hlen Hss H0; [lia|].
  cbn [cloop]. apply wp_bind. unfold push_turn at 1. destruct (Z.eqb_spec (ptr t) 0) as [E|E].
  { apply (ptr_leaf h) in E as ->; [|done]. run. split; [done|]. by exists ts. }
  destruct t as [|l a k v rt]; [done|]. cbn [tree_at size items] in Ht, Hn, Hlen. destruct Ht as (Ha & Ea & Hl & Hr).
  pose proof (length_rest h ts Hts) as Hrest. rewrite length_fmap. rewrite !length_app in Hlen. cbn [length] in Hlen.
  assert (Hlen' : Z.of_nat (length (items l ++ rest (Node l a k v rt :: ts))) < 1073741824).
  { cbn. rewrite !length_app. cbn. rewrite length_app. lia. }
  assert (Hts' : stacked h (Node l a k v rt :: ts)) by (constructor; [by split|done]).
  destruct (Z.eqb_spec (Z.of_nat (length ts)) stack_size) as [Ef|Ef]; cbn [andb].
  - rewrite (proj2 (Z.ltb_lt (stack_size * 2) 2147483648)) by lia. cbn [negb].
    destruct (xmalloc_ok (8 * (stack_size * 2))) eqn:Em; cbn [negb].
    + rewrite (proj2 (Z.ltb_lt _ (stack_size * 2))) by lia. cbn [negb]. run.
      eapply wp_mono; [apply (IH l (Node l a k v rt :: ts) (stack_size * 2)); [done..|lia|exact Hlen'|cbn; lia|lia]|].
      intros [[stack ss]|] w'; [|done]. intros (-> & ts' & -> & ? & E2 & ?). split; [done|].
      exists ts'. rewrite E2. cbn. by rewrite <- app_assoc.
    + run. split; [done|]. left. by exists (8 * (stack_size * 2)).
  - rewrite (proj2 (Z.ltb_lt _ stack_size)) by lia. cbn [negb]. run.
    eapply wp_mono; [apply (IH l (Node l a k v rt :: ts) stack_size); [done..|lia|exact Hlen'|cbn; lia|lia]|].
    intros [[stack ss]|] w'; [|done]. intros (-> & ts' & -> & ? & E2 & ?). split; [done|].
    exists ts'. rewrite E2. cbn. by rewrite <- app_assoc.
Qed.

Lemma visit_wp fn a k v l r root h c :
  h !! a = Some (Nd k v l r) ->
  wp (visit fn a) (fun val w' => val = (fn a k v c).1 /\ w' = World root h (fn a k v c).2) (World root h c).
Proof. intros E. unfold visit. run. unfold wp. cbn [nodes cl SplayTree.root]. by destruct (fn a k v c). Qed.

Lemma each_wp fn n t ts stack_size root h c :
  tree_at h t -> stacked h ts -> (length (items t ++ rest ts) < n)%nat -> (length (items t ++ rest ts) < fuel)%nat ->
  Z.of_nat (length (items t ++ rest ts)) < 1073741824 -> Z.of_nat (length ts) <= stack_size -> 0 < stack_size ->
  wp (cloop n (each_turn xmalloc_ok fuel fn) (ptr t, ptr <$> ts, stack_size))
    (unless_refused (fun val w' => val = (visit_all fn (items t ++ rest ts) c).1 /\
      w' = World root h (visit_all fn (items t ++ rest ts) c).2)) (World root h c).
Proof.
  revert t ts stack_size c. induction n as [|n IH]; intros t ts stack_size c Ht Hts Hn Hfl Hlen Hss H0; [lia|].
  cbn [cloop]. apply wp_bind. unfold each_turn at 1. apply wp_bind.
  eapply wp_mono; [apply push_wp; try done; rewrite length_app, <- size_items in Hfl; lia|].
  intros [[stack ss]|] w'; [|intros [-> ?]; by run]. intros (-> & ts' & -> & Hts' & E2 & Hss' & H0').
  rewrite <- E2 in *. clear E2.
  destruct Hts' as [|[|l a k v r] ts' [Hne Hat] Hts']; [by run|done|]. cbn in Hat. destruct Hat as (Ha & Ea & Hl & Hr).
  cbn [fmap list_fmap ptr concat waiting app] in *. apply wp_bind. eapply wp_mono; [by eapply visit_wp|].
  intros val w' [-> ->]. cbn [visit_all]. destruct (fn a k v c) as [val c']. cbn [fst snd].
  destruct (val =? 0) eqn:Ev; cbn [negb]; run; [|done].
  cbn [length] in Hn, Hfl, Hlen.
  cbn [length] in *. apply IH; try done; lia.
Qed.

Lemma foreach_wp fn L c w :
  holds L c w -> (length L < fuel)%nat -> Z.of_nat (length L) < 1073741824 ->
  wp (splay_tree_foreach xmalloc_ok fuel fn) (unless_refused (fun val w' =>
    val = (visit_all fn L c).1 /\ holds L (visit_all fn L c).2 w')) w.
Proof.
  intros (t & h & -> & Hok & <- & Ho) Hf Hlen. unfold splay_tree_foreach, splay_tree_foreach_helper. run.
  destruct (xmalloc_ok (8 * INITIAL_STACK_SIZE)) eqn:Em; [|run; left; by eexists].
  pose proof (each_wp fn fuel t [] INITIAL_STACK_SIZE (Some (ptr t)) h c) as He. cbn [concat fmap list_fmap] in He. rewrite app_nil_r in He.
  eapply wp_mono; [apply He; try done; [apply Hok|constructor]|].
  intros [val|] w'; [|done]. intros [-> ->]. split; [done|]. by exists t, h.
Qed.

(** *** Deletion *)

Lemma tree_at_ext h h' t : (forall b, b ∈ addrs t -> h' !! b = h !! b) -> tree_at h t -> tree_at h' t.
Proof.
  induction t as [|l IHl a k v r IHr]; [done|]. cbn. intros He (Ha & Ea & Hl & Hr).
  split_and!; [done|rewrite He; [done|set_solver]|apply IHl; set_solver|apply IHr; set_solver].
Qed.

(** Trees whose root has been disposed of, linked through its key. *)
Fixpoint queued (h : gmap Z node) (p : Z) (ts : list tree) : Prop :=
  match ts with
  | [] => p = 0
  | Leaf :: _ => False
  | Node l a _ v r :: ts =>
      p = a /\ a <> 0 /\ tree_at h l /\ tree_at h r /\
      exists next, h !! a = Some (Nd next v (ptr l) (ptr r)) /\ queued h next ts
  end.

Definition all_addrs (ts : list tree) : list Z := concat (addrs <$> ts).

(** What is still to be disposed of. *)
Definition kids (ts : list tree) : list (Z * Z) :=
  concat ((fun t => match t with Leaf => [] | Node l _ _ _ r => (items l).*2 ++ (items r).*2 end) <$> ts).

Lemma queued_ext h h' p ts : (forall b, b ∈ all_addrs ts -> h' !! b = h !! b) -> queued h p ts -> queued h' p ts.
Proof.
  revert p. induction ts as [|[|l a k v r] ts IH]; intros p; [done..|]. unfold all_addrs in *. cbn.
  intros He (-> & Ha & Hl & Hr & next & En & Hq). split_and!; [done..| | |].
  - eapply tree_at_ext; [|exact Hl]. set_solver.
  - eapply tree_at_ext; [|exact Hr]. set_solver.
  - exists next. split; [rewrite He; [done|set_solver]|]. apply IH; [set_solver|done].
Qed.

Definition disposes (kvs : list (Z * Z)) (c : Cl) : Cl := fold_left (fun c kv => dispose kv c) kvs c.

Definition push (t : tree) (ts : list tree) : list tree := match t with Leaf => ts | _ => t :: ts end.

Definition own (t : tree) : list (Z * Z) := match t with Leaf => [] | Node _ _ k v _ => [(k, v)] end.

Lemma all_addrs_push t ts : all_addrs (push t ts) = addrs t ++ all_addrs ts.
Proof. by destruct t. Qed.

Lemma all_addrs_app ts1 ts2 : all_addrs (ts1 ++ ts2) = all_addrs ts1 ++ all_addrs ts2.
Proof. unfold all_addrs. by rewrite fmap_app, concat_app. Qed.

Lemma kids_app ts1 ts2 : kids (ts1 ++ ts2) = kids ts1 ++ kids ts2.
Proof. unfold kids. by rewrite fmap_app, concat_app. Qed.

Lemma own_kids t ts : own t ++ kids (push t ts) ≡ₚ (items t).*2 ++ kids ts.
Proof.
  destruct t as [|l a k v r]; [done|]. unfold kids. cbn. rewrite fmap_app. cbn.
  rewrite <- !app_assoc. cbn. rewrite Permutation_middle. done.
Qed.

Lemma queue_wp t ts pending R h c :
  tree_at h t -> queued h pending ts -> addrs t ## all_addrs ts -> NoDup (addrs t) ->
  wp (if negb (ptr t =? 0) then queue sp (ptr t) pending else ret pending) (fun p w' => exists h',
    w' = World R h' (disposes (own t) c) /\ queued h' p (push t ts) /\
    (forall b, b ∉ addrs t -> h' !! b = h !! b) /\ (forall b, b ∈ dom h' <-> b ∈ dom h)) (World R h c).
Proof.
  intros Ht Hq Hd Hn. destruct (Z.eqb_spec (ptr t) 0) as [E|E]; cbn [negb].
  { apply (ptr_leaf h) in E as ->; [|done]. run. exists h. auto. }
  destruct t as [|l a k v r]; [done|]. cbn in Ht. destruct Ht as (Ha & Ea & Hl & Hr). fresh_nodes.
  unfold queue. run. apply wp_dispose. run. eexists. split; [reflexivity|]. split_and!.
  - cbn. split_and!; [done..|framed|framed|]. exists pending. split; [find_node|].
    eapply queued_ext; [|exact Hq]. intros b Hb. apply lookup_insert_ne. by intros <-.
  - intros b Hb. apply not_in_node in Hb as (_ & ? & _). by apply lookup_insert_ne.
  - intros b. by rewrite dom_insert_lookup_L by (eexists; find_node).
Qed.

(** The nodes that are left: those of the active and of the pending list. *)
Record freeing (As Ps : list tree) (active pending : Z) (h : gmap Z node) : Prop := Freeing {
  fr_active : queued h active As;
  fr_pending : queued h pending Ps;
  fr_nodup : NoDup (all_addrs (As ++ Ps));
  fr_dom : forall b, b ∈ dom h <-> b ∈ all_addrs (As ++ Ps) }.

Lemma freeing_push l a k v r As Ps :
  all_addrs ((Node l a k v r :: As) ++ Ps) ≡ₚ a :: all_addrs (As ++ push r (push l Ps)).
Proof.
  change (all_addrs ((Node l a k v r :: As) ++ Ps)) with ((addrs l ++ a :: addrs r) ++ all_addrs (As ++ Ps)).
  rewrite !all_addrs_app, !all_addrs_push. solve_Permutation.
Qed.

Lemma free_turn_wp l a k v r As Ps active pending R h c :
  freeing (Node l a k v r :: As) Ps active pending h ->
  wp (free_turn sp (active, pending)) (fun s w' => exists active' pending' h',
    s = Next (active', pending') /\ w' = World R h' (disposes (own l ++ own r) c) /\
    freeing As (push r (push l Ps)) active' pending' h') (World R h c).
Proof.
  intros [Ha Hp Hn Hd]. cbn [queued] in Ha. destruct Ha as (-> & Ha & Hl & Hr & next & Ea & Hq).
  rewrite freeing_push, all_addrs_app, !all_addrs_push in Hn.
  assert (Hd' : forall b, b ∈ dom h <-> b = a \/ b ∈ all_addrs (As ++ push r (push l Ps))).
  { intros b. by rewrite Hd, freeing_push, elem_of_cons. }
  clear Hd. apply NoDup_cons in Hn as [Hna Hn]. apply NoDup_app in Hn as (Hn1 & Hx & Hn).
  apply NoDup_app in Hn as (Hnr & Hxr & Hn). apply NoDup_app in Hn as (Hnl & Hxl & HnP).
  rewrite !elem_of_app in Hna.
  unfold free_turn. rewrite (proj2 (Z.eqb_neq a 0) Ha). run.
  eapply wp_mono; [apply (queue_wp l Ps pending); [done..|exact Hxl|done]|]. intros p1 w' (h1 & -> & Hq1 & Hs1 & Hd1).
  apply wp_bind.
  eapply wp_mono; [apply (queue_wp r (push l Ps) p1); [|done| |done]|].
  { eapply tree_at_ext; [|exact Hr]. intros b Hb. apply Hs1. specialize (Hxr b Hb). set_solver. }
  { rewrite all_addrs_push. exact Hxr. }
  intros p2 w' (h2 & -> & Hq2 & Hs2 & Hd2).
  assert (E2 : h2 !! a = Some (Nd next v (ptr l) (ptr r))) by (rewrite Hs2, Hs1 by tauto; done).
  run. eapply wp_dealloc; [exact E2|]. run. exists next, p2, (delete a h2). split; [done|]. split; [|split].
  - f_equal. unfold disposes. by rewrite fold_left_app.
  - eapply queued_ext; [|exact Hq]. intros b Hb. rewrite lookup_delete_ne by (intros <-; tauto).
    specialize (Hx b Hb). rewrite !elem_of_app in Hx. rewrite Hs2, Hs1 by tauto. done.
  - eapply queued_ext; [|exact Hq2]. intros b Hb. rewrite !all_addrs_push, !elem_of_app in Hb.
    apply lookup_delete_ne. intros <-. tauto.
  - rewrite all_addrs_app, !all_addrs_push. apply NoDup_app. split; [done|]. split; [done|].
    apply NoDup_app. split; [done|]. split; [done|]. by apply NoDup_app.
  - intros b. rewrite dom_delete, elem_of_difference, Hd2, Hd1, Hd', elem_of_singleton.
    rewrite all_addrs_app, !all_addrs_push, !elem_of_app. split; [tauto|]. intros Hb. split; [tauto|]. intros ->. tauto.
Qed.

Lemma kids_push l a k v r As Ps :
  kids ((Node l a k v r :: As) ++ Ps) ≡ₚ own l ++ own r ++ kids (As ++ push r (push l Ps)).
Proof.
  change (kids ((Node l a k v r :: As) ++ Ps)) with (((items l).*2 ++ (items r).*2) ++ kids (As ++ Ps)).
  rewrite !kids_app. pose proof (own_kids r (push l Ps)) as E1. pose proof (own_kids l Ps) as E2.
  transitivity (kids As ++ own l ++ (own r ++ kids (push r (push l Ps)))); [|solve_Permutation].
  rewrite E1. transitivity (kids As ++ (items r).*2 ++ (own l ++ kids (push l Ps))); [|solve_Permutation].
  rewrite E2. solve_Permutation.
Qed.

(** [while (active)]. *)
Lemma free_active_wp n As Ps active pending R h c :
  freeing As Ps active pending h -> (length As < n)%nat ->
  wp (cloop n (free_turn sp) (active, pending)) (fun p w' => exists Ps' order h',
    w' = World R h' (disposes order c) /\ freeing Ps' [] p 0 h' /\
    kids (As ++ Ps) ≡ₚ order ++ kids Ps' /\
    length (all_addrs (As ++ Ps)) = (length As + length (all_addrs Ps'))%nat) (World R h c).
Proof.
  revert As Ps active pending h c. induction n as [|n IH]; intros As Ps active pending h c Hfr Hn; [lia|].
  cbn [cloop]. apply wp_bind. destruct As as [|[|l a k v r] As].
  - destruct Hfr as [Ha Hp Hnd Hd]. cbn in Ha. subst active. unfold free_turn. run.
    exists Ps, [], h. split_and!; [done| |done|done]. split; [done..| |]; by rewrite app_nil_r.
  - by destruct Hfr.
  - eapply wp_mono; [by eapply free_turn_wp|]. intros s w' (active' & pending' & h' & -> & -> & Hfr').
    eapply wp_mono; [apply IH; [exact Hfr'|cbn in Hn; lia]|].
    intros p w' (Ps' & order & h2 & -> & Hfr2 & Hk & Hlen). exists Ps', (own l ++ own r ++ order), h2. split_and!.
    + f_equal. unfold disposes. by rewrite app_assoc, (fold_left_app _ _ order).
    + done.
    + rewrite kids_push, Hk. by rewrite <- !app_assoc.
    + rewrite freeing_push. cbn. by rewrite Hlen.
Qed.

Lemma length_all_addrs h p ts : queued h p ts -> (length ts <= length (all_addrs ts))%nat.
Proof.
  revert p. induction ts as [|[|l a k v r] ts IH]; intros p; [done..|]. cbn [queued]. intros (_ & _ & _ & _ & next & _ & Hq).
  change (all_addrs (Node l a k v r :: ts)) with ((addrs l ++ a :: addrs r) ++ all_addrs ts).
  rewrite !length_app. cbn [length]. specialize (IH next Hq). lia.
Qed.

(** [while (pending)]. *)
Lemma free_pending_wp n Ps p R h c :
  freeing Ps [] p 0 h -> (length (all_addrs Ps) < n)%nat -> (length (all_addrs Ps) < fuel)%nat ->
  wp (cloop n (fun pending =>
        if pending =? 0 then ret (Exit tt)
        else pending <- cloop fuel (free_turn sp) (pending, 0) ;; ret (Next pending)) p)
    (fun _ w' => exists order, w' = World R ∅ (disposes order c) /\ order ≡ₚ kids Ps) (World R h c).
Proof.
  revert Ps p h c. induction n as [|n IH]; intros Ps p h c Hfr Hn Hf; [lia|]. cbn [cloop]. apply wp_bind.
  pose proof (fr_active _ _ _ _ _ Hfr) as Hq. pose proof (length_all_addrs _ _ _ Hq) as Hlen.
  destruct (Z.eqb_spec p 0) as [->|Hp].
  - destruct Ps as [|[|l a k v r] Ps]; [|done|by cbn in Hq; destruct Hq as (? & ? & _)].
    run. exists []. split; [|done]. f_equal. apply dom_empty_inv_L. apply elem_of_equiv_empty_L.
    intros b Hb. apply (fr_dom _ _ _ _ _ Hfr) in Hb. by apply elem_of_nil in Hb.
  - run. eapply wp_mono; [apply free_active_wp; [exact Hfr|lia]|].
    intros p' w' (Ps' & order & h' & -> & Hfr' & Hk & Hl). run. rewrite app_nil_r in Hk, Hl.
    assert (length Ps <> O) by (by destruct Ps). eapply wp_mono; [apply (IH Ps' p' h'); [|lia..]|].
    + exact Hfr'.
    + intros _ w' (order2 & -> & Hk2). exists (order ++ order2). split.
      * f_equal. unfold disposes. by rewrite fold_left_app.
      * by rewrite Hk2, Hk.
Qed.

Lemma delete_wp L c w :
  holds L c w -> (length L + 1 < fuel)%nat ->
  wp (splay_tree_delete sp fuel) (fun _ w' => exists order, w' = World None ∅ (disposes order c) /\ order ≡ₚ L.*2) w.
Proof.
  intros (t & h & -> & [Hat Hn Hd] & <- & Ho) Hf. unfold splay_tree_delete, splay_tree_delete_helper. run.
  destruct (Z.eqb_spec (ptr t) 0) as [E|E].
  { apply (ptr_leaf h) in E as ->; [|done]. run. exists []. split; [|done]. unfold wp. cbn. f_equal.
    apply dom_empty_inv_L, elem_of_equiv_empty_L. intros b Hb%Hd. by apply elem_of_nil in Hb. }
  pose proof (queue_wp t [] 0 (Some (ptr t)) h c Hat eq_refl) as Hq. rewrite (proj2 (Z.eqb_neq _ _) E) in Hq. cbn [negb] in Hq.
  apply wp_bind. eapply wp_mono; [apply Hq; [|done]|].
  { unfold all_addrs. cbn. set_solver. }
  intros p w' (h' & -> & Hq' & _ & Hd'). clear Hq.
  assert (Hp : push t [] = [t]) by (by destruct t). rewrite Hp in *.
  assert (Haa : all_addrs [t] = addrs t) by (unfold all_addrs; cbn; by rewrite app_nil_r).
  assert (Hlen : length (addrs t) = length (items t)) by (by rewrite addrs_items, length_fmap).
  eapply wp_mono.
  - apply (free_pending_wp fuel [t]); [|rewrite Haa; lia..].
    split; rewrite ?app_nil_r, ?Haa; [done..|]. intros b. by rewrite Hd'.
  - intros _ w' (order & -> & Hk). run. exists (own t ++ order). split.
    + unfold wp. cbn. f_equal. unfold disposes. by rewrite fold_left_app.
    + rewrite Hk, <- Hp, own_kids. unfold kids. cbn. by rewrite app_nil_r.
Qed.
End heap.

(** ** Sessions *)

Inductive op (Cl : Type) :=
| Insert (k v : Z)
| Remove (k : Z)
| Lookup (k : Z)
| Min
| Max
| Predecessor (k : Z)
| Successor (k : Z)
| Foreach (fn : Z -> Z -> Z -> Cl -> Z * Cl).
Arguments Insert {Cl} k v.
Arguments Remove {Cl} k.
Arguments Lookup {Cl} k.
Arguments Min {Cl}.
Arguments Max {Cl}.
Arguments Predecessor {Cl} k.
Arguments Successor {Cl} k.
Arguments Foreach {Cl} fn.

Section session.
Context {Cl : Type} (sp : splay_fns Cl) (xmalloc_ok : Z -> bool) (fuel : nat).

(** What the client's call returns; 0 for a call without a result. *)
Definition run_op (o : op Cl) : St (world Cl) (option Z) :=
  match o with
  | Insert k v => splay_tree_insert sp fuel k v
  | Remove k => splay_tree_remove sp fuel k ;;; ret (Some 0)
  | Lookup k => n <- splay_tree_lookup sp fuel k ;; ret (Some n)
  | Min => n <- splay_tree_min fuel ;; ret (Some n)
  | Max => n <- splay_tree_max fuel ;; ret (Some n)
  | Predecessor k => n <- splay_tree_predecessor sp fuel k ;; ret (Some n)
  | Successor k => n <- splay_tree_successor sp fuel k ;; ret (Some n)
  | Foreach fn => splay_tree_foreach xmalloc_ok fuel fn
  end.

Fixpoint run_ops (os : list (op Cl)) : St (world Cl) (option (list Z)) :=
  match os with
  | [] => ret (Some [])
  | o :: os => r <-? run_op o ;; rs <-? run_ops os ;; ret (Some (r :: rs))
  end.

(** The call as a function of the ordered list of nodes. *)
Definition op_spec (o : op Cl) (L : list item) (c : Cl) (r : Z) (L' : list item) (c' : Cl) : Prop :=
  match o with
  | Insert k v => insert_spec sp k v L c r L' c'
  | Remove k => remove_spec sp k L c L' c' /\ r = 0
  | Lookup k => L' = L /\ c' = c /\ exists lo e hi, locate (comp sp) k L lo e hi /\ r = addr_of e
  | Min => L' = L /\ c' = c /\ r = addr_of (head L)
  | Max => L' = L /\ c' = c /\ r = addr_of (last L)
  | Predecessor k => L' = L /\ c' = c /\ exists lo e hi, locate (comp sp) k L lo e hi /\ r = addr_of (last lo)
  | Successor k => L' = L /\ c' = c /\ exists lo e hi, locate (comp sp) k L lo e hi /\ r = addr_of (head hi)
  | Foreach fn => L' = L /\ (r, c') = visit_all fn L c
  end.

Fixpoint ops_spec (os : list (op Cl)) (L : list item) (c : Cl) (rs : list Z) (L' : list item) (c' : Cl) : Prop :=
  match os, rs with
  | [], [] => L' = L /\ c' = c
  | o :: os, r :: rs => exists L1 c1, op_spec o L c r L1 c1 /\ ops_spec os L1 c1 rs L' c'
  | _, _ => False
  end.

Context {laws : CompLaws (comp sp)} {alloc : AllocLaws sp}.

Lemma op_length o L c r L' c' : op_spec o L c r L' c' -> (length L' <= S (length L))%nat.
Proof.
  destruct o; cbn; try (intros [-> _]; lia).
  - intros (lo & e & hi & Hx & -> & _). rewrite (locate_app _ _ _ _ _ _ Hx), !length_app. cbn. lia.
  - intros [(lo & e & hi & Hx & -> & _) _]. rewrite (locate_app _ _ _ _ _ _ Hx), !length_app. lia.
Qed.

Lemma splay_op_wp o L c w :
  holds sp L c w -> (2 * length L + 2 <= fuel)%nat -> Z.of_nat (length L) < 1073741824 ->
  wp (run_op o) (unless_refused sp xmalloc_ok (fun r w' => exists L' c', holds sp L' c' w' /\ op_spec o L c r L' c')) w.
Proof.
  intros HL Hf Hlen. destruct o; cbn [run_op op_spec].
  - by apply splay_insert_wp.
  - apply wp_bind. eapply wp_mono; [by apply remove_wp|]. intros [] w' (L' & c' & ? & ?). apply wp_ret. exists L', c'. auto.
  - apply wp_bind. eapply wp_mono; [by apply lookup_wp|]. intros n w' [? ?]. apply wp_ret. exists L, c. auto.
  - apply wp_bind. eapply wp_mono; [by apply min_wp|]. intros n w' [? ?]. apply wp_ret. exists L, c. auto.
  - apply wp_bind. eapply wp_mono; [by apply max_wp|]. intros n w' [? ?]. apply wp_ret. exists L, c. auto.
  - apply wp_bind. eapply wp_mono; [by apply predecessor_wp|]. intros n w' [? ?]. apply wp_ret. exists L, c. auto.
  - apply wp_bind. eapply wp_mono; [by apply successor_wp|]. intros n w' [? ?]. apply wp_ret. exists L, c. auto.
  - eapply wp_mono; [apply foreach_wp; [done|lia|done]|]. intros [n|] w'; [|done]. intros [-> ?].
    exists L, (visit_all fn L c).2. split; [done|]. split; [done|]. by destruct (visit_all fn L c).
Qed.

Lemma wp_obind_refused {A B} (m : St (world Cl) (option A)) (f : A -> St (world Cl) (option B)) Q w :
  wp m (unless_refused sp xmalloc_ok (fun a w' => wp (f a) (unless_refused sp xmalloc_ok Q) w')) w ->
  wp (obind m f) (unless_refused sp xmalloc_ok Q) w.
Proof. intros H. apply wp_bind. eapply wp_mono; [exact H|]. by intros [a|] w'. Qed.

Lemma refused_mono {A} (P Q : A -> world Cl -> Prop) r w :
  unless_refused sp xmalloc_ok P r w -> (forall a, P a w -> Q a w) -> unless_refused sp xmalloc_ok Q r w.
Proof. destruct r; cbn; auto. Qed.

Lemma splay_ops_wp os L c w :
  holds sp L c w -> (2 * (length L + length os) + 2 <= fuel)%nat -> Z.of_nat (length L + length os) < 1073741824 ->
  wp (run_ops os) (unless_refused sp xmalloc_ok (fun rs w' => exists L' c',
    holds sp L' c' w' /\ ops_spec os L c rs L' c' /\ (length L' <= length L + length os)%nat)) w.
Proof.
  revert L c w. induction os as [|o os IH]; intros L c w HL Hf Hlen; cbn [run_ops length] in *.
  { apply wp_ret. exists L, c. split_and!; [done..|lia]. }
  apply wp_obind_refused. eapply wp_mono; [apply splay_op_wp; [done|lia..]|]. intros r w' Hr.
  eapply refused_mono; [exact Hr|]. clear Hr r. intros r (L1 & c1 & HL1 & Ho). pose proof (op_length _ _ _ _ _ _ Ho).
  apply wp_obind_refused. eapply wp_mono; [apply (IH L1 c1); [done|lia..]|]. intros rs w2 Hr.
  eapply refused_mono; [exact Hr|]. clear Hr rs. intros rs (L' & c' & HL' & Hos & Hl). apply wp_ret.
  exists L', c'. split_and!; [done| |lia]. cbn. by exists L1, c1.
Qed.
End session.

Lemma new_holds {Cl} compare_fn dk dv ta na d (c : Cl) sp w :
  splay_tree_new_typed_alloc compare_fn dk dv ta na d c = Some (sp, w) -> holds sp [] c w.
Proof.
  unfold splay_tree_new_typed_alloc. destruct (ta _ _ _); [|done]. intros [= <- <-]. exists Leaf, ∅.
  split_and!; [done| |done|constructor]. split; [done|constructor|]. intros a. rewrite dom_empty. set_solver.
Qed.

(** C20: A client's session on a new splay tree is the same session on an ordered
    association list: [splay_tree_insert] puts the key in its place, with the
    node of an equal key kept and the old key and value disposed of;
    [splay_tree_remove] takes it out; [splay_tree_lookup], [_predecessor],
    [_successor], [_min] and [_max] return the node that the order says;
    [splay_tree_foreach] visits the nodes in order until the client stops it.
    Nodes stay at their addresses. The session returns unless an allocation is
    refused: [2 * n + 2] turns are enough for every loop of [n] calls. *)
Theorem splay_tree_refines {Cl} compare_fn dk dv ta na d (c : Cl) sp w xmalloc_ok fuel os
    {laws : CompLaws (comp sp)} {alloc : AllocLaws sp} :
  splay_tree_new_typed_alloc compare_fn dk dv ta na d c = Some (sp, w) ->
  (2 * length os + 2 <= fuel)%nat -> Z.of_nat (length os) < 1073741824 ->
  wp (run_ops sp xmalloc_ok fuel os) (unless_refused sp xmalloc_ok (fun rs w' => exists L c',
    ops_spec sp os [] c rs L c' /\ holds sp L c' w')) w.
Proof.
  intros Hn Hf Hl. eapply wp_mono; [apply (splay_ops_wp sp xmalloc_ok fuel os [] c); [by eapply new_holds|done..]|].
  intros rs w' Hr. eapply refused_mono; [exact Hr|]. intros rs' (L & c' & ? & ? & _). eauto.
Qed.

(** *** The comparison functions and the allocator of the library *)

#[export] Instance compare_pointers_laws : CompLaws splay_tree_compare_pointers.
Proof. split; unfold splay_tree_compare_pointers; intros; repeat case_match; lia. Qed.

#[export] Instance compare_ints_laws : CompLaws splay_tree_compare_ints.
Proof. split; unfold splay_tree_compare_ints; intros; repeat case_match; lia. Qed.

Abbreviation chars l := (Forall (fun c => 0 < c) l).

Lemma strcmp_antisym s1 s2 : chars s1 -> chars s2 -> Z.sgn (strcmp s2 s1) = - Z.sgn (strcmp s1 s2).
Proof.
  intros H1. revert s2. induction H1 as [|c1 s1 Hc1 _ IH]; intros s2 [|c2 s2' Hc2 H2]; cbn; [done|lia..|].
  rewrite (Z.eqb_sym c2). destruct (Z.eqb_spec c1 c2); [by apply IH|lia].
Qed.

Lemma strcmp_eq s1 s2 : chars s1 -> chars s2 -> strcmp s1 s2 = 0 -> s1 = s2.
Proof.
  intros H1. revert s2. induction H1 as [|c1 s1 Hc1 _ IH]; intros s2 [|c2 s2' Hc2 H2]; cbn; [done|lia..|].
  destruct (Z.eqb_spec c1 c2) as [->|]; [|lia]. intros E. f_equal. by apply IH.
Qed.

Lemma strcmp_trans s1 s2 s3 :
  chars s1 -> chars s2 -> chars s3 -> strcmp s1 s2 < 0 -> strcmp s2 s3 < 0 -> strcmp s1 s3 < 0.
Proof.
  intros H1. revert s2 s3. induction H1 as [|c1 s1 Hc1 _ IH]; intros s2 s3 [|c2 s2' Hc2 H2] [|c3 s3' Hc3 H3]; cbn; try lia.
  destruct (Z.eqb_spec c1 c2) as [->|]; destruct (Z.eqb_spec c2 c3) as [->|].
  - by apply IH.
  - lia.
  - rewrite (proj2 (Z.eqb_neq c1 c3)) by done. lia.
  - intros ??. rewrite (proj2 (Z.eqb_neq c1 c3)) by lia. lia.
Qed.

Lemma compare_strings_laws str_at :
  (forall k, chars (str_at k)) -> CompLaws (splay_tree_compare_strings str_at).
Proof.
  intros H. split; unfold splay_tree_compare_strings; intros x y.
  - by apply strcmp_antisym.
  - intros z. by apply strcmp_trans.
  - intros z E. by rewrite (strcmp_eq _ _ (H x) (H y) E).
Qed.

(** [malloc] yields memory that is not in use. *)
Lemma xmalloc_laws {Cl} xmalloc_ok malloc_at compare_fn dk dv (c : Cl) sp w :
  (forall h : gmap Z node, malloc_at h <> 0 /\ h !! malloc_at h = None) ->
  splay_tree_new xmalloc_ok malloc_at compare_fn dk dv c = Some (sp, w) -> AllocLaws sp.
Proof.
  intros Hm. unfold splay_tree_new, splay_tree_new_with_allocator, splay_tree_new_typed_alloc.
  destruct (splay_tree_xmalloc_allocate _ _ _ _ _); [|done]. intros [= <- _]. split.
  intros h p. cbn. unfold splay_tree_xmalloc_allocate. destruct (xmalloc_ok SIZEOF_NODE); [|done]. intros [= <-]. apply Hm.
Qed.

(** *** Ownership *)

Section ownership.
(** The client notes every key and every value it is asked to dispose of. *)
Context {U : Type}.
Abbreviation ledger := (list Z * list Z * U)%type.

Definition note_key (x : Z) (c : ledger) : ledger := (x :: c.1.1, c.1.2, c.2).
Definition note_value (x : Z) (c : ledger) : ledger := (c.1.1, x :: c.1.2, c.2).

(** The client does not dispose of anything while it is called for a visit. *)
Definition leaves_ledger (o : op ledger) : Prop :=
  match o with Foreach fn => forall a k v c, (fn a k v c).2.1 = c.1 | _ => True end.

Definition inserted_pairs (os : list (op ledger)) : list (Z * Z) :=
  omap (fun o => match o with Insert k v => Some (k, v) | _ => None end) os.

Context (sp : splay_fns ledger).
Context (Hk : delete_key sp = Some note_key) (Hv : delete_value sp = Some note_value).

(** The pairs given to the tree are in it or disposed of. *)
Definition accounted (kvs : list (Z * Z)) (L : list item) (c : ledger) : Prop :=
  c.1.1 ++ (L.*2).*1 ≡ₚ kvs.*1 /\ c.1.2 ++ (L.*2).*2 ≡ₚ kvs.*2.

Lemma dispose_ledger kv c : (dispose sp kv c).1 = (kv.1 :: c.1.1, kv.2 :: c.1.2).
Proof. unfold dispose. by rewrite Hk, Hv. Qed.

Lemma visit_ledger (fn : Z -> Z -> Z -> ledger -> Z * ledger) L c : (forall a k v c, (fn a k v c).2.1 = c.1) -> (visit_all fn L c).2.1 = c.1.
Proof.
  intros Hfn. revert c. induction L as [|[a [k v]] L IH]; intros c; [done|]. cbn.
  specialize (Hfn a k v c). destruct (fn a k v c) as [val c']. cbn in Hfn. by destruct (val =? 0); rewrite ?IH.
Qed.

Lemma op_accounted o kvs L c r L' c' :
  leaves_ledger o -> op_spec sp o L c r L' c' -> accounted kvs L c -> accounted (kvs ++ inserted_pairs [o]) L' c'.
Proof.
  unfold accounted. destruct o; cbn; rewrite ?app_nil_r; try (intros _ (-> & -> & _); done).
  - intros _ (lo & e & hi & Hx & -> & He). rewrite (locate_app _ _ _ _ _ _ Hx).
    destruct e as [[a [k0 v0]]|]; cbn [option_list] in *; rewrite ?fmap_app, ?fmap_cons; cbn [fst snd].
    + destruct He as [_ ->]. rewrite dispose_ledger. cbn [fst snd]. intros [<- <-]. split; solve_Permutation.
    + destruct He as (_ & _ & ->). intros [<- <-]. split; solve_Permutation.
  - intros _ [(lo & e & hi & Hx & -> & ->) _]. rewrite (locate_app _ _ _ _ _ _ Hx).
    destruct e as [[a [k0 v0]]|]; cbn [option_list app]; [|done]. rewrite ?fmap_app, ?fmap_cons, dispose_ledger. cbn [fst snd].
    intros [<- <-]. split; solve_Permutation.
  - intros Hfn [-> E]. assert (Ec : c' = (visit_all fn L c).2) by (by rewrite <- E). rewrite Ec. by rewrite visit_ledger.
Qed.

Lemma ops_accounted os kvs L c rs L' c' :
  Forall leaves_ledger os -> ops_spec sp os L c rs L' c' -> accounted kvs L c ->
  accounted (kvs ++ inserted_pairs os) L' c'.
Proof.
  intros Hos. revert kvs L c rs. induction Hos as [|o os Ho _ IH]; intros kvs L c [|r rs]; try done.
  - intros [-> ->]. by rewrite app_nil_r.
  - intros (L1 & c1 & H1 & H2) Ha. change (inserted_pairs (o :: os)) with (inserted_pairs ([o] ++ os)).
    unfold inserted_pairs. rewrite omap_app, app_assoc. eapply IH; [exact H2|]. by eapply op_accounted.
Qed.

Lemma disposes_ledger order c :
  (disposes sp order c).1.1 ≡ₚ c.1.1 ++ order.*1 /\ (disposes sp order c).1.2 ≡ₚ c.1.2 ++ order.*2.
Proof.
  revert c. induction order as [|[k v] order IH]; intros c; [by rewrite !app_nil_r|].
  cbn [disposes fold_left]. destruct (IH (dispose sp (k, v) c)) as [E1 E2]. unfold disposes in *. rewrite E1, E2, dispose_ledger.
  split; cbn; solve_Permutation.
Qed.

End ownership.

(** C21: The tree owns what is inserted: when the client's session ends with
    [splay_tree_delete], no node is left allocated and every key and every
    value that was given to [splay_tree_insert] has been passed to
    [delete_key] and [delete_value] exactly once, whatever was replaced,
    removed or still there. No access is to a node that has been freed, and
    every loop ends. *)
Theorem splay_tree_owns {U} compare_fn ta na d (u : U) sp w xmalloc_ok fuel os
    {laws : CompLaws (comp sp)} {alloc : AllocLaws sp} :
  splay_tree_new_typed_alloc compare_fn (Some note_key) (Some note_value) ta na d ([], [], u) = Some (sp, w) ->
  Forall leaves_ledger os ->
  (2 * length os + 2 <= fuel)%nat -> Z.of_nat (length os) < 1073741824 ->
  wp (_ <-? run_ops sp xmalloc_ok fuel os ;; splay_tree_delete sp fuel ;;; ret (Some tt))
    (unless_refused sp xmalloc_ok (fun _ w' => root w' = None /\ nodes w' = ∅ /\
      (cl w').1.1 ≡ₚ (inserted_pairs os).*1 /\ (cl w').1.2 ≡ₚ (inserted_pairs os).*2)) w.
Proof.
  intros Hn Hos Hf Hl.
  assert (delete_key sp = Some note_key /\ delete_value sp = Some note_value) as [Hk Hv].
  { revert Hn. unfold splay_tree_new_typed_alloc. by destruct (ta _ _ _); [intros [= <- _]|]. }
  apply wp_obind_refused.
  eapply wp_mono; [apply (splay_ops_wp sp xmalloc_ok fuel os [] ([], [], u)); [by eapply new_holds|done..]|].
  intros rs w' Hr. eapply refused_mono; [exact Hr|]. clear rs Hr. intros rs (L & c & HL & Ho & HlL). cbn in HlL.
  apply wp_bind. eapply wp_mono; [apply (delete_wp sp fuel xmalloc_ok L c); [done|lia]|].
  intros [] w2 (order & -> & Hp). apply wp_ret. cbn [root nodes cl unless_refused].
  destruct (ops_accounted sp Hk Hv os [] [] ([], [], u) rs L c Hos Ho) as [E1 E2]; [by split|]. cbn [app] in E1, E2.
  destruct (disposes_ledger sp Hk Hv order c) as [D1 D2]. rewrite D1, D2, Hp, E1, E2. done.
Qed.

(** *** A session *)

Abbreviation ledger := (list Z * list Z * list Z)%type.

(** Note the keys visited, up to 8. *)
Definition note_visit (a k v : Z) (c : ledger) : Z * ledger :=
  if 8 <? k then (k, c) else (0, (c.1, k :: c.2)).

Definition demo_ops : list (op ledger) :=
  [Insert 5 50; Insert 3 30; Insert 9 90; Insert 7 70; Insert 3 31; Lookup 9; Lookup 4; Predecessor 5; Successor 5;
   Foreach note_visit; Remove 5; Min; Max; Remove 6; Insert 5 51].

Definition demo := splay_tree_new (fun _ => true) bump splay_tree_compare_ints (Some note_key) (Some note_value)
  ([], [], [] : list Z).

Example splay_demo :
  (if demo is Some (sp, w) then
     if run_ops sp (fun _ => true) 32 demo_ops w is Done (Some rs, w') then Some (rs, cl w') else None
   else None) = Some ([1; 2; 3; 4; 2; 3; 0; 2; 4; 9; 0; 2; 3; 0; 5], ([5; 3], [50; 30], [7; 5; 3])).
Proof. vm_compute. reflexivity. Qed.

Definition demo_fns : splay_fns ledger :=
  SplayFns splay_tree_compare_ints (Some note_key) (Some note_value) (splay_tree_xmalloc_allocate (fun _ => true) bump) 0.

Definition demo_start : world ledger := World (Some 0) ∅ ([], [], []).

#[export] Instance demo_alloc : AllocLaws demo_fns.
Proof. exact (xmalloc_laws (fun _ => true) bump _ _ _ _ demo_fns demo_start bump_fresh eq_refl). Defined.

Lemma splay_tree_refines_witness :
  wp (run_ops demo_fns (fun _ => true) 32 demo_ops) (unless_refused demo_fns (fun _ => true) (fun rs w' => exists L c',
    ops_spec demo_fns demo_ops [] ([], [], []) rs L c' /\ holds demo_fns L c' w')) demo_start.
Proof.
  apply (splay_tree_refines splay_tree_compare_ints (Some note_key) (Some note_value)
    (splay_tree_xmalloc_allocate (fun _ => true) bump) (splay_tree_xmalloc_allocate (fun _ => true) bump) 0
    ([], [], []) demo_fns demo_start (fun _ => true) 32 demo_ops (laws := compare_ints_laws)); [reflexivity|cbn; lia..].
Defined.

Lemma splay_tree_owns_witness :
  wp (_ <-? run_ops demo_fns (fun _ => true) 32 demo_ops ;; splay_tree_delete demo_fns 32 ;;; ret (Some tt))
    (unless_refused demo_fns (fun _ => true) (fun _ w' => root w' = None /\ nodes w' = ∅ /\
      (cl w').1.1 ≡ₚ [5; 3; 9; 7; 3; 5] /\ (cl w').1.2 ≡ₚ [50; 30; 90; 70; 31; 51])) demo_start.
Proof.
  apply (splay_tree_owns splay_tree_compare_ints
    (splay_tree_xmalloc_allocate (fun _ => true) bump) (splay_tree_xmalloc_allocate (fun _ => true) bump) 0
    [] demo_fns demo_start (fun _ => true) 32 demo_ops (laws := compare_ints_laws));
    [reflexivity| |cbn; lia..].
  repeat (constructor; [try exact I|]); [|constructor]. intros a k v c. cbn. unfold note_visit. by destruct (8 <? k).
Defined.
