(* ===== verification/Partition.v ===== *)
(** The disjoint sets of [libiberty/partition.c] and [include/partition.h],
    against the equivalence that the unions generate. *)
From stdpp Require Import sorting relations.
From S2P Require Import Prelude.

(** ** The source *)

(** [struct partition_elem]; a pointer to an element is its index. *)
Record elem := El { next : Z; class_element : Z; class_count : Z }.

(** [struct partition_def]. *)
Record partition_def := Def { num_elements : Z; elements : list elem }.

(** [None]: the structure is freed. *)
Abbreviation part := (option partition_def).

Section source.
(** Whether [xmalloc] gets a block of this size; it ends the process
    otherwise. *)
Context (xmalloc_ok : Z -> bool).

(** [sizeof (struct partition_def)] and of an element. *)
Definition SIZEOF_DEF : Z := 24.
Definition SIZEOF_ELEM : Z := 16.

Definition partition_new (num_elements : Z) : option part :=
  if xmalloc_ok (u64 (SIZEOF_DEF + (num_elements - 1) * SIZEOF_ELEM))
  then Some (Some (Def num_elements ((fun e => El e e 1) <$> seqZ 0 num_elements))) else None.

Definition partition_delete : St part unit := fun w =>
  match w with Some _ => Done (tt, None) | None => Undef end.

(** [elements[i]], and the assignments to its fields. *)
Definition ld (i : Z) : St part elem := fun w =>
  match w with
  | Some d =>
      if 0 <=? i then match elements d !! Z.to_nat i with Some e => Done (e, w) | None => Undef end else Undef
  | None => Undef
  end.

Definition st (i : Z) (f : elem -> elem) : St part unit :=
  e <- ld i ;; modify (fmap (M := option) (fun d => Def (num_elements d) (<[Z.to_nat i := f e]> (elements d)))).

Definition set_next (n : Z) (e : elem) : elem := El n (class_element e) (class_count e).
Definition set_class (c : Z) (e : elem) : elem := El (next e) c (class_count e).
Definition set_count (c : Z) (e : elem) : elem := El (next e) (class_element e) c.

Definition get_num : St part Z := fun w => match w with Some d => Done (num_elements d, w) | None => Undef end.

Definition partition_find (e : Z) : St part Z := x <- ld e ;; ret (class_element x).

(** [for (p = e2->next; p != e2; p = p->next) p->class_element = class]. *)
Definition relabel_turn (e2 class p : Z) : St part (ctl Z unit) :=
  if p =? e2 then ret (Exit tt) else
  st p (set_class class) ;;;
  x <- ld p ;; ret (Next (next x)).

Definition partition_union (fuel : nat) (elem1 elem2 : Z) : St part Z :=
  x1 <- ld elem1 ;;
  x2 <- ld elem2 ;;
  if class_element x1 =? class_element x2 then ret (class_element x1) else
  let swap := class_count x1 <? class_count x2 in
  let e1 := if swap then elem2 else elem1 in
  let e2 := if swap then elem1 else elem2 in
  y1 <- ld e1 ;;
  let class := class_element y1 in
  y2 <- ld e2 ;;
  c2 <- ld (class_element y2) ;;
  c1 <- ld class ;;
  st class (set_count (u32 (class_count c1 + class_count c2))) ;;;
  st e2 (set_class class) ;;;
  y2 <- ld e2 ;;
  cloop fuel (relabel_turn e2 class) (next y2) ;;;
  y1 <- ld e1 ;;
  y2 <- ld e2 ;;
  st e1 (set_next (next y2)) ;;;
  st e2 (set_next (next y1)) ;;;
  ret class.

Definition elem_compare (e1 e2 : Z) : Z := if e1 <? e2 then -1 else if e2 <? e1 then 1 else 0.

(** [qsort] with it. *)
Definition le_elem (x y : Z) : Prop := elem_compare x y <= 0.

#[export] Instance le_elem_dec : RelDecision le_elem.
Proof. intros x y. unfold le_elem. apply _. Defined.

Definition qsort (l : list Z) : list Z := merge_sort le_elem l.

(** [printf "%d"]: ten digits are enough for an [int]. *)
Fixpoint digits (n : nat) (v : Z) : list Z :=
  match n with
  | O => []
  | S n => if v <? 10 then [48 + v] else digits n (v / 10) ++ [48 + v mod 10]
  end.

Definition decimal (v : Z) : list Z := if v <? 0 then 45 :: digits 10 (- v) else digits 10 v.

(** The buffers of [partition_print]: the flags, and the elements of a class
    collected so far (there is room for as many as there are flags). *)
Definition collect_turn (n : Z) (i : Z) (s : Z * list bool * list Z) : St part (ctl (Z * list bool * list Z) Empty_set) :=
  let '(c, done, class) := s in
  if negb (i <? n) || negb ((0 <=? c) && (c <? n)) then undef else
  x <- ld c ;;
  ret (Next (next x, <[Z.to_nat c := true]> done, class ++ [c])).

Fixpoint print_elems (first : bool) (l : list Z) : list Z :=
  match l with
  | [] => []
  | x :: l => (if first then decimal x else 32 :: decimal x) ++ print_elems false l
  end.

Definition print_turn (n : Z) (e : Z) (s : list bool * list Z) : St part (ctl (list bool * list Z) Empty_set) :=
  let '(done, out) := s in
  if nth (Z.to_nat e) done false then ret (Next s) else
  x <- ld e ;;
  k <- ld (class_element x) ;;
  r <- cfor (Z.to_nat (i32 (class_count k))) 0 (collect_turn n) (e, done, []) ;;
  match r with
  | Next (_, done, class) => ret (Next (done, out ++ [40] ++ print_elems true (qsort class) ++ [41]))
  | Exit r => match r : Empty_set with end
  end.

(** What it writes to [fp]. *)
Definition partition_print : St part (option (list Z)) :=
  n <- get_num ;;
  if negb (xmalloc_ok (u64 n)) then ret None else
  if negb (xmalloc_ok (u64 (n * 4))) then ret None else
  r <- cfor (Z.to_nat n) 0 (print_turn n) (replicate (Z.to_nat n) false, [91]) ;;
  match r with
  | Next (_, out) => ret (Some (out ++ [93]))
  | Exit r => match r : Empty_set with end
  end.
End source.

(** ** The elements as a function *)

Section proofs.
Context (n : Z).
Implicit Types (g : Z -> elem).

Definition W (g : Z -> elem) : part := Some (Def n (g <$> seqZ 0 n)).

Abbreviation inside i := (0 <= i < n).

Definition upd (g : Z -> elem) (i : Z) (e : elem) : Z -> elem := fun j => if decide (j = i) then e else g j.

Lemma lookup_elems g i : inside i -> (g <$> seqZ 0 n) !! Z.to_nat i = Some (g i).
Proof. intros Hi. rewrite list_lookup_fmap, lookup_seqZ_lt by lia. cbn. do 2 f_equal. lia. Qed.

Lemma W_ext g g' : (forall i, inside i -> g i = g' i) -> W g = W g'.
Proof. intros H. unfold W. do 2 f_equal. apply list_fmap_ext. intros k i [-> ?]%lookup_seqZ. apply H. lia. Qed.

Lemma wp_ld_elem (Q : elem -> part -> Prop) g i : inside i -> Q (g i) (W g) -> wp (ld i) Q (W g).
Proof.
  intros Hi HQ. unfold wp, ld, W. cbn [elements]. rewrite (proj2 (Z.leb_le 0 i)) by lia.
  by rewrite lookup_elems.
Qed.

Lemma wp_st_elem (Q : unit -> part -> Prop) g i f : inside i -> Q tt (W (upd g i (f (g i)))) -> wp (st i f) Q (W g).
Proof.
  intros Hi HQ. unfold st. apply wp_bind, wp_ld_elem; [done|]. apply wp_modify.
  replace (fmap _ (W g)) with (W (upd g i (f (g i)))); [done|].
  unfold W. cbn. do 2 f_equal. apply list_eq. intros k. destruct (decide (Z.of_nat k < n)) as [Hk|Hk].
  - rewrite list_lookup_fmap, lookup_seqZ_lt by lia. cbn. destruct (decide (k = Z.to_nat i)) as [->|Hne].
    + rewrite list_lookup_insert_eq by (rewrite length_fmap, length_seqZ; lia). unfold upd. by rewrite decide_True by lia.
    + rewrite list_lookup_insert_ne, list_lookup_fmap, lookup_seqZ_lt by lia. cbn. unfold upd. by rewrite decide_False by lia.
  - rewrite !lookup_ge_None_2; [done|..]; rewrite ?length_insert, length_fmap, length_seqZ; lia.
Qed.

Ltac run := repeat lazymatch goal with
  | |- wp (bind _ _) _ _ => apply wp_bind
  | |- wp (ld _) _ (W _) => apply wp_ld_elem; [assumption|]
  | |- wp (st _ _) _ (W _) => apply wp_st_elem; [assumption|]
  | |- wp (ret _) _ _ => apply wp_ret
  end.

(** ** Classes as cycles *)

(** The links from [x] through [l] to [y]. *)
Fixpoint path (g : Z -> elem) (x : Z) (l : list Z) (y : Z) : Prop :=
  match l with [] => next (g x) = y | z :: l => next (g x) = z /\ path g z l y end.

Lemma path_app g x l1 z l2 y : path g x (l1 ++ z :: l2) y <-> path g x l1 z /\ path g z l2 y.
Proof. revert x. induction l1 as [|w l1 IH]; intros x; cbn; [done|]. rewrite IH. tauto. Qed.

Lemma path_ext g g' x l y : (forall z, z ∈ x :: l -> next (g' z) = next (g z)) -> path g x l y -> path g' x l y.
Proof.
  revert x. induction l as [|w l IH]; intros x He; cbn.
  - intros <-. apply He. set_solver.
  - intros [<- Hp]. split; [apply He; set_solver|]. apply IH; [|done]. intros z Hz. apply He. set_solver.
Qed.

(** A cycle may start anywhere. *)
Lemma cycle_rotate g x l z : path g x l x -> z ∈ x :: l -> exists l', path g z l' z /\ z :: l' ≡ₚ x :: l.
Proof.
  intros Hp [->|Hz]%elem_of_cons; [by exists l|]. apply list_elem_of_split in Hz as (l1 & l2 & ->).
  apply path_app in Hp as [H1 H2]. exists (l2 ++ x :: l1). split; [by apply path_app|]. solve_Permutation.
Qed.

(** The links from an element run through its class and back; the canonical
    element is in the class and counts its elements. *)
Definition wf (g : Z -> elem) : Prop := forall i, inside i -> exists l,
  path g i l i /\ NoDup (i :: l) /\
  (forall j, j ∈ i :: l <-> inside j /\ class_element (g j) = class_element (g i)) /\
  class_element (g i) ∈ i :: l /\
  class_count (g (class_element (g i))) = Z.of_nat (length (i :: l)).

Lemma length_class (l : list Z) : 0 <= n -> NoDup l -> (forall j, j ∈ l -> inside j) -> Z.of_nat (length l) <= n.
Proof.
  intros H0 Hn Hl. rewrite <- (Z2Nat.id n), <- (length_seqZ 0 n) by done. apply inj_le.
  apply submseteq_length, NoDup_submseteq; [done|]. intros j Hj%Hl. apply elem_of_seqZ. lia.
Qed.

(** *** Relabelling *)

Lemma relabel_wp fuel e2 class l x g :
  path g x l e2 -> NoDup l -> e2 ∉ l -> Forall (fun j => inside j) l -> (length l < fuel)%nat ->
  wp (cloop fuel (relabel_turn e2 class) (next (g x))) (fun _ w' => exists g', w' = W g' /\
    forall j, g' j = if decide (j ∈ l) then set_class class (g j) else g j) (W g).
Proof.
  revert l x g. induction fuel as [|fuel IH]; intros l x g Hp Hn He Hl Hf; [lia|].
  cbn [cloop]. apply wp_bind. unfold relabel_turn at 1. destruct l as [|z l]; cbn in Hp.
  - rewrite Hp, Z.eqb_refl. run. exists g. split; [done|]. intros j. by rewrite decide_False by set_solver.
  - destruct Hp as [-> Hp]. apply NoDup_cons in Hn as [Hz Hn]. apply Forall_cons in Hl as [Hzr Hl].
    rewrite (proj2 (Z.eqb_neq z e2)) by set_solver. run. cbn in Hf.
    eapply wp_mono; [apply (IH l z); [|done|set_solver|done|lia]|].
    + eapply path_ext; [|exact Hp]. intros y _. unfold upd. by case_decide; subst.
    + intros [] w' (g' & -> & Hg). exists g'. split; [done|]. intros j. rewrite Hg. unfold upd.
      repeat case_decide; subst; set_solver.
Qed.

(** *** Union *)

Abbreviation cls g i := (class_element (g i)).

(** The class of [e2] joins that of [e1]. *)
Record merged g (e1 e2 : Z) g' : Prop := Merged {
  mg_next : forall j, next (g' j) = if decide (j = e1) then next (g e2) else if decide (j = e2) then next (g e1) else next (g j);
  mg_class : forall j, inside j -> cls g' j = if decide (cls g j = cls g e2) then cls g e1 else cls g j;
  mg_count : forall j, class_count (g' j) =
    if decide (j = cls g e1) then u32 (class_count (g (cls g e1)) + class_count (g (cls g e2))) else class_count (g j) }.

Lemma merged_wf g e1 e2 g' :
  0 <= n < 2147483648 -> wf g -> inside e1 -> inside e2 -> cls g e1 <> cls g e2 -> merged g e1 e2 g' -> wf g'.
Proof.
  intros Hn Hwf H1 H2 Hne [Mn Mc Mk].
  destruct (Hwf e1 H1) as (l1 & P1 & N1 & M1 & C1 & K1). destruct (Hwf e2 H2) as (l2 & P2 & N2 & M2 & C2 & K2).
  assert (He12 : e1 <> e2) by congruence.
  set (C := e1 :: l2 ++ e2 :: l1).
  assert (HC : C ≡ₚ (e1 :: l1) ++ (e2 :: l2)) by (unfold C; solve_Permutation).
  assert (Hdisj : forall j, j ∈ e1 :: l1 -> j ∉ e2 :: l2) by (intros j [_ E1]%M1 [_ E2]%M2; congruence).
  assert (HmC : forall j, j ∈ C <-> inside j /\ cls g' j = cls g e1).
  { intros j. rewrite HC, elem_of_app, M1, M2. split.
    - intros [[Hj E]|[Hj E]]; rewrite Mc by done; case_decide; (split; [done|congruence]).
    - intros [Hj E]. rewrite Mc in E by done. case_decide; auto. }
  assert (HnC : NoDup C) by (rewrite HC; by apply NoDup_app).
  assert (HpC : path g' e1 (l2 ++ e2 :: l1) e1).
  { assert (Hout : e1 ∉ l1 /\ e1 ∉ l2 /\ e2 ∉ l1 /\ e2 ∉ l2).
    { pose proof (Hdisj e1). pose proof (Hdisj e2). apply NoDup_cons in N1, N2. set_solver. }
    assert (Hsame : forall z, z ∈ l1 \/ z ∈ l2 -> next (g' z) = next (g z)).
    { intros z Hz. rewrite Mn. rewrite !decide_False; [done|intros ->; tauto..]. }
    apply path_app. split.
    - destruct l2 as [|z l2]; cbn in *; [by rewrite Mn, decide_True|]. destruct P2 as [E P2].
      split; [by rewrite Mn, decide_True|]. eapply path_ext; [|exact P2]. intros y Hy. apply Hsame. by right.
    - destruct l1 as [|z l1]; cbn in *; [by rewrite Mn, decide_False, decide_True|]. destruct P1 as [E P1].
      split; [by rewrite Mn, decide_False, decide_True|]. eapply path_ext; [|exact P1]. intros y Hy. apply Hsame. by left. }
  intros i Hi. destruct (decide (i ∈ C)) as [HiC|HiC].
  - destruct (cycle_rotate _ _ _ i HpC HiC) as (l & Hl & Hp). fold C in Hp.
    assert (Ei : cls g' i = cls g e1) by (by apply HmC). cbn in Ei.
    exists l. split_and!; [done|by rewrite Hp| | |].
    + intros j. rewrite Hp, HmC. cbn. by rewrite Ei.
    + rewrite Hp, Ei, HC. set_solver.
    + rewrite Ei, Mk, decide_True, K1, K2 by done. rewrite Hp, HC, length_app, Nat2Z.inj_add.
      apply u32_small. split; [lia|]. rewrite <- Nat2Z.inj_add, <- length_app, <- HC.
      pose proof (length_class C ltac:(lia) HnC (fun j Hj => proj1 (proj1 (HmC j) Hj))). lia.
  - destruct (Hwf i Hi) as (l & P & N & M & Cc & K).
    assert (Hni : cls g i <> cls g e1 /\ cls g i <> cls g e2).
    { rewrite HC, elem_of_app, M1, M2 in HiC. tauto. }
    assert (Ei : cls g' i = cls g i) by (rewrite Mc by done; by rewrite decide_False by tauto). cbn in Ei, Hni.
    exists l. split_and!; [|done| | |].
    + eapply path_ext; [|exact P]. intros z [_ Hz]%M. rewrite Mn. rewrite !decide_False; [done|..]; intros ->; destruct Hni; congruence.
    + intros j. rewrite M, Ei. split; intros [Hj E]; (split; [done|]).
      * rewrite Mc by done. rewrite decide_False; [done|]. cbn. rewrite E. tauto.
      * rewrite Mc in E by done. cbn in E. case_decide; [|done]. destruct Hni; congruence.
    + by rewrite Ei.
    + rewrite Ei, Mk, decide_False by tauto. done.
Qed.

Lemma union_body fuel g e1 e2 :
  0 <= n < 2147483648 -> (Z.to_nat n < fuel)%nat -> wf g -> inside e1 -> inside e2 -> cls g e1 <> cls g e2 ->
  wp (y1 <- ld e1 ;;
      let class := class_element y1 in
      y2 <- ld e2 ;;
      c2 <- ld (class_element y2) ;;
      c1 <- ld class ;;
      st class (set_count (u32 (class_count c1 + class_count c2))) ;;;
      st e2 (set_class class) ;;;
      y2 <- ld e2 ;;
      cloop fuel (relabel_turn e2 class) (next y2) ;;;
      y1 <- ld e1 ;;
      y2 <- ld e2 ;;
      st e1 (set_next (next y2)) ;;;
      st e2 (set_next (next y1)) ;;;
      ret class)
    (fun r w' => r = cls g e1 /\ exists g', w' = W g' /\ merged g e1 e2 g') (W g).
Proof.
  intros Hn Hf Hwf H1 H2 Hne.
  destruct (Hwf e1 H1) as (l1 & P1 & N1 & M1 & C1 & K1). destruct (Hwf e2 H2) as (l2 & P2 & N2 & M2 & C2 & K2).
  assert (He12 : e1 <> e2) by congruence.
  assert (Hc1 : inside (cls g e1)) by (by apply M1). assert (Hc2 : inside (cls g e2)) by (by apply M2).
  assert (Ec1 : cls g (cls g e1) = cls g e1) by (by apply M1). cbn in *. run. cbn.
  set (g2 := upd _ e2 _). 
  assert (Hnext : forall j, next (g2 j) = next (g j)).
  { intros j. unfold g2, upd. repeat case_decide; subst; done. }
  apply NoDup_cons in N2 as [Hn2 N2'].
  eapply wp_mono; [apply (relabel_wp fuel e2 (class_element (g e1)) l2 e2 g2); [|done|done| |]|].
  - eapply path_ext; [|exact P2]. intros z _. apply Hnext.
  - apply Forall_forall. intros j Hj. apply (M2 j). by right.
  - assert (NoDup (e2 :: l2)) by (by constructor).
    pose proof (length_class (e2 :: l2) ltac:(lia) ltac:(done) (fun j Hj => proj1 (proj1 (M2 j) Hj))) as Hlen. cbn in Hlen. lia.
  - intros [] w' (g3 & -> & Hg3). run. split; [done|]. eexists. split; [reflexivity|].
    assert (Hn3 : forall j, next (g3 j) = next (g j)) by (intros j; rewrite Hg3, <- Hnext; by case_decide).
    split.
    + intros j. unfold upd. repeat case_decide; subst; cbn; rewrite ?Hn3; done.
    + intros j Hj. specialize (M2 j). rewrite elem_of_cons in M2.
      assert (Hj2 : class_element (g3 j) = if decide (cls g j = cls g e2) then cls g e1 else cls g j).
      { rewrite Hg3. unfold g2, upd. repeat case_decide; subst; cbn; tauto || congruence. }
      unfold upd. repeat case_decide; subst; cbn; congruence.
    + intros j. assert (Hj2 : class_count (g3 j) = class_count (g2 j)) by (rewrite Hg3; by case_decide).
      unfold upd. unfold g2, upd in Hj2. repeat case_decide; subst; cbn in *; congruence.
Qed.

Lemma merged_both g e1 e2 g' :
  inside e1 -> inside e2 -> merged g e1 e2 g' -> cls g' e1 = cls g e1 /\ cls g' e2 = cls g e1.
Proof. intros H1 H2 [_ Mc _]. rewrite !Mc by done. split; by case_decide. Qed.

(** [partition_union] joins the two classes and answers the canonical element
    of the result. *)
Lemma union_wp fuel g a b :
  0 <= n < 2147483648 -> (Z.to_nat n < fuel)%nat -> wf g -> inside a -> inside b ->
  wp (partition_union fuel a b) (fun r w' => exists g', w' = W g' /\ wf g' /\ r = cls g' a /\ r = cls g' b /\
    ((forall j, inside j -> cls g' j = if decide (cls g j = cls g b) then cls g a else cls g j) \/
     (forall j, inside j -> cls g' j = if decide (cls g j = cls g a) then cls g b else cls g j))) (W g).
Proof.
  intros Hn Hf Hwf Ha Hb. unfold partition_union. run.
  destruct (Z.eqb_spec (cls g a) (cls g b)) as [E|E].
  - run. exists g. split_and!; try done. left. intros j _. rewrite E. by case_decide.
  - destruct (class_count (g a) <? class_count (g b)).
    + eapply wp_mono; [apply union_body; done || congruence|]. intros r w' (-> & g' & -> & Hm). exists g'.
      destruct (merged_both g b a g') as [Eb Ea]; [done..|]. rewrite Ea, Eb.
      split_and!; [done|eapply merged_wf; [..|exact Hm]; done || congruence|done..|]. right. apply Hm.
    + eapply wp_mono; [apply union_body; done || congruence|]. intros r w' (-> & g' & -> & Hm). exists g'.
      destruct (merged_both g a b g') as [Ea Eb]; [done..|]. rewrite Ea, Eb.
      split_and!; [done|eapply merged_wf; [..|exact Hm]; done || congruence|done..|]. left. apply Hm.
Qed.

(** *** Printing *)

(** The flag of an element. *)
Definition flag (done : list bool) (j : Z) : bool := nth (Z.to_nat j) done false.

Lemma flag_insert done i j :
  0 <= i < Z.of_nat (length done) -> 0 <= j ->
  flag (<[Z.to_nat i := true]> done) j = if decide (j = i) then true else flag done j.
Proof.
  intros Hi Hj. unfold flag. rewrite !nth_lookup. case_decide as E.
  - subst. rewrite list_lookup_insert_eq by lia. done.
  - rewrite list_lookup_insert_ne by lia. done.
Qed.

Lemma wp_cfor_S {S R} (body : Z -> S -> St part (ctl S R)) (Q : ctl S R -> part -> Prop) k i s w :
  wp (body i s) (fun x w' => match x with Next s' => wp (cfor k (i + 1) body s') Q w' | Exit r => Q (Exit r) w' end) w ->
  wp (cfor (Datatypes.S k) i body s) Q w.
Proof. intros H. cbn [cfor]. apply wp_bind. eapply wp_mono; [exact H|]. by intros [s'|r]. Qed.

Lemma collect_wp g l x y i done acc :
  path g x l y -> Forall (fun j => inside j) (x :: l) -> 0 <= i -> i + Z.of_nat (length (x :: l)) <= n ->
  Z.of_nat (length done) = n ->
  wp (cfor (length (x :: l)) i (collect_turn n) (x, done, acc)) (fun r w' => w' = W g /\ exists c done',
    r = Next (c, done', acc ++ x :: l) /\ Z.of_nat (length done') = n /\
    forall j, 0 <= j -> flag done' j = if decide (j ∈ x :: l) then true else flag done j) (W g).
Proof.
  revert x i done acc. induction l as [|z l IH]; intros x i done acc Hp Hin Hi Hlen Hd;
    pose proof Hin as [Hx Hin']%Forall_cons; cbn [length] in Hlen;
    apply wp_cfor_S; unfold collect_turn at 1;
    rewrite (proj2 (Z.ltb_lt i n)), (proj2 (Z.leb_le 0 x)), (proj2 (Z.ltb_lt x n)) by lia; cbn [negb andb orb]; run.
  - cbn [cfor length]. run. split; [done|]. eexists _, _. split; [reflexivity|]. rewrite length_insert. split; [done|].
    intros j Hj. rewrite flag_insert by lia. repeat case_decide; set_solver.
  - cbn [length] in *. destruct Hp as [E Hp]. rewrite E. eapply wp_mono.
    + apply (IH z (i + 1) (<[Z.to_nat x := true]> done) (acc ++ [x])); [done|done|lia|lia|by rewrite length_insert].
    + intros r w' (-> & c & done' & -> & Hd' & Hf). split; [done|]. exists c, done'.
      split; [by rewrite <- app_assoc|]. split; [done|]. intros j Hj. rewrite Hf, flag_insert by lia.
      repeat case_decide; set_solver.
Qed.

Lemma le_elem_le x y : le_elem x y <-> x <= y.
Proof. unfold le_elem, elem_compare. repeat case_match; lia. Qed.

#[local] Instance le_elem_trans : Transitive le_elem.
Proof. intros x y z. rewrite !le_elem_le. lia. Qed.

#[local] Instance le_elem_total : Total le_elem.
Proof. intros x y. rewrite !le_elem_le. lia. Qed.

#[local] Instance le_elem_antisymm : AntiSymm (=) le_elem.
Proof. intros x y. rewrite !le_elem_le. lia. Qed.

Lemma seqZ_sorted (P : Z -> Prop) `{!forall x, Decision (P x)} a k : StronglySorted le_elem (filter P (seqZ a k)).
Proof.
  destruct (decide (0 <= k)) as [Hk|]; [|rewrite seqZ_nil by lia; constructor].
  revert a. pattern k. apply natlike_ind; [|clear k Hk; intros k Hk IH a|done]; [intros a; constructor|].
  rewrite seqZ_cons, Z.pred_succ by lia. rewrite filter_cons. case_decide; [|apply IH].
  constructor; [apply IH|]. apply Forall_forall. intros j [_ Hj%elem_of_seqZ]%list_elem_of_filter. apply le_elem_le. lia.
Qed.

(** A class, sorted. *)
Definition class_of (f : Z -> Z) (e : Z) : list Z := filter (fun j => f j = f e) (seqZ 0 n).

Lemma qsort_class g e l :
  inside e -> NoDup (e :: l) -> (forall j, j ∈ e :: l <-> inside j /\ cls g j = cls g e) ->
  qsort (e :: l) = class_of (class_element ∘ g) e.
Proof.
  intros He Hn Hm. apply (StronglySorted_unique le_elem).
  - apply StronglySorted_merge_sort; apply _.
  - apply seqZ_sorted.
  - unfold qsort. rewrite merge_sort_Permutation. apply NoDup_Permutation; [done|apply NoDup_filter, NoDup_seqZ|].
    intros j. rewrite Hm. unfold class_of. rewrite list_elem_of_filter, elem_of_seqZ. cbn. intuition lia.
Qed.

(** The first of its class. *)
Definition leader (f : Z -> Z) (e : Z) : bool := forallb (fun i => negb (f i =? f e)) (seqZ 0 e).

Definition print_class (f : Z -> Z) (e : Z) : list Z := [40] ++ print_elems true (class_of f e) ++ [41].

(** The classes in the order of their least elements. *)
Definition print_classes (f : Z -> Z) (m : Z) : list Z :=
  flat_map (print_class f) (filter (fun e => leader f e = true) (seqZ 0 m)).

Definition print_spec (f : Z -> Z) : list Z := [91] ++ print_classes f n ++ [93].

Lemma seqZ_snoc m : 0 <= m -> seqZ 0 (m + 1) = seqZ 0 m ++ [m].
Proof. intros Hm. rewrite seqZ_app by lia. done. Qed.

Lemma print_classes_snoc f m :
  0 <= m -> print_classes f (m + 1) = print_classes f m ++ (if leader f m then print_class f m else []).
Proof.
  intros Hm. unfold print_classes. rewrite seqZ_snoc by done. rewrite filter_app, flat_map_app. f_equal.
  rewrite filter_cons. destruct (leader f m); [|done]. exact (app_nil_r _).
Qed.

Lemma leader_spec f e : leader f e = true <-> forall i, 0 <= i < e -> f i <> f e.
Proof.
  unfold leader. rewrite forallb_forall. split; intros H i Hi.
  - specialize (H i). rewrite <- list_elem_of_In, elem_of_seqZ in H. specialize (H ltac:(lia)). by destruct (Z.eqb_spec (f i) (f e)).
  - apply list_elem_of_In, elem_of_seqZ in Hi. specialize (H i ltac:(lia)). by destruct (Z.eqb_spec (f i) (f e)).
Qed.

Lemma print_wp xmalloc_ok g :
  0 <= n < 2147483648 -> wf g ->
  wp (partition_print xmalloc_ok) (fun r w' => match r with
    | Some out => w' = W g /\ out = print_spec (class_element ∘ g)
    | None => exists k, xmalloc_ok k = false
    end) (W g).
Proof.
  intros Hn Hwf. set (f := class_element ∘ g). unfold partition_print. apply wp_bind.
  apply (wp_eq _ _ _ n (W g)); [done|].
  destruct (xmalloc_ok (u64 n)) eqn:E1; cbn [negb]; [|apply wp_ret; eauto].
  destruct (xmalloc_ok (u64 (n * 4))) eqn:E2; cbn [negb]; [|apply wp_ret; eauto].
  apply wp_bind. eapply (wp_cfor (fun e s w => w = W g /\ Z.of_nat (length s.1) = n /\
    (forall j, inside j -> flag s.1 j = true <-> exists i, 0 <= i < e /\ f i = f j) /\
    s.2 = [91] ++ print_classes f e)).
  - split; [done|]. cbn [fst snd]. rewrite length_replicate. split; [lia|]. split; [|done].
    intros j Hj. unfold flag. rewrite nth_lookup, lookup_replicate_2 by lia. split; [done|]. intros (i & ? & _). lia.
  - intros e [done out] w He (-> & Hd & Hfl & Eo). cbn [fst snd] in *. rewrite Z2Nat.id, Z.add_0_l in He by lia.
    assert (Hie : inside e) by lia. unfold print_turn. fold (flag done e).
    rewrite print_classes_snoc by lia. destruct (flag done e) eqn:Ef.
    + apply Hfl in Ef as (i0 & Hi0 & Ei0); [|done]. run. split; [done|]. split; [done|]. split.
      * intros j Hj. rewrite (Hfl j Hj). split; intros (i & Hi & Ei); [exists i; split; [lia|done]|].
        destruct (decide (i = e)) as [->|]; [exists i0; split; [lia|congruence]|exists i; split; [lia|done]].
      * assert (leader f e = false) as ->; [|by rewrite app_nil_r].
        apply not_true_iff_false. rewrite leader_spec. intros H. by apply (H i0 Hi0).
    + assert (Hl : leader f e = true).
      { apply leader_spec. intros i Hi Ei. assert (flag done e = true) by (apply Hfl; eauto). congruence. }
      rewrite Hl. destruct (Hwf e Hie) as (l & P & N & M & C & K). run.
      assert (Hc : inside (cls g e)) by (by apply M). run.
      assert (Hin : Forall (fun j => inside j) (e :: l)) by (apply Forall_forall; intros j [? _]%M; done).
      pose proof (length_class (e :: l) ltac:(lia) N (fun j Hj => proj1 (proj1 (M j) Hj))) as Hlen.
      rewrite K, i32_small, Nat2Z.id by lia. eapply wp_mono; [by eapply collect_wp; [exact P|..]; (done || lia)|].
      intros r w' (-> & c & done' & -> & Hd' & Hf'). cbn [app]. run. cbn [fst snd]. split; [done|]. split; [done|]. split.
      * intros j Hj. rewrite Hf' by lia. case_decide as Hm.
        -- split; [|done]. intros _. exists e. split; [lia|]. apply M in Hm as [_ Hm]. done.
        -- rewrite (Hfl j Hj). split; intros (i & Hi & Ei); [exists i; split; [lia|done]|].
           destruct (decide (i = e)) as [->|]; [|exists i; split; [lia|done]].
           destruct Hm. apply M. split; [done|]. by symmetry.
      * rewrite Eo, (qsort_class g e l) by done. by rewrite <- app_assoc.
  - intros [done out] w (-> & _ & _ & Eo). cbn [fst snd] in *. run. split; [done|].
    rewrite Eo, Z.add_0_l, Z2Nat.id by lia. unfold print_spec. by rewrite <- app_assoc.
Qed.

(** ** Sessions *)

Lemma new_ok xmalloc_ok w : partition_new xmalloc_ok n = Some w -> w = W (fun e => El e e 1).
Proof. unfold partition_new. by destruct (xmalloc_ok _); [intros [= <-]|]. Qed.

Lemma new_wf : wf (fun e => El e e 1).
Proof.
  intros i Hi. exists []. cbn. split_and!; [done|apply NoDup_singleton| |set_solver|done].
  intros j. rewrite list_elem_of_singleton. split; [by intros ->|by intros [_ ->]].
Qed.
End proofs.

Inductive op := Union (a b : Z) | Find (a : Z) | Print.

Section session.
Context (n : Z) (xmalloc_ok : Z -> bool) (fuel : nat).

Abbreviation inside i := (0 <= i < n).

Definition run_op (o : op) : St part (option (list Z)) :=
  match o with
  | Union a b => r <- partition_union fuel a b ;; ret (Some [r])
  | Find a => r <- partition_find a ;; ret (Some [r])
  | Print => partition_print xmalloc_ok
  end.

Fixpoint run_ops (os : list op) : St part (option (list (list Z))) :=
  match os with
  | [] => ret (Some [])
  | o :: os => r <-? run_op o ;; rs <-? run_ops os ;; ret (Some (r :: rs))
  end.

Definition op_inside (o : op) : Prop :=
  match o with Union a b => inside a /\ inside b | Find a => inside a | Print => True end.

(** One of the two representatives is kept for the union. *)
Definition joined (f : Z -> Z) (a b : Z) (f' : Z -> Z) : Prop :=
  (forall j, inside j -> f' j = if decide (f j = f b) then f a else f j) \/
  (forall j, inside j -> f' j = if decide (f j = f a) then f b else f j).

(** The session on the map from elements to representatives. *)
Definition op_spec (o : op) (f : Z -> Z) (r : list Z) (f' : Z -> Z) : Prop :=
  match o with
  | Union a b => joined f a b f' /\ r = [f' a] /\ r = [f' b]
  | Find a => f' = f /\ r = [f a]
  | Print => f' = f /\ r = print_spec n f
  end.

Fixpoint ops_spec (os : list op) (f : Z -> Z) (rs : list (list Z)) (f' : Z -> Z) : Prop :=
  match os, rs with
  | [], [] => f' = f
  | o :: os, r :: rs => exists f1, op_spec o f r f1 /\ ops_spec os f1 rs f'
  | _, _ => False
  end.

Definition unless_refused {A} (Q : A -> part -> Prop) (r : option A) (w : part) : Prop :=
  match r with Some a => Q a w | None => exists k, xmalloc_ok k = false end.

Abbreviation f_of g := (class_element ∘ g).

Lemma part_op_wp o g :
  0 <= n < 2147483648 -> (Z.to_nat n < fuel)%nat -> wf n g -> op_inside o ->
  wp (run_op o) (unless_refused (fun r w' => exists g', w' = W n g' /\ wf n g' /\ op_spec o (f_of g) r (f_of g'))) (W n g).
Proof.
  intros Hn Hf Hwf Ho. destruct o as [a b|a|]; cbn [run_op op_spec].
  - destruct Ho as [Ha Hb]. apply wp_bind. eapply wp_mono; [by apply union_wp|].
    intros r w' (g' & -> & Hg' & Ea & Eb & Hj). apply wp_ret. exists g'. split; [done|]. split; [done|].
    split; [done|]. cbn. split; by f_equal.
  - apply wp_bind. unfold partition_find. apply wp_bind, wp_ld_elem; [done|]. apply wp_ret, wp_ret. by exists g.
  - eapply wp_mono; [by apply print_wp|]. intros [out|] w'; [|done]. intros [-> ->]. by exists g.
Qed.

Lemma part_ops_wp os g :
  0 <= n < 2147483648 -> (Z.to_nat n < fuel)%nat -> wf n g -> Forall op_inside os ->
  wp (run_ops os) (unless_refused (fun rs w' => exists g', w' = W n g' /\ wf n g' /\ ops_spec os (f_of g) rs (f_of g'))) (W n g).
Proof.
  intros Hn Hf Hwf Hos. revert g Hwf. induction Hos as [|o os Ho _ IH]; intros g Hwf; cbn [run_ops].
  - apply wp_ret. by exists g.
  - apply wp_bind. eapply wp_mono; [by apply part_op_wp|]. intros [r|] w'; [|done]. intros (g1 & -> & Hg1 & H1).
    apply wp_bind. eapply wp_mono; [by apply IH|]. intros [rs|] w'; [|done]. intros (g' & -> & Hg' & H2).
    apply wp_ret. exists g'. split; [done|]. split; [done|]. cbn. eauto.
Qed.

(** The pairs that were united. *)
Definition united (os : list op) (a b : Z) : Prop := Union a b ∈ os.

(** [f] tells the classes of the equivalence that [R] generates. *)
Definition decides (f : Z -> Z) (R : Z -> Z -> Prop) : Prop := forall i j, inside i -> inside j -> f i = f j <-> rtsc R i j.

Lemma rtsc_sub (R R' : Z -> Z -> Prop) x y : (forall a b, R a b -> R' a b) -> rtsc R x y -> rtsc R' x y.
Proof. intros H Hr. exact (rtsc_congruence id R' x y H Hr). Qed.

Lemma decides_equiv f (R R' : Z -> Z -> Prop) : (forall x y, R x y <-> R' x y) -> decides f R -> decides f R'.
Proof. intros H Hd i j Hi Hj. rewrite (Hd i j Hi Hj). split; apply rtsc_sub; intros x y; apply H. Qed.

Lemma joined_decides f a b f' (R R' : Z -> Z -> Prop) :
  inside a -> inside b -> decides f R -> joined f a b f' -> (forall x y, R x y -> inside x /\ inside y) ->
  (forall x y, R' x y <-> R x y \/ (x = a /\ y = b)) -> decides f' R'.
Proof.
  intros Ha Hb Hd Hj HR HR' i j Hi Hj'.
  assert (Hsub : forall x y, rtsc R x y -> rtsc R' x y).
  { intros x y. apply rtsc_sub. intros x' y' Hxy. apply HR'. by left. }
  assert (Hab : rtsc R' a b) by (apply rtsc_lr, HR'; by right).
  split.
  - intros E. assert (Hk : f i = f j \/ (f i = f a /\ f j = f b) \/ (f i = f b /\ f j = f a)).
    { destruct Hj as [Hj|Hj]; rewrite !Hj in E by done; repeat case_decide;
        first [left; congruence | right; left; split; congruence | right; right; split; congruence]. }
    destruct Hk as [Hk|[[H1 H2]|[H1 H2]]].
    + apply Hsub. by apply Hd.
    + trans a; [apply Hsub; by apply Hd|]. trans b; [exact Hab|]. apply Hsub. by apply Hd.
    + trans b; [apply Hsub; by apply Hd|]. trans a; [by symmetry|]. apply Hsub. by apply Hd.
  - assert (Hone : forall x y, R' x y -> f' x = f' y).
    { intros x y Hxy. assert (Hin : inside x /\ inside y) by (apply HR' in Hxy as [?|[-> ->]]; auto).
      assert (Hk : f x = f y \/ (f x = f a /\ f y = f b)).
      { apply HR' in Hxy as [Hxy|[-> ->]]; [|auto]. left. apply Hd; [by apply Hin..|]. by apply rtsc_lr. }
      destruct Hj as [Hj|Hj]; rewrite !Hj by apply Hin; repeat case_decide; destruct Hk as [|[]]; congruence. }
    intros H. unfold rtsc in H. clear Hi Hj'. induction H as [|x y z [H|H] _ IH]; [done|..].
    + by rewrite (Hone x y).
    + by rewrite <- (Hone y x).
Qed.

Lemma ops_decides os f rs f' R :
  Forall op_inside os -> decides f R -> (forall x y, R x y -> inside x /\ inside y) ->
  ops_spec os f rs f' -> decides f' (fun a b => R a b \/ united os a b).
Proof.
  intros Hos. revert f rs R. induction Hos as [|o os Ho _ IH]; intros f rs R Hd HR; destruct rs as [|r rs]; try done.
  - intros ->. eapply decides_equiv; [|exact Hd]. intros x y. unfold united. set_solver.
  - intros (f1 & H1 & H2). set (R1 := fun a b => R a b \/ Union a b = o).
    assert (Hd1 : decides f1 R1).
    { destruct o as [a b|a|]; cbn in H1, Ho.
      - destruct H1 as [Hj _]. destruct Ho as [Ha Hb]. eapply joined_decides; [exact Ha|exact Hb|exact Hd|exact Hj|done|].
        intros x y. unfold R1. split; (intros [?|H]; [by left|right]); [by injection H|by destruct H; subst].
      - destruct H1 as [-> _]. eapply decides_equiv; [|exact Hd]. intros x y. unfold R1. by intuition.
      - destruct H1 as [-> _]. eapply decides_equiv; [|exact Hd]. intros x y. unfold R1. by intuition. }
    assert (HR1 : forall x y, R1 x y -> inside x /\ inside y) by (intros x y [?|<-]; auto).
    eapply decides_equiv; [|exact (IH f1 rs R1 Hd1 HR1 H2)]. intros x y. unfold R1, united. rewrite elem_of_cons. tauto.
Qed.

Lemma ids_decide : decides (f_of (fun e => El e e 1)) (fun _ _ => False).
Proof.
  intros i j _ _. cbn. split; [by intros ->|]. intros H. unfold rtsc in H.
  by induction H as [|x y z [[]|[]] _ _].
Qed.

Lemma ops_united os rs f' :
  Forall op_inside os -> ops_spec os (f_of (fun e => El e e 1)) rs f' -> decides f' (united os).
Proof.
  intros Hos H. eapply decides_equiv; [|eapply ops_decides; [done|apply ids_decide| |exact H]]; cbn; tauto.
Qed.
End session.

(** C26: A session of unions, finds and prints on a new partition of [n] elements
    is the session on the map from elements to representatives, which starts
    as the identity: a union makes one representative of two, a find answers
    the representative, a print writes the classes in the order of their
    least elements, each sorted. Two elements end up with the same
    representative exactly when the unions connect them. The session returns
    unless an allocation is refused; [n + 1] turns are enough for the loop of a
    union. *)
Theorem partition_refines n xmalloc_ok fuel os w :
  0 <= n < 2147483648 -> (Z.to_nat n < fuel)%nat -> partition_new xmalloc_ok n = Some w -> Forall (op_inside n) os ->
  wp (run_ops xmalloc_ok fuel os) (unless_refused xmalloc_ok (fun rs _ => exists f,
    ops_spec n os id rs f /\ forall i j, 0 <= i < n -> 0 <= j < n -> f i = f j <-> rtsc (united os) i j)) w.
Proof.
  intros Hn Hf Hw Hos. rewrite (new_ok n xmalloc_ok w Hw).
  eapply wp_mono; [apply (part_ops_wp n xmalloc_ok fuel os); [done..|apply new_wf|done]|].
  intros [rs|] w'; [|done]. intros (g' & _ & _ & Hs). exists (class_element ∘ g'). split; [exact Hs|].
  intros i j Hi Hj. by apply (ops_united n xmalloc_ok os rs (class_element ∘ g') Hos Hs).
Qed.

(** C27: Every session keeps the elements well formed: the links from an element
    stay inside the array, run through exactly the elements of its class and
    return to it, the canonical element belongs to the class, and its count is
    the size of the class. *)
Theorem partition_well_formed n xmalloc_ok fuel os w :
  0 <= n < 2147483648 -> (Z.to_nat n < fuel)%nat -> partition_new xmalloc_ok n = Some w -> Forall (op_inside n) os ->
  wp (run_ops xmalloc_ok fuel os) (unless_refused xmalloc_ok (fun _ w' => exists g, w' = W n g /\ wf n g)) w.
Proof.
  intros Hn Hf Hw Hos. rewrite (new_ok n xmalloc_ok w Hw).
  eapply wp_mono; [apply (part_ops_wp n xmalloc_ok fuel os); [done..|apply new_wf|done]|].
  intros [rs|] w'; [|done]. intros (g' & ? & ? & _). by exists g'.
Qed.

Definition demo_ops : list op := [Union 3 5; Union 1 4; Print; Union 5 4; Find 1; Union 0 2; Print].

Definition demo : part := Some (Def 6 ((fun e => El e e 1) <$> seqZ 0 6)).

(** [(0)(1 4)(2)(3 5)], then [(0 2)(1 3 4 5)]. *)
Example partition_demo :
  (if run_ops (fun _ => true) 7 demo_ops demo is Done (Some rs, _) then rs else []) =
  [[3]; [1]; [91; 40; 48; 41; 40; 49; 32; 52; 41; 40; 50; 41; 40; 51; 32; 53; 41; 93]; [3]; [3]; [0];
   [91; 40; 48; 32; 50; 41; 40; 49; 32; 51; 32; 52; 32; 53; 41; 93]].
Proof. vm_compute. reflexivity. Qed.

Lemma demo_inside : Forall (op_inside 6) demo_ops.
Proof. repeat constructor; cbn; lia. Qed.

Lemma partition_refines_witness :
  wp (run_ops (fun _ => true) 7 demo_ops) (unless_refused (fun _ => true) (fun rs _ => exists f,
    ops_spec 6 demo_ops id rs f /\ forall i j, 0 <= i < 6 -> 0 <= j < 6 -> f i = f j <-> rtsc (united demo_ops) i j)) demo.
Proof.
  apply (partition_refines 6 (fun _ => true) 7 demo_ops demo); [lia|cbn; lia|reflexivity|exact demo_inside].
Defined.

Lemma partition_well_formed_witness :
  wp (run_ops (fun _ => true) 7 demo_ops) (unless_refused (fun _ => true) (fun _ w' => exists g, w' = W 6 g /\ wf 6 g)) demo.
Proof.
  apply (partition_well_formed 6 (fun _ => true) 7 demo_ops demo); [lia|cbn; lia|reflexivity|exact demo_inside].
Defined.

(** The union of a class of three with a single element goes by the counts of
    the two elements it is called with: 2 of [1] is not canonical, its count is
    still 1, and the larger class is relabelled. *)
Example stale_count :
  (if (partition_union 5 0 1 ;;; partition_union 5 0 2 ;;; partition_union 5 3 1 ;;; partition_find 2) (Some (Def 4 ((fun e => El e e 1) <$> seqZ 0 4)))
   is Done (c, _) then c else -1) = 3.
Proof. vm_compute. reflexivity. Qed.
