(* ===== verification/Fibheap.v ===== *)
(** The Fibonacci heaps of [libiberty/fibheap.c] and [include/fibheap.h], on a
    store of heaps and of nodes in circular doubly linked lists. The invariant
    [Inv] relates the fields of the nodes to the forest they form and also
    holds, with its exceptions spelled out, in the middle of an operation;
    [spec] is what a client sees: priority queues over nodes. *)
From stdpp Require Import sets.
From S2P Require Import Prelude.

(** ** The source *)

(** [struct fibnode]; pointers are addresses, 0 is NULL. *)
Record fibnode := Fn {
  parent : Z; child : Z; left : Z; right : Z; key : Z; data : Z; degree : Z; mark : Z }.

(** [struct fibheap]. *)
Record fibheap := Fh { nodes : Z; min : Z; root : Z }.

(** The heaps and the nodes that are allocated. *)
Record world := World { hs : gmap Z fibheap; ns : gmap Z fibnode }.

(** Where [xcalloc] places a heap or a node; it ends the process when memory
    runs out ([None]). *)
Class Alloc := { place_heap : world -> option Z; place_node : world -> option Z }.

Class AllocLaws `{Alloc} := {
  place_heap_fresh : forall w p, place_heap w = Some p -> p <> 0 /\ hs w !! p = None;
  place_node_fresh : forall w p, place_node w = Some p -> p <> 0 /\ ns w !! p = None }.

Definition set_parent (v : Z) (n : fibnode) := Fn v (child n) (left n) (right n) (key n) (data n) (degree n) (mark n).
Definition set_child (v : Z) (n : fibnode) := Fn (parent n) v (left n) (right n) (key n) (data n) (degree n) (mark n).
Definition set_left (v : Z) (n : fibnode) := Fn (parent n) (child n) v (right n) (key n) (data n) (degree n) (mark n).
Definition set_right (v : Z) (n : fibnode) := Fn (parent n) (child n) (left n) v (key n) (data n) (degree n) (mark n).
Definition set_key (v : Z) (n : fibnode) := Fn (parent n) (child n) (left n) (right n) v (data n) (degree n) (mark n).
Definition set_data (v : Z) (n : fibnode) := Fn (parent n) (child n) (left n) (right n) (key n) v (degree n) (mark n).
Definition set_mark (v : Z) (n : fibnode) := Fn (parent n) (child n) (left n) (right n) (key n) (data n) (degree n) v.

(** The degree is a field of 31 bits. *)
Definition add_degree (v : Z) (n : fibnode) :=
  Fn (parent n) (child n) (left n) (right n) (key n) (data n) (wrap 31 (degree n + v)) (mark n).

Definition set_nodes (v : Z) (h : fibheap) := Fh v (min h) (root h).
Definition set_min (v : Z) (h : fibheap) := Fh (nodes h) v (root h).
Definition set_root (v : Z) (h : fibheap) := Fh (nodes h) (min h) v.

Section source.
Context `{Alloc}.

Definition ld (p : Z) : St world fibnode := fun w =>
  match ns w !! p with Some n => Done (n, w) | None => Undef end.

Definition st (p : Z) (f : fibnode -> fibnode) : St world unit := fun w =>
  match ns w !! p with Some n => Done (tt, World (hs w) (<[p := f n]> (ns w))) | None => Undef end.

Definition ldh (p : Z) : St world fibheap := fun w =>
  match hs w !! p with Some h => Done (h, w) | None => Undef end.

Definition sth (p : Z) (f : fibheap -> fibheap) : St world unit := fun w =>
  match hs w !! p with Some h => Done (tt, World (<[p := f h]> (hs w)) (ns w)) | None => Undef end.

Definition free_node (p : Z) : St world unit := fun w =>
  match ns w !! p with Some _ => Done (tt, World (hs w) (delete p (ns w))) | None => Undef end.

Definition free_heap (p : Z) : St world unit := fun w =>
  match hs w !! p with Some _ => Done (tt, World (delete p (hs w)) (ns w)) | None => Undef end.

Definition FIBHEAPKEY_MIN : Z := - 9223372036854775808.

Definition fibheap_new : St world (option Z) := fun w =>
  match place_heap w with
  | Some p => Done (Some p, World (<[p := Fh 0 0 0]> (hs w)) (ns w))
  | None => Done (None, w)
  end.

Definition calloc_node : St world (option Z) := fun w =>
  match place_node w with
  | Some p => Done (Some p, World (hs w) (<[p := Fn 0 0 0 0 0 0 0 0]> (ns w)))
  | None => Done (None, w)
  end.

Definition fibnode_new : St world (option Z) :=
  node <-? calloc_node ;;
  st node (set_left node) ;;;
  st node (set_right node) ;;;
  ret (Some node).

Definition compare_keys (a b : Z) : Z := if a <? b then -1 else if b <? a then 1 else 0.

Definition fibheap_compare (a b : Z) : St world Z :=
  x <- ld a ;; y <- ld b ;; ret (compare_keys (key x) (key y)).

Definition fibheap_comp_data (k : Z) (b : Z) : St world Z := y <- ld b ;; ret (compare_keys k (key y)).

Definition fibnode_insert_after (a b : Z) : St world unit :=
  x <- ld a ;;
  if a =? right x then
    st a (set_right b) ;;; st a (set_left b) ;;;
    st b (set_right a) ;;; st b (set_left a)
  else
    st b (set_right (right x)) ;;;
    st (right x) (set_left b) ;;;
    st a (set_right b) ;;;
    st b (set_left a).

Definition fibnode_insert_before (a b : Z) : St world unit := x <- ld a ;; fibnode_insert_after (left x) b.

Definition fibnode_remove (node : Z) : St world Z :=
  x <- ld node ;;
  let r := if node =? left x then 0 else left x in
  (if negb (parent x =? 0) then
     p <- ld (parent x) ;;
     if child p =? node then st (parent x) (set_child r) else ret tt
   else ret tt) ;;;
  st (right x) (set_left (left x)) ;;;
  x <- ld node ;;
  st (left x) (set_right (right x)) ;;;
  st node (set_parent 0) ;;;
  st node (set_left node) ;;;
  st node (set_right node) ;;;
  ret r.

Definition fibheap_ins_root (heap node : Z) : St world unit :=
  h <- ldh heap ;;
  if root h =? 0 then
    sth heap (set_root node) ;;;
    st node (set_left node) ;;;
    st node (set_right node)
  else fibnode_insert_after (root h) node.

Definition fibheap_rem_root (heap node : Z) : St world unit :=
  x <- ld node ;;
  if left x =? node then sth heap (set_root 0)
  else r <- fibnode_remove node ;; sth heap (set_root r).

Definition fibheap_link (node par : Z) : St world unit :=
  p <- ld par ;;
  (if child p =? 0 then st par (set_child node) else fibnode_insert_before (child p) node) ;;;
  st node (set_parent par) ;;;
  st par (add_degree 1) ;;;
  st node (set_mark 0).

Definition fibheap_cut (heap node par : Z) : St world unit :=
  fibnode_remove node ;;;
  st par (add_degree (-1)) ;;;
  fibheap_ins_root heap node ;;;
  st node (set_parent 0) ;;;
  st node (set_mark 0).

Definition cascade_turn (heap y : Z) : St world (ctl Z unit) :=
  n <- ld y ;;
  let z := parent n in
  if z =? 0 then ret (Exit tt)
  else if mark n =? 0 then st y (set_mark 1) ;;; ret (Exit tt)
  else fibheap_cut heap y z ;;; ret (Next z).

Definition fibheap_cascading_cut (fuel : nat) (heap y : Z) : St world unit := cloop fuel (cascade_turn heap) y.

Definition fibheap_insert (heap k d : Z) : St world (option Z) :=
  node <-? fibnode_new ;;
  st node (set_data d) ;;;
  st node (set_key k) ;;;
  fibheap_ins_root heap node ;;;
  h <- ldh heap ;;
  less <- (if min h =? 0 then ret true else n <- ld node ;; m <- ld (min h) ;; ret (key n <? key m)) ;;
  (if less : bool then sth heap (set_min node) else ret tt) ;;;
  sth heap (fun h => set_nodes (u64 (nodes h + 1)) h) ;;;
  ret (Some node).

Definition fibheap_min (heap : Z) : St world Z :=
  h <- ldh heap ;; if min h =? 0 then ret 0 else m <- ld (min h) ;; ret (data m).

Definition fibheap_min_key (heap : Z) : St world Z :=
  h <- ldh heap ;; if min h =? 0 then ret 0 else m <- ld (min h) ;; ret (key m).

Definition fibheap_union (heapa heapb : Z) : St world Z :=
  ha <- ldh heapa ;;
  let a_root := root ha in
  if a_root =? 0 then free_heap heapa ;;; ret heapb else
  hb <- ldh heapb ;;
  let b_root := root hb in
  if b_root =? 0 then free_heap heapb ;;; ret heapa else
  x <- ld a_root ;;
  st (left x) (set_right b_root) ;;;
  y <- ld b_root ;;
  st (left y) (set_right a_root) ;;;
  x <- ld a_root ;;
  let temp := left x in
  y <- ld b_root ;;
  st a_root (set_left (left y)) ;;;
  st b_root (set_left temp) ;;;
  sth heapa (fun h => set_nodes (u64 (nodes h + nodes hb)) h) ;;;
  ha <- ldh heapa ;;
  c <- fibheap_compare (min hb) (min ha) ;;
  (if c <? 0 then sth heapa (set_min (min hb)) else ret tt) ;;;
  free_heap heapb ;;;
  ret heapa.

(** *** Consolidation *)

(** The number of entries of the array [a]. *)
Definition D_ENTRIES : Z := 1 + 8 * 8.

Definition geta (a : list Z) (d : Z) : St world Z :=
  if 0 <=? d then match a !! Z.to_nat d with Some x => ret x | None => undef end else undef.

Definition puta (a : list Z) (d x : Z) : St world (list Z) :=
  if (0 <=? d) && (d <? Z.of_nat (length a)) then ret (<[Z.to_nat d := x]> a) else undef.

(** [while (a[d] != NULL)]. *)
Definition link_turn (s : Z * Z * list Z) : St world (ctl (Z * Z * list Z) (Z * Z * list Z)) :=
  let '(x, d, a) := s in
  y <- geta a d ;;
  if y =? 0 then ret (Exit s) else
  c <- fibheap_compare x y ;;
  let swap := 0 <? c in
  let x' := if swap then y else x in
  let y' := if swap then x else y in
  fibheap_link y' x' ;;;
  a <- puta a d 0 ;;
  ret (Next (x', d + 1, a)).

(** [while ((w = heap->root) != NULL)]. *)
Definition consolidate_turn (fuel : nat) (heap : Z) (a : list Z) : St world (ctl (list Z) (list Z)) :=
  h <- ldh heap ;;
  let w := root h in
  if w =? 0 then ret (Exit a) else
  fibheap_rem_root heap w ;;;
  n <- ld w ;;
  s <- cloop fuel link_turn (w, degree n, a) ;;
  match s with
  | (x, d, a) => a <- puta a d x ;; ret (Next a)
  end.

(** The last loop: an entry goes to the root list. *)
Definition gather_turn (heap : Z) (a : list Z) (i : Z) : St world unit :=
  x <- geta a i ;;
  if x =? 0 then ret tt else
  fibheap_ins_root heap x ;;;
  h <- ldh heap ;;
  less <- (if min h =? 0 then ret true else c <- fibheap_compare x (min h) ;; ret (c <? 0)) ;;
  if less : bool then sth heap (set_min x) else ret tt.

Definition fibheap_consolidate (fuel : nat) (heap : Z) : St world unit :=
  a <- cloop fuel (consolidate_turn fuel heap) (replicate (Z.to_nat D_ENTRIES) 0) ;;
  sth heap (set_min 0) ;;;
  cfor_ (Z.to_nat D_ENTRIES) 0 (gather_turn heap a).

(** [for (x = ret->child, orig = NULL; x != orig && x != NULL; x = y)]. *)
Definition adopt_turn (heap : Z) (s : Z * Z) : St world (ctl (Z * Z) unit) :=
  let '(x, orig) := s in
  if (x =? orig) || (x =? 0) then ret (Exit tt) else
  let orig := if orig =? 0 then x else orig in
  n <- ld x ;;
  let y := right n in
  st x (set_parent 0) ;;;
  fibheap_ins_root heap x ;;;
  ret (Next (y, orig)).

Definition fibheap_extr_min_node (fuel : nat) (heap : Z) : St world Z :=
  h <- ldh heap ;;
  let r := min h in
  n <- ld r ;;
  cloop fuel (adopt_turn heap) (child n, 0) ;;;
  fibheap_rem_root heap r ;;;
  sth heap (fun h => set_nodes (u64 (nodes h - 1)) h) ;;;
  h <- ldh heap ;;
  (if nodes h =? 0 then sth heap (set_min 0)
   else
     n <- ld r ;;
     sth heap (set_min (right n)) ;;;
     fibheap_consolidate fuel heap) ;;;
  ret r.

Definition fibheap_extract_min (fuel : nat) (heap : Z) : St world Z :=
  h <- ldh heap ;;
  if min h =? 0 then ret 0 else
  z <- fibheap_extr_min_node fuel heap ;;
  n <- ld z ;;
  free_node z ;;;
  ret (data n).

Definition fibheap_replace_key_data (fuel : nat) (heap node k d : Z) : St world Z :=
  c <- fibheap_comp_data k node ;;
  if 0 <? c then ret 0 else
  n <- ld node ;;
  let odata := data n in
  let okey := key n in
  st node (set_data d) ;;;
  st node (set_key k) ;;;
  let y := parent n in
  if (okey =? k) && negb (okey =? FIBHEAPKEY_MIN) then ret odata else
  up <- (if y =? 0 then ret false else c <- fibheap_compare node y ;; ret (c <=? 0)) ;;
  (if up : bool then fibheap_cut heap node y ;;; fibheap_cascading_cut fuel heap y else ret tt) ;;;
  h <- ldh heap ;;
  c <- fibheap_compare node (min h) ;;
  (if c <=? 0 then sth heap (set_min node) else ret tt) ;;;
  ret odata.

Definition fibheap_replace_data (fuel : nat) (heap node d : Z) : St world Z :=
  n <- ld node ;; fibheap_replace_key_data fuel heap node (key n) d.

(** The old key passes through an [int]. *)
Definition fibheap_replace_key (fuel : nat) (heap node k : Z) : St world Z :=
  n <- ld node ;;
  let okey := i32 (key n) in
  n <- ld node ;;
  fibheap_replace_key_data fuel heap node k (data n) ;;;
  ret okey.

(** [None]: the process aborts. *)
Definition fibheap_delete_node (fuel : nat) (heap node : Z) : St world (option Z) :=
  n <- ld node ;;
  let r := data n in
  fibheap_replace_key fuel heap node FIBHEAPKEY_MIN ;;;
  h <- ldh heap ;;
  if negb (node =? min h) then ret None else
  fibheap_extract_min fuel heap ;;;
  ret (Some r).

Definition delete_turn (fuel : nat) (heap : Z) (_ : unit) : St world (ctl unit unit) :=
  h <- ldh heap ;;
  if min h =? 0 then ret (Exit tt) else
  z <- fibheap_extr_min_node fuel heap ;;
  free_node z ;;;
  ret (Next tt).

Definition fibheap_delete (fuel : nat) (heap : Z) : St world unit :=
  cloop fuel (delete_turn fuel heap) tt ;;;
  free_heap heap.

Definition fibheap_empty (heap : Z) : St world Z := h <- ldh heap ;; ret (if nodes h =? 0 then 1 else 0).
End source.

(** ** The store as a function *)

Definition upd {A} (g : Z -> A) (a : Z) (v : A) : Z -> A := fun x => if decide (x = a) then v else g x.

Lemma upd_eq {A} (g : Z -> A) a v : upd g a v a = v.
Proof. unfold upd. by case_decide. Qed.

Lemma upd_ne {A} (g : Z -> A) a v x : x <> a -> upd g a v x = g x.
Proof. unfold upd. by case_decide. Qed.

(** The nodes in [D] are allocated and [g] says what they hold. *)
Definition store_is (D : gset Z) (g : Z -> fibnode) (m : gmap Z fibnode) : Prop :=
  forall a, m !! a = if decide (a ∈ D) then Some (g a) else None.

Lemma store_upd D g m a n : store_is D g m -> a ∈ D -> store_is D (upd g a n) (<[a := n]> m).
Proof.
  intros Hs Ha b. unfold upd. destruct (decide (b = a)) as [->|Hne].
  - rewrite lookup_insert_eq. by rewrite decide_True.
  - rewrite lookup_insert_ne by done. apply Hs.
Qed.

Section rules.
Context (D : gset Z).
Implicit Types (g : Z -> fibnode) (m : gmap Z fibnode) (H : gmap Z fibheap).

Lemma wp_fld (Q : fibnode -> world -> Prop) g H m a :
  store_is D g m -> a ∈ D -> Q (g a) (World H m) -> wp (ld a) Q (World H m).
Proof. intros Hs Ha HQ. unfold wp, ld. cbn [ns]. rewrite Hs. by rewrite decide_True. Qed.

Lemma wp_fst (Q : unit -> world -> Prop) g H m a f :
  store_is D g m -> a ∈ D ->
  (forall m', store_is D (upd g a (f (g a))) m' -> Q tt (World H m')) -> wp (st a f) Q (World H m).
Proof.
  intros Hs Ha HQ. unfold wp, st. cbn [ns hs]. rewrite Hs. rewrite decide_True by done. apply HQ. by apply store_upd.
Qed.

Lemma wp_ldh (Q : fibheap -> world -> Prop) H m p h :
  H !! p = Some h -> Q h (World H m) -> wp (ldh p) Q (World H m).
Proof. intros E HQ. unfold wp, ldh. cbn [hs]. by rewrite E. Qed.

Lemma wp_sth (Q : unit -> world -> Prop) H m p h f :
  H !! p = Some h -> Q tt (World (<[p := f h]> H) m) -> wp (sth p f) Q (World H m).
Proof. intros E HQ. unfold wp, sth. cbn [hs ns]. by rewrite E. Qed.
End rules.

(** Run accesses to the store: the current [store_is] is replaced at each
    assignment. *)
Ltac is_heap := first [eassumption | rewrite lookup_insert_eq; reflexivity | rewrite lookup_insert_ne by done; eassumption].

Ltac run_one :=
  lazymatch goal with
  | |- wp (bind _ _) _ _ => apply wp_bind
  | |- wp (ld _) _ _ => eapply wp_fld; [eassumption|first [eassumption | set_solver]|]
  | |- wp (st _ _) _ _ =>
      eapply wp_fst; [eassumption|first [eassumption | set_solver]|];
      let Hn := fresh "Hst" in intros ? Hn;
      match goal with Hs : store_is _ _ _ |- _ => lazymatch Hs with Hn => fail | _ => clear Hs end end
  | |- wp (ldh _) _ _ => eapply wp_ldh; [is_heap|]
  | |- wp (sth _ _) _ _ => eapply wp_sth; [is_heap|]
  | |- wp (ret _) _ _ => apply wp_ret
  end.
Ltac run := repeat run_one.

(** ** Circular lists *)

Implicit Types (g : Z -> fibnode).

(** Linked both ways from [x] through [l] to [y]. *)
Fixpoint dpath g (x : Z) (l : list Z) (y : Z) : Prop :=
  match l with
  | [] => right (g x) = y /\ left (g y) = x
  | z :: l => right (g x) = z /\ left (g z) = x /\ dpath g z l y
  end.

Definition ring g (L : list Z) : Prop := match L with [] => True | x :: l => dpath g x l x end.

Lemma dpath_app g x l1 z l2 y : dpath g x (l1 ++ z :: l2) y <-> dpath g x l1 z /\ dpath g z l2 y.
Proof. revert x. induction l1 as [|w l1 IH]; intros x; cbn; [tauto|]. rewrite IH. tauto. Qed.

Lemma dpath_ext g g' x l y :
  (forall u, u ∈ x :: l -> right (g' u) = right (g u)) -> (forall u, u ∈ l ++ [y] -> left (g' u) = left (g u)) ->
  dpath g x l y -> dpath g' x l y.
Proof.
  revert x. induction l as [|z l IH]; intros x Hr Hl; cbn.
  - intros [E1 E2]. rewrite Hr, Hl by set_solver. done.
  - intros (E1 & E2 & Hp). rewrite Hr, Hl by set_solver. split; [done|]. split; [done|].
    apply IH; [|..|done]; intros u Hu; [apply Hr|apply Hl]; set_solver.
Qed.

Lemma ring_ext g g' L :
  (forall u, u ∈ L -> right (g' u) = right (g u) /\ left (g' u) = left (g u)) -> ring g L -> ring g' L.
Proof.
  destruct L as [|x l]; [done|]. intros He. apply dpath_ext; intros u Hu; apply He; set_solver.
Qed.

Lemma ring_rotate g l1 l2 : ring g (l1 ++ l2) -> ring g (l2 ++ l1).
Proof.
  destruct l1 as [|x l1]; [by rewrite app_nil_r|]. destruct l2 as [|y l2]; [by rewrite app_nil_r|].
  cbn. intros [H1 H2]%dpath_app. by apply dpath_app.
Qed.

Definition last0 (l : list Z) : Z := default 0 (last l).
Definition head0 (l : list Z) : Z := default 0 (head l).

Lemma ring_left g x l : ring g (x :: l) -> left (g x) = last0 (x :: l).
Proof.
  cbn. destruct l as [|t l _] using rev_ind; [by intros [_ ->]|]. intros [_ H]%dpath_app. cbn in H.
  destruct H as [_ ->]. unfold last0. by rewrite last_cons, last_snoc.
Qed.

Lemma ring_right g x l : ring g (x :: l) -> right (g x) = head0 (l ++ [x]).
Proof. cbn. destruct l; cbn; by intros [-> _]. Qed.

(** The nodes outside [S] are as before, those in [S] but for their links. *)
Definition unlinked (n : fibnode) : fibnode := set_left 0 (set_right 0 n).

Record relinked (S : list Z) g g' : Prop := Relinked {
  rl_out : forall x, x ∉ S -> g' x = g x;
  rl_in : forall x, unlinked (g' x) = unlinked (g x) }.

Lemma unlinked_left g a v x : unlinked (upd g a (set_left v (g a)) x) = unlinked (g x).
Proof. unfold upd. case_decide; by subst. Qed.

Lemma unlinked_right g a v x : unlinked (upd g a (set_right v (g a)) x) = unlinked (g x).
Proof. unfold upd. case_decide; by subst. Qed.

Ltac relink :=
  split; [intros ? ?; by rewrite !upd_ne by set_solver|
          intros ?; by repeat first [rewrite unlinked_left | rewrite unlinked_right]].

Lemma insert_after_wp D g H m a l b :
  store_is D g m -> (forall x, x ∈ b :: a :: l -> x ∈ D) -> NoDup (b :: a :: l) -> ring g (a :: l) ->
  wp (fibnode_insert_after a b) (fun _ w' => exists g' m', w' = World H m' /\ store_is D g' m' /\
    ring g' (a :: b :: l) /\ relinked (a :: b :: l) g g') (World H m).
Proof.
  intros Hs HD Hn Hr. apply NoDup_cons in Hn as [Hb Hn]. apply NoDup_cons in Hn as [Ha Hn].
  assert (Hab : a <> b) by (intros ->; apply Hb; by left). unfold fibnode_insert_after. run.
  destruct l as [|z l]; cbn in Hr.
  - destruct Hr as [-> Er]. rewrite Z.eqb_refl. run. eexists _, _. split; [reflexivity|]. split; [eassumption|]. split.
    + cbn. unfold upd. repeat case_decide; subst; try done.
    + relink.
  - destruct Hr as (Er & El & Hp). rewrite Er. apply NoDup_cons in Hn as [Hz Hn].
    rewrite (proj2 (Z.eqb_neq a z)) by set_solver. run.
    eexists _, _. split; [reflexivity|]. split; [eassumption|]. split.
    + assert (z <> a /\ z <> b) as [? ?] by set_solver. cbn. split_and!.
      * unfold upd. repeat case_decide; subst; done.
      * unfold upd. repeat case_decide; subst; done.
      * unfold upd. repeat case_decide; subst; done.
      * unfold upd. repeat case_decide; subst; done.
      * eapply dpath_ext; [..|exact Hp]; intros u Hu; unfold upd; repeat case_decide; subst; set_solver.
    + relink.
Qed.

(** Assignments to other fields. *)
Lemma upd_same {B} (f : fibnode -> B) g a n y : f n = f (g a) -> f (upd g a n y) = f (g y).
Proof. unfold upd. by case_decide; subst. Qed.

(** Taking [x] out of its ring [x :: l]. *)
Record removed (x : Z) (l : list Z) g g' : Prop := Removed {
  rm_ring : ring g' l;
  rm_self : left (g' x) = x /\ right (g' x) = x /\ parent (g' x) = 0;
  rm_links : forall y, y ∉ x :: l -> left (g' y) = left (g y) /\ right (g' y) = right (g y);
  rm_parent : forall y, y <> x -> parent (g' y) = parent (g y);
  rm_child : forall y,
    child (g' y) = if decide (parent (g x) <> 0 /\ y = parent (g x) /\ child (g y) = x) then last0 l else child (g y);
  rm_rest : forall y, key (g' y) = key (g y) /\ data (g' y) = data (g y) /\ degree (g' y) = degree (g y) /\ mark (g' y) = mark (g y) }.

(** The links of the neighbours: what [fibnode_remove] does before it resets
    the links of [x] itself. *)
Lemma unlink_ring g g1 x l :
  NoDup (x :: l) -> ring g (x :: l) ->
  (forall y, y ∈ l -> right (g1 y) = if decide (y = left (g x)) then right (g x) else right (g y)) ->
  (forall y, y ∈ l -> left (g1 y) = if decide (y = right (g x)) then left (g x) else left (g y)) ->
  ring g1 l.
Proof.
  intros Hn Hr Hg1r Hg1l. destruct l as [|z l]; [done|]. apply NoDup_cons in Hn as [Hx Hn]. apply NoDup_cons in Hn as [Hz Hn].
  pose proof (ring_left _ _ _ Hr) as El. cbn in Hr. destruct Hr as (Er & Ez & Hp). cbn [ring].
  rewrite Er in Hg1l, Hg1r. destruct l as [|t l _] using rev_ind.
  - unfold last0 in El. cbn in El. rewrite El in Hg1l, Hg1r. cbn.
    rewrite Hg1r, Hg1l, !decide_True by (done || by left). done.
  - rewrite app_comm_cons, app_comm_cons in El. unfold last0 in El. rewrite last_snoc in El. cbn in El.
    rewrite El in Hg1l, Hg1r. apply dpath_app in Hp as [Hp _]. apply dpath_app.
    assert (Htl : t ∈ z :: l ++ [t]) by (right; apply elem_of_app; right; by left). split.
    + apply NoDup_app in Hn as (Hnl & Hd & _). eapply dpath_ext; [..|exact Hp].
      * intros u Hu. rewrite Hg1r, decide_False; [done| |].
        -- intros ->. apply elem_of_cons in Hu as [Hu|Hu]; [apply Hz; rewrite <- Hu; apply elem_of_app; right; by left|].
           apply (Hd t Hu). by left.
        -- rewrite app_comm_cons. apply elem_of_app. by left.
      * intros u Hu. rewrite Hg1l, decide_False; [done| |by right]. by intros ->.
    + cbn. rewrite Hg1r, Hg1l, !decide_True by (done || by left). done.
Qed.

Lemma ring_alone g x l : ring g (x :: l) -> NoDup (x :: l) -> left (g x) = x <-> l = [].
Proof.
  intros Hr Hn. rewrite (ring_left _ _ _ Hr). split; [|intros ->; done].
  destruct l as [|t l _] using rev_ind; [done|]. unfold last0. rewrite app_comm_cons, last_snoc. cbn. intros ->.
  apply NoDup_cons in Hn as [Hx _]. set_solver.
Qed.

Lemma last0_in l : l <> [] -> last0 l ∈ l.
Proof. destruct l as [|t l _] using rev_ind; [done|]. intros _. unfold last0. rewrite last_snoc. set_solver. Qed.

Lemma last0_cons x l : l <> [] -> last0 (x :: l) = last0 l.
Proof. intros H. unfold last0. rewrite last_cons. destruct (last l) eqn:E; [done|]. by apply last_None in E. Qed.

Lemma unlink_wp D g H m x l :
  store_is D g m -> 0 ∉ D -> (forall y, y ∈ x :: l -> y ∈ D) -> NoDup (x :: l) -> ring g (x :: l) ->
  parent (g x) = 0 \/ parent (g x) ∈ D ->
  wp (fibnode_remove x) (fun r w' => exists g' m', w' = World H m' /\ store_is D g' m' /\
    r = last0 l /\ removed x l g g') (World H m).
Proof.
  intros Hs H0 HD Hn Hr Hp.
  assert (HxD : x ∈ D) by (apply HD; by left). assert (Hx0 : x <> 0) by (by intros ->).
  assert (HlD : left (g x) ∈ D).
  { rewrite (ring_left _ _ _ Hr). apply HD, last0_in. done. }
  assert (HrD : right (g x) ∈ D).
  { rewrite (ring_right _ _ _ Hr). apply HD. destruct l; cbn; set_solver. }
  assert (Er : (if x =? left (g x) then 0 else left (g x)) = last0 l).
  { pose proof (ring_alone _ _ _ Hr Hn) as Ha. destruct (Z.eqb_spec x (left (g x))) as [E|E].
    - by rewrite (proj1 Ha (eq_sym E)).
    - rewrite (ring_left _ _ _ Hr). apply last0_cons. intros El. apply E. symmetry. by apply Ha. }
  unfold fibnode_remove. run. rewrite Er.
  apply (wp_mono _ (fun _ w' => exists g1 m1, w' = World H m1 /\ store_is D g1 m1 /\
    (forall y, left (g1 y) = left (g y) /\ right (g1 y) = right (g y) /\ parent (g1 y) = parent (g y) /\
      key (g1 y) = key (g y) /\ data (g1 y) = data (g y) /\ degree (g1 y) = degree (g y) /\ mark (g1 y) = mark (g y)) /\
    (forall y,
       child (g1 y) = if decide (parent (g x) <> 0 /\ y = parent (g x) /\ child (g y) = x) then last0 l else child (g y)))).
  - destruct (Z.eqb_spec (parent (g x)) 0) as [E|E]; cbn [negb].
    + run. exists g, m. split_and!; [done..|]. intros y. rewrite decide_False; [done|]. by intros [? _].
    + assert (HpD : parent (g x) ∈ D) by (destruct Hp; done). run.
      destruct (Z.eqb_spec (child (g (parent (g x)))) x) as [Ec|Ec]; run.
      * eexists _, _. split; [reflexivity|]. split; [eassumption|]. split.
        -- intros y. unfold upd. case_decide; subst; done.
        -- intros y. unfold upd. case_decide as Ey; [subst; by rewrite decide_True|].
           rewrite decide_False; [done|]. intros (_ & ? & _). done.
      * exists g, m. split_and!; [done..|]. intros y. rewrite decide_False; [done|]. intros (_ & -> & ?). done.
  - clear Hs. intros _ w' (g1 & m1 & -> & Hs & Hsame & Hch).
    assert (HsL : forall y, left (g1 y) = left (g y)) by (intros y; apply Hsame).
    assert (HsR : forall y, right (g1 y) = right (g y)) by (intros y; apply Hsame).
    apply wp_bind. eapply wp_fst; [exact Hs|exact HrD|]. intros m2 Hs2. apply wp_bind.
    set (g2 := upd g1 (right (g x)) _) in *.
    assert (E2 : left (g2 x) = left (g x) /\ right (g2 x) = right (g x)).
    { unfold g2, upd. destruct (decide (x = right (g x))) as [Ex|Ex]; [|by rewrite HsL, HsR]. rewrite <- Ex. cbn. by rewrite HsR. }
    eapply wp_fld; [exact Hs2|exact HxD|]. destruct E2 as [-> ->].
    apply wp_bind. eapply wp_fst; [exact Hs2|exact HlD|]. intros m3 Hs3. set (g3 := upd g2 (left (g x)) _) in *.
    apply wp_bind. eapply wp_fst; [exact Hs3|exact HxD|]. intros m4 Hs4.
    apply wp_bind. eapply wp_fst; [exact Hs4|exact HxD|]. intros m5 Hs5.
    apply wp_bind. eapply wp_fst; [exact Hs5|exact HxD|]. intros m6 Hs6. apply wp_ret.
    eexists _, m6. split; [reflexivity|]. split; [exact Hs6|]. split; [reflexivity|].
    clear Hs Hs2 Hs3 Hs4 Hs5 Hs6.
    assert (HxL : x ∉ l) by (by apply NoDup_cons in Hn as []).
    assert (H3 : forall y, y <> x -> left (g3 y) = (if decide (y = right (g x)) then left (g x) else left (g y)) /\
       right (g3 y) = (if decide (y = left (g x)) then right (g x) else right (g y))).
    { clear Hch. intros y Hy. unfold g3, g2, upd. repeat case_decide; subst; cbn; rewrite ?HsL, ?HsR; split; try done; congruence. }
    set (g4 := upd _ x _). assert (H4 : forall y, y <> x -> g4 y = g3 y) by (intros y Hy; unfold g4; by rewrite !upd_ne).
    split.
    + apply (unlink_ring g g4 x l Hn Hr); intros y Hy; (rewrite H4 by (by intros ->)); apply H3; by intros ->.
    + unfold g4. by rewrite !upd_eq.
    + intros y Hy. rewrite H4 by (intros ->; apply Hy; by left).
      destruct (H3 y) as [-> ->]; [intros ->; apply Hy; by left|].
      rewrite !decide_False; [done|..]; intros ->; apply Hy.
      * rewrite (ring_left _ _ _ Hr). by apply last0_in.
      * rewrite (ring_right _ _ _ Hr). destruct l; cbn; set_solver.
    + intros y Hy. rewrite H4 by done. unfold g3, g2. rewrite !(upd_same parent) by done. apply Hsame.
    + intros y. rewrite <- Hch. unfold g4, g3, g2. by rewrite !(upd_same child) by done.
    + intros y. destruct (Hsame y) as (_ & _ & _ & <- & <- & <- & <-).
      unfold g4, g3, g2. rewrite !(upd_same key), !(upd_same data), !(upd_same degree), !(upd_same mark) by done. done.
Qed.

(** ** The forest *)

(** The way up from a node ends at a root. *)
Inductive reach (P : Z -> Z) : Z -> Prop :=
| reach_root c : P c = 0 -> reach P c
| reach_up c : P c <> 0 -> reach P (P c) -> reach P c.

Lemma reach_irrefl P c : reach P c -> P c <> 0 -> P c <> c.
Proof. induction 1 as [c E|c E _ IH]; [done|]. intros _ Ec. rewrite Ec in IH. by apply IH. Qed.

(** The child that a mark does not show. *)
Definition owes (y c : Z) : Z := if decide (c = y) then 1 else 0.

(** [K a]: the children of [a]; [P c]: the parent of [c], 0 for a root; [R h]:
    the root list of a heap; [own c]: the heap of a node. [L] are roots that
    are in no list, [X] those of them whose field [parent] is still that of
    their old parent, [z] a node about to go, whose children have been taken,
    [y] a node that has lost a child that its mark does not show. *)
Record Inv (D : gset Z) (H : gmap Z fibheap) (own : Z -> Z) (L X : gset Z) (z y : Z)
    (g : Z -> fibnode) (K : Z -> list Z) (P : Z -> Z) (R : Z -> list Z) : Prop := {
  i_zero : 0 ∉ D;
  i_kids : forall a, a ∈ D -> a <> z -> child (g a) = head0 (K a) /\ ring g (K a) /\ degree (g a) = Z.of_nat (length (K a));
  i_z : K z = [];
  i_K : forall a c, c ∈ K a <-> c ∈ D /\ a ∈ D /\ P c = a;
  i_nodup : forall a, NoDup (K a);
  i_small : forall a, Z.of_nat (length (K a)) < 2147483648;
  i_root : forall h hp, H !! h = Some hp -> root hp = head0 (R h) /\ ring g (R h) /\ NoDup (R h);
  i_R : forall h c, c ∈ R h <-> c ∈ D /\ P c = 0 /\ own c = h /\ c ∉ L;
  i_L : forall c, c ∈ L -> c ∈ D /\ P c = 0;
  i_X : forall c, c ∈ X -> c ∈ L;
  i_self : forall c, c ∈ L -> c ∉ X -> ring g [c];
  i_parent : forall c, c ∈ D -> c ∉ X -> parent (g c) = P c;
  i_P : forall c, c ∈ D -> P c = 0 \/ P c ∈ D;
  i_own : forall c, c ∈ D -> is_Some (H !! own c);
  i_ownP : forall c, c ∈ D -> P c <> 0 -> own (P c) = own c;
  i_reach : forall c, c ∈ D -> reach P c;
  i_mark : forall c, c ∈ D -> mark (g c) = 0 \/ mark (g c) = 1;
  i_rank : forall a, a ∈ D -> exists l, l ≡ₚ K a /\ forall i c, l !! i = Some c ->
    Z.of_nat i <= Z.of_nat (length (K c)) + mark (g c) + owes y c }.

Arguments i_zero {_ _ _ _ _ _ _ _ _ _ _} _.
Arguments i_K {_ _ _ _ _ _ _ _ _ _ _} _.
Arguments i_kids {_ _ _ _ _ _ _ _ _ _ _} _.
Arguments i_nodup {_ _ _ _ _ _ _ _ _ _ _} _.
Arguments i_small {_ _ _ _ _ _ _ _ _ _ _} _.
Arguments i_root {_ _ _ _ _ _ _ _ _ _ _} _.
Arguments i_R {_ _ _ _ _ _ _ _ _ _ _} _.
Arguments i_L {_ _ _ _ _ _ _ _ _ _ _} _.
Arguments i_X {_ _ _ _ _ _ _ _ _ _ _} _.
Arguments i_self {_ _ _ _ _ _ _ _ _ _ _} _.
Arguments i_parent {_ _ _ _ _ _ _ _ _ _ _} _.
Arguments i_P {_ _ _ _ _ _ _ _ _ _ _} _.
Arguments i_own {_ _ _ _ _ _ _ _ _ _ _} _.
Arguments i_ownP {_ _ _ _ _ _ _ _ _ _ _} _.
Arguments i_reach {_ _ _ _ _ _ _ _ _ _ _} _.
Arguments i_mark {_ _ _ _ _ _ _ _ _ _ _} _.
Arguments i_rank {_ _ _ _ _ _ _ _ _ _ _} _.
Arguments i_z {_ _ _ _ _ _ _ _ _ _ _} _.

(** Open an invariant. *)
Ltac open_inv HI :=
  destruct HI as [i_zero0 i_kids0 i_z0 i_K0 i_nodup0 i_small0 i_root0 i_R0 i_L0
    i_X0 i_self0 i_parent0 i_P0 i_own0 i_ownP0 i_reach0 i_mark0 i_rank0].

(** Nothing but the links and the lists changes. *)
Definition same_kd (g g' : Z -> fibnode) : Prop := forall c, key (g' c) = key (g c) /\ data (g' c) = data (g c).

Lemma relinked_field {B} (f : fibnode -> B) S g g' c :
  (forall n, f (unlinked n) = f n) -> relinked S g g' -> f (g' c) = f (g c).
Proof. intros Hf [_ Hin]. by rewrite <- Hf, Hin, Hf. Qed.

Lemma relinked_same S g g' : relinked S g g' -> same_kd g g'.
Proof. intros Hr c. by rewrite (relinked_field key S g g' c), (relinked_field data S g g' c). Qed.
Arguments relinked_same {_ _ _} _.

Lemma relinked_ring S g g' l : relinked S g g' -> (forall c, c ∈ l -> c ∉ S) -> ring g l -> ring g' l.
Proof. intros [Ho _] Hd. apply ring_ext. intros u Hu. by rewrite Ho by auto. Qed.

Section inv.
Context (D : gset Z).
Implicit Types (H : gmap Z fibheap) (own : Z -> Z) (K R : Z -> list Z) (P : Z -> Z) (L X : gset Z).

Lemma kid_parent H own L X z y g K P R a c : Inv D H own L X z y g K P R -> c ∈ K a -> c ∈ D /\ a ∈ D /\ P c = a /\ a <> 0 /\ c <> a.
Proof.
  intros HI Hc. apply (i_K HI) in Hc as (Hc & Ha & E). assert (a <> 0) by (intros ->; by apply (i_zero HI)).
  split_and!; try done. intros ->. apply (reach_irrefl P a); [by apply (i_reach HI)|congruence|done].
Qed.
Arguments kid_parent {_ _ _ _ _ _ _ _ _ _ _ _} _ _.

Lemma root_no_kid H own L X z y g K P R a c : Inv D H own L X z y g K P R -> P c = 0 -> c ∉ K a.
Proof. intros HI E Hc. destruct (kid_parent HI Hc) as (_ & _ & ? & ? & _). congruence. Qed.

(** Links change within the root lists and outside all lists. *)
Lemma Inv_relink S H H' own own' L L' X X' z y g g' K P R R' :
  Inv D H own L X z y g K P R -> relinked S g g' ->
  (forall c, c ∈ S -> P c = 0) ->
  (forall c, c ∈ L' -> c ∈ D /\ P c = 0) -> (forall c, c ∈ X' -> c ∈ X /\ c ∈ L') ->
  (forall c, c ∈ L' -> c ∉ X' -> c ∉ S /\ c ∈ L /\ c ∉ X \/ ring g' [c]) ->
  (forall c, c ∈ X -> c ∉ X' -> parent (g c) = P c) ->
  (forall c, c ∈ D -> is_Some (H' !! own' c)) ->
  (forall c, c ∈ D -> P c <> 0 -> own' (P c) = own' c) ->
  (forall h hp, H' !! h = Some hp -> root hp = head0 (R' h) /\ ring g' (R' h) /\ NoDup (R' h)) ->
  (forall h c, c ∈ R' h <-> c ∈ D /\ P c = 0 /\ own' c = h /\ c ∉ L') ->
  Inv D H' own' L' X' z y g' K P R'.
Proof.
  intros HI Hr HS HL HX HLX HXp Hown HownP Hroot HR. open_inv HI. split; try done.
  - intros a Ha Hz. destruct (i_kids0 a Ha Hz) as (E1 & E2 & E3). split_and!.
    + by rewrite (relinked_field child S g g' a).
    + eapply relinked_ring; [exact Hr| |done]. intros c Hc Hs. apply HS in Hs as E0.
      apply i_K0 in Hc as (_ & _ & E). apply i_zero0. congruence.
    + by rewrite (relinked_field degree S g g' a).
  - intros c Hc. by apply HX.
  - intros c Hc Hcx. destruct (HLX c Hc Hcx) as [(H1 & H2 & H3)|]; [|done]. eapply relinked_ring; [exact Hr| |by apply i_self0].
    intros c' ->%list_elem_of_singleton. done.
  - intros c Hc Hcx. rewrite (relinked_field parent S g g' c) by done. destruct (decide (c ∈ X)); [by apply HXp|by apply i_parent0].
  - intros c Hc. rewrite (relinked_field mark S g g' c) by done. by apply i_mark0.
  - intros a Ha. destruct (i_rank0 a Ha) as (l & Hl & Hk). exists l. split; [done|]. intros i c Hi.
    rewrite (relinked_field mark S g g' c) by done. by apply Hk.
Qed.

(** Fields other than the links change. *)
Lemma Inv_fields H own L X z y y' g g' K P R :
  Inv D H own L X z y g K P R ->
  (forall c, left (g' c) = left (g c) /\ right (g' c) = right (g c) /\ child (g' c) = child (g c) /\ degree (g' c) = degree (g c)) ->
  (forall c, c ∈ D -> c ∉ X -> parent (g' c) = parent (g c)) ->
  (forall c, c ∈ D -> mark (g' c) = 0 \/ mark (g' c) = 1) ->
  (forall c, c ∈ D -> P c <> 0 -> mark (g c) + owes y c <= mark (g' c) + owes y' c) ->
  Inv D H own L X z y' g' K P R.
Proof.
  intros HI Hl Hp Hm Hd. assert (Hring : forall l, ring g l -> ring g' l).
  { intros l. apply ring_ext. intros u _. by destruct (Hl u) as (? & ? & _). }
  pose proof (fun a c => @kid_parent _ _ _ _ _ _ _ _ _ _ a c HI) as Hk. open_inv HI. split; try done.
  - intros a Ha Hz. destruct (Hl a) as (_ & _ & -> & ->). destruct (i_kids0 a Ha Hz) as (? & ? & ?). auto.
  - intros h hp E. destruct (i_root0 h hp E) as (? & ? & ?). auto.
  - intros c Hc Hx. by apply Hring, i_self0.
  - intros c Hc Hx. rewrite Hp by done. by apply i_parent0.
  - intros a Ha. destruct (i_rank0 a Ha) as (l & El & Hr). exists l. split; [done|]. intros i c Hi.
    specialize (Hr i c Hi). destruct (Hk a c) as (Hc & _ & E & ? & _); [rewrite <- El; by eapply list_elem_of_lookup_2|].
    specialize (Hd c Hc). lia.
Qed.

Lemma head0_nil H own L X z y g K P R h : Inv D H own L X z y g K P R -> head0 (R h) = 0 -> R h = [].
Proof.
  intros HI E. destruct (R h) as [|c l] eqn:ER; [done|]. unfold head0 in E. cbn in E. subst c.
  exfalso. apply (i_zero HI). apply (i_R HI h 0). rewrite ER. by left.
Qed.

Lemma head0_kids H own L X z y g K P R a : Inv D H own L X z y g K P R -> head0 (K a) = 0 -> K a = [].
Proof.
  intros HI E. destruct (K a) as [|c l] eqn:EK; [done|]. unfold head0 in E. cbn in E. subst c.
  exfalso. apply (i_zero HI). apply (i_K HI a 0). rewrite EK. by left.
Qed.

(** [c] becomes the last child of [a]. *)
Lemma Inv_link H own L z y g g' K P R a c :
  Inv D H own L ∅ z y g K P R -> c ∈ L -> a ∈ L -> c <> a -> a <> z -> own c = own a ->
  length (K c) = length (K a) -> Z.of_nat (length (K a)) + 1 < 2147483648 ->
  (forall u, u ∉ c :: K a -> left (g' u) = left (g u) /\ right (g' u) = right (g u)) ->
  ring g' (K a ++ [c]) ->
  (forall u, child (g' u) = if decide (u = a) then head0 (K a ++ [c]) else child (g u)) ->
  (forall u, parent (g' u) = if decide (u = c) then a else parent (g u)) ->
  (forall u, degree (g' u) = if decide (u = a) then degree (g u) + 1 else degree (g u)) ->
  (forall u, mark (g' u) = if decide (u = c) then 0 else mark (g u)) ->
  Inv D H own (L ∖ {[c]}) ∅ z y g' (upd K a (K a ++ [c])) (upd P c a) R.
Proof.
  intros HI HcL HaL Hca Haz Ho Hlen Hsm Hlk Hring Hch Hpar Hdeg Hmk.
  destruct (i_L HI c HcL) as [HcD HPc]. destruct (i_L HI a HaL) as [HaD HPa].
  pose proof (fun u v => @kid_parent _ _ _ _ _ _ _ _ _ _ u v HI) as Hkp.
  assert (Ha0 : a <> 0) by (intros ->; by apply (i_zero HI)).
  assert (Hout : forall l, (forall u, u ∈ l -> u <> c /\ P u <> a) -> ring g l -> ring g' l).
  { intros l Hl. apply ring_ext. intros u Hu. destruct (Hlk u) as [-> ->]; [|done]. destruct (Hl u Hu) as [? Hu2].
    intros [->|Hk]%elem_of_cons; [done|]. apply Hu2. by apply Hkp in Hk as (_ & _ & ? & _). }
  pose proof (fun a => root_no_kid _ _ _ _ _ _ _ _ _ _ a c HI HPc) as HcK. pose proof (fun b => root_no_kid _ _ _ _ _ _ _ _ _ _ b a HI HPa) as HaK.
  open_inv HI. split; try done.
  - intros u Hu Hz. rewrite Hch, Hdeg. destruct (decide (u = a)) as [->|Hne]; rewrite ?upd_eq, ?upd_ne by done.
    + split_and!; [done..|]. destruct (i_kids0 a Hu Hz) as (_ & _ & ->). rewrite length_app. cbn. lia.
    + destruct (i_kids0 u Hu Hz) as (? & ? & ?). split_and!; try done. apply Hout; [|done]. intros v Hv. split.
      * intros ->. by apply (HcK u).
      * apply Hkp in Hv as (_ & _ & -> & _). done.
  - by rewrite upd_ne.
  - intros u v. unfold upd. destruct (decide (u = a)) as [->|Hu]; destruct (decide (v = c)) as [->|Hv].
    + rewrite elem_of_app, list_elem_of_singleton. tauto.
    + rewrite elem_of_app, list_elem_of_singleton, i_K0. tauto.
    + split; [intros Hk; by apply HcK in Hk|]. intros (_ & _ & ->). done.
    + apply i_K0.
  - intros u. unfold upd. case_decide; [|done]. subst. apply NoDup_app. split_and!; [done| |apply NoDup_singleton].
    intros v Hv ->%list_elem_of_singleton. by apply (HcK a).
  - intros u. unfold upd. case_decide; [|done]. rewrite length_app. cbn. lia.
  - intros h hp E. destruct (i_root0 h hp E) as (? & ? & ?). split_and!; try done. apply Hout; [|done].
    intros u (_ & E0 & _ & HuL)%i_R0. split; [by intros ->|by rewrite E0].
  - intros h v. rewrite i_R0. unfold upd. case_decide; subst; set_solver.
  - intros v Hv. destruct (i_L0 v) as [? ?]; [set_solver|]. split; [done|]. rewrite upd_ne; [done|set_solver].
  - intros v Hv _. apply Hout; [|apply i_self0; set_solver]. intros u ->%list_elem_of_singleton.
    split; [set_solver|]. destruct (i_L0 v) as [_ ->]; [set_solver|done].
  - intros v Hv Hx. rewrite Hpar. unfold upd. case_decide; [done|by apply i_parent0].
  - intros v Hv. unfold upd. case_decide; [by right|by apply i_P0].
  - intros v Hv. unfold upd. case_decide; [by subst|by apply i_ownP0].
  - assert (Hra : reach (upd P c a) a) by (apply reach_root; by rewrite upd_ne by done).
    intros v Hv. induction (i_reach0 v Hv) as [v E|v E _ IH].
    + destruct (decide (v = c)) as [->|Hne]; [apply reach_up; rewrite upd_eq; done|]. apply reach_root. by rewrite upd_ne.
    + assert (v <> c) by congruence. apply reach_up; rewrite upd_ne by done; [done|]. apply IH. by destruct (i_P0 v Hv).
  - intros v Hv. rewrite Hmk. case_decide; [by left|by apply i_mark0].
  - intros u Hu. destruct (i_rank0 u Hu) as (l & Hl & Hr).
    assert (Hold : forall i v, l !! i = Some v -> Z.of_nat i <= Z.of_nat (length (upd K a (K a ++ [c]) v)) + mark (g' v) + owes y v).
    { intros i v Hi. assert (Hv : v ∈ K u) by (rewrite <- Hl; by eapply list_elem_of_lookup_2).
      rewrite upd_ne by (intros ->; by apply (HaK u)). rewrite Hmk, decide_False by (intros ->; by apply (HcK u)). by apply Hr. }
    destruct (decide (u = a)) as [->|Hne].
    + exists (l ++ [c]). rewrite upd_eq. split; [by rewrite Hl|]. intros i v [Hi|[Hi Hi2]]%lookup_app_Some; [by apply Hold|].
      apply list_lookup_singleton_Some in Hi2 as [Hi2 <-]. rewrite upd_ne, Hmk, decide_True, Hlen, <- Hl by done.
      unfold owes. case_decide; lia.
    + exists l. by rewrite upd_ne.
Qed.

(** [c] is taken from its parent [a]. *)
Lemma Inv_unlink H own y g g' K P R a c l :
  Inv D H own ∅ ∅ 0 y g K P R -> c ∈ K a -> y = 0 \/ y = c -> c :: l ≡ₚ K a ->
  (forall u, u ∉ K a -> left (g' u) = left (g u) /\ right (g' u) = right (g u)) ->
  ring g' [c] -> ring g' l ->
  (forall u, child (g' u) = if decide (u = a) then head0 l else child (g u)) ->
  (forall u, parent (g' u) = if decide (u = c) then 0 else parent (g u)) ->
  (forall u, degree (g' u) = if decide (u = a) then degree (g u) - 1 else degree (g u)) ->
  (forall u, mark (g' u) = mark (g u)) ->
  Inv D H own {[c]} ∅ 0 a g' (upd K a l) (upd P c 0) R.
Proof.
  intros HI Hc Hy Hl Hlk Hself Hring Hch Hpar Hdeg Hmk.
  pose proof (fun u v => @kid_parent _ _ _ _ _ _ _ _ _ _ u v HI) as Hkp.
  destruct (Hkp a c Hc) as (HcD & HaD & HPc & Ha0 & Hca).
  assert (Hout : forall l, (forall u, u ∈ l -> P u <> a) -> ring g l -> ring g' l).
  { intros l' Hl'. apply ring_ext. intros u Hu. destruct (Hlk u) as [-> ->]; [|done]. intros Hk. apply (Hl' u Hu). by apply Hkp in Hk as (_ & _ & ? & _). }
  assert (Hy0 : forall v, v ∈ D -> v <> c -> owes y v = 0).
  { intros v Hv Hne. unfold owes. rewrite decide_False; [done|]. destruct Hy as [->| ->]; [|done]. intros ->. by apply (i_zero HI). }
  assert (Hnl : NoDup (c :: l)) by (rewrite Hl; apply (i_nodup HI)). apply NoDup_cons in Hnl as [Hcl Hnl].
  assert (HlK : forall v, v ∈ K a <-> v = c \/ v ∈ l) by (intros v; by rewrite <- Hl, elem_of_cons).
  assert (Hlen : length (K a) = S (length l)) by (by rewrite <- Hl).
  open_inv HI. split; try done.
  - intros u Hu Hz. rewrite Hch, Hdeg. destruct (decide (u = a)) as [->|Hne]; rewrite ?upd_eq, ?upd_ne by done.
    + split_and!; [done..|]. destruct (i_kids0 a Hu Hz) as (_ & _ & ->). rewrite Hlen. lia.
    + destruct (i_kids0 u Hu Hz) as (? & ? & ?). split_and!; try done. apply Hout; [|done]. intros v Hv.
      apply Hkp in Hv as (_ & _ & -> & _). done.
  - by rewrite upd_ne.
  - intros u v. unfold upd. destruct (decide (u = a)) as [->|Hu]; destruct (decide (v = c)) as [->|Hv].
    + split; [done|]. intros (_ & _ & <-). done.
    + assert (v ∈ l <-> v ∈ K a) as -> by (rewrite HlK; tauto). apply i_K0.
    + split; [intros (_ & _ & ? & _)%Hkp; congruence|]. intros (_ & ? & <-). done.
    + apply i_K0.
  - intros u. unfold upd. by case_decide.
  - intros u. unfold upd. case_decide; [|done]. specialize (i_small0 a). lia.
  - intros h hp E. destruct (i_root0 h hp E) as (? & ? & ?). split_and!; try done. apply Hout; [|done].
    intros u (_ & E0 & _)%i_R0. by rewrite E0.
  - intros h v. rewrite i_R0. unfold upd. case_decide; subst; set_solver.
  - intros v ->%elem_of_singleton. by rewrite upd_eq.
  - intros v ->%elem_of_singleton _. done.
  - intros v Hv Hx. rewrite Hpar. unfold upd. case_decide; [done|by apply i_parent0].
  - intros v Hv. unfold upd. case_decide; [by left|by apply i_P0].
  - intros v Hv. unfold upd. case_decide; [done|by apply i_ownP0].
  - intros v Hv. induction (i_reach0 v Hv) as [v E|v E _ IH].
    + apply reach_root. unfold upd. by case_decide.
    + destruct (decide (v = c)) as [->|Hne]; [apply reach_root; by rewrite upd_eq|].
      apply reach_up; rewrite upd_ne by done; [done|]. apply IH. by destruct (i_P0 v Hv).
  - intros v Hv. rewrite Hmk. by apply i_mark0.
  - intros u Hu. destruct (i_rank0 u Hu) as (r & Hr & Hrk).
    assert (Hold : forall i j v, r !! j = Some v -> (i <= j)%nat -> v <> c -> Z.of_nat i <= Z.of_nat (length (upd K a l v)) + mark (g' v) + owes a v).
    { intros i j v Hj Hij Hne. assert (Hv : v ∈ K u) by (rewrite <- Hr; by eapply list_elem_of_lookup_2).
      destruct (Hkp u v Hv) as (HvD & _). specialize (Hrk j v Hj). rewrite Hy0 in Hrk by done. rewrite Hmk.
      unfold upd, owes. destruct (decide (v = a)) as [->|]; lia. }
    destruct (decide (u = a)) as [->|Hne].
    + rewrite upd_eq. assert (c ∈ r) as (r1 & r2 & ->)%list_elem_of_split by (by rewrite Hr). exists (r1 ++ r2). split.
      * apply (Permutation_cons_inv (a := c)). by rewrite Hl, <- Hr, Permutation_middle.
      * assert (Hnr : NoDup (r1 ++ c :: r2)) by (by rewrite Hr). intros i v Hi.
        assert (v <> c). { intros ->. rewrite <- Permutation_middle, NoDup_cons in Hnr. destruct Hnr as [Hnr _]. apply Hnr. by eapply list_elem_of_lookup_2. }
        apply lookup_app_Some in Hi as [Hi|[Hi Hi2]].
        -- apply (Hold i i); [|lia|done]. by apply lookup_app_l_Some.
        -- apply (Hold i (S i)); [|lia|done]. rewrite lookup_app_r by lia. rewrite Nat.sub_succ_l by lia. done.
    + exists r. rewrite upd_ne by done. split; [done|]. intros i v Hi. apply (Hold i i); [done|lia|].
      intros ->. assert (Hv : c ∈ K u) by (rewrite <- Hr; by eapply list_elem_of_lookup_2). apply Hkp in Hv as (_ & _ & ? & _). congruence.
Qed.
End inv.
Arguments kid_parent {_ _ _ _ _ _ _ _ _ _ _ _ _} _ _.

Section inv2.
Context (D : gset Z).
Implicit Types (H : gmap Z fibheap) (own : Z -> Z) (K R : Z -> list Z) (P : Z -> Z) (L X : gset Z).

(** The children of the root [r] are taken off it all at once. *)
Lemma Inv_dismantle H own g K P R r :
  Inv D H own ∅ ∅ 0 0 g K P R -> r ∈ D -> P r = 0 ->
  Inv D H own (list_to_set (K r)) (list_to_set (K r)) r 0 g (upd K r []) (fun c => if decide (c ∈ K r) then 0 else P c) R.
Proof.
  intros HI Hr HPr. pose proof (fun u v => @kid_parent _ _ _ _ _ _ _ _ _ _ _ u v HI) as Hkp.
  assert (Hr0 : r <> 0) by (intros ->; by apply (i_zero HI)).
  assert (HrK : forall a, r ∉ K a) by (intros a; by eapply root_no_kid).
  open_inv HI. split; try done.
  - intros a Ha Hne. rewrite upd_ne by done. apply i_kids0; [done|]. intros ->. done.
  - by rewrite upd_eq.
  - intros a c. unfold upd. destruct (decide (a = r)) as [->|Hne].
    + split; [by intros ?%elem_of_nil|]. intros (Hc & _ & E). case_decide as Hk; [done|]. exfalso. by apply Hk, i_K0.
    + destruct (decide (c ∈ K r)) as [Hk|Hk]; [|apply i_K0]. split.
      * intros Hc. apply Hkp in Hk as (_ & _ & E & _). apply Hkp in Hc as (_ & _ & E2 & _). congruence.
      * intros (_ & Ha & <-). done.
  - intros a. unfold upd. case_decide; [constructor|done].
  - intros a. unfold upd. case_decide; [done|done].
  - intros h c. rewrite i_R0, elem_of_list_to_set, elem_of_empty. case_decide as Hk; [|tauto].
    destruct (Hkp r c Hk) as (_ & _ & -> & _). tauto.
  - intros c Hc%elem_of_list_to_set. rewrite decide_True by done. by apply Hkp in Hc as (? & _).
  - intros c Hc Hx. rewrite decide_False; [apply i_parent0; [done|set_solver]|]. intros Hk. apply Hx. by apply elem_of_list_to_set.
  - intros c Hc. case_decide; [by left|by apply i_P0].
  - intros c Hc. case_decide; [done|by apply i_ownP0].
  - intros c Hc. induction (i_reach0 c Hc) as [c E|c E _ IH].
    + apply reach_root. by case_decide.
    + destruct (decide (c ∈ K r)) as [Hk|Hk]; [apply reach_root; by rewrite decide_True|].
      apply reach_up; rewrite decide_False by done; [done|]. apply IH. by destruct (i_P0 c Hc).
  - intros a Ha. unfold upd. destruct (decide (a = r)) as [->|Hne]; [by exists []|].
    destruct (i_rank0 a Ha) as (l & Hl & Hrk). exists l. split; [done|]. intros i c Hi.
    rewrite decide_False; [by apply Hrk|]. intros ->. apply (HrK a). rewrite <- Hl. by eapply list_elem_of_lookup_2.
Qed.

(** A new node, in no list. *)
Lemma Inv_alloc H own g K P R x h k d hp :
  Inv D H own ∅ ∅ 0 0 g K P R -> x ∉ D -> x <> 0 -> H !! h = Some hp ->
  Inv ({[x]} ∪ D) H (upd own x h) {[x]} ∅ 0 0 (upd g x (Fn 0 0 x x k d 0 0)) K (upd P x 0) R.
Proof.
  intros HI Hx Hx0 Hh. pose proof (fun u v => @kid_parent _ _ _ _ _ _ _ _ _ _ _ u v HI) as Hkp.
  assert (HxK : forall a, x ∉ K a) by (intros a (? & _)%Hkp; done).
  assert (Hxn : K x = []). { destruct (K x) as [|c l] eqn:E; [done|]. exfalso. apply Hx. apply (i_K HI x c). rewrite E. by left. }
  assert (Hout : forall l, x ∉ l -> ring g l -> ring (upd g x (Fn 0 0 x x k d 0 0)) l).
  { intros l Hl. apply ring_ext. intros u Hu. rewrite upd_ne; [done|]. by intros ->. }
  assert (HDx : forall c, c ∈ {[x]} ∪ D -> c <> x -> c ∈ D) by set_solver.
  open_inv HI. split; try done.
  - set_solver.
  - intros a Ha Hz. unfold upd. destruct (decide (a = x)) as [->|Hne]; [by rewrite Hxn|].
    destruct (i_kids0 a) as (? & ? & ?); [by apply HDx|done|]. split_and!; try done. by apply Hout.
  - intros a c. rewrite i_K0, !elem_of_union, !elem_of_singleton. unfold upd. case_decide as Ec.
    + subst c. split; [tauto|]. intros (_ & [Ea|Ea] & E); congruence.
    + split; [tauto|]. intros ([?|Hc] & Ha & <-); [done|]. split; [done|]. split; [|done].
      destruct (i_P0 c Hc) as [E|]; [|done]. rewrite E in Ha. destruct Ha as [Ha|?]; [congruence|done].
  - intros h' hp' E. destruct (i_root0 h' hp' E) as (? & ? & ?). split_and!; try done. apply Hout; [|done].
    intros (? & _)%i_R0. done.
  - intros h' c. rewrite i_R0. unfold upd. case_decide; subst; set_solver.
  - intros c ->%elem_of_singleton. rewrite upd_eq. set_solver.
  - intros c ->%elem_of_singleton _. cbn. rewrite upd_eq. done.
  - intros c Hc _. unfold upd. case_decide; [done|]. apply i_parent0; [by apply HDx|done].
  - intros c Hc. unfold upd. case_decide; [by left|]. destruct (i_P0 c); [by apply HDx|by left|right; set_solver].
  - intros c Hc. unfold upd. case_decide; [by eexists|]. by apply i_own0, HDx.
  - intros c Hc. destruct (decide (c = x)) as [->|Hne]; [by rewrite upd_eq|]. apply HDx in Hc; [|done].
    rewrite (upd_ne P), (upd_ne own x h c) by done. intros HP.
    rewrite upd_ne; [by apply i_ownP0|]. destruct (i_P0 c Hc); [done|]. intros E. apply Hx. by rewrite <- E.
  - intros c Hc. destruct (decide (c = x)) as [->|Hne]; [apply reach_root; by rewrite upd_eq|].
    apply HDx in Hc; [|done]. clear Hne. induction (i_reach0 c Hc) as [c E|c E _ IH].
    + apply reach_root. unfold upd. by case_decide.
    + assert (HPD : P c ∈ D) by (by destruct (i_P0 c Hc)). apply reach_up; rewrite upd_ne by (by intros ->); [done|by apply IH].
  - intros c Hc. unfold upd. case_decide; [by left|]. by apply i_mark0, HDx.
  - intros a Ha. destruct (decide (a = x)) as [->|Hne]; [rewrite Hxn; by exists []|].
    destruct (i_rank0 a) as (l & Hl & Hr); [by apply HDx|]. exists l. split; [done|]. intros i c Hi. rewrite upd_ne; [by apply Hr|].
    intros ->. apply (HxK a). rewrite <- Hl. by eapply list_elem_of_lookup_2.
Qed.

(** A node without children that is in no list goes. *)
Lemma Inv_free H own g K P R z : Inv D H own {[z]} ∅ z 0 g K P R -> Inv (D ∖ {[z]}) H own ∅ ∅ 0 0 g K P R.
Proof.
  intros HI. destruct (i_L HI z) as [HzD HPz]; [set_solver|]. assert (Hz0 : z <> 0) by (intros ->; by apply (i_zero HI)).
  assert (HPn : forall c, c ∈ D -> P c <> z).
  { intros c Hc E. assert (Hk : c ∈ K z) by (by apply (i_K HI)). rewrite (i_z HI) in Hk. by apply elem_of_nil in Hk. }
  assert (HK0 : K 0 = []). { destruct (K 0) as [|c l] eqn:E; [done|]. exfalso. apply (i_zero HI), (i_K HI 0 c). rewrite E. by left. }
  open_inv HI. split; try done.
  - set_solver.
  - intros a Ha _. apply i_kids0; set_solver.
  - intros a c. rewrite i_K0. split; [|set_solver]. intros (Hc & Ha & E). split_and!; [|set_solver|done].
    apply elem_of_difference. split; [done|]. intros ->%elem_of_singleton. congruence.
  - intros h c. rewrite i_R0. set_solver.
  - intros c Hc Hx. apply i_parent0; set_solver.
  - intros c Hc. destruct (i_P0 c) as [?|?]; [set_solver|by left|right]. apply elem_of_difference. split; [done|].
    intros E%elem_of_singleton. apply (HPn c); [set_solver|done].
  - intros c Hc. apply i_own0. set_solver.
  - intros c Hc. apply i_ownP0. set_solver.
  - intros c Hc. apply i_reach0. set_solver.
  - intros c Hc. apply i_mark0. set_solver.
  - intros a Ha. apply i_rank0. set_solver.
Qed.

Lemma store_is_free g m z : store_is D g m -> store_is (D ∖ {[z]}) g (delete z m).
Proof.
  intros Hs a. destruct (decide (a = z)) as [->|Hne].
  - rewrite lookup_delete_eq, decide_False; set_solver.
  - rewrite lookup_delete_ne by done. rewrite Hs. destruct (decide (a ∈ D)), (decide (a ∈ D ∖ {[z]})); set_solver.
Qed.
End inv2.

(** The header of the heap [h] may have another root. *)
Definition rerooted (h : Z) (hp : fibheap) (H H' : gmap Z fibheap) : Prop :=
  exists r, H' = <[h := Fh (nodes hp) (min hp) r]> H.

Lemma rerooted_refl h hp H : H !! h = Some hp -> rerooted h hp H H.
Proof. intros E. exists (root hp). symmetry. apply insert_id. rewrite E. by destruct hp. Qed.

Lemma rerooted_lookup h hp H H' : rerooted h hp H H' -> exists r, H' !! h = Some (Fh (nodes hp) (min hp) r).
Proof. intros [r ->]. exists r. apply lookup_insert_eq. Qed.
Arguments rerooted_lookup {_ _ _ _} _.

Lemma rerooted_trans h hp H H' hp' H2 : rerooted h hp H H' -> H' !! h = Some hp' -> rerooted h hp' H' H2 -> rerooted h hp H H2.
Proof. intros [r ->] E [r2 ->]. rewrite lookup_insert_eq in E. injection E as <-. exists r2. cbn. by rewrite insert_insert_eq. Qed.

Lemma rerooted_some h hp H H' h' : rerooted h hp H H' -> is_Some (H !! h') -> is_Some (H' !! h').
Proof. intros [r ->] ?. destruct (decide (h' = h)) as [->|]; [by rewrite lookup_insert_eq|by rewrite lookup_insert_ne]. Qed.

Lemma ring_perm_rot g l1 l2 : ring g (l1 ++ l2) -> ring g (l2 ++ l1) /\ l2 ++ l1 ≡ₚ l1 ++ l2.
Proof. intros Hr. split; [by apply ring_rotate|]. apply Permutation_app_comm. Qed.

Section steps.
Context (D : gset Z) (own : Z -> Z).
Implicit Types (H : gmap Z fibheap) (K R : Z -> list Z) (P : Z -> Z) (L X : gset Z).

(** The root lists of [h] and of the others after a change. *)
Lemma Inv_new_roots S H h hp L L' X X' z y g g' K P R r Rh :
  Inv D H own L X z y g K P R -> H !! h = Some hp -> relinked S g g' ->
  (forall c, c ∈ S -> c ∈ D /\ P c = 0 /\ own c = h) ->
  (forall c, c ∈ L' -> c ∈ D /\ P c = 0) -> (forall c, c ∈ X' -> c ∈ X /\ c ∈ L') ->
  (forall c, c ∈ L' -> c ∉ X' -> c ∉ S /\ c ∈ L /\ c ∉ X \/ ring g' [c]) ->
  (forall c, c ∈ X -> c ∉ X' -> parent (g c) = P c) ->
  (forall c, own c <> h -> c ∈ L' <-> c ∈ L) ->
  r = head0 Rh -> ring g' Rh -> NoDup Rh -> (forall c, c ∈ Rh <-> c ∈ D /\ P c = 0 /\ own c = h /\ c ∉ L') ->
  Inv D (<[h := Fh (nodes hp) (min hp) r]> H) own L' X' z y g' K P (upd R h Rh).
Proof.
  intros HI Eh Hrl HS HL HX HLX HXp HLo -> Hring Hnd HRh. eapply (Inv_relink D S H); [exact HI|exact Hrl| | | | | | | | |]; try done.
  - intros c Hc. by apply HS.
  - intros c Hc. apply (i_own HI) in Hc. destruct (decide (own c = h)) as [->|]; [by rewrite lookup_insert_eq|by rewrite lookup_insert_ne].
  - apply (i_ownP HI).
  - intros h' hp'. destruct (decide (h' = h)) as [->|Hne].
    + rewrite lookup_insert_eq, upd_eq. intros [= <-]. done.
    + rewrite lookup_insert_ne, upd_ne by done. intros E. destruct (i_root HI h' hp' E) as (? & ? & ?).
      split_and!; [done| |done]. eapply relinked_ring; [exact Hrl| |done]. intros c (_ & _ & Ho & _)%(i_R HI) (_ & _ & Ho')%HS. congruence.
  - intros h' c. destruct (decide (h' = h)) as [->|Hne]; [by rewrite upd_eq|]. rewrite upd_ne by done. rewrite (i_R HI).
    split; intros (? & ? & Ho & HcL); (split_and!; [done..|]); intros Hc; apply HcL, HLo; congruence.
Qed.

Lemma ins_root_wp H m L X z y g K P R h hp x L' :
  Inv D H own L X z y g K P R -> store_is D g m -> H !! h = Some hp ->
  L = {[x]} ∪ L' -> x ∉ L' -> own x = h -> parent (g x) = 0 ->
  wp (fibheap_ins_root h x) (fun _ w' => exists g' m' H' R', w' = World H' m' /\ store_is D g' m' /\
    Inv D H' own L' (X ∖ {[x]}) z y g' K P R' /\ relinked (x :: R h) g g' /\ rerooted h hp H H' /\
    R' h ≡ₚ x :: R h) (World H m).
Proof.
  intros HI Hs Eh -> HxL Hox Hpx.
  destruct (i_L HI x) as [HxD HPx]; [set_solver|].
  assert (HxR : x ∉ R h) by (intros (_ & _ & _ & ?)%(i_R HI); set_solver).
  destruct (i_root HI h hp Eh) as (Er & Hring & Hnd).
  assert (HRD : forall c, c ∈ x :: R h -> c ∈ D /\ P c = 0 /\ own c = h).
  { intros c [->|(? & ? & ? & _)%(i_R HI)]%elem_of_cons; done. }
  (* the links are in place *)
  assert (Hfin : forall g' m' r Rh, store_is D g' m' -> relinked (x :: R h) g g' -> ring g' Rh -> Rh ≡ₚ x :: R h -> r = head0 Rh ->
    exists g2 m2 H2 R2, World (<[h := Fh (nodes hp) (min hp) r]> H) m' = World H2 m2 /\ store_is D g2 m2 /\
      Inv D H2 own L' (X ∖ {[x]}) z y g2 K P R2 /\ relinked (x :: R h) g g2 /\ rerooted h hp H H2 /\ R2 h ≡ₚ x :: R h).
  { intros g' m' r Rh Hs' Hrl Hring' HRh Hr. exists g', m', (<[h := Fh (nodes hp) (min hp) r]> H), (upd R h Rh).
    split; [done|]. split; [done|]. split; [|split; [done|]; split; [by eexists|by rewrite upd_eq]].
    eapply (Inv_new_roots (x :: R h)); [exact HI|exact Eh|exact Hrl|exact HRD|..]; try done.
    - intros c Hc. apply (i_L HI). set_solver.
    - intros c Hc. split; [set_solver|]. assert (c ∈ {[x]} ∪ L') by (apply (i_X HI); set_solver). set_solver.
    - intros c Hc HcX. left. assert (Hcx : c <> x) by (by intros ->). split_and!; [|clear -Hc; set_solver|clear -HcX Hcx; set_solver].
      intros [->|(_ & _ & _ & Hn)%(i_R HI)]%elem_of_cons; [done|]. set_solver.
    - intros c Hc Hcn. destruct (decide (c = x)) as [->|Hne]; [by rewrite Hpx|]. exfalso. apply Hcn. clear -Hc Hne. set_solver.
    - set_solver.
    - rewrite HRh. by apply NoDup_cons.
    - intros c. rewrite HRh, elem_of_cons, (i_R HI), elem_of_union, elem_of_singleton.
      destruct (decide (c = x)) as [->|]; tauto. }
  unfold fibheap_ins_root. run. destruct (Z.eqb_spec (root hp) 0) as [E|E].
  - assert (ER : R h = []) by (eapply head0_nil; [exact HI|by rewrite <- Er]). rewrite ER in *. run.
    eapply (Hfin _ _ x [x]); [eassumption| | |reflexivity|reflexivity].
    + relink.
    + cbn. by rewrite !upd_eq.
  - destruct (R h) as [|a l] eqn:ER; [by rewrite Er in E|]. rewrite Er. cbn [head0 head default].
    eapply wp_mono.
    + apply (insert_after_wp D g H m a l x); [done| |by apply NoDup_cons|done]. intros c Hc. by apply HRD.
    + intros _ w' (g' & m' & -> & Hs' & Hring' & Hrl).
      assert (EH : H = <[h := Fh (nodes hp) (min hp) (root hp)]> H) by (symmetry; apply insert_id; rewrite Eh; by destruct hp).
      pose proof (Hfin g' m' (root hp) (a :: x :: l) Hs') as Hf. rewrite <- EH in Hf. apply Hf; [|done|apply perm_swap|exact Er].
      destruct Hrl as [Ho Hin]. split; [|done]. intros c Hc. apply Ho. set_solver.
Qed.

Lemma rem_root_wp H m L z y g K P R h hp x :
  Inv D H own L ∅ z y g K P R -> store_is D g m -> H !! h = Some hp -> x ∈ R h ->
  wp (fibheap_rem_root h x) (fun _ w' => exists g' m' H' R', w' = World H' m' /\ store_is D g' m' /\
    Inv D H' own ({[x]} ∪ L) ∅ z y g' K P R' /\ relinked (R h) g g' /\ rerooted h hp H H' /\
    R h ≡ₚ x :: R' h) (World H m).
Proof.
  intros HI Hs Eh HxR. destruct (i_root HI h hp Eh) as (Er & Hring & Hnd).
  assert (HRD : forall c, c ∈ R h -> c ∈ D /\ P c = 0 /\ own c = h) by (intros c (? & ? & ? & _)%(i_R HI); done).
  destruct (HRD x HxR) as (HxD & HPx & Hox).
  assert (HxL : x ∉ L) by (by apply (i_R HI) in HxR as (_ & _ & _ & ?)).
  assert (exists l1 l2, R h = l1 ++ x :: l2) as (l1 & l2 & ER) by (by apply list_elem_of_split).
  assert (Hring2 : ring g (x :: l2 ++ l1)) by (rewrite ER in Hring; by apply ring_rotate in Hring).
  assert (HP : R h ≡ₚ x :: l2 ++ l1) by (rewrite ER; symmetry; by rewrite (app_comm_cons l2 l1 x), Permutation_app_comm).
  assert (Hnd2 : NoDup (x :: l2 ++ l1)) by (by rewrite <- HP).
  pose proof (ring_alone _ _ _ Hring2 Hnd2) as Hal.
  assert (Hfin : forall g' m' r l, store_is D g' m' -> relinked (R h) g g' -> ring g' [x] -> ring g' l -> x :: l ≡ₚ R h -> r = head0 l ->
    exists g2 m2 H2 R2, World (<[h := Fh (nodes hp) (min hp) r]> H) m' = World H2 m2 /\ store_is D g2 m2 /\
      Inv D H2 own ({[x]} ∪ L) ∅ z y g2 K P R2 /\ relinked (R h) g g2 /\ rerooted h hp H H2 /\ R h ≡ₚ x :: R2 h).
  { intros g' m' r l Hs' Hrl Hself Hring' Hl Hr. exists g', m', (<[h := Fh (nodes hp) (min hp) r]> H), (upd R h l).
    split; [done|]. split; [done|]. split; [|split; [done|]; split; [by eexists|by rewrite upd_eq, Hl]].
    assert (Hnl : x ∉ l /\ NoDup l) by (by rewrite <- NoDup_cons, Hl). destruct Hnl as [Hxl Hnl].
    eapply (Inv_new_roots (R h)); [exact HI|exact Eh|exact Hrl|exact HRD|..]; try done.
    - intros c [->%elem_of_singleton|Hc]%elem_of_union; [done|by apply (i_L HI)].
    - intros c [->%elem_of_singleton|Hc]%elem_of_union _; [by right|left]. split_and!; [|done..].
      intros (_ & _ & _ & ?)%(i_R HI). done.
    - set_solver.
    - intros c. assert (c ∈ x :: l <-> c ∈ R h) as Hcl by (by rewrite Hl). rewrite elem_of_cons, (i_R HI) in Hcl.
      rewrite elem_of_union, elem_of_singleton. split; [|tauto]. intros Hc. assert (c <> x) by (by intros ->). tauto. }
  unfold fibheap_rem_root. run. destruct (Z.eqb_spec (left (g x)) x) as [E|E]; run.
  - apply Hal in E. rewrite E in Hring2, HP. eapply (Hfin g m 0 []); [done|by split|done|done|by rewrite HP|done].
  - eapply wp_mono.
    + apply (unlink_wp D g H m x (l2 ++ l1)); [done|apply (i_zero HI)| |done|done|].
      * intros c Hc. rewrite <- HP in Hc. by apply HRD.
      * left. rewrite (i_parent HI) by done. done.
    + intros r w' (g' & m' & -> & Hs' & -> & Hrm). run.
      assert (HpE : parent (g x) = 0) by (by rewrite (i_parent HI)).
      assert (Hl : l2 ++ l1 <> []) by (intros El; by apply E, Hal).
      destruct (l2 ++ l1) as [|q l _] eqn:El using rev_ind; [done|]. 
      unfold last0. rewrite last_snoc. cbn [default].
      eapply (Hfin g' m' q (q :: l)); [done| | | | |done].
      * split.
        -- intros u Hu. rewrite HP in Hu. destruct Hrm as [rm_ring0 rm_self0 rm_links0 rm_parent0 rm_child0 rm_rest0]. destruct (rm_links0 u Hu) as [E1 E2]. destruct (rm_rest0 u) as (? & ? & ? & ?).
           assert (u <> x) by (intros ->; apply Hu; by left). specialize (rm_parent0 u). specialize (rm_child0 u).
           rewrite decide_False in rm_child0 by (by intros [? _]). destruct (g' u), (g u). cbn in *. f_equal; auto.
        -- intros u. destruct Hrm as [rm_ring0 rm_self0 rm_links0 rm_parent0 rm_child0 rm_rest0]. destruct (rm_rest0 u) as (? & ? & ? & ?). specialize (rm_parent0 u). specialize (rm_child0 u).
           rewrite decide_False in rm_child0 by (by intros [? _]).
           assert (parent (g' u) = parent (g u)) by (destruct (decide (u = x)) as [->|]; [by destruct rm_self0 as (_ & _ & ->)|auto]).
           unfold unlinked, set_left, set_right. cbn. congruence.
      * destruct Hrm as [rm_ring0 rm_self0 rm_links0 rm_parent0 rm_child0 rm_rest0]. destruct rm_self0 as (? & ? & _). done.
      * destruct Hrm as [rm_ring0 rm_self0 rm_links0 rm_parent0 rm_child0 rm_rest0]. exact (ring_rotate g' l [q] rm_ring0).
      * rewrite HP. by rewrite (Permutation_cons_append l q).
Qed.
End steps.

(** The fields that a change of links and of [child] leaves. *)
Definition same_rest (g g' : Z -> fibnode) : Prop := forall u,
  key (g' u) = key (g u) /\ data (g' u) = data (g u) /\ degree (g' u) = degree (g u) /\ mark (g' u) = mark (g u).

Section steps2.
Context (D : gset Z) (own : Z -> Z).
Implicit Types (H : gmap Z fibheap) (K R : Z -> list Z) (P : Z -> Z) (L X : gset Z).

(** The list of [fibheap_link] with the new child at its end. *)
Lemma add_child_wp H m L X z y g K P R a c (Q : unit -> world -> Prop) :
  Inv D H own L X z y g K P R -> store_is D g m -> c ∈ D -> P c = 0 -> a ∈ D -> a <> z -> ring g [c] -> c <> a ->
  (forall g' m', store_is D g' m' -> ring g' (K a ++ [c]) ->
    (forall u, u ∉ c :: K a -> left (g' u) = left (g u) /\ right (g' u) = right (g u)) ->
    (forall u, child (g' u) = if decide (u = a) then head0 (K a ++ [c]) else child (g u)) ->
    (forall u, parent (g' u) = parent (g u)) -> same_rest g g' -> Q tt (World H m')) ->
  wp (if child (g a) =? 0 then st a (set_child c) else fibnode_insert_before (child (g a)) c) Q (World H m).
Proof.
  intros HI Hs HcD HPc HaD Haz Hself Hca HQ. destruct (i_kids HI a HaD Haz) as (Ech & Hring & _).
  assert (HcK : c ∉ K a) by (by eapply root_no_kid).
  destruct (Z.eqb_spec (child (g a)) 0) as [E|E].
  - assert (EK : K a = []) by (eapply head0_kids; [exact HI|by rewrite <- Ech]). rewrite EK in *. run.
    eapply HQ; [eassumption|..].
    + eapply ring_ext; [|exact Hself]. intros u ->%list_elem_of_singleton. by rewrite upd_ne.
    + intros u _. unfold upd. by case_decide; subst.
    + intros u. unfold upd. by case_decide.
    + intros u. unfold upd. by case_decide; subst.
    + intros u. unfold upd. by case_decide; subst.
  - assert (Hne : K a <> []) by (intros EK; apply E; by rewrite Ech, EK).
    assert (HKD : forall u, u ∈ K a -> u ∈ D) by (intros u Hu; by apply (i_K HI) in Hu as []).
    pose proof (i_nodup HI a) as Hnd.
    destruct (K a) as [|q l _] eqn:EK using rev_ind; [done|]. rewrite Ech. unfold fibnode_insert_before. apply wp_bind.
    assert (Hh : head0 (l ++ [q]) ∈ D) by (apply HKD; destruct l; cbn; set_solver).
    eapply wp_fld; [exact Hs|exact Hh|].
    assert (El : left (g (head0 (l ++ [q]))) = q).
    { destruct l as [|k0 l]; [by destruct Hring|]. change (left (g k0) = q). rewrite (ring_left g k0 (l ++ [q])) by exact Hring.
      unfold last0. by rewrite app_comm_cons, last_snoc. }
    rewrite El. apply ring_rotate in Hring as Hring2. cbn [app] in Hring2.
    assert (Hnd2 : NoDup (c :: q :: l)). { apply NoDup_cons. rewrite (Permutation_cons_append l q). done. }
    eapply wp_mono.
    + apply (insert_after_wp D g H m q l c); [done| |done|done].
      intros u [->|Hu]%elem_of_cons; [done|]. apply HKD. by rewrite <- Permutation_cons_append.
    + intros [] w' (g' & m' & -> & Hs' & Hring' & Hrl). eapply HQ; [exact Hs'|..].
      * rewrite <- app_assoc. cbn. exact (ring_rotate g' [q; c] l Hring').
      * intros u Hu. destruct Hrl as [Ho _]. rewrite Ho; [done|]. intros Hin. apply Hu. clear -Hin. set_solver.
      * intros u. rewrite (relinked_field child _ _ _ u (fun _ => eq_refl) Hrl). case_decide as Eu; [|done]. subst u. rewrite Ech.
        unfold head0. by destruct l.
      * intros u. by rewrite (relinked_field parent _ _ _ u (fun _ => eq_refl) Hrl).
      * intros u. by rewrite (relinked_field key _ _ _ u (fun _ => eq_refl) Hrl), (relinked_field data _ _ _ u (fun _ => eq_refl) Hrl), (relinked_field degree _ _ _ u (fun _ => eq_refl) Hrl), (relinked_field mark _ _ _ u (fun _ => eq_refl) Hrl).
Qed.

Lemma link_wp H m L z y g K P R a c :
  Inv D H own L ∅ z y g K P R -> store_is D g m -> c ∈ L -> a ∈ L -> c <> a -> a <> z -> own c = own a ->
  length (K c) = length (K a) -> Z.of_nat (length (K a)) + 1 < 2147483648 ->
  wp (fibheap_link c a) (fun _ w' => exists g' m', w' = World H m' /\ store_is D g' m' /\
    Inv D H own (L ∖ {[c]}) ∅ z y g' (upd K a (K a ++ [c])) (upd P c a) R /\ same_kd g g') (World H m).
Proof.
  intros HI Hs HcL HaL Hca Haz Ho Hlen Hsm. destruct (i_L HI c HcL) as [HcD HPc]. destruct (i_L HI a HaL) as [HaD HPa].
  assert (Hself : ring g [c]) by (apply (i_self HI); [done|set_solver]).
  destruct (i_kids HI a HaD Haz) as (_ & _ & Edeg).
  unfold fibheap_link. run. eapply add_child_wp; [eassumption..|]. intros g1 m1 Hs1 Hring Hlk Hch Hpar Hre. run.
  eexists _, _. split; [reflexivity|]. split; [eassumption|].
  set (g4 := upd _ c (set_mark 0 _)).
  assert (HL : forall u, left (g4 u) = left (g1 u) /\ right (g4 u) = right (g1 u) /\ child (g4 u) = child (g1 u) /\
    key (g4 u) = key (g1 u) /\ data (g4 u) = data (g1 u)).
  { intros u. unfold g4, upd. repeat case_decide; by subst. }
  split.
  - eapply Inv_link; [exact HI|done..| | | | | |].
    + intros u Hu. destruct (HL u) as (-> & -> & _). by apply Hlk.
    + eapply ring_ext; [|exact Hring]. intros u _. by destruct (HL u) as (-> & -> & _).
    + intros u. destruct (HL u) as (_ & _ & -> & _). apply Hch.
    + intros u. unfold g4, upd. repeat case_decide; subst; cbn; try done; apply Hpar.
    + intros u. destruct (Hre u) as (_ & _ & <- & _).
      assert (Hd : degree (g1 a) = Z.of_nat (length (K a))) by (destruct (Hre a) as (_ & _ & -> & _); done).
      unfold g4, upd. repeat case_decide; subst; cbn; try done; rewrite Hd; apply Z.mod_small; change (2 ^ 31) with 2147483648; lia.
    + intros u. destruct (Hre u) as (_ & _ & _ & <-). unfold g4, upd. repeat case_decide; subst; done.
  - intros u. destruct (HL u) as (_ & _ & _ & -> & ->). by destruct (Hre u) as (-> & -> & _).
Qed.

(** [c] leaves the list of its parent [a]. *)
Lemma leave_wp H m y g K P R a c (Q : Z -> world -> Prop) :
  Inv D H own ∅ ∅ 0 y g K P R -> store_is D g m -> c ∈ K a ->
  (forall r g' m' l, store_is D g' m' -> c :: l ≡ₚ K a ->
    (forall u, u ∉ K a -> left (g' u) = left (g u) /\ right (g' u) = right (g u)) ->
    ring g' [c] -> ring g' l ->
    (forall u, child (g' u) = if decide (u = a) then head0 l else child (g u)) ->
    (forall u, parent (g' u) = if decide (u = c) then 0 else parent (g u)) ->
    same_rest g g' -> Q r (World H m')) ->
  wp (fibnode_remove c) Q (World H m).
Proof.
  intros HI Hs Hc HQ. destruct (kid_parent HI Hc) as (HcD & HaD & HPc & Ha0 & Hca).
  destruct (i_kids HI a HaD Ha0) as (Ech & Hring & _).
  assert (exists l1 l2, K a = l1 ++ c :: l2) as (l1 & l2 & EK) by (by apply list_elem_of_split).
  assert (Hring2 : ring g (c :: l2 ++ l1)) by (rewrite EK in Hring; by apply ring_rotate in Hring).
  assert (HP : K a ≡ₚ c :: l2 ++ l1) by (rewrite EK; symmetry; by rewrite (app_comm_cons l2 l1 c), Permutation_app_comm).
  assert (Hnd : NoDup (c :: l2 ++ l1)) by (rewrite <- HP; apply (i_nodup HI)).
  assert (Epar : parent (g c) = a) by (by rewrite (i_parent HI)).
  eapply wp_mono.
  - apply (unlink_wp D g H m c (l2 ++ l1)); [done|apply (i_zero HI)| |done|done|right; by rewrite Epar].
    intros u Hu. rewrite <- HP in Hu. by apply (i_K HI) in Hu as [].
  - intros r w' (g' & m' & -> & Hs' & -> & [rm_ring0 rm_self0 rm_links0 rm_parent0 rm_child0 rm_rest0]). rewrite Epar in rm_child0.
    assert (Hlk : forall u, u ∉ K a -> left (g' u) = left (g u) /\ right (g' u) = right (g u)).
    { intros u Hu. apply rm_links0. by rewrite <- HP. }
    assert (Hpar : forall u, parent (g' u) = if decide (u = c) then 0 else parent (g u)).
    { intros u. destruct (decide (u = c)) as [->|Eu]; [by destruct rm_self0 as (_ & _ & ->)|by apply rm_parent0]. }
    assert (Hself : ring g' [c]) by (by destruct rm_self0 as (? & ? & _)).
    destruct l1 as [|k0 l1].
    + (* the first child *)
      rewrite app_nil_r in *. assert (Eca : child (g a) = c) by (by rewrite Ech, EK).
      assert (Hch : forall u, child (g' u) = if decide (u = a) then last0 l2 else child (g u)).
      { intros u. rewrite rm_child0. destruct (decide (u = a)) as [->|Hu]; [by rewrite decide_True|]. rewrite decide_False; [done|]. tauto. }
      destruct l2 as [|q l _] using rev_ind; [by eapply (HQ _ g' m' [])|].
      eapply (HQ _ g' m' (q :: l)); try done.
      * rewrite HP. by rewrite (Permutation_cons_append l q).
      * exact (ring_rotate g' l [q] rm_ring0).
      * intros u. rewrite Hch. unfold last0. by rewrite last_snoc.
    + assert (Eca : child (g a) = k0) by (by rewrite Ech, EK).
      eapply (HQ _ g' m' (k0 :: l1 ++ l2)); try done.
      * rewrite HP. by rewrite app_comm_cons, (Permutation_app_comm (k0 :: l1) l2).
      * exact (ring_rotate g' l2 (k0 :: l1) rm_ring0).
      * intros u. rewrite rm_child0. rewrite decide_False.
        -- destruct (decide (u = a)) as [->|]; [by rewrite Eca|done].
        -- intros (_ & -> & E). rewrite Eca in E. subst k0. apply NoDup_cons in Hnd as [Hn _]. apply Hn. set_solver.
Qed.

Lemma cut_wp H m y g K P R h hp a c :
  Inv D H own ∅ ∅ 0 y g K P R -> store_is D g m -> H !! h = Some hp -> own c = h -> c ∈ K a -> y = 0 \/ y = c ->
  wp (fibheap_cut h c a) (fun _ w' => exists g' m' H' l R', w' = World H' m' /\ store_is D g' m' /\
    Inv D H' own ∅ ∅ 0 a g' (upd K a l) (upd P c 0) R' /\ same_kd g g' /\ rerooted h hp H H' /\
    c :: l ≡ₚ K a /\ (forall u, mark (g' u) = if decide (u = c) then 0 else mark (g u))) (World H m).
Proof.
  intros HI Hs Eh Ho Hc Hy. destruct (kid_parent HI Hc) as (HcD & HaD & HPc & Ha0 & Hca).
  destruct (i_kids HI a HaD Ha0) as (_ & _ & Edeg). pose proof (i_small HI a) as Hsm.
  unfold fibheap_cut. run. eapply leave_wp; [exact HI|exact Hs|exact Hc|]. clear Hs m. intros r g1 m1 l Hs Hl Hlk Hself Hring Hch Hpar Hre.
  assert (Hlen : length (K a) = S (length l)) by (by rewrite <- Hl). run.
  match goal with Hst : store_is _ ?G _ |- _ => set (g2 := G) in Hst; rename Hst into Hs2 end.
  assert (HL : forall u, left (g2 u) = left (g1 u) /\ right (g2 u) = right (g1 u) /\ child (g2 u) = child (g1 u) /\
    parent (g2 u) = parent (g1 u) /\ key (g2 u) = key (g1 u) /\ data (g2 u) = data (g1 u) /\ mark (g2 u) = mark (g1 u)).
  { intros u. unfold g2, upd. repeat case_decide; by subst. }
  assert (HI2 : Inv D H own {[c]} ∅ 0 a g2 (upd K a l) (upd P c 0) R).
  { assert (Hext : forall l', ring g1 l' -> ring g2 l') by (intros l'; apply ring_ext; intros u _; by destruct (HL u) as (-> & -> & _)).
    eapply Inv_unlink; [exact HI|exact Hc|exact Hy|exact Hl| |by apply Hext|by apply Hext|..].
    - intros u Hu. destruct (HL u) as (-> & -> & _). by apply Hlk.
    - intros u. destruct (HL u) as (_ & _ & -> & _). apply Hch.
    - intros u. destruct (HL u) as (_ & _ & _ & -> & _). apply Hpar.
    - intros u. destruct (Hre u) as (_ & _ & <- & _).
      assert (Hd : degree (g1 a) = Z.of_nat (length (K a))) by (destruct (Hre a) as (_ & _ & -> & _); done).
      unfold g2, upd. case_decide; [subst u|done]. cbn. rewrite Hd. etransitivity; [apply Z.mod_small; change (2 ^ 31) with 2147483648|]; lia.
    - intros u. destruct (HL u) as (_ & _ & _ & _ & _ & _ & ->). apply Hre. }
  eapply wp_mono.
  - eapply (ins_root_wp D own H _ {[c]} ∅ 0 a g2); [exact HI2|exact Hs2|exact Eh| | |exact Ho|].
    + by rewrite (right_id_L ∅ (∪)).
    + set_solver.
    + destruct (HL c) as (_ & _ & _ & -> & _). by rewrite Hpar, decide_True.
  - intros _ w' (g3 & m3 & H3 & R3 & -> & Hs3 & HI3 & Hrl & Hrr & HR3). clear Hs2. run.
    match goal with Hst : store_is _ ?G ?M |- context [World H3 ?M] => exists G, M, H3, l, R3; split; [done|]; split; [exact Hst|] end.
    set (g5 := upd _ c (set_mark 0 _)).
    assert (HL5 : forall u, left (g5 u) = left (g3 u) /\ right (g5 u) = right (g3 u) /\ child (g5 u) = child (g3 u) /\
      degree (g5 u) = degree (g3 u) /\ key (g5 u) = key (g3 u) /\ data (g5 u) = data (g3 u)).
    { intros u. unfold g5, upd. repeat case_decide; by subst. }
    assert (Hmk : forall u, mark (g5 u) = if decide (u = c) then 0 else mark (g u)).
    { intros u. unfold g5, upd. repeat case_decide; subst; try done. rewrite (relinked_field mark _ _ _ u (fun _ => eq_refl) Hrl).
      destruct (HL u) as (_ & _ & _ & _ & _ & _ & ->). apply Hre. }
    assert (Hp5 : forall u, parent (g5 u) = if decide (u = c) then 0 else parent (g3 u)).
    { intros u. unfold g5, upd. repeat case_decide; by subst. }
    rewrite empty_difference_L in HI3.
    split_and!; try done.
    + eapply Inv_fields; [exact HI3| | | |].
      * intros u. by destruct (HL5 u) as (-> & -> & -> & -> & _).
      * intros u Hu Hx. rewrite Hp5. case_decide as E; [|done]. rewrite (i_parent HI3) by done. subst u. by rewrite upd_eq.
      * intros u Hu. rewrite Hmk. case_decide; [by left|by apply (i_mark HI)].
      * intros u Hu HPu. rewrite Hmk. rewrite decide_False by (intros ->; by rewrite upd_eq in HPu).
        rewrite (relinked_field mark _ _ _ u (fun _ => eq_refl) Hrl). destruct (HL u) as (_ & _ & _ & _ & _ & _ & ->). destruct (Hre u) as (_ & _ & _ & ->). lia.
    + intros u. destruct (HL5 u) as (_ & _ & _ & _ & -> & ->). destruct (relinked_same Hrl u) as [-> ->].
      destruct (HL u) as (_ & _ & _ & _ & -> & -> & _). by destruct (Hre u) as (-> & -> & _).
Qed.
End steps2.

Lemma same_kd_trans g1 g2 g3 : same_kd g1 g2 -> same_kd g2 g3 -> same_kd g1 g3.
Proof. intros H1 H2 c. destruct (H1 c), (H2 c). split; congruence. Qed.

Section cascade.
Context (D : gset Z) (own : Z -> Z).
Implicit Types (H : gmap Z fibheap) (K R : Z -> list Z) (P : Z -> Z).

Definition marked g : gset Z := filter (fun c => mark (g c) <> 0) D.

Lemma marked_cut g g' c :
  c ∈ D -> mark (g c) <> 0 -> (forall u, mark (g' u) = if decide (u = c) then 0 else mark (g u)) -> (size (marked g') < size (marked g))%nat.
Proof.
  intros Hc Hm He. apply subset_size. split.
  - intros u [Hu Hd]%elem_of_filter. apply elem_of_filter. split; [|done]. rewrite He in Hu. by case_decide.
  - intros Hs. assert (Hcm : c ∈ marked g') by (apply Hs, elem_of_filter; done). apply elem_of_filter in Hcm as [Hn _].
    by rewrite He, decide_True in Hn.
Qed.

Lemma no_debt c : 0 ∉ D -> c ∈ D -> owes 0 c = 0.
Proof. intros H0 Hc. unfold owes. rewrite decide_False; [done|]. by intros ->. Qed.

Lemma cascading_cut_wp fuel H m y g K P R h hp :
  Inv D H own ∅ ∅ 0 y g K P R -> store_is D g m -> H !! h = Some hp -> y ∈ D -> own y = h -> (size (marked g) < fuel)%nat ->
  wp (fibheap_cascading_cut fuel h y) (fun _ w' => exists g' m' H' K' P' R', w' = World H' m' /\ store_is D g' m' /\
    Inv D H' own ∅ ∅ 0 0 g' K' P' R' /\ same_kd g g' /\ rerooted h hp H H' /\
    (forall a c, c ∈ K' a -> c ∈ K a)) (World H m).
Proof.
  unfold fibheap_cascading_cut. revert y g m H K P R hp.
  induction fuel as [|fuel IH]; intros y g m H K P R hp HI Hs Eh Hy Ho Hf; [lia|]. cbn [cloop]. unfold cascade_turn at 1. run.
  pose proof (fun c => no_debt c (i_zero HI)) as Hnd. rewrite (i_parent HI) by done.
  destruct (Z.eqb_spec (P y) 0) as [E|E]; [run|destruct (Z.eqb_spec (mark (g y)) 0) as [Em|Em]; run].
  - exists g, m, H, K, P, R. split_and!; try done; [|by eapply rerooted_refl].
    eapply Inv_fields; [exact HI|done|done|apply (i_mark HI)|]. intros c Hc HPc. rewrite Hnd by done. unfold owes.
    rewrite decide_False; [lia|]. by intros ->.
  - eexists _, _, H, K, P, R. split; [done|]. split; [eassumption|]. split_and!; [|intros u; unfold upd; by case_decide; subst|by eapply rerooted_refl|done].
    eapply Inv_fields; [exact HI|..].
    + intros u. unfold upd. by case_decide; subst.
    + intros u _ _. unfold upd. by case_decide; subst.
    + intros u Hu. unfold upd. case_decide; [by right|by apply (i_mark HI)].
    + intros u Hu _. rewrite Hnd by done. unfold upd, owes. case_decide; subst; cbn; lia.
  - assert (Hyk : y ∈ K (P y)) by (apply (i_K HI); by destruct (i_P HI y Hy)).
    eapply wp_mono; [by eapply (cut_wp D own H m y g K P R h hp (P y) y); try done; right|].
    intros _ w' (g1 & m1 & H1 & l & R1 & -> & Hs1 & HI1 & Hkd & Hrr & Hl & Hmk). run.
    destruct (rerooted_lookup Hrr) as [r Eh1].
    eapply wp_mono.
    + eapply IH; [exact HI1|exact Hs1|exact Eh1|by destruct (i_P HI y Hy)| |].
      * by rewrite (i_ownP HI).
      * pose proof (marked_cut g g1 y Hy Em Hmk). lia.
    + intros _ w' (g2 & m2 & H2 & K2 & P2 & R2 & -> & Hs2 & HI2 & Hkd2 & Hrr2 & HK2).
      exists g2, m2, H2, K2, P2, R2. split_and!; try done.
      * by eapply same_kd_trans.
      * by eapply rerooted_trans.
      * intros a c Hc%HK2. unfold upd in Hc. case_decide; [subst|done]. rewrite <- Hl. by right.
Qed.

(** *** The order of the keys *)

Definition ordered g K : Prop := forall a c, c ∈ K a -> key (g a) <= key (g c).

Lemma ordered_kept g g' K K' : ordered g K -> same_kd g g' -> (forall a c, c ∈ K' a -> c ∈ K a) -> ordered g' K'.
Proof. intros Ho Hk HK a c Hc%HK. destruct (Hk a) as [-> _]. destruct (Hk c) as [-> _]. by apply Ho. Qed.

(** A root above every node. *)
Lemma ordered_root H L X z y g K P R c :
  Inv D H own L X z y g K P R -> ordered g K -> c ∈ D -> exists r, r ∈ D /\ P r = 0 /\ own r = own c /\ key (g r) <= key (g c).
Proof.
  intros HI Ho Hc. induction (i_reach HI c Hc) as [c E|c E _ IH]; [by exists c|].
  assert (HPc : P c ∈ D) by (by destruct (i_P HI c Hc)).
  destruct (IH HPc) as (r & ? & ? & E2 & Hle). exists r. rewrite E2, (i_ownP HI) by done. split_and!; try done.
  etransitivity; [exact Hle|]. apply Ho. by apply (i_K HI).
Qed.

Lemma kids_roots H H' L L' X X' z z' y y' g g' K K' P P' R R' c :
  Inv D H own L X z y g K P R -> Inv D H' own L' X' z' y' g' K' P' R' -> (forall a c, c ∈ K' a -> c ∈ K a) ->
  c ∈ D -> P c = 0 -> P' c = 0.
Proof.
  intros HI HI' HK Hc E. destruct (i_P HI' c Hc) as [|HD]; [done|]. exfalso.
  assert (Hk : c ∈ K (P' c)) by (apply HK; by apply (i_K HI')). by eapply root_no_kid in Hk.
Qed.

End cascade.

(** *** Degrees are small *)

(** The Fibonacci numbers [fib n] and [fib (n + 1)]. *)
Fixpoint fibs (n : nat) : Z * Z := match n with O => (0, 1) | S n => let '(a, b) := fibs n in (b, a + b) end.
Definition fib (n : nat) : Z := (fibs n).1.

Lemma fib_step n : fib (S (S n)) = fib (S n) + fib n.
Proof. unfold fib. cbn. destruct (fibs n). cbn. lia. Qed.

(** [a] is [c] or an ancestor of [c]. *)
Inductive ancestor (P : Z -> Z) (a : Z) : Z -> Prop :=
| ancestor_self : ancestor P a a
| ancestor_up c : P c <> 0 -> ancestor P a (P c) -> ancestor P a c.

Lemma ancestor_trans P a b c : ancestor P a b -> ancestor P b c -> ancestor P a c.
Proof. intros Hab. induction 1; [done|]. by apply ancestor_up. Qed.

Lemma ancestor_linear P a b c : ancestor P a c -> ancestor P b c -> ancestor P a b \/ ancestor P b a.
Proof.
  intros Ha. revert b. induction Ha as [|c Hc Ha IH]; intros b Hb; [by right|].
  inversion Hb; subst; [left; by apply ancestor_up|by apply IH].
Qed.

Lemma ancestor_acyclic P c : reach P c -> P c <> 0 -> ~ ancestor P c (P c).
Proof.
  intros Hr. pose proof (reach_irrefl P c Hr) as Hirr. induction Hr as [c E|c E Hr IH]; [done|]. intros _ Hb.
  inversion Hb as [Ec|c' HP Hb' Ec]; [by apply Hirr|]. apply IH; [by apply reach_irrefl|done|].
  eapply ancestor_trans; [|exact Hb']. apply ancestor_up; [done|apply ancestor_self].
Qed.

Lemma fib_mono n m : (n <= m)%nat -> 0 <= fib n <= fib m.
Proof.
  assert (H : forall k, 0 <= fib k /\ fib k <= fib (S k)).
  { intros k. assert (Hk : (0 <= fib k /\ fib k <= fib (S k)) /\ 0 <= fib (S k)); [|tauto].
    induction k as [|k IH]; [unfold fib; cbn; lia|]. rewrite fib_step. lia. }
  induction 1 as [|m _ IH]; [specialize (H n); lia|]. specialize (H m). lia.
Qed.

Section degrees.
Context (D : gset Z) (P : Z -> Z).
Context (Hreach : forall c, c ∈ D -> reach P c) (H0 : 0 ∉ D).

Lemma siblings_disjoint a b c u :
  b ∈ D -> c ∈ D -> a <> 0 -> P b = a -> P c = a -> ancestor P b u -> ancestor P c u -> b = c.
Proof.
  intros Hb Hc Ha Eb Ec Hbu Hcu.
  assert (Hone : forall b c, b ∈ D -> P b = a -> P c = a -> ancestor P b c -> b = c).
  { clear b c Hb Hc Eb Ec Hbu Hcu. intros b c Hb Eb Ec Hbc. inversion Hbc as [|c' HP Hb' E]; [done|]. subst c'. exfalso.
    apply (ancestor_acyclic P b); [by apply Hreach|by rewrite Eb|]. by rewrite Eb, <- Ec. }
  destruct (ancestor_linear P b c u Hbu Hcu) as [?|?]; [by apply Hone|symmetry; by apply Hone].
Qed.

(** At least [v] nodes, unless there are [n]. *)
Definition many (n : nat) (a : Z) (v : Z) : Prop := exists S : gset Z,
  (forall u, u ∈ S -> u ∈ D /\ ancestor P a u) /\ (v <= Z.of_nat (size S) \/ (n <= size S)%nat).

Lemma many_kids n a (d : Z -> nat) l :
  a ∈ D -> NoDup l -> (forall c, c ∈ l -> c ∈ D /\ P c = a /\ many n c (fib (d c + 2))) ->
  (forall i c, l !! i = Some c -> (i <= d c + 1)%nat) ->
  exists S : gset Z, (forall u, u ∈ S -> u ∈ D /\ exists c, c ∈ l /\ ancestor P c u) /\
    (fib (length l + 2) - 1 <= Z.of_nat (size S) \/ (n <= size S)%nat).
Proof.
  intros Ha Hnd Hl Hd. induction l as [|c l IH] using rev_ind.
  { exists ∅. split; [by intros u ?%elem_of_empty|]. left. rewrite size_empty. done. }
  apply NoDup_app in Hnd as (Hnd & Hdis & _). destruct IH as (S & HS & Hsz); [done|..].
  { intros b Hb. apply Hl, elem_of_app. by left. }
  { intros i b Hi. apply Hd. by apply lookup_app_l_Some. }
  destruct (Hl c) as (HcD & HPc & (T & HT & HTsz)); [apply elem_of_app; right; by left|].
  assert (Ha0 : a <> 0) by (by intros ->).
  assert (HST : S ## T).
  { intros u (_ & b & Hb & Hbu)%HS (_ & Hcu)%HT. destruct (Hl b) as (HbD & HPb & _); [apply elem_of_app; by left|].
    assert (b = c) as -> by (by eapply (siblings_disjoint a b c u)). apply (Hdis c Hb). by left. }
  exists (S ∪ T). rewrite size_union by done. split.
  - intros u [(? & b & Hb & ?)%HS|[? ?]%HT]%elem_of_union; (split; [done|]).
    + exists b. split; [apply elem_of_app; by left|done].
    + exists c. split; [apply elem_of_app; right; by left|done].
  - specialize (Hd (length l) c). rewrite lookup_app_r in Hd by done. rewrite Nat.sub_diag in Hd. specialize (Hd eq_refl).
    rewrite length_app. cbn [length]. replace (length l + 1 + 2)%nat with (Datatypes.S (Datatypes.S (length l + 1))) by lia.
    rewrite fib_step. replace (Datatypes.S (length l + 1)) with (length l + 2)%nat by lia.
    assert (fib (length l + 1) <= fib (d c + 2)) by (apply fib_mono; lia). lia.
Qed.

Lemma many_node K n a :
  (forall a c, c ∈ K a <-> c ∈ D /\ a ∈ D /\ P c = a) -> (forall a, NoDup (K a)) ->
  (forall a, a ∈ D -> exists l, l ≡ₚ K a /\ forall i c, l !! i = Some c -> (i <= length (K c) + 1)%nat) ->
  a ∈ D -> many n a (fib (length (K a) + 2)).
Proof.
  intros HK Hnd Hrank. revert a. induction n as [|n IH]; intros a Ha.
  { exists ∅. split; [by intros u ?%elem_of_empty|]. right. lia. }
  destruct (Hrank a Ha) as (l & Hl & Hi). assert (Ha0 : a <> 0) by (by intros ->).
  destruct (many_kids n a (fun c => length (K c)) l) as (S & HS & Hsz); [done|by rewrite Hl| |done|].
  { intros c Hc. rewrite Hl in Hc. apply HK in Hc as (? & _ & ?). auto. }
  exists ({[a]} ∪ S). assert (HaS : a ∉ S).
  { intros (_ & c & Hc & Hb)%HS. rewrite Hl in Hc. apply HK in Hc as (Hc & _ & E).
    apply (ancestor_acyclic P c); [by apply Hreach|by rewrite E|by rewrite E]. }
  rewrite size_union by set_solver. rewrite size_singleton. rewrite <- Hl. split; [|lia].
  intros u [->%elem_of_singleton|(? & c & Hc & Hb)%HS]%elem_of_union; [split; [done|apply ancestor_self]|].
  split; [done|]. rewrite Hl in Hc. apply HK in Hc as (_ & _ & E). eapply ancestor_trans; [|exact Hb].
  apply ancestor_up; rewrite E; [done|apply ancestor_self].
Qed.
End degrees.

(** A node with [d] children is above [fib (d + 2)] nodes, itself one of them. *)
Lemma degree_fib D H own L X z g K P R a :
  Inv D H own L X z 0 g K P R -> a ∈ D -> fib (length (K a) + 2) <= Z.of_nat (size D).
Proof.
  intros HI Ha. destruct (many_node D P (i_reach HI) (i_zero HI) K (S (size D)) a (i_K HI) (i_nodup HI)) as (S & HS & Hsz); [|done|].
  - intros b Hb. destruct (i_rank HI b Hb) as (l & Hl & Hr). exists l. split; [done|]. intros i c Hi. specialize (Hr i c Hi).
    assert (Hc : c ∈ K b) by (rewrite <- Hl; by eapply list_elem_of_lookup_2). apply (i_K HI) in Hc as (Hc & _).
    rewrite (no_debt D c (i_zero HI) Hc) in Hr. pose proof (i_mark HI c Hc). lia.
  - assert (size S <= size D)%nat by (apply subseteq_size; intros u Hu; by apply HS). lia.
Qed.

(** The number of nodes that the array of [fibheap_consolidate] is enough for. *)
Definition NODES_MAX : Z := 44945570212853.

Lemma nodes_max_fib : fib 67 = NODES_MAX.
Proof. vm_compute. reflexivity. Qed.

Lemma degree_bound D H own L X z g K P R a :
  Inv D H own L X z 0 g K P R -> Z.of_nat (size D) < NODES_MAX -> a ∈ D -> Z.of_nat (length (K a)) < D_ENTRIES.
Proof.
  intros HI Hn Ha. pose proof (degree_fib _ _ _ _ _ _ _ _ _ _ _ HI Ha) as Hf.
  destruct (decide (65 <= length (K a))%nat) as [Hle|]; [|unfold D_ENTRIES; lia].
  assert (fib 67 <= fib (length (K a) + 2)) by (apply fib_mono; lia). rewrite nodes_max_fib in *. lia.
Qed.

(** ** Consolidation *)

Lemma compare_keys_pos a b : (0 <? compare_keys a b) = (b <? a).
Proof. unfold compare_keys. destruct (Z.ltb_spec a b), (Z.ltb_spec b a); done || lia. Qed.

Lemma compare_keys_neg a b : (compare_keys a b <? 0) = (a <? b).
Proof. unfold compare_keys. destruct (Z.ltb_spec a b), (Z.ltb_spec b a); done || lia. Qed.

Lemma compare_keys_le a b : (compare_keys a b <=? 0) = (a <=? b).
Proof. unfold compare_keys. destruct (Z.ltb_spec a b), (Z.ltb_spec b a), (Z.leb_spec a b); done || lia. Qed.

(** Only the heap [h] changes, and not the number of its nodes. *)
Definition touched (h : Z) (H H' : gmap Z fibheap) : Prop := forall h', h' <> h -> H' !! h' = H !! h'.

Lemma rerooted_touched h hp H H' : rerooted h hp H H' -> touched h H H'.
Proof. intros [r ->] h' ?. by rewrite lookup_insert_ne. Qed.

Lemma touched_trans h H1 H2 H3 : touched h H1 H2 -> touched h H2 H3 -> touched h H1 H3.
Proof. intros E1 E2 h' Hne. by rewrite E2, E1. Qed.

(** The header of [h] but for its root does not matter. *)
Lemma Inv_header D H own L X z y g K P R h H' hp hp' :
  Inv D H own L X z y g K P R -> H !! h = Some hp -> H' !! h = Some hp' -> root hp' = root hp -> touched h H H' ->
  Inv D H' own L X z y g K P R.
Proof.
  intros HI Eh Eh' Er Ht. eapply (Inv_relink D [] H);
    [exact HI|by split|by intros ? ?%elem_of_nil|apply (i_L HI)| | |done| |apply (i_ownP HI)| |apply (i_R HI)].
  - intros c Hc. split; [done|by apply (i_X HI)].
  - intros c Hc Hx. left. split_and!; [by intros ?%elem_of_nil|done..].
  - intros c Hc. destruct (decide (own c = h)) as [->|Hne]; [by eexists|]. rewrite Ht by done. by apply (i_own HI).
  - intros h' hp2. destruct (decide (h' = h)) as [->|Hne].
    + rewrite Eh'. intros [= <-]. rewrite Er. by apply (i_root HI h _ Eh).
    + rewrite Ht by done. apply (i_root HI).
Qed.

Lemma touched_insert h hp H : touched h H (<[h := hp]> H).
Proof. intros h' ?. by rewrite lookup_insert_ne. Qed.

Section consolidate.
Context (D : gset Z) (own : Z -> Z) (h z : Z).
Implicit Types (H : gmap Z fibheap) (K R : Z -> list Z) (P : Z -> Z) (L : gset Z) (a : list Z).

(** The entry [a[d]] is a tree of degree [d]; every root in no list is in [a],
    or it is the node [z] that was extracted or the tree [x] at hand. *)
Record slots K L a (x : Z) : Prop := Slots {
  s_len : Z.of_nat (length a) = D_ENTRIES;
  s_in : forall d v, a !! d = Some v -> v <> 0 -> v ∈ L /\ v <> z /\ v <> x /\ length (K v) = d;
  s_all : forall v, v ∈ L -> v = z \/ v = x \/ a !! length (K v) = Some v;
  s_own : forall v, v ∈ L -> own v = h }.

Arguments s_len {_ _ _ _} _.
Arguments s_in {_ _ _ _} _.
Arguments s_all {_ _ _ _} _.
Arguments s_own {_ _ _ _} _.

Lemma wp_geta (Q : Z -> world -> Prop) a d x w : a !! d = Some x -> Q x w -> wp (geta a (Z.of_nat d)) Q w.
Proof. intros E HQ. unfold geta. rewrite (proj2 (Z.leb_le 0 (Z.of_nat d))) by lia. rewrite Nat2Z.id, E. by apply wp_ret. Qed.

Lemma wp_puta (Q : list Z -> world -> Prop) a d x w : (d < length a)%nat -> Q (<[d := x]> a) w -> wp (puta a (Z.of_nat d) x) Q w.
Proof.
  intros Hd HQ. unfold puta. rewrite (proj2 (Z.leb_le 0 (Z.of_nat d))), (proj2 (Z.ltb_lt _ _)) by lia. rewrite Nat2Z.id. by apply wp_ret.
Qed.

(** The tree [y] of [a[d]] and the tree [x] become one. *)
Lemma slots_link K L a x y x' y' :
  slots K L a x -> a !! length (K x) = Some y -> y <> 0 -> x ∈ L -> x <> z ->
  x' = x /\ y' = y \/ x' = y /\ y' = x ->
  slots (upd K x' (K x' ++ [y'])) (L ∖ {[y']}) (<[length (K x) := 0]> a) x' /\
  x' ∈ L /\ y' ∈ L /\ x' <> z /\ y' <> z /\ y' <> x' /\ length (K y') = length (K x') /\ length (K x') = length (K x).
Proof.
  intros [Hlen Hin Hall Hown] Hy Hy0 HxL Hxz Hsw. destruct (Hin _ _ Hy Hy0) as (HyL & Hyz & Hyx & HyK).
  assert (Hside : x' ∈ L /\ y' ∈ L /\ x' <> z /\ y' <> z /\ y' <> x' /\ length (K y') = length (K x') /\ length (K x') = length (K x)).
  { destruct Hsw as [[-> ->]|[-> ->]]; split_and!; congruence. }
  split; [|exact Hside]. destruct Hside as (Hx'L & Hy'L & Hx'z & Hy'z & Hne & Hl1 & Hl2). split.
  - by rewrite length_insert.
  - intros d v Hd Hv. destruct (decide (d = length (K x))) as [->|Hdx].
    { rewrite list_lookup_insert_eq in Hd by (by eapply lookup_lt_Some). congruence. }
    rewrite list_lookup_insert_ne in Hd by congruence. destruct (Hin _ _ Hd Hv) as (HvL & Hvz & Hvx & HvK).
    assert (v <> y) by congruence. assert (v <> x' /\ v <> y') as [Hvx' Hvy'] by (destruct Hsw as [[-> ->]|[-> ->]]; done).
    rewrite upd_ne by done. split_and!; try done. apply elem_of_difference. by rewrite elem_of_singleton.
  - intros v [HvL Hv%not_elem_of_singleton]%elem_of_difference. destruct (decide (v = x')) as [->|Hvx']; [auto|].
    rewrite upd_ne by done. destruct (Hall v HvL) as [|[->|Hv2]]; [by left| |].
    + destruct Hsw as [[-> ->]|[-> ->]]; congruence.
    + right. right. rewrite list_lookup_insert_ne; [done|]. intros E. rewrite <- E in Hv2.
      destruct Hsw as [[-> ->]|[-> ->]]; congruence.
  - intros v [HvL _]%elem_of_difference. by apply Hown.
Qed.

Lemma ordered_link g g' K x y : ordered g K -> same_kd g g' -> key (g x) <= key (g y) -> ordered g' (upd K x (K x ++ [y])).
Proof.
  intros Ho Hk Hle a c. destruct (Hk a) as [-> _], (Hk c) as [-> _]. unfold upd. case_decide as E; [|apply Ho]. subst a.
  intros [Hc| ->%list_elem_of_singleton]%elem_of_app; [by apply Ho|done].
Qed.

(** The parents of the nodes of other heaps stay. *)
Definition only_here P P' : Prop := forall c, own c <> h -> P' c = P c.

Definition few : Prop := Z.of_nat (size D) < NODES_MAX.

Lemma link_loop_wp fuel H m L g K P R a x :
  few -> Inv D H own L ∅ z 0 g K P R -> store_is D g m -> ordered g K -> slots K L a x -> x ∈ L -> x <> z -> z ∈ L ->
  (size L < fuel)%nat ->
  wp (cloop fuel link_turn (x, Z.of_nat (length (K x)), a)) (fun s w' => exists g' m' L' K' P' x' a',
    w' = World H m' /\ s = (x', Z.of_nat (length (K' x')), a') /\ store_is D g' m' /\
    Inv D H own L' ∅ z 0 g' K' P' R /\ ordered g' K' /\ slots K' L' a' x' /\ x' ∈ L' /\ x' <> z /\
    z ∈ L' /\ a' !! length (K' x') = Some 0 /\ same_kd g g' /\ only_here P P') (World H m).
Proof.
  intros Hfew. revert m L g K P a x.
  induction fuel as [|fuel IH]; intros m L g K P a x HI Hs Ho Hsl HxL Hxz HzL Hf; [lia|]. cbn [cloop]. unfold link_turn at 1.
  destruct (i_L HI x HxL) as [HxD _]. pose proof (degree_bound _ _ _ _ _ _ _ _ _ _ _ HI Hfew HxD) as Hdeg.
  assert (Hlt : (length (K x) < length a)%nat) by (rewrite <- (s_len Hsl) in Hdeg; lia).
  destruct (lookup_lt_is_Some_2 a (length (K x)) Hlt) as [y Hy].
  apply wp_bind, wp_bind. eapply wp_geta; [exact Hy|]. destruct (Z.eqb_spec y 0) as [->|Hy0].
  { run. exists g, m, L, K, P, x, a. split_and!; try done. }
  destruct (s_in Hsl _ _ Hy Hy0) as (HyL & Hyz & Hyx & HyK). destruct (i_L HI y HyL) as [HyD _].
  unfold fibheap_compare. run. rewrite compare_keys_pos.
  set (x' := if key (g y) <? key (g x) then y else x). set (y' := if key (g y) <? key (g x) then x else y).
  assert (Hsw : x' = x /\ y' = y \/ x' = y /\ y' = x) by (unfold x', y'; destruct (_ <? _); auto).
  assert (Hle : key (g x') <= key (g y')) by (unfold x', y'; destruct (Z.ltb_spec (key (g y)) (key (g x))); lia).
  destruct (slots_link _ _ _ _ _ _ _ Hsl Hy Hy0 HxL Hxz Hsw) as (Hsl2 & Hx'L & Hy'L & Hx'z & Hy'z & Hne & Hl1 & Hl2).
  eapply wp_mono.
  { eapply (link_wp D own H m L z 0 g K P R x' y'); try done.
    - by rewrite !(s_own Hsl).
    - rewrite Hl2. unfold D_ENTRIES in Hdeg. lia. }
  clearbody x' y'. intros _ w' (g' & m' & -> & Hs' & HI' & Hkd). apply wp_bind. eapply wp_puta; [done|]. run.
  assert (HL' : (size (L ∖ {[y']}) < size L)%nat).
  { apply subset_size. split; [apply subseteq_difference_l; done|]. intros Hsub. apply Hsub in Hy'L. by apply elem_of_difference in Hy'L as [_ []%not_elem_of_singleton]. }
  replace (Z.of_nat (length (K x)) + 1) with (Z.of_nat (length (upd K x' (K x' ++ [y']) x')))
    by (rewrite upd_eq, length_app, Hl2; cbn; lia).
  eapply wp_mono; [eapply (IH m' (L ∖ {[y']}) g' (upd K x' (K x' ++ [y'])) (upd P y' x')); try done|].
  - by eapply ordered_link.
  - apply elem_of_difference. by rewrite elem_of_singleton.
  - apply elem_of_difference. rewrite elem_of_singleton. split; [done|]. by intros ->.
  - lia.
  - intros s w' (g2 & m2 & L2 & K2 & P2 & x2 & a2 & -> & -> & ? & ? & ? & ? & ? & ? & ? & ? & Hkd2 & HP2).
    exists g2, m2, L2, K2, P2, x2, a2. split_and!; try done; [by eapply same_kd_trans|].
    intros c Hc. rewrite HP2 by done. rewrite upd_ne; [done|]. intros ->. by rewrite (s_own Hsl) in Hc.
Qed.
End consolidate.

Section consolidate2.
Context (D : gset Z) (own : Z -> Z) (h z : Z).
Implicit Types (H : gmap Z fibheap) (K R : Z -> list Z) (P : Z -> Z) (L : gset Z) (a : list Z).

(** The tree at hand goes into the empty entry of its degree. *)
Lemma slots_put K L a x :
  slots own h z K L a x -> x <> 0 -> a !! length (K x) = Some 0 -> x ∈ L -> x <> z -> 0 ∉ L -> slots own h z K L (<[length (K x) := x]> a) 0.
Proof.
  intros [Hlen Hin Hall Hown] Hx0 Ha HxL Hxz H0. split.
  - by rewrite length_insert.
  - intros d v Hd Hv. destruct (decide (d = length (K x))) as [->|Hne].
    + rewrite list_lookup_insert_eq in Hd by (by eapply lookup_lt_Some). by injection Hd as <-.
    + rewrite list_lookup_insert_ne in Hd by congruence. by destruct (Hin _ _ Hd Hv) as (? & ? & _ & ?).
  - intros v HvL. destruct (Hall v HvL) as [|[->|Hv]]; [by left|right; right..].
    + rewrite list_lookup_insert_eq; [done|by eapply lookup_lt_Some].
    + rewrite list_lookup_insert_ne; [done|]. intros E. rewrite <- E, Ha in Hv. injection Hv as <-. done.
  - done.
Qed.

(** A root is taken from the list. *)
Lemma slots_take K L a w : slots own h z K L a 0 -> w ∉ L -> 0 ∉ L -> own w = h -> slots own h z K ({[w]} ∪ L) a w.
Proof.
  intros [Hlen Hin Hall Hown] Hw H0 Hox. split; [done|..].
  - intros d v Hd Hv. destruct (Hin d v Hd Hv) as (? & ? & ? & ?). split_and!; try done; [apply elem_of_union; by right|congruence].
  - intros v [->%elem_of_singleton|Hv]%elem_of_union; [auto|]. destruct (Hall v Hv) as [|[->|]]; auto. done.
  - intros v [->%elem_of_singleton|Hv]%elem_of_union; auto.
Qed.

Lemma roots_small H L X z' y g K P R h' hp :
  Inv D H own L X z' y g K P R -> H !! h' = Some hp -> (length (R h') <= size D)%nat.
Proof.
  intros HI E. destruct (i_root HI h' hp E) as (_ & _ & Hnd). rewrite <- (size_list_to_set (C := gset Z) (R h')) by done.
  apply subseteq_size. intros c Hc%elem_of_list_to_set. by apply (i_R HI) in Hc as [].
Qed.

Lemma consolidate_loop_wp fuel fuel0 H m L g K P R a hp :
  few D -> (size D < fuel0)%nat ->
  Inv D H own L ∅ z 0 g K P R -> store_is D g m -> ordered g K -> slots own h z K L a 0 -> z ∈ L ->
  H !! h = Some hp -> (length (R h) < fuel)%nat ->
  wp (cloop fuel (consolidate_turn fuel0 h) a) (fun a' w' => exists g' m' H' L' K' P' R' ,
    w' = World H' m' /\ store_is D g' m' /\
    Inv D H' own L' ∅ z 0 g' K' P' R' /\ ordered g' K' /\ slots own h z K' L' a' 0 /\ z ∈ L' /\ R' h = [] /\
    rerooted h hp H H' /\ same_kd g g' /\ only_here own h P P') (World H m).
Proof.
  intros Hfew Hf0. revert H m L g K P R a hp.
  induction fuel as [|fuel IH]; intros H m L g K P R a hp HI Hs Ho Hsl HzL Eh Hf; [lia|]. cbn [cloop].
  unfold consolidate_turn at 1. destruct (i_root HI h hp Eh) as (Er & _ & _). run.
  destruct (Z.eqb_spec (root hp) 0) as [E|E].
  { run. exists g, m, H, L, K, P, R. split_and!; try done; [|by eapply rerooted_refl].
    eapply head0_nil; [exact HI|by rewrite <- Er]. }
  destruct (R h) as [|w l] eqn:ER; [by rewrite Er in E|]. assert (Ew : root hp = w) by (by rewrite Er). rewrite Ew in *. clear Er E.
  assert (HwR : w ∈ R h) by (rewrite ER; by left). destruct (proj1 (i_R HI h w) HwR) as (HwD & HPw & How & HwL).
  assert (Hwz : w <> z) by (by intros ->). assert (H0L : 0 ∉ L) by (intros Hz; apply (i_zero HI); by apply (i_L HI)).
  apply wp_bind. eapply wp_mono; [by eapply rem_root_wp|].
  intros _ w' (g1 & m1 & H1 & R1 & -> & Hs1 & HI1 & Hrl & Hrr & HR1). run. rewrite ER in HR1. apply Permutation_cons_inv in HR1.
  destruct (i_kids HI1 w HwD Hwz) as (_ & _ & ->). destruct (rerooted_lookup Hrr) as [r1 Eh1].
  eapply wp_mono.
  { eapply (link_loop_wp D own h z fuel0 H1 m1 ({[w]} ∪ L) g1 K P R1 a w Hfew HI1 Hs1).
    - eapply ordered_kept; [exact Ho|by eapply relinked_same|done].
    - by apply slots_take.
    - apply elem_of_union. left. by apply elem_of_singleton.
    - done.
    - apply elem_of_union. by right.
    - assert (size ({[w]} ∪ L) <= size D)%nat; [|lia]. apply subseteq_size. intros c Hc. by apply (i_L HI1). }
  intros s w' (g2 & m2 & L2 & K2 & P2 & x & a2 & -> & -> & Hs2 & HI2 & Ho2 & Hsl2 & HxL & Hxz & HzL2 & Ha2 & Hkd2 & HP2).
  assert (H0L2 : 0 ∉ L2) by (intros Hz; apply (i_zero HI2); by apply (i_L HI2)).
  run. eapply wp_puta; [by eapply lookup_lt_Some|]. run.
  eapply wp_mono.
  { eapply (IH H1 m2 L2 g2 K2 P2 R1); [exact HI2|exact Hs2|exact Ho2| |exact HzL2|exact Eh1|].
    - apply slots_put; try done. by intros ->.
    - rewrite <- HR1. cbn in Hf. lia. }
  intros a' w' (g3 & m3 & H3 & L3 & K3 & P3 & R3 & -> & Hs3 & HI3 & Ho3 & Hsl3 & HzL3 & HR3 & Hrr3 & Hkd3 & HP3).
  exists g3, m3, H3, L3, K3, P3, R3. split_and!; try done.
  - eapply rerooted_trans; [exact Hrr|exact Eh1|exact Hrr3].
  - eapply same_kd_trans; [by eapply relinked_same|]. by eapply same_kd_trans.
  - intros c Hc. by rewrite HP3, HP2.
Qed.

(** *** Gathering the trees *)

(** [min] is a root with the smallest key of the list. *)
Definition min_ok g R hp : Prop :=
  min hp = 0 /\ R h = [] \/ min hp ∈ R h /\ forall c, c ∈ R h -> key (g (min hp)) <= key (g c).

Lemma gather_wp H m L g K P R a hp :
  Inv D H own L ∅ z 0 g K P R -> store_is D g m -> slots own h z K L a 0 -> z ∈ L -> H !! h = Some hp -> R h = [] -> min hp = 0 ->
  wp (cfor_ (Z.to_nat D_ENTRIES) 0 (gather_turn h a)) (fun _ w' => exists g' m' H' R' hp', w' = World H' m' /\ store_is D g' m' /\
    Inv D H' own {[z]} ∅ z 0 g' K P R' /\ H' !! h = Some hp' /\ nodes hp' = nodes hp /\ min_ok g' R' hp' /\
    touched h H H' /\ same_kd g g') (World H m).
Proof.
  intros HI Hs [Hlen Hin Hall Hown] HzL Eh ER Emin.
  apply (wp_cfor_ (fun i w' => exists g' m' H' R' L' hp', w' = World H' m' /\ store_is D g' m' /\
    Inv D H' own L' ∅ z 0 g' K P R' /\ H' !! h = Some hp' /\ nodes hp' = nodes hp /\ min_ok g' R' hp' /\
    touched h H H' /\ same_kd g g' /\
    forall v, v ∈ L' <-> v = z \/ exists d, (Z.to_nat i <= d)%nat /\ a !! d = Some v /\ v <> 0)).
  - exists g, m, H, R, L, hp. split_and!; try done; [by left|]. intros v. split.
    + intros Hv. destruct (Hall v Hv) as [|[->|E]]; [by left| |].
      * exfalso. apply (i_zero HI). by apply (i_L HI).
      * right. exists (length (K v)). split_and!; [lia|done|]. intros ->. apply (i_zero HI). by apply (i_L HI).
    + intros [->|(d & _ & Hd & Hv)]; [done|]. by apply (Hin d v).
  - intros i w Hi (g1 & m1 & H1 & R1 & L1 & hp1 & -> & Hs1 & HI1 & Eh1 & En1 & Hm1 & Ht1 & Hkd1 & HL1).
    unfold gather_turn. rewrite <- (Z2Nat.id i) at 1 by lia. set (d := Z.to_nat i) in *.
    replace (Z.to_nat (i + 1)) with (S d) by lia.
    destruct (lookup_lt_is_Some_2 a d) as [x Hx]; [lia|]. apply wp_bind. eapply wp_geta; [exact Hx|].
    destruct (Z.eqb_spec x 0) as [->|Hx0].
    { run. exists g1, m1, H1, R1, L1, hp1. split_and!; try done. intros v. rewrite HL1. split; intros [->|(d' & Hd & Hd' & Hv)]; auto; right.
      - exists d'. split_and!; try done. destruct (decide (d' = d)) as [->|]; [congruence|lia].
      - exists d'. split_and!; try done. lia. }
    destruct (Hin d x Hx Hx0) as (HxL & Hxz & _ & HxK).
    assert (HxL1 : x ∈ L1) by (apply HL1; right; by exists d). destruct (i_L HI1 x HxL1) as [HxD HPx].
    apply wp_bind. eapply wp_mono.
    { eapply (ins_root_wp D own H1 m1 L1 ∅ z 0 g1 K P R1 h hp1 x (L1 ∖ {[x]})); [exact HI1|exact Hs1|exact Eh1| | | |].
      - apply union_difference_singleton_L. done.
      - rewrite elem_of_difference, elem_of_singleton. by intros [_ ?].
      - by apply Hown.
      - by rewrite (i_parent HI1). }
    intros _ w' (g2 & m2 & H2 & R2 & -> & Hs2 & HI2 & Hrl & Hrr & HR2). rewrite empty_difference_L in HI2.
    destruct (rerooted_lookup Hrr) as [r2 Eh2]. pose proof (relinked_same Hrl) as Hkd2.
    assert (HL2 : forall v, v ∈ L1 ∖ {[x]} <-> v = z \/ exists d0, (S d <= d0)%nat /\ a !! d0 = Some v /\ v <> 0).
    { intros v. rewrite elem_of_difference, elem_of_singleton, HL1. split.
      - intros [[->|(d' & Hd & Hd' & Hv)] Hne]; [by left|right]. exists d'. split_and!; try done.
        destruct (decide (d' = d)) as [->|]; [congruence|lia].
      - intros [->|(d' & Hd & Hd' & Hv)]; [auto|]. split; [right; exists d'; split_and!; try done; lia|]. intros ->.
        destruct (Hin d' x Hd' Hv) as (_ & _ & _ & E). lia. }
    assert (Hfin : forall H3 hp3, H3 !! h = Some hp3 -> root hp3 = r2 -> nodes hp3 = nodes hp1 -> min_ok g2 R2 hp3 ->
      touched h H2 H3 -> exists g' m' H' R' L' hp', World H3 m2 = World H' m' /\ store_is D g' m' /\
      Inv D H' own L' ∅ z 0 g' K P R' /\ H' !! h = Some hp' /\ nodes hp' = nodes hp /\ min_ok g' R' hp' /\
      touched h H H' /\ same_kd g g' /\
      forall v, v ∈ L' <-> v = z \/ exists d0, (S d <= d0)%nat /\ a !! d0 = Some v /\ v <> 0).
    { intros H3 hp3 E3 Er3 En3 Hm3 Ht3. exists g2, m2, H3, R2, (L1 ∖ {[x]}), hp3. split_and!; try done.
      - by eapply Inv_header.
      - congruence.
      - eapply touched_trans; [exact Ht1|]. eapply touched_trans; [by eapply rerooted_touched|done].
      - by eapply same_kd_trans. }
    run. cbn [min]. assert (HxR2 : x ∈ R2 h) by (rewrite HR2; by left).
    assert (Hkey2 : forall c, key (g2 c) = key (g1 c)) by (intros c; apply Hkd2).
    assert (Hbetter : min hp1 = 0 \/ min hp1 ∈ R1 h /\ key (g1 x) < key (g1 (min hp1)) ->
      min_ok g2 R2 (Fh (nodes hp1) x r2)).
    { intros Hb. right. cbn. split; [done|]. intros c Hc. rewrite HR2 in Hc. rewrite !Hkey2.
      apply elem_of_cons in Hc as [->|Hc]; [lia|]. destruct Hm1 as [[_ E]|[Hm Hle]]; [rewrite E in Hc; by apply elem_of_nil in Hc|].
      destruct Hb as [E|[_ Hlt]]; [|specialize (Hle c Hc); lia].
      exfalso. rewrite E in Hm. apply (i_R HI1) in Hm as [Hm _]. by apply (i_zero HI1). }
    destruct (Z.eqb_spec (min hp1) 0) as [E0|E0]; run.
    + eapply Hfin; [apply lookup_insert_eq|done|done| |apply touched_insert]. apply Hbetter. by left.
    + destruct Hm1 as [[? _]|[Hm Hle]]; [done|]. assert (HmD : min hp1 ∈ D) by (by apply (i_R HI1) in Hm as []).
      unfold fibheap_compare. run. rewrite compare_keys_neg, !Hkey2.
      destruct (Z.ltb_spec (key (g1 x)) (key (g1 (min hp1)))) as [Hlt|Hge]; run.
      * eapply Hfin; [apply lookup_insert_eq|done|done| |apply touched_insert]. apply Hbetter. by right.
      * eapply Hfin; [exact Eh2|done|done| |done]. right. cbn. split; [rewrite HR2; by right|]. intros c Hc. rewrite HR2 in Hc. rewrite !Hkey2.
        apply elem_of_cons in Hc as [->|Hc]; [lia|by apply Hle].
  - intros w (g1 & m1 & H1 & R1 & L1 & hp1 & -> & Hs1 & HI1 & Eh1 & En1 & Hm1 & Ht1 & Hkd1 & HL1).
    exists g1, m1, H1, R1, hp1. split_and!; try done. replace {[z]} with L1; [done|]. apply set_eq. intros v.
    rewrite HL1, elem_of_singleton. split; [|auto]. intros [->|(d & Hd & Hd' & _)]; [done|]. apply lookup_lt_Some in Hd'. lia.
Qed.
End consolidate2.

Section extract.
Context (D : gset Z) (own : Z -> Z) (h : Z).
Implicit Types (H : gmap Z fibheap) (K R : Z -> list Z) (P : Z -> Z) (L : gset Z) (a : list Z).

Lemma consolidate_wp z fuel H m g K P R hp :
  few D -> (size D < fuel)%nat -> Inv D H own {[z]} ∅ z 0 g K P R -> store_is D g m -> ordered g K -> own z = h ->
  H !! h = Some hp ->
  wp (fibheap_consolidate fuel h) (fun _ w' => exists g' m' H' K' P' R' hp', w' = World H' m' /\ store_is D g' m' /\
    Inv D H' own {[z]} ∅ z 0 g' K' P' R' /\ ordered g' K' /\ same_kd g g' /\ only_here own h P P' /\
    H' !! h = Some hp' /\ nodes hp' = nodes hp /\ min_ok h g' R' hp' /\ touched h H H') (World H m).
Proof.
  intros Hfew Hf HI Hs Ho Hz Eh. unfold fibheap_consolidate. apply wp_bind. eapply wp_mono.
  { eapply (consolidate_loop_wp D own h z fuel fuel H m {[z]} g K P R _ hp Hfew Hf HI Hs Ho); [|set_solver|exact Eh|].
    - split.
      + done.
      + intros d v Hd. apply lookup_replicate in Hd as [-> _]. done.
      + intros v ->%elem_of_singleton. by left.
      + by intros v ->%elem_of_singleton.
    - pose proof (roots_small D own H _ _ _ _ _ _ _ _ _ _ HI Eh). lia. }
  intros a w' (g1 & m1 & H1 & L1 & K1 & P1 & R1 & -> & Hs1 & HI1 & Ho1 & Hsl & HzL & ER & Hrr & Hkd & HP).
  destruct (rerooted_lookup Hrr) as [r1 Eh1]. apply wp_bind. eapply wp_sth; [exact Eh1|].
  assert (HI2 : Inv D (<[h := Fh (nodes hp) 0 r1]> H1) own L1 ∅ z 0 g1 K1 P1 R1).
  { eapply Inv_header; [exact HI1|exact Eh1|apply lookup_insert_eq|done|apply touched_insert]. }
  eapply wp_mono; [eapply (gather_wp D own h z); [exact HI2|exact Hs1|exact Hsl|exact HzL|apply lookup_insert_eq|exact ER|done]|].
  intros [] w' (g2 & m2 & H2 & R2 & hp2 & -> & Hs2 & HI3 & Eh2 & En & Hm & Ht & Hkd2).
  exists g2, m2, H2, K1, P1, R2, hp2. split_and!; try done.
  - eapply ordered_kept; [exact Ho1|exact Hkd2|done].
  - by eapply same_kd_trans.
  - eapply touched_trans; [by eapply rerooted_touched|]. eapply touched_trans; [apply touched_insert|exact Ht].
Qed.

(** *** The children of the minimum *)

(** The links to the right of [l] lead to [e]. *)
Fixpoint rlink g (l : list Z) (e : Z) : Prop :=
  match l with [] => True | x :: l' => right (g x) = head0 (l' ++ [e]) /\ rlink g l' e end.

Lemma dpath_rlink g x l y : dpath g x l y -> rlink g (x :: l) y.
Proof.
  revert x. induction l as [|c l IH]; intros x; cbn.
  - by intros [-> _].
  - intros (-> & _ & Hp). split; [done|]. by apply IH.
Qed.

Lemma rlink_ext g g' l e : (forall c, c ∈ l -> right (g' c) = right (g c)) -> rlink g l e -> rlink g' l e.
Proof.
  induction l as [|x l IH]; [done|]. intros He [E Hl]. split; [rewrite He; [done|by left]|].
  apply IH; [|done]. intros c Hc. apply He. by right.
Qed.

Lemma adopt_loop_wp fuel H m l e x orig z g K P R hp :
  Inv D H own (list_to_set l) (list_to_set l) z 0 g K P R -> store_is D g m -> NoDup l -> rlink g l e -> e ∈ D ->
  (forall c, c ∈ l -> own c = h) -> x = head0 (l ++ [e]) -> orig = e /\ e ∉ l \/ orig = 0 /\ head l = Some e ->
  H !! h = Some hp -> (length l < fuel)%nat ->
  wp (cloop fuel (adopt_turn h) (x, orig)) (fun _ w' => exists g' m' H' R', w' = World H' m' /\ store_is D g' m' /\
    Inv D H' own ∅ ∅ z 0 g' K P R' /\ same_kd g g' /\ rerooted h hp H H' /\ (forall c, c ∈ R h -> c ∈ R' h)) (World H m).
Proof.
  revert H m l x orig g R hp. induction fuel as [|fuel IH]; intros H m l x orig g R hp HI Hs Hnd Hr HeD Hown Ex Ho Eh Hf; [lia|].
  cbn [cloop]. unfold adopt_turn at 1.
  assert (He0 : e <> 0) by (intros ->; by apply (i_zero HI)).
  destruct l as [|c l].
  { destruct Ho as [[-> _]|[_ ?]]; [|done]. rewrite Ex. cbn [head0 head app default]. rewrite Z.eqb_refl. cbn [orb]. run.
    exists g, m, H, R. split_and!; try done. by eapply rerooted_refl. }
  assert (x = c) as -> by done. clear Ex. apply NoDup_cons in Hnd as [Hcl Hnd].
  destruct (i_L HI c) as [HcD HPc]; [set_solver|]. assert (Hc0 : c <> 0) by (intros ->; by apply (i_zero HI)).
  assert (Hco : c <> orig).
  { destruct Ho as [[-> Hn]|[-> _]]; [|done]. intros ->. apply Hn. by left. }
  rewrite (proj2 (Z.eqb_neq c orig)), (proj2 (Z.eqb_neq c 0)) by done. cbn [orb].
  assert (Eo : (if orig =? 0 then c else orig) = e).
  { destruct Ho as [[-> Hn]|[-> E]]; [by rewrite (proj2 (Z.eqb_neq e 0))|]. by injection E. }
  assert (Hel : e ∉ l).
  { destruct Ho as [[-> Hn]|[-> E]]; [|by injection E as <-]. intros Hin. apply Hn. by right. }
  rewrite Eo. destruct Hr as [Er Hr]. run. rewrite Er.
  match goal with Hst : store_is _ ?G _ |- _ => set (g1 := G) in Hst; rename Hst into Hs1 end.
  assert (Hg1 : forall u, u <> c -> g1 u = g u) by (intros u Hu; unfold g1; by rewrite upd_ne).
  assert (HI1 : Inv D H own (list_to_set (c :: l)) (list_to_set (c :: l)) z 0 g1 K P R).
  { eapply Inv_fields; [exact HI|..].
    - intros u. unfold g1, upd. by case_decide; subst.
    - intros u _ Hu. rewrite Hg1; [done|]. intros ->. apply Hu. set_solver.
    - intros u Hu. unfold g1, upd. case_decide; [subst; by apply (i_mark HI)|by apply (i_mark HI)].
    - intros u Hu _. unfold g1, upd. case_decide; [by subst|done]. }
  eapply wp_mono.
  { eapply (ins_root_wp D own H _ (list_to_set (c :: l)) (list_to_set (c :: l)) z 0 g1 K P R h hp c (list_to_set l));
      [exact HI1|exact Hs1|exact Eh|done| | |].
    - by rewrite elem_of_list_to_set.
    - apply Hown. by left.
    - unfold g1. by rewrite upd_eq. }
  intros _ w' (g2 & m2 & H2 & R2 & -> & Hs2 & HI2 & Hrl & Hrr & HR2). run.
  destruct (rerooted_lookup Hrr) as [r2 Eh2].
  assert (HX : list_to_set (c :: l) ∖ {[c]} = (list_to_set l : gset Z)).
  { apply set_eq. intros v. rewrite elem_of_difference, elem_of_singleton, !elem_of_list_to_set, elem_of_cons. split; [tauto|].
    intros Hv. split; [by right|]. by intros ->. }
  rewrite HX in HI2. eapply wp_mono.
  { eapply (IH H2 m2 l (head0 (l ++ [e])) e g2 R2); [exact HI2|exact Hs2|done| |done| |done|by left|exact Eh2|cbn in Hf; lia].
    - eapply rlink_ext; [|exact Hr]. intros u Hu. assert (u <> c) by (by intros ->). rewrite <- Hg1 by done. destruct Hrl as [Hout _]. rewrite Hout; [done|].
      intros [?|(_ & _ & _ & Hn)%(i_R HI1)]%elem_of_cons; [done|]. apply Hn, elem_of_list_to_set. by right.
    - intros u Hu. apply Hown. by right. }
  intros _ w' (g3 & m3 & H3 & R3 & -> & Hs3 & HI3 & Hkd & Hrr3 & HR3). exists g3, m3, H3, R3. split_and!; try done.
  - eapply same_kd_trans; [|eapply same_kd_trans; [by eapply relinked_same|exact Hkd]]. intros u. unfold g1, upd. by case_decide; subst.
  - eapply rerooted_trans; [exact Hrr|exact Eh2|exact Hrr3].
  - intros u Hu. apply HR3. rewrite HR2. by right.
Qed.
End extract.

Section extract2.
Context (D : gset Z) (own : Z -> Z) (h : Z).
Implicit Types (H : gmap Z fibheap) (K R : Z -> list Z) (P : Z -> Z) (L : gset Z) (a : list Z).

(** The nodes of the heap [h]. *)
Definition members : gset Z := filter (fun c => own c = h) D.

Lemma elem_of_members c : c ∈ members <-> c ∈ D /\ own c = h.
Proof. unfold members. rewrite elem_of_filter. tauto. Qed.

Lemma extr_min_node_wp fuel H m g K P R hp :
  few D -> (size D < fuel)%nat -> Inv D H own ∅ ∅ 0 0 g K P R -> store_is D g m -> ordered g K ->
  H !! h = Some hp -> min hp ∈ R h -> nodes hp = Z.of_nat (size members) ->
  wp (fibheap_extr_min_node fuel h) (fun r w' => r = min hp /\ exists g' m' H' K' P' R' hp', w' = World H' m' /\ store_is D g' m' /\
    Inv D H' own {[min hp]} ∅ (min hp) 0 g' K' P' R' /\ ordered g' K' /\ same_kd g g' /\ only_here own h P P' /\
    H' !! h = Some hp' /\ nodes hp' = nodes hp - 1 /\ min_ok h g' R' hp' /\ touched h H H') (World H m).
Proof.
  intros Hfew Hf HI Hs Ho Eh HrR En. set (r := min hp) in *.
  destruct (proj1 (i_R HI h r) HrR) as (HrD & HPr & Hor & _). assert (Hr0 : r <> 0) by (intros E; apply (i_zero HI); by rewrite <- E).
  assert (Hcount : (1 <= size members)%nat) by (rewrite <- (size_singleton (C := gset Z) r); apply (subseteq_size {[r]} members); intros c ->%elem_of_singleton; by apply elem_of_members).
  pose proof (Inv_dismantle D H own g K P R r HI HrD HPr) as HI0.
  set (P0 := fun c => if decide (c ∈ K r) then 0 else P c) in *.
  destruct (i_kids HI r HrD Hr0) as (Ech & Hring & _).
  assert (Hu : u64 (nodes hp - 1) = nodes hp - 1).
  { apply u64_small. rewrite En. assert (size members <= size D)%nat by (apply subseteq_size; intros c Hc; by apply elem_of_members in Hc as []).
    unfold few, NODES_MAX in Hfew. lia. }
  unfold fibheap_extr_min_node. run. fold r. run. eapply wp_mono.
  { instantiate (1 := fun _ w' => exists g' m' H' R', w' = World H' m' /\ store_is D g' m' /\
      Inv D H' own ∅ ∅ r 0 g' (upd K r []) P0 R' /\ same_kd g g' /\ rerooted h hp H H' /\ (forall c, c ∈ R h -> c ∈ R' h)).
    destruct (K r) as [|c l] eqn:EK.
    - rewrite Ech. destruct fuel as [|fuel]; [lia|]. cbn [head0 head default cloop]. unfold adopt_turn at 1. cbn [Z.eqb orb]. run.
      exists g, m, H, R. split_and!; try done. by eapply rerooted_refl.
    - rewrite Ech. eapply (adopt_loop_wp D own h fuel H m (c :: l) c c 0 r); [exact HI0|exact Hs| | | | |done|by right|exact Eh|].
      + rewrite <- EK. apply (i_nodup HI).
      + by apply dpath_rlink.
      + apply (i_K HI r c). rewrite EK. by left.
      + intros u Hk. rewrite <- EK in Hk. destruct (kid_parent HI Hk) as (HuD & _ & E & Hr & _).
        rewrite <- (i_ownP HI) by congruence. by rewrite E.
      + rewrite <- EK. assert (length (K r) <= size D)%nat; [|lia].
        rewrite <- (size_list_to_set (C := gset Z) (K r)) by apply (i_nodup HI). apply subseteq_size.
        intros u Hk%elem_of_list_to_set. by apply (i_K HI) in Hk as []. }
  intros _ w' (g1 & m1 & H1 & R1 & -> & Hs1 & HI1 & Hkd1 & Hrr1 & HR1). destruct (rerooted_lookup Hrr1) as [r1 Eh1].
  apply wp_bind. eapply wp_mono; [eapply rem_root_wp; [exact HI1|exact Hs1|exact Eh1|by apply HR1]|].
  intros _ w' (g2 & m2 & H2 & R2 & -> & Hs2 & HI2 & Hrl & Hrr2 & HR2). destruct (rerooted_lookup Hrr2) as [r2 Eh2]. run.
  rewrite (right_id_L ∅ (∪)) in HI2. cbn [nodes min set_nodes root] in *. rewrite Hu.
  assert (Hkd2 : same_kd g g2) by (eapply same_kd_trans; [exact Hkd1|by eapply relinked_same]).
  assert (Ho2 : ordered g2 (upd K r [])).
  { eapply ordered_kept; [exact Ho|exact Hkd2|]. intros a c. unfold upd. case_decide; [by intros ?%elem_of_nil|done]. }
  assert (HP0 : only_here own h P P0).
  { intros c Hc. unfold P0. case_decide as Hk; [|done]. destruct (kid_parent HI Hk) as (HcD & _ & E & _).
    exfalso. apply Hc. rewrite <- (i_ownP HI) by congruence. by rewrite E. }
  assert (Ht2 : touched h H H2) by (eapply touched_trans; by eapply rerooted_touched).
  destruct (Z.eqb_spec (nodes hp - 1) 0) as [E1|E1]; run.
  - split; [done|]. eexists g2, m2, _, (upd K r []), P0, R2, _. split; [done|]. split; [exact Hs2|].
    split; [eapply (Inv_header D H2); [exact HI2|exact Eh2|apply lookup_insert_eq|done|]; rewrite insert_insert_eq; apply touched_insert|].
    split_and!; [done..|apply lookup_insert_eq|done| |].
    + left. split; [done|]. destruct (R2 h) as [|c l] eqn:ER; [done|]. exfalso.
      assert (Hc : c ∈ R2 h) by (rewrite ER; by left). apply (i_R HI2) in Hc as (HcD & _ & Hoc & HcL).
      assert (Hne : c <> r) by (intros ->; apply HcL; by apply elem_of_singleton).
      assert (size ({[c; r]} : gset Z) <= size members)%nat as Hsz.
      { apply subseteq_size. intros u [->%elem_of_singleton| ->%elem_of_singleton]%elem_of_union; by apply elem_of_members. }
      rewrite size_union, !size_singleton in Hsz by (intros u ->%elem_of_singleton Hu2%elem_of_singleton; done). lia.
    + rewrite insert_insert_eq. eapply touched_trans; [exact Ht2|apply touched_insert].
  - rewrite insert_insert_eq. cbn [nodes min root set_min]. eapply wp_mono.
    { eapply (consolidate_wp D own h r fuel _ m2 g2 (upd K r []) P0 R2); [done|done| |exact Hs2|exact Ho2|done|apply lookup_insert_eq].
      eapply (Inv_header D H2); [exact HI2|exact Eh2|apply lookup_insert_eq|done|apply touched_insert]. }
    intros [] w' (g3 & m3 & H3 & K3 & P3 & R3 & hp3 & -> & Hs3 & HI3 & Ho3 & Hkd3 & HP3 & Eh3 & En3 & Hm3 & Ht3). run.
    split; [done|]. exists g3, m3, H3, K3, P3, R3, hp3. split_and!; try done.
    + by eapply same_kd_trans.
    + intros c Hc. by rewrite HP3, HP0.
    + eapply touched_trans; [exact Ht2|]. eapply touched_trans; [apply touched_insert|exact Ht3].
Qed.
End extract2.

(** ** Heaps as priority queues *)

(** [tops]: the live heaps, each with the node that is its minimum, 0 when it
    is empty. [items]: the live nodes, each with its heap, key and data. *)
Record queues := Queues { tops : gmap Z Z; items : gmap Z (Z * Z * Z) }.

(** A [fibheapkey_t]. *)
Definition is_long (k : Z) : Prop := - 9223372036854775808 <= k < 9223372036854775808.

#[global] Instance is_long_dec k : Decision (is_long k).
Proof. unfold is_long. apply _. Defined.

(** [t] has a least key of the heap [h]. *)
Definition least (I : gmap Z (Z * Z * Z)) (h t : Z) : Prop :=
  t = 0 /\ (forall c k d, I !! c <> Some (h, k, d)) \/
  exists k d, I !! t = Some (h, k, d) /\ forall c k' d', I !! c = Some (h, k', d') -> k <= k'.

(** *** What holds of the store between calls *)

(** [min] is a root with a least key of all the nodes of the heap. *)
Definition min_at (D : gset Z) (own : Z -> Z) g (P : Z -> Z) (h t : Z) : Prop :=
  t = 0 /\ (forall c, c ∈ D -> own c <> h) \/
  t ∈ D /\ own t = h /\ P t = 0 /\ forall c, c ∈ D -> own c = h -> key (g t) <= key (g c).

Record sound (D : gset Z) (H : gmap Z fibheap) (own : Z -> Z) g K P R : Prop := Sound {
  o_inv : Inv D H own ∅ ∅ 0 0 g K P R;
  o_ord : ordered g K;
  o_count : forall h hp, H !! h = Some hp -> nodes hp = Z.of_nat (size (members D own h));
  o_min : forall h hp, H !! h = Some hp -> min_at D own g P h (min hp);
  o_long : forall c, c ∈ D -> is_long (key (g c)) }.

Arguments o_inv {_ _ _ _ _ _ _} _.
Arguments o_ord {_ _ _ _ _ _ _} _.
Arguments o_count {_ _ _ _ _ _ _} _.
Arguments o_min {_ _ _ _ _ _ _} _.
Arguments o_long {_ _ _ _ _ _ _} _.

Record shows (D : gset Z) (own : Z -> Z) g (H : gmap Z fibheap) (A : queues) : Prop := Shows {
  sh_tops : forall h, tops A !! h = min <$> H !! h;
  sh_items : forall c, items A !! c = if decide (c ∈ D) then Some (own c, key (g c), data (g c)) else None }.

Arguments sh_tops {_ _ _ _ _} _.
Arguments sh_items {_ _ _ _ _} _.

Definition Rel (w : world) (A : queues) : Prop := exists D own g K P R,
  store_is D g (ns w) /\ sound D (hs w) own g K P R /\ shows D own g (hs w) A.

Lemma shows_size D own g H A : shows D own g H A -> size (items A) = size D.
Proof.
  intros Hs. rewrite <- (size_dom (D := gset Z)). f_equal. apply set_eq. intros c. rewrite elem_of_dom, (sh_items Hs).
  destruct (decide (c ∈ D)); split; intros Hx; [done|by eexists|by destruct Hx|done].
Qed.
Arguments shows_size {_ _ _ _ _} _.

Lemma shows_item D own g H A c h k d :
  shows D own g H A -> items A !! c = Some (h, k, d) <-> c ∈ D /\ own c = h /\ key (g c) = k /\ data (g c) = d.
Proof.
  intros Hs. rewrite (sh_items Hs). case_decide; (split; [intros E|intros (? & <- & <- & <-)]); try done. by injection E.
Qed.
Arguments shows_item {_ _ _ _ _ _ _ _ _} _.

Lemma shows_top D own g H A h hp : shows D own g H A -> H !! h = Some hp -> tops A !! h = Some (min hp).
Proof. intros Hs E. by rewrite (sh_tops Hs), E. Qed.
Arguments shows_top {_ _ _ _ _ _ _} _ _.

Lemma shows_heap D own g H A h t : shows D own g H A -> tops A !! h = Some t -> exists hp, H !! h = Some hp /\ min hp = t.
Proof. intros Hs E. rewrite (sh_tops Hs) in E. destruct (H !! h); [|done]. injection E as <-. eauto. Qed.
Arguments shows_heap {_ _ _ _ _ _ _} _ _.

(** The number of the nodes of a heap. *)
Lemma members_empty D own h t g P : min_at D own g P h t -> 0 ∉ D -> t = 0 <-> size (members D own h) = 0%nat.
Proof.
  intros Hm H0. rewrite size_empty_iff. split.
  - intros ->. intros c. rewrite elem_of_members, elem_of_empty. destruct Hm as [[_ Hn]|[? _]]; [|done]. split; [|done]. intros [Hc ?]. by apply (Hn c).
  - intros E. destruct Hm as [[-> _]|(Ht & Hot & _)]; [done|]. assert (Hin : t ∈ members D own h) by (by apply elem_of_members).
    rewrite E in Hin. by apply elem_of_empty in Hin.
Qed.

(** What is seen of the minimum. *)
Lemma min_least D own g P H A h t : shows D own g H A -> min_at D own g P h t -> least (items A) h t.
Proof.
  intros Hs [[-> Hn]|(Ht & Ho & _ & Hle)]; [left|right].
  - split; [done|]. intros c k d E. apply (shows_item Hs) in E as (Hc & Hoc & _). by apply (Hn c).
  - exists (key (g t)), (data (g t)). split; [by apply (shows_item Hs)|].
    intros c k' d' E. apply (shows_item Hs) in E as (Hc & Hoc & <- & _). by apply Hle.
Qed.

Lemma min_in_roots D H own g K P R h hp : sound D H own g K P R -> H !! h = Some hp -> min hp <> 0 -> min hp ∈ R h.
Proof.
  intros Hs E Hn. destruct (o_min Hs h hp E) as [[? _]|(? & ? & ? & _)]; [done|]. apply (i_R (o_inv Hs)).
  by split_and!.
Qed.

(** From the root list to the whole heap. *)
Lemma min_ok_at D H own z y g K P R h hp :
  Inv D H own ∅ ∅ z y g K P R -> ordered g K -> min_ok h g R hp -> min_at D own g P h (min hp).
Proof.
  intros HI Ho [[-> ER]|[Hm Hle]].
  - left. split; [done|]. intros c Hc Hoc. destruct (ordered_root _ _ _ _ _ _ _ _ _ _ _ _ HI Ho Hc) as (r & Hr & HPr & Hor & _).
    assert (Hin : r ∈ R h) by (apply (i_R HI); split_and!; [done..|congruence|done]). rewrite ER in Hin. by apply elem_of_nil in Hin.
  - right. apply (i_R HI) in Hm as (HmD & HPm & Hom & _). split_and!; try done. intros c Hc Hoc.
    destruct (ordered_root _ _ _ _ _ _ _ _ _ _ _ _ HI Ho Hc) as (r & Hr & HPr & Hor & Hler).
    etransitivity; [|exact Hler]. apply Hle. apply (i_R HI). split_and!; [done..|congruence|done].
Qed.

(** *** The calls and their specification *)

Inductive op :=
| New | Insert (h k d : Z) | Min (h : Z) | MinKey (h : Z) | Empty (h : Z) | ExtractMin (h : Z)
| ReplaceKeyData (h n k d : Z) | ReplaceData (h n d : Z) | ReplaceKey (h n k : Z) | DeleteNode (h n : Z)
| Delete (h : Z) | Union (ha hb : Z).

Definition key_of (I : gmap Z (Z * Z * Z)) (n : Z) : Z := match I !! n with Some (_, k, _) => k | None => 0 end.
Definition data_of (I : gmap Z (Z * Z * Z)) (n : Z) : Z := match I !! n with Some (_, _, d) => d | None => 0 end.

(** [n] leaves the heap [h]. *)
Definition taken (A : queues) (h n : Z) (A' : queues) : Prop :=
  exists t, A' = Queues (<[h := t]> (tops A)) (delete n (items A)) /\ least (items A') h t.

(** The node [n] of [h], with the key [k0] and the data [d0], gets a smaller key. *)
Definition rekeyed (A : queues) (h n k0 d0 k d r : Z) (A' : queues) : Prop :=
  if decide (k0 < k) then r = 0 /\ A' = A
  else r = d0 /\ exists t, tops A !! h = Some t /\
    A' = Queues (<[h := if decide (k = k0 /\ k0 <> FIBHEAPKEY_MIN) then t
                        else if decide (k <= key_of (items A) t) then n else t]> (tops A))
                (<[n := (h, k, d)]> (items A)).

(** The node of a call is in the heap of the call. *)
Definition item_of (A : queues) (h n : Z) : option (Z * Z) :=
  match items A !! n with Some (h', k, d) => if decide (h' = h) then Some (k, d) else None | None => None end.

Definition moved (ha hb : Z) (x : Z * Z * Z) : Z * Z * Z := let '(h, k, d) := x in (if decide (h = hb) then ha else h, k, d).

(** What a call may return and leave, with at most [N] nodes live; [None]: the
    call is not allowed. *)
Definition spec (N : Z) (A : queues) (o : op) : option (Z -> queues -> Prop) :=
  match o with
  | New => Some (fun r A' => r <> 0 /\ tops A !! r = None /\ A' = Queues (<[r := 0]> (tops A)) (items A))
  | Insert h k d =>
      t ← tops A !! h;
      if decide (is_long k /\ Z.of_nat (size (items A)) < N) then
        Some (fun r A' => r <> 0 /\ items A !! r = None /\
          A' = Queues (<[h := if decide (t = 0 \/ k < key_of (items A) t) then r else t]> (tops A))
                      (<[r := (h, k, d)]> (items A)))
      else None
  | Min h => t ← tops A !! h; Some (fun r A' => A' = A /\ r = data_of (items A) t)
  | MinKey h => t ← tops A !! h; Some (fun r A' => A' = A /\ r = key_of (items A) t)
  | Empty h => t ← tops A !! h; Some (fun r A' => A' = A /\ r = if decide (t = 0) then 1 else 0)
  | ExtractMin h =>
      t ← tops A !! h;
      Some (fun r A' => if decide (t = 0) then A' = A /\ r = 0 else r = data_of (items A) t /\ taken A h t A')
  | ReplaceKeyData h n k d =>
      kd ← item_of A h n; if decide (is_long k) then Some (rekeyed A h n kd.1 kd.2 k d) else None
  | ReplaceData h n d => kd ← item_of A h n; Some (rekeyed A h n kd.1 kd.2 kd.1 d)
  | ReplaceKey h n k =>
      kd ← item_of A h n;
      if decide (is_long k) then Some (fun r A' => r = i32 kd.1 /\ exists r', rekeyed A h n kd.1 kd.2 k kd.2 r' A') else None
  | DeleteNode h n => kd ← item_of A h n; Some (fun r A' => r = kd.2 /\ taken A h n A')
  | Delete h =>
      _ ← tops A !! h;
      Some (fun r A' => r = 0 /\ A' = Queues (delete h (tops A)) (filter (fun x => x.2.1.1 <> h) (items A)))
  | Union ha hb =>
      ta ← tops A !! ha; tb ← tops A !! hb;
      if decide (ha = hb) then None else
      Some (fun r A' =>
        if decide (ta = 0) then r = hb /\ A' = Queues (delete ha (tops A)) (items A)
        else if decide (tb = 0) then r = ha /\ A' = Queues (delete hb (tops A)) (items A)
        else r = ha /\
          A' = Queues (delete hb (<[ha := if decide (key_of (items A) tb < key_of (items A) ta) then tb else ta]> (tops A)))
                      (moved ha hb <$> items A))
  end.

(** The code ends the process when memory runs out. *)
Section run.
Context `{Alloc}.

Definition num {W} (m : St W Z) : St W (option Z) := r <- m ;; ret (Some r).

(** An [abort] is no result. *)
Definition run_op (fuel : nat) (o : op) : St world (option Z) :=
  match o with
  | New => fibheap_new
  | Insert h k d => fibheap_insert h k d
  | Min h => num (fibheap_min h)
  | MinKey h => num (fibheap_min_key h)
  | Empty h => num (fibheap_empty h)
  | ExtractMin h => num (fibheap_extract_min fuel h)
  | ReplaceKeyData h n k d => num (fibheap_replace_key_data fuel h n k d)
  | ReplaceData h n d => num (fibheap_replace_data fuel h n d)
  | ReplaceKey h n k => num (fibheap_replace_key fuel h n k)
  | DeleteNode h n => r <- fibheap_delete_node fuel h n ;; match r with Some _ => ret r | None => undef end
  | Delete h => fibheap_delete fuel h ;;; ret (Some 0)
  | Union ha hb => num (fibheap_union ha hb)
  end.

End run.

(** A refused allocation ends the process. *)
Definition refused `{Alloc} (w : world) : Prop := place_heap w = None \/ place_node w = None.

Abbreviation wpr m Q w := (wp m (unless refused Q) w).

(** *** A change of one heap *)

Lemma sound_change D D' H H' own own' g g' K K' P P' R R' h :
  sound D H own g K P R -> Inv D' H' own' ∅ ∅ 0 0 g' K' P' R' -> ordered g' K' -> touched h H H' ->
  (forall c h', h' <> h -> c ∈ D' /\ own' c = h' <-> c ∈ D /\ own c = h') ->
  (forall hp, H' !! h = Some hp -> nodes hp = Z.of_nat (size (members D' own' h)) /\ min_at D' own' g' P' h (min hp)) ->
  (forall c, c ∈ D -> own c <> h -> P c = 0 -> P' c = 0) ->
  (forall c, c ∈ D -> own c <> h -> key (g' c) = key (g c)) ->
  (forall c, c ∈ D' -> is_long (key (g' c))) ->
  sound D' H' own' g' K' P' R'.
Proof.
  intros [Hinv Hord Hcount Hmin Hlong] HI' Ho' Ht HO Hh HP Hk Hl'. split; [done|done| | |done].
  - intros h' hp E. destruct (decide (h' = h)) as [->|Hne]; [by apply Hh|]. rewrite Ht in E by done.
    rewrite (Hcount h' hp E). do 2 f_equal. apply set_eq. intros c. rewrite !elem_of_members. symmetry. by apply HO.
  - intros h' hp E. destruct (decide (h' = h)) as [->|Hne]; [by apply Hh|]. rewrite Ht in E by done.
    destruct (Hmin h' hp E) as [[-> Hn]|(Hm & Hom & HPm & Hle)]; [left|right].
    + split; [done|]. intros c Hc Hoc. destruct (proj1 (HO c h' Hne)) as [Hc' Hoc']; [done|]. by apply (Hn c).
    + destruct (proj2 (HO (min hp) h' Hne)) as [Hm' Hom']; [done|]. split_and!; try done; [by apply HP; congruence|].
      intros c Hc Hoc. destruct (proj1 (HO c h' Hne)) as [Hc' Hoc']; [done|]. rewrite !Hk by congruence. by apply Hle.
Qed.

Lemma item_of_shows D own g H A h n kd :
  shows D own g H A -> item_of A h n = Some kd -> n ∈ D /\ own n = h /\ kd = (key (g n), data (g n)).
Proof.
  intros Hs. unfold item_of. rewrite (sh_items Hs). case_decide; [|done]. case_decide; [|done]. intros [= <-]. done.
Qed.
Arguments item_of_shows {_ _ _ _ _ _ _ _} _ _.

Lemma key_of_shows D own g H A n : shows D own g H A -> n ∈ D -> key_of (items A) n = key (g n).
Proof. intros Hs Hn. unfold key_of. by rewrite (sh_items Hs), decide_True. Qed.
Arguments key_of_shows {_ _ _ _ _ _} _ _.

Lemma data_of_shows D own g H A n : shows D own g H A -> n ∈ D -> data_of (items A) n = data (g n).
Proof. intros Hs Hn. unfold data_of. by rewrite (sh_items Hs), decide_True. Qed.
Arguments data_of_shows {_ _ _ _ _ _} _ _.

Lemma shows_none D own g H A n : shows D own g H A -> n ∉ D -> items A !! n = None.
Proof. intros Hs Hn. by rewrite (sh_items Hs), decide_False. Qed.
Arguments shows_none {_ _ _ _ _ _} _ _.

(** A heap with a node has a minimum. *)
Lemma min_node D H own g K P R h hp c :
  sound D H own g K P R -> H !! h = Some hp -> c ∈ D -> own c = h ->
  min hp ∈ D /\ own (min hp) = h /\ P (min hp) = 0 /\ min hp <> 0 /\ key (g (min hp)) <= key (g c).
Proof.
  intros Hs E Hc Ho. destruct (o_min Hs h hp E) as [[_ Hn]|(Hm & Hom & HPm & Hle)]; [by destruct (Hn c Hc)|].
  split_and!; try done; [|by apply Hle]. intros E0. apply (i_zero (o_inv Hs)). by rewrite <- E0.
Qed.
Arguments min_node {_ _ _ _ _ _ _ _ _ _} _ _ _ _.

Section calls.
Context {al : Alloc} {laws : AllocLaws} (N fuel : nat).
Context (HN : Z.of_nat N < NODES_MAX) (Hfuel : (N < fuel)%nat).

Definition bounded (A : queues) : Prop := (size (items A) <= N)%nat.

(** What a call does. *)
Definition meets (o : op) : Prop := forall A w post,
  Rel w A -> bounded A -> spec (Z.of_nat N) A o = Some post ->
  wpr (run_op fuel o) (fun r w' => exists A', post r A' /\ Rel w' A') w.

Lemma wp_num (m : St world Z) Q w : wp m (fun r w' => Q r w') w -> wpr (num m) Q w.
Proof. intros Hm. unfold num. apply wp_bind. eapply wp_mono; [exact Hm|]. intros r w' HQ. by apply wp_ret. Qed.

Lemma new_meets : meets New.
Proof.
  intros A w post (D & own & g & K & P & R & Hs & Hsd & Hsh) _ [= <-]. cbn [run_op]. unfold wp, fibheap_new.
  destruct (place_heap w) as [p|] eqn:Ep; [|by left]. destruct (place_heap_fresh _ _ Ep) as [Hp0 Hp].
  pose proof (o_inv Hsd) as HI. exists (Queues (<[p := 0]> (tops A)) (items A)). split; [split_and!; [done| |done]|].
  { by rewrite (sh_tops Hsh), Hp. }
  assert (Hno : forall c, c ∈ D -> own c <> p) by (intros c Hc E; destruct (i_own HI c Hc) as [hp Eh]; congruence).
  exists D, own, g, K, P, R. split; [done|]. cbn [hs ns]. split.
  - eapply (sound_change D D (hs w) _ own own g g K K P P R R p); try done; [|apply (o_ord Hsd)|apply touched_insert| |apply (o_long Hsd)].
    + eapply (Inv_relink D [] (hs w)); [exact HI|by split|by intros ? ?%elem_of_nil|by intros ? ?%elem_of_empty..| |apply (i_ownP HI)| |apply (i_R HI)].
      * intros c Hc. rewrite lookup_insert_ne by (intros E; by apply (Hno c)). by apply (i_own HI).
      * intros h hp. destruct (decide (h = p)) as [->|Hne]; [|rewrite lookup_insert_ne by done; apply (i_root HI)].
        rewrite lookup_insert_eq. intros [= <-]. cbn [root].
        assert (ER : R p = []); [|rewrite ER; split_and!; [done..|constructor]].
        destruct (R p) as [|c l] eqn:ER; [done|]. exfalso. assert (Hc : c ∈ R p) by (rewrite ER; by left).
        apply (i_R HI) in Hc as (Hc & _ & Ho & _). by apply (Hno c).
    + intros hp. rewrite lookup_insert_eq. intros [= <-]. cbn [nodes min]. split; [|by left].
      assert (E : size (members D own p) = 0%nat); [|by rewrite E]. apply size_empty_iff. intros c.
      rewrite elem_of_members, elem_of_empty. split; [|done]. intros [Hc ?]. by apply (Hno c).
  - split; [|apply (sh_items Hsh)]. intros h. cbn [tops]. destruct (decide (h = p)) as [->|Hne].
    + by rewrite !lookup_insert_eq.
    + rewrite !lookup_insert_ne by done. apply (sh_tops Hsh).
Qed.

Lemma min_meets h : meets (Min h).
Proof.
  intros A [H m] post (D & own & g & K & P & R & Hs & Hsd & Hsh). cbn [hs ns] in *. intros _ Hsp. cbn [spec] in Hsp.
  destruct (tops A !! h) as [t|] eqn:Et; [|done]. injection Hsp as <-. destruct (shows_heap Hsh Et) as (hp & Eh & Emin).
  cbn [run_op]. apply wp_num. unfold fibheap_min. run. rewrite Emin.
  assert (HR : Rel (World H m) A) by (by exists D, own, g, K, P, R).
  destruct (o_min Hsd h hp Eh) as [[E _]|(Ht & _)]; rewrite Emin in *.
  - rewrite E. run. exists A. split; [|done]. split; [done|]. unfold data_of. rewrite (shows_none Hsh); [done|].
    apply (i_zero (o_inv Hsd)).
  - rewrite (proj2 (Z.eqb_neq t 0)) by (intros E0; apply (i_zero (o_inv Hsd)); by rewrite <- E0).
    run. exists A. split; [|done]. split; [done|]. by rewrite (data_of_shows Hsh).
Qed.

Lemma min_key_meets h : meets (MinKey h).
Proof.
  intros A [H m] post (D & own & g & K & P & R & Hs & Hsd & Hsh). cbn [hs ns] in *. intros _ Hsp. cbn [spec] in Hsp.
  destruct (tops A !! h) as [t|] eqn:Et; [|done]. injection Hsp as <-. destruct (shows_heap Hsh Et) as (hp & Eh & Emin).
  cbn [run_op]. apply wp_num. unfold fibheap_min_key. run. rewrite Emin.
  assert (HR : Rel (World H m) A) by (by exists D, own, g, K, P, R).
  destruct (o_min Hsd h hp Eh) as [[E _]|(Ht & _)]; rewrite Emin in *.
  - rewrite E. run. exists A. split; [|done]. split; [done|]. unfold key_of. rewrite (shows_none Hsh); [done|].
    apply (i_zero (o_inv Hsd)).
  - rewrite (proj2 (Z.eqb_neq t 0)) by (intros E0; apply (i_zero (o_inv Hsd)); by rewrite <- E0).
    run. exists A. split; [|done]. split; [done|]. by rewrite (key_of_shows Hsh).
Qed.

Lemma empty_meets h : meets (Empty h).
Proof.
  intros A [H m] post (D & own & g & K & P & R & Hs & Hsd & Hsh). cbn [hs ns] in *. intros _ Hsp. cbn [spec] in Hsp.
  destruct (tops A !! h) as [t|] eqn:Et; [|done]. injection Hsp as <-. destruct (shows_heap Hsh Et) as (hp & Eh & Emin).
  cbn [run_op]. apply wp_num. unfold fibheap_empty. run. exists A. split; [|by exists D, own, g, K, P, R]. split; [done|].
  rewrite (o_count Hsd h hp Eh).
  pose proof (members_empty _ _ _ _ _ _ (o_min Hsd h hp Eh) (i_zero (o_inv Hsd))) as Hme. rewrite Emin in Hme.
  destruct (Z.eqb_spec (Z.of_nat (size (members D own h))) 0), (decide (t = 0)); try done; lia.
Qed.
End calls.

Lemma store_alloc D g m x n : store_is D g m -> x ∉ D -> store_is ({[x]} ∪ D) (upd g x n) (<[x := n]> m).
Proof.
  intros Hs Hx a. unfold upd. destruct (decide (a = x)) as [->|Hne].
  - rewrite lookup_insert_eq, decide_True; [done|]. apply elem_of_union. left. by apply elem_of_singleton.
  - rewrite lookup_insert_ne by done. rewrite Hs. destruct (decide (a ∈ D)), (decide (a ∈ {[x]} ∪ D)); set_solver.
Qed.

Lemma store_ext D g g' m : (forall c, c ∈ D -> g c = g' c) -> store_is D g m -> store_is D g' m.
Proof. intros He Hs a. rewrite Hs. case_decide; [by rewrite He|done]. Qed.

(** The number of nodes after an insertion. *)
Lemma insertion_count D own g K P R H h hp p :
  sound D H own g K P R -> H !! h = Some hp -> Z.of_nat (size D) < 18446744073709551615 -> p ∉ D ->
  u64 (nodes hp + 1) = Z.of_nat (size (members ({[p]} ∪ D) (upd own p h) h)).
Proof.
  intros Hsd Eh Hsz HpD.
  assert (Hmem : members ({[p]} ∪ D) (upd own p h) h = {[p]} ∪ members D own h).
  { apply set_eq. intros c. rewrite elem_of_members, !elem_of_union, elem_of_singleton, elem_of_members. unfold upd.
    case_decide; subst; split; try tauto. }
  assert (Hmle : (size (members D own h) <= size D)%nat) by (apply subseteq_size; intros c Hc; by apply elem_of_members in Hc as []).
  assert (Hpm : p ∉ members D own h) by (rewrite elem_of_members; tauto).
  rewrite Hmem, size_union, size_singleton by (intros u ->%elem_of_singleton; done).
  rewrite (o_count Hsd h hp Eh), u64_small; lia.
Qed.

(** The minimum after an insertion. *)
Lemma insertion_min D own g g2 K P R H h k hp p t :
  sound D H own g K P R -> H !! h = Some hp -> p ∉ D ->
  (forall c, c ∈ D -> key (g2 c) = key (g c) /\ data (g2 c) = data (g c)) -> key (g2 p) = k ->
  (t = p /\ (min hp = 0 \/ k < key (g (min hp))) \/ t = min hp /\ min hp <> 0 /\ key (g (min hp)) <= k) ->
  min_at ({[p]} ∪ D) (upd own p h) g2 (upd P p 0) h t.
Proof.
  intros Hsd Eh HpD Hg2 Hkp Ht.
  assert (Hle : forall c, c ∈ {[p]} ∪ D -> upd own p h c = h -> c = p \/ c ∈ D /\ min hp <> 0 /\ key (g (min hp)) <= key (g2 c)).
  { intros c [->%elem_of_singleton|Hc]%elem_of_union Ho; [by left|right]. destruct (Hg2 c Hc) as [-> _].
    rewrite upd_ne in Ho by (by intros ->). destruct (min_node Hsd Eh Hc Ho) as (_ & _ & _ & ? & ?). done. }
  right. destruct Ht as [[-> Hlt]|(-> & Hm0 & Hge)].
  - split_and!; [apply elem_of_union; left; by apply elem_of_singleton|apply upd_eq|apply upd_eq|]. rewrite Hkp. intros c Hc Ho.
    destruct (Hle c Hc Ho) as [->|(_ & ? & ?)]; [by rewrite Hkp|]. destruct Hlt; [done|lia].
  - destruct (o_min Hsd h hp Eh) as [[? _]|(HmD & Hom & HPm & _)]; [done|].
    assert (min hp <> p) by (by intros E; rewrite E in HmD).
    split_and!; [by apply elem_of_union; right|by rewrite upd_ne|by rewrite upd_ne|].
    intros c Hc Ho. destruct (Hg2 _ HmD) as [-> _]. destruct (Hle c Hc Ho) as [->|(_ & _ & ?)]; [by rewrite Hkp|done].
Qed.

Section calls2.
Context {al : Alloc} {laws : AllocLaws} (N fuel : nat).
Context (HN : Z.of_nat N < NODES_MAX) (Hfuel : (N < fuel)%nat).

(** The new node [p] is in its place, and so is the minimum [t]. *)
Lemma insertion_rel D own g K P R H A h k d hp p g2 m2 H2 R2 r2 t H3 :
  sound D H own g K P R -> shows D own g H A -> H !! h = Some hp -> is_long k -> Z.of_nat (size D) < 18446744073709551615 ->
  p ∉ D -> store_is ({[p]} ∪ D) g2 m2 -> Inv ({[p]} ∪ D) H2 (upd own p h) ∅ ∅ 0 0 g2 K (upd P p 0) R2 ->
  (forall c, c ∈ D -> key (g2 c) = key (g c) /\ data (g2 c) = data (g c)) -> key (g2 p) = k -> data (g2 p) = d ->
  touched h H H2 -> H2 !! h = Some (Fh (nodes hp) (min hp) r2) ->
  (t = p /\ (min hp = 0 \/ k < key (g (min hp))) \/ t = min hp /\ min hp <> 0 /\ key (g (min hp)) <= k) ->
  H3 !! h = Some (Fh (u64 (nodes hp + 1)) t r2) -> touched h H H3 ->
  Rel (World H3 m2) (Queues (<[h := t]> (tops A)) (<[p := (h, k, d)]> (items A))).
Proof.
  intros Hsd Hsh Eh Hk Hsz HpD Hs3 HI2 Hg2 Hkp Hdp HtH Eh2 Ht Eh3 Ht3.
  pose proof (o_inv Hsd) as HI. set (own' := upd own p h) in *. set (P' := upd P p 0) in *.
  exists ({[p]} ∪ D), own', g2, K, P', R2. cbn [hs ns]. split; [exact Hs3|].
  assert (HI3 : Inv ({[p]} ∪ D) H3 own' ∅ ∅ 0 0 g2 K P' R2).
  { eapply (Inv_header _ H2); [exact HI2|exact Eh2|exact Eh3|done|]. intros h' Hne. rewrite Ht3 by done. symmetry. by apply HtH. }
  split.
  - eapply (sound_change D ({[p]} ∪ D) H H3 own own' g g2 K K P P' R R2 h); [done|exact HI3| |exact Ht3| | | | |].
    + intros a c Hc. pose proof (proj1 (i_K HI a c) Hc) as (HcD & HaD & _). destruct (Hg2 a HaD) as [-> _], (Hg2 c HcD) as [-> _].
      by apply (o_ord Hsd).
    + intros c h' Hne. rewrite elem_of_union, elem_of_singleton. unfold own', upd.
      destruct (decide (c = p)) as [->|]; [|tauto]. split; [|tauto]. intros [_ <-]. done.
    + intros hp3. rewrite Eh3. intros [= <-]. cbn [nodes min]. split; [by eapply insertion_count|].
      by eapply insertion_min.
    + intros c Hc _. unfold P', upd. by destruct (decide (c = p)).
    + intros c Hc _. by destruct (Hg2 c Hc).
    + intros c [->%elem_of_singleton|Hc]%elem_of_union; [by rewrite Hkp|]. destruct (Hg2 c Hc) as [-> _].
      by apply (o_long Hsd).
  - split; cbn [tops items].
    + intros h'. destruct (decide (h' = h)) as [->|Hne]; [by rewrite lookup_insert_eq, Eh3|].
      rewrite lookup_insert_ne by done. rewrite Ht3 by done. apply (sh_tops Hsh).
    + intros c. destruct (decide (c = p)) as [->|Hne].
      * rewrite lookup_insert_eq, decide_True by (apply elem_of_union; left; by apply elem_of_singleton). rewrite Hkp, Hdp. unfold own'. by rewrite upd_eq.
      * rewrite lookup_insert_ne by done. rewrite (sh_items Hsh). unfold own'.
        destruct (decide (c ∈ D)) as [Hc|Hc].
        -- rewrite decide_True by (apply elem_of_union; by right). destruct (Hg2 c Hc) as [-> ->]. by rewrite upd_ne.
        -- rewrite decide_False; [done|]. rewrite elem_of_union, elem_of_singleton. tauto.
Qed.

Lemma insertion_wp D own g K P R H m A h k d hp :
  store_is D g m -> sound D H own g K P R -> shows D own g H A -> H !! h = Some hp -> is_long k -> Z.of_nat (size D) < 18446744073709551615 ->
  wpr (fibheap_insert h k d) (fun r w' => r <> 0 /\ items A !! r = None /\
    Rel w' (Queues (<[h := if decide (min hp = 0 \/ k < key_of (items A) (min hp)) then r else min hp]> (tops A))
                   (<[r := (h, k, d)]> (items A)))) (World H m).
Proof.
  intros Hs Hsd Hsh Eh Hk Hsz. unfold fibheap_insert, fibnode_new, calloc_node.
  unfold obind at 1. apply wp_bind. unfold obind at 1. apply wp_bind.
  unfold wp at 1. destruct (place_node (World H m)) as [p|] eqn:Ep; [|cbn; by right].
  destruct (place_node_fresh _ _ Ep) as [Hp0 Hpn]. cbn [hs ns] in *.
  assert (HpD : p ∉ D) by (intros Hp; rewrite Hs, decide_True in Hpn; done).
  pose proof (o_inv Hsd) as HI. pose proof (store_alloc D g m p (Fn 0 0 0 0 0 0 0 0) Hs HpD) as Hs1. clear Hs.
  assert (HpD' : p ∈ {[p]} ∪ D) by (apply elem_of_union; left; by apply elem_of_singleton).
  run. cbn [obind]. run.
  match goal with Hst : store_is _ ?G ?M |- _ =>
    assert (Hs2 : store_is ({[p]} ∪ D) (upd g p (Fn 0 0 p p k d 0 0)) M) by
      (eapply store_ext; [|exact Hst]; intros u _; unfold upd; repeat case_decide; by subst); clear Hst end.
  set (g1 := upd g p _) in *. pose proof (Inv_alloc D H own g K P R p h k d hp HI HpD Hp0 Eh) as HI1. fold g1 in HI1.
  assert (Eg1 : g1 p = Fn 0 0 p p k d 0 0) by apply upd_eq.
  eapply wp_mono.
  { eapply (ins_root_wp _ (upd own p h) H _ {[p]} ∅ 0 0 g1 K (upd P p 0) R h hp p ∅); [exact HI1|exact Hs2|exact Eh| |done|apply upd_eq|by rewrite Eg1].
    by rewrite (right_id_L ∅ (∪)). }
  intros _ w' (g2 & m2 & H2 & R2 & -> & Hs3 & HI2 & Hrl & Hrr & HR2). rewrite empty_difference_L in HI2. clear Hs2.
  destruct (rerooted_lookup Hrr) as [r2 Eh2]. pose proof (relinked_same Hrl) as Hkd.
  assert (Hg2 : forall c, c ∈ D -> key (g2 c) = key (g c) /\ data (g2 c) = data (g c)).
  { intros c Hc. destruct (Hkd c) as [-> ->]. unfold g1. rewrite upd_ne by (by intros ->). done. }
  assert (Hkp : key (g2 p) = k /\ data (g2 p) = d) by (destruct (Hkd p) as [-> ->]; by rewrite Eg1). destruct Hkp as [Hkp Hdp].
  assert (HtH : touched h H H2) by (by eapply rerooted_touched).
  assert (Hfin : forall t H3, H3 !! h = Some (Fh (u64 (nodes hp + 1)) t r2) -> touched h H2 H3 ->
    (t = p /\ (min hp = 0 \/ k < key (g (min hp))) \/ t = min hp /\ min hp <> 0 /\ key (g (min hp)) <= k) ->
    (if decide (min hp = 0 \/ k < key_of (items A) (min hp)) then p else min hp) = t ->
    p <> 0 /\ items A !! p = None /\ Rel (World H3 m2)
      (Queues (<[h := if decide (min hp = 0 \/ k < key_of (items A) (min hp)) then p else min hp]> (tops A)) (<[p := (h, k, d)]> (items A)))).
  { intros t H3 Eh3 Ht3 Ht Et. split; [done|]. split; [by eapply shows_none|]. rewrite Et. eapply insertion_rel; try done. by eapply touched_trans. }
  run. cbn [min]. destruct (Z.eqb_spec (min hp) 0) as [E0|E0].
  - run. cbn [unless]. rewrite insert_insert_eq. eapply (Hfin p); [by rewrite lookup_insert_eq|apply touched_insert|left; auto|by rewrite decide_True by auto].
  - assert (HmD : min hp ∈ D) by (destruct (o_min Hsd h hp Eh) as [[? _]|[? _]]; done).
    assert (HmD' : min hp ∈ {[p]} ∪ D) by (apply elem_of_union; by right). run. pose proof (key_of_shows Hsh HmD) as Ek.
    rewrite Hkp, (proj1 (Hg2 _ HmD)). destruct (Z.ltb_spec k (key (g (min hp)))) as [Hlt|Hge]; run; cbn [unless].
    + rewrite insert_insert_eq. eapply (Hfin p); [by rewrite lookup_insert_eq|apply touched_insert|left; auto|]. rewrite decide_True; [done|]. right. by rewrite Ek.
    + eapply (Hfin (min hp)); [by rewrite lookup_insert_eq|apply touched_insert|right; auto|]. rewrite decide_False; [done|]. rewrite Ek. lia.
Qed.

Lemma insert_meets h k d : meets N fuel (Insert h k d).
Proof.
  intros A [H m] post (D & own & g & K & P & R & Hs & Hsd & Hsh). cbn [hs ns] in *. intros Hb Hsp. cbn [spec] in Hsp.
  destruct (tops A !! h) as [t|] eqn:Et; [|done]. cbn [mbind option_bind] in Hsp. case_decide as Hc; [|done]. injection Hsp as <-. destruct Hc as [Hk Hlt].
  destruct (shows_heap Hsh Et) as (hp & Eh & <-). rewrite (shows_size Hsh) in Hlt.
  cbn [run_op]. eapply wp_mono; [eapply insertion_wp; try done; unfold NODES_MAX in HN; lia|].
  intros [r|] w'; cbn; [|done]. intros (? & ? & ?). eexists. split; [|done]. done.
Qed.

(** *** Extraction *)

Lemma extr_free_wp D own g K P R H m A h hp :
  store_is D g m -> sound D H own g K P R -> shows D own g H A -> H !! h = Some hp -> min hp <> 0 -> (size D <= N)%nat ->
  wp (fibheap_extr_min_node fuel h) (fun r w' => r = min hp /\ exists n A', ns w' !! r = Some n /\ data n = data_of (items A) r /\
    taken A h r A' /\ Rel (World (hs w') (delete r (ns w'))) A') (World H m).
Proof.
  intros Hs Hsd Hsh Eh Hm0 Hsz. pose proof (o_inv Hsd) as HI.
  assert (Hfew : few D) by (unfold few; lia).
  eapply wp_mono.
  { eapply (extr_min_node_wp D own h fuel H m g K P R hp); [done|lia|exact HI|exact Hs|apply (o_ord Hsd)|exact Eh| |].
    - by eapply min_in_roots.
    - by apply (o_count Hsd). }
  set (r := min hp) in *. assert (HrD : r ∈ D /\ own r = h).
  { destruct (o_min Hsd h hp Eh) as [[? _]|(? & ? & _)]; done. }
  destruct HrD as [HrD Hor].
  intros ? w' (-> & g' & m' & H' & K' & P' & R' & hp' & -> & Hs' & HI' & Ho' & Hkd & HP & Eh' & En & Hm & Ht). split; [done|].
  cbn [hs ns]. exists (g' r). set (I' := delete r (items A)).
  exists (Queues (<[h := min hp']> (tops A)) I'). split; [by rewrite Hs', decide_True|].
  split; [rewrite (data_of_shows Hsh HrD); apply Hkd|].
  pose proof (Inv_free D H' own g' K' P' R' r HI') as HI2. pose proof (store_is_free D g' m' r Hs') as Hs2.
  pose proof (min_ok_at _ _ _ _ _ _ _ _ _ _ _ HI2 Ho' Hm) as Hmin.
  assert (Hmem : members (D ∖ {[r]}) own h = members D own h ∖ {[r]}).
  { apply set_eq. intros c. rewrite elem_of_difference, !elem_of_members, elem_of_difference. tauto. }
  assert (Hsh2 : shows (D ∖ {[r]}) own g' H' (Queues (<[h := min hp']> (tops A)) I')).
  { split; cbn [tops items].
    - intros h'. destruct (decide (h' = h)) as [->|Hne]; [by rewrite lookup_insert_eq, Eh'|]. rewrite lookup_insert_ne by done.
      rewrite Ht by done. apply (sh_tops Hsh).
    - intros c. unfold I'. destruct (decide (c = r)) as [->|Hne].
      + rewrite lookup_delete_eq, decide_False; [done|]. rewrite elem_of_difference, elem_of_singleton. tauto.
      + rewrite lookup_delete_ne by done. rewrite (sh_items Hsh). destruct (Hkd c) as [-> ->].
        destruct (decide (c ∈ D)); [rewrite decide_True|rewrite decide_False]; try done; rewrite elem_of_difference, elem_of_singleton; tauto. }
  split.
  - exists (min hp'). split; [done|]. cbn [items]. change I' with (items (Queues (<[h := min hp']> (tops A)) I')). by eapply min_least.
  - exists (D ∖ {[r]}), own, g', K', P', R'. split; [exact Hs2|]. split; [|exact Hsh2]. cbn [hs].
    eapply (sound_change D _ H H' own own g g' K K' P P' R R' h); [done|exact HI2|exact Ho'|exact Ht| | | | |].
    + intros c h' Hne. rewrite elem_of_difference, elem_of_singleton. split; [tauto|]. intros [? <-]. split_and!; try done. by intros ->.
    + intros hp2. rewrite Eh'. intros [= <-]. split; [|done]. rewrite Hmem, size_difference, size_singleton.
      * rewrite En, (o_count Hsd h hp Eh). assert (1 <= size (members D own h))%nat; [|lia].
        rewrite <- (size_singleton (C := gset Z) r). apply subseteq_size. intros c ->%elem_of_singleton. by apply elem_of_members.
      * intros c ->%elem_of_singleton. by apply elem_of_members.
    + intros c Hc Ho E. by rewrite HP.
    + intros c Hc Ho. apply Hkd.
    + intros c Hc. destruct (Hkd c) as [-> _]. apply (o_long Hsd). by apply elem_of_difference in Hc as [].
Qed.

End calls2.

(** *** A smaller key *)

Section rekey.
Context (D : gset Z) (own : Z -> Z) (g : Z -> fibnode) (n h k d : Z).
Implicit Types (H : gmap Z fibheap) (K R : Z -> list Z) (P : Z -> Z).

(** The node [n] has the key [k] and the data [d]. *)
Definition rekeys (g' : Z -> fibnode) : Prop := forall c,
  key (g' c) = (if decide (c = n) then k else key (g c)) /\ data (g' c) = (if decide (c = n) then d else data (g c)).

Lemma rekeys_kd g1 g2 : rekeys g1 -> same_kd g1 g2 -> rekeys g2.
Proof. intros H1 H2 c. destruct (H2 c) as [-> ->]. apply H1. Qed.

Lemma rekeys_rel H H' m' A K K' P P' R R' g' hp t r :
  sound D H own g K P R -> shows D own g H A -> H !! h = Some hp -> n ∈ D -> own n = h -> is_long k -> rekeys g' ->
  Inv D H' own ∅ ∅ 0 0 g' K' P' R' -> ordered g' K' -> store_is D g' m' -> touched h H H' ->
  H' !! h = Some (Fh (nodes hp) t r) -> min_at D own g' P' h t -> (forall c, c ∈ D -> P c = 0 -> P' c = 0) ->
  Rel (World H' m') (Queues (<[h := t]> (tops A)) (<[n := (h, k, d)]> (items A))).
Proof.
  intros Hsd Hsh Eh Hn Hon Hk Hg' HI' Ho' Hs' Ht Eh' Hm HP. exists D, own, g', K', P', R'. split; [done|]. cbn [hs]. split.
  - eapply (sound_change D D H H' own own g g' K K' P P' R R' h); [done|exact HI'|exact Ho'|exact Ht|done| | | |].
    + intros hp'. rewrite Eh'. intros [= <-]. split; [|done]. exact (o_count Hsd h hp Eh).
    + intros c Hc _. by apply HP.
    + intros c Hc Hoc. destruct (Hg' c) as [-> _]. rewrite decide_False; [done|]. by intros ->.
    + intros c Hc. destruct (Hg' c) as [-> _]. case_decide; [done|]. by apply (o_long Hsd).
  - split; cbn [tops items].
    + intros h'. destruct (decide (h' = h)) as [->|Hne]; [by rewrite lookup_insert_eq, Eh'|]. rewrite lookup_insert_ne by done.
      rewrite Ht by done. apply (sh_tops Hsh).
    + intros c. destruct (Hg' c) as [-> ->]. destruct (decide (c = n)) as [->|Hne].
      * by rewrite lookup_insert_eq, decide_True, Hon.
      * rewrite lookup_insert_ne by done. apply (sh_items Hsh).
Qed.

(** The minimum after the key has become smaller. *)
Lemma rekeys_min H K P R P' g' hp :
  sound D H own g K P R -> H !! h = Some hp -> n ∈ D -> own n = h -> rekeys g' -> k <= key (g n) ->
  (forall c, c ∈ D -> P c = 0 -> P' c = 0) -> (P' n = 0 \/ P n ∈ D /\ own (P n) = h /\ P n <> 0 /\ key (g (P n)) < k) ->
  min_at D own g' P' h (if k <=? key (g' (min hp)) then n else min hp) /\
  (if k <=? key (g' (min hp)) then n else min hp) = (if decide (k <= key (g (min hp))) then n else min hp).
Proof.
  intros Hsd Eh Hn Hon Hg' Hle HP Hup. destruct (min_node Hsd Eh Hn Hon) as (Hm & Hom & HPm & Hm0 & Hlem).
  assert (Hall : forall c, c ∈ D -> own c = h -> key (g (min hp)) <= key (g c)).
  { intros c Hc Ho. by destruct (min_node Hsd Eh Hc Ho) as (_ & _ & _ & _ & ?). }
  destruct (Hg' (min hp)) as [Ekm _]. rewrite Ekm. destruct (decide (min hp = n)) as [En|En].
  - rewrite Z.leb_refl. split; [|case_decide; [done|by rewrite En]]. right.
    split_and!; [exact Hn|exact Hon|apply HP; [exact Hn|by rewrite <- En]|]. intros c Hc Ho. destruct (Hg' n) as [-> _], (Hg' c) as [-> _]. rewrite decide_True by done. case_decide; [done|].
    specialize (Hall c Hc Ho). rewrite En in Hall. lia.
  - destruct (Z.leb_spec k (key (g (min hp)))) as [Hk|Hk].
    + rewrite decide_True by done. split; [|done]. right. split_and!; try done.
      * destruct Hup as [?|(Hy & Hoy & _ & Hlt)]; [done|]. specialize (Hall _ Hy Hoy). lia.
      * intros c Hc Ho. destruct (Hg' n) as [-> _], (Hg' c) as [-> _]. rewrite decide_True by done. case_decide; [done|].
        specialize (Hall c Hc Ho). lia.
    + rewrite decide_False by lia. split; [|done]. right. split_and!; try done; [by apply HP|].
      intros c Hc Ho. destruct (Hg' (min hp)) as [-> _], (Hg' c) as [-> _]. rewrite decide_False by done. case_decide; [lia|by apply Hall].
Qed.

(** Without [n] below a parent of a larger key, the keys are in order. *)
Lemma rekeys_ordered K K' g' :
  ordered g K -> rekeys g' -> k <= key (g n) -> (forall a c, c ∈ K' a -> c ∈ K a) ->
  (forall a, n ∈ K' a -> a <> n /\ key (g a) <= k) -> ordered g' K'.
Proof.
  intros Ho Hg' Hle HK Hn a c Hc. destruct (Hg' a) as [-> _], (Hg' c) as [-> _]. specialize (Ho a c (HK a c Hc)).
  destruct (decide (c = n)) as [->|]; [destruct (Hn a Hc); rewrite decide_False by done; done|]. case_decide; [subst; lia|done].
Qed.
End rekey.

Lemma rekeyed_down A h n k0 d0 k d t t' :
  k <= k0 -> tops A !! h = Some t ->
  t' = (if decide (k = k0 /\ k0 <> FIBHEAPKEY_MIN) then t else if decide (k <= key_of (items A) t) then n else t) ->
  rekeyed A h n k0 d0 k d d0 (Queues (<[h := t']> (tops A)) (<[n := (h, k, d)]> (items A))).
Proof. intros Hk Et ->. unfold rekeyed. rewrite decide_False by lia. split; [done|]. by exists t. Qed.

Section calls3.
Context {al : Alloc} {laws : AllocLaws} (N fuel : nat).
Context (HN : Z.of_nat N < NODES_MAX) (Hfuel : (N < fuel)%nat).

(** The node moves up to the roots when its parent would be above a smaller key. *)
Lemma rekey_up_wp D own g g1 K P R H m h n k d hp (up : bool) :
  store_is D g1 m -> Inv D H own ∅ ∅ 0 0 g K P R -> Inv D H own ∅ ∅ 0 0 g1 K P R -> ordered g K -> rekeys g n k d g1 ->
  k <= key (g n) -> H !! h = Some hp -> n ∈ D -> own n = h -> (size D <= N)%nat -> up = negb (P n =? 0) && (k <=? key (g (P n))) ->
  wp (if up then fibheap_cut h n (P n) ;;; fibheap_cascading_cut fuel h (P n) else ret tt) (fun _ w' => exists g' m' H' K' P' R',
    w' = World H' m' /\ store_is D g' m' /\ Inv D H' own ∅ ∅ 0 0 g' K' P' R' /\ rekeys g n k d g' /\ rerooted h hp H H' /\ ordered g' K' /\
    (forall c, c ∈ D -> P c = 0 -> P' c = 0) /\ (P' n = 0 \/ P n ∈ D /\ own (P n) = h /\ P n <> 0 /\ key (g (P n)) < k)) (World H m).
Proof.
  intros Hs1 HI HI1 Hord Hg1 Hle Eh Hn Hon Hsz Hup.
  destruct (Z.eqb_spec (P n) 0) as [E|E]; cbn [negb andb] in Hup.
  - rewrite Hup. run. exists g1, m, H, K, P, R. split_and!; try done; [by eapply rerooted_refl| |by left].
    eapply rekeys_ordered; [exact Hord|exact Hg1|done|done|]. intros a Ha. by destruct (root_no_kid _ _ _ _ _ _ _ _ _ _ _ a _ HI E).
  - assert (HPn : P n ∈ D) by (by destruct (i_P HI n Hn)).
    assert (HnK : n ∈ K (P n)) by (by apply (i_K HI)). assert (HoP : own (P n) = h) by (by rewrite (i_ownP HI)).
    destruct (Z.leb_spec k (key (g (P n)))) as [Hky|Hky]; rewrite Hup.
    + apply wp_bind. eapply wp_mono; [eapply (cut_wp D own H m 0 g1 K P R h hp (P n) n); try done; by left|].
      intros _ w' (g2 & m2 & H2 & l & R2 & -> & Hs2 & HI2 & Hkd2 & Hrr & Hl & _). destruct (rerooted_lookup Hrr) as [r2 Eh2].
      eapply wp_mono.
      { eapply (cascading_cut_wp D own fuel H2 m2 (P n) g2); [exact HI2|exact Hs2|exact Eh2|done|done|].
        assert (size (marked D g2) <= size D)%nat; [|lia]. apply subseteq_size. intros c Hc. by apply elem_of_filter in Hc as []. }
      intros _ w' (g3 & m3 & H3 & K3 & P3 & R3 & -> & Hs3 & HI3 & Hkd3 & Hrr3 & HK3).
      assert (HnK3 : forall a, n ∉ K3 a).
      { intros a Ha%HK3. unfold upd in Ha. destruct (decide (a = P n)) as [->|Hne].
        - assert (Hnd : NoDup (n :: l)) by (rewrite Hl; apply (i_nodup HI)). by apply NoDup_cons in Hnd as [? _].
        - apply (i_K HI) in Ha as (_ & _ & ?). congruence. }
      assert (HKK : forall a c, c ∈ K3 a -> c ∈ K a).
      { intros a c Hc%HK3. unfold upd in Hc. case_decide; [subst|done]. rewrite <- Hl. by right. }
      exists g3, m3, H3, K3, P3, R3. split; [done|]. split; [done|]. split; [done|]. split.
      { eapply rekeys_kd; [exact Hg1|]. by eapply same_kd_trans. }
      split; [eapply rerooted_trans; [exact Hrr|exact Eh2|exact Hrr3]|]. split.
      { eapply (rekeys_ordered g n k d K); [exact Hord| |done|done|intros a Ha; by destruct (HnK3 a)].
        eapply rekeys_kd; [exact Hg1|]. by eapply same_kd_trans. }
      split; [intros c Hc HPc; eapply (kids_roots D own H H3); [exact HI|exact HI3|done|done|done]|].
      left. destruct (i_P HI3 n Hn) as [|HD]; [done|]. exfalso. apply (HnK3 (P3 n)). by apply (i_K HI3).
    + run. exists g1, m, H, K, P, R. split_and!; try done; [by eapply rerooted_refl| |by right].
      eapply rekeys_ordered; [exact Hord|exact Hg1|done|done|]. intros a Ha.
      destruct (kid_parent HI Ha) as (_ & _ & <- & _ & Hne). split; [by apply not_eq_sym|lia].
Qed.

Lemma rekey_wp D own g K P R H m A h n k d hp :
  store_is D g m -> sound D H own g K P R -> shows D own g H A -> (size D <= N)%nat -> H !! h = Some hp -> n ∈ D -> own n = h -> is_long k ->
  wp (fibheap_replace_key_data fuel h n k d) (fun r w' => exists A', rekeyed A h n (key (g n)) (data (g n)) k d r A' /\ Rel w' A') (World H m).
Proof.
  intros Hs Hsd Hsh Hsz Eh Hn Hon Hk. pose proof (o_inv Hsd) as HI. pose proof (o_ord Hsd) as Hord.
  unfold fibheap_replace_key_data, fibheap_comp_data. run. rewrite compare_keys_pos.
  destruct (Z.ltb_spec (key (g n)) k) as [Hlt|Hle].
  { run. exists A. split; [unfold rekeyed; by rewrite decide_True|]. by exists D, own, g, K, P, R. }
  run. rewrite (i_parent HI) by done.
  match goal with Hst : store_is _ ?G _ |- _ => set (g1 := G) in *; rename Hst into Hs1 end.
  assert (Hg1 : rekeys g n k d g1) by (intros c; unfold g1, upd; repeat case_decide; by subst).
  assert (HI1 : Inv D H own ∅ ∅ 0 0 g1 K P R).
  { eapply Inv_fields; [exact HI|..].
    - intros u. unfold g1, upd. repeat case_decide; by subst.
    - intros u _ _. unfold g1, upd. repeat case_decide; by subst.
    - intros u Hu. assert (E : mark (g1 u) = mark (g u)) by (unfold g1, upd; repeat case_decide; by subst). rewrite E. by apply (i_mark HI).
    - intros u _ _. assert (E : mark (g1 u) = mark (g u)) by (unfold g1, upd; repeat case_decide; by subst). by rewrite E. }
  destruct (min_node Hsd Eh Hn Hon) as (Hm & Hom & HPm & Hm0 & Hlem).
  pose proof (shows_top Hsh Eh) as Etop. pose proof (key_of_shows Hsh Hm) as Ekey.
  clearbody g1. destruct ((key (g n) =? k) && negb (key (g n) =? FIBHEAPKEY_MIN)) eqn:Eshort.
  { apply andb_true_iff in Eshort as [Ek Emn]. apply Z.eqb_eq in Ek. apply negb_true_iff, Z.eqb_neq in Emn. run.
    eexists. split; [apply (rekeyed_down A h n _ _ k d (min hp) (min hp)); [done|done|by rewrite decide_True]|].
    assert (Hkk : forall c, key (g1 c) = key (g c)) by (intros c; destruct (Hg1 c) as [-> _]; case_decide; by subst).
    eapply (rekeys_rel D own g n h k d H H _ A K K P P R R g1 hp (min hp) (root hp)); try done.
    - intros a c Hc. rewrite !Hkk. by apply Hord.
    - by destruct hp.
    - right. split_and!; try done. intros c Hc Ho. rewrite !Hkk. by destruct (min_node Hsd Eh Hc Ho) as (_ & _ & _ & _ & ?). }
  assert (Hsho : ~ (k = key (g n) /\ key (g n) <> FIBHEAPKEY_MIN)).
  { intros [E1 E2]. apply andb_false_iff in Eshort as [E%Z.eqb_neq|E%negb_false_iff%Z.eqb_eq]; congruence. }
  clear Eshort.
  apply wp_bind. eapply (wp_mono _ (fun (up : bool) w' => w' = World H _ /\ up = negb (P n =? 0) && (k <=? key (g (P n))))).
  { destruct (Z.eqb_spec (P n) 0) as [E|E]; [run; done|]. assert (HPn : P n ∈ D) by (by destruct (i_P HI n Hn)).
    unfold fibheap_compare. run. rewrite compare_keys_le. destruct (Hg1 n) as [-> _], (Hg1 (P n)) as [-> _]. rewrite decide_True by done.
    rewrite decide_False; [done|]. apply reach_irrefl; [by apply (i_reach HI)|done]. }
  intros up w' [-> Hup]. apply wp_bind. eapply wp_mono; [by eapply (rekey_up_wp D own g g1 K P R H)|].
  clear Hs1 Hg1 HI1. intros _ w' (g2 & m2 & H2 & K2 & P2 & R2 & -> & Hs2 & HI2 & Hg2 & Hrr & Ho2 & HP2 & Hup2).
  destruct (rerooted_lookup Hrr) as [r2 Eh2]. unfold fibheap_compare. run. rewrite compare_keys_le.
  destruct (Hg2 n) as [Ekn _]. rewrite Ekn, decide_True by done. cbn [min].
  destruct (rekeys_min D own g n h k d H K P R P2 g2 hp Hsd Eh Hn Hon Hg2 Hle HP2 Hup2) as [Hmin Et].
  assert (Hfin : forall H3, H3 !! h = Some (Fh (nodes hp) (if k <=? key (g2 (min hp)) then n else min hp) r2) -> touched h H2 H3 ->
    exists A', rekeyed A h n (key (g n)) (data (g n)) k d (data (g n)) A' /\ Rel (World H3 m2) A').
  { intros H3 Eh3 Ht3. eexists. split; [apply (rekeyed_down A h n _ _ k d (min hp) (if k <=? key (g2 (min hp)) then n else min hp)); [done|done|]|].
    - by rewrite decide_False, Ekey, <- Et.
    - eapply (rekeys_rel D own g n h k d H H3 m2 A K K2 P P2 R R2 g2 hp _ r2); try done.
      + eapply (Inv_header D H2); [exact HI2|exact Eh2|exact Eh3|done|exact Ht3].
      + eapply touched_trans; [by eapply rerooted_touched|exact Ht3]. }
  destruct (Z.leb_spec k (key (g2 (min hp)))) as [Hk2|Hk2]; run; apply Hfin; try done.
  - by rewrite lookup_insert_eq.
  - apply touched_insert.
Qed.
End calls3.

Section calls4.
Context {al : Alloc} {laws : AllocLaws} (N fuel : nat).
Context (HN : Z.of_nat N < NODES_MAX) (Hfuel : (N < fuel)%nat).

(** The heap and the node of a call. *)
Lemma Rel_item w A h n kd :
  Rel w A -> item_of A h n = Some kd -> exists nd, ns w !! n = Some nd /\ kd = (key nd, data nd) /\ is_long (key nd).
Proof.
  intros (D & own & g & K & P & R & Hs & Hsd & Hsh) Hi. destruct (item_of_shows Hsh Hi) as (Hn & _ & ->).
  exists (g n). rewrite Hs, decide_True by done. split_and!; [done..|]. by apply (o_long Hsd).
Qed.
Arguments Rel_item {_ _ _ _ _} _ _.

Lemma rekey_item_wp A w h n k d kd :
  Rel w A -> bounded N A -> item_of A h n = Some kd -> is_long k ->
  wp (fibheap_replace_key_data fuel h n k d) (fun r w' => exists A', rekeyed A h n kd.1 kd.2 k d r A' /\ Rel w' A') w.
Proof.
  destruct w as [H m]. intros (D & own & g & K & P & R & Hs & Hsd & Hsh) Hb Hi Hk. cbn [hs ns] in *.
  destruct (item_of_shows Hsh Hi) as (Hn & Ho & ->). unfold bounded in Hb. rewrite (shows_size Hsh) in Hb.
  destruct (i_own (o_inv Hsd) n Hn) as [hp Eh]. rewrite Ho in Eh. by eapply rekey_wp.
Qed.

Lemma wp_ld (Q : fibnode -> world -> Prop) w n nd : ns w !! n = Some nd -> Q nd w -> wp (ld n) Q w.
Proof. intros E HQ. unfold wp, ld. by rewrite E. Qed.

Lemma replace_key_data_meets h n k d : meets N fuel (ReplaceKeyData h n k d).
Proof.
  intros A w post HR Hb Hsp. cbn [spec] in Hsp. destruct (item_of A h n) as [kd|] eqn:Ei; [|done]. cbn [mbind option_bind] in Hsp.
  case_decide; [|done]. injection Hsp as <-. cbn [run_op]. apply wp_num. eapply wp_mono; [by apply rekey_item_wp|]. done.
Qed.

Lemma replace_data_meets h n d : meets N fuel (ReplaceData h n d).
Proof.
  intros A w post HR Hb Hsp. cbn [spec] in Hsp. destruct (item_of A h n) as [kd|] eqn:Ei; [|done]. injection Hsp as <-.
  destruct (Rel_item HR Ei) as (nd & En & -> & Hl). cbn [run_op]. apply wp_num. unfold fibheap_replace_data.
  apply wp_bind. eapply wp_ld; [exact En|]. eapply wp_mono; [by apply (rekey_item_wp A w h n (key nd) d (key nd, data nd))|]. done.
Qed.

Lemma replace_key_wp A w h n k kd :
  Rel w A -> bounded N A -> item_of A h n = Some kd -> is_long k ->
  wp (fibheap_replace_key fuel h n k) (fun r w' => r = i32 kd.1 /\ exists r' A', rekeyed A h n kd.1 kd.2 k kd.2 r' A' /\ Rel w' A') w.
Proof.
  intros HR Hb Ei Hk. destruct (Rel_item HR Ei) as (nd & En & -> & _). unfold fibheap_replace_key.
  apply wp_bind. eapply wp_ld; [exact En|]. apply wp_bind. eapply wp_ld; [exact En|]. apply wp_bind.
  eapply wp_mono; [by apply (rekey_item_wp A w h n k (data nd) (key nd, data nd))|]. intros r w' (A' & ? & ?). apply wp_ret. eauto.
Qed.

Lemma replace_key_meets h n k : meets N fuel (ReplaceKey h n k).
Proof.
  intros A w post HR Hb Hsp. cbn [spec] in Hsp. destruct (item_of A h n) as [kd|] eqn:Ei; [|done]. cbn [mbind option_bind] in Hsp.
  case_decide; [|done]. injection Hsp as <-. cbn [run_op]. apply wp_num. eapply wp_mono; [by apply replace_key_wp|].
  intros r w' (-> & r' & A' & ? & ?). exists A'. eauto.
Qed.

Lemma Rel_top w A h t : Rel w A -> tops A !! h = Some t -> exists hp, hs w !! h = Some hp /\ min hp = t.
Proof. intros (D & own & g & K & P & R & Hs & Hsd & Hsh) E. by eapply shows_heap. Qed.
Arguments Rel_top {_ _ _ _} _ _.

Lemma Rel_zero w A : Rel w A -> items A !! 0 = None.
Proof.
  intros (D & own & g & K & P & R & Hs & Hsd & Hsh). eapply shows_none; [exact Hsh|]. apply (i_zero (o_inv Hsd)).
Qed.
Arguments Rel_zero {_ _} _.

Lemma Rel_extract w A h t :
  Rel w A -> bounded N A -> tops A !! h = Some t -> t <> 0 ->
  wp (fibheap_extr_min_node fuel h) (fun r w' => r = t /\ exists nd A', ns w' !! t = Some nd /\ data nd = data_of (items A) t /\
    taken A h t A' /\ Rel (World (hs w') (delete t (ns w'))) A') w.
Proof.
  destruct w as [H m]. intros (D & own & g & K & P & R & Hs & Hsd & Hsh) Hb Et Ht. cbn [hs ns] in *.
  destruct (shows_heap Hsh Et) as (hp & Eh & <-). unfold bounded in Hb. rewrite (shows_size Hsh) in Hb.
  eapply wp_mono; [by eapply extr_free_wp|]. intros ? w' (-> & nd & A' & ? & ? & ? & ?). eauto 10.
Qed.

Lemma wp_free_node (Q : unit -> world -> Prop) w n nd : ns w !! n = Some nd -> Q tt (World (hs w) (delete n (ns w))) -> wp (free_node n) Q w.
Proof. intros E HQ. unfold wp, free_node. by rewrite E. Qed.

Lemma wp_ldh' (Q : fibheap -> world -> Prop) w h hp : hs w !! h = Some hp -> Q hp w -> wp (ldh h) Q w.
Proof. intros E HQ. unfold wp, ldh. by rewrite E. Qed.

Lemma Rel_extract_min w A h t :
  Rel w A -> bounded N A -> tops A !! h = Some t -> t <> 0 ->
  wp (fibheap_extract_min fuel h) (fun r w' => r = data_of (items A) t /\ exists A', taken A h t A' /\ Rel w' A') w.
Proof.
  intros HR Hb Et Ht. destruct (Rel_top HR Et) as (hp & Eh & Em). unfold fibheap_extract_min. apply wp_bind.
  eapply wp_ldh'; [exact Eh|]. rewrite Em, (proj2 (Z.eqb_neq t 0)) by done. apply wp_bind.
  eapply wp_mono; [by apply Rel_extract|]. intros ? w' (-> & nd & A' & En & Ed & HA & HR').
  apply wp_bind. eapply wp_ld; [exact En|]. apply wp_bind. eapply wp_free_node; [exact En|]. apply wp_ret. eauto.
Qed.

Lemma extract_min_meets h : meets N fuel (ExtractMin h).
Proof.
  intros A w post HR Hb Hsp. cbn [spec] in Hsp. destruct (tops A !! h) as [t|] eqn:Et; [|done]. injection Hsp as <-.
  cbn [run_op]. apply wp_num. destruct (decide (t = 0)) as [->|Ht].
  - destruct (Rel_top HR Et) as (hp & Eh & Em). unfold fibheap_extract_min. apply wp_bind. eapply wp_ldh'; [exact Eh|].
    rewrite Em. cbn [Z.eqb]. apply wp_ret. exists A. done.
  - eapply wp_mono; [by eapply Rel_extract_min|]. intros r w' (-> & A' & ? & ?). exists A'. done.
Qed.

Lemma Rel_key w A n : Rel w A -> is_long (key_of (items A) n).
Proof.
  intros (D & own & g & K & P & R & Hs & Hsd & Hsh). unfold key_of. rewrite (sh_items Hsh). case_decide; [|done].
  by apply (o_long Hsd).
Qed.
Arguments Rel_key {_ _} _ _.

Lemma Rel_least w A h t : Rel w A -> tops A !! h = Some t -> least (items A) h t.
Proof.
  intros (D & own & g & K & P & R & Hs & Hsd & Hsh) E. destruct (shows_heap Hsh E) as (hp & Eh & <-).
  eapply min_least; [exact Hsh|]. by apply (o_min Hsd).
Qed.
Arguments Rel_least {_ _ _ _} _ _.

Lemma item_of_items A h n kd : item_of A h n = Some kd -> items A !! n = Some (h, kd.1, kd.2).
Proof. unfold item_of. destruct (items A !! n) as [[[h' k] d]|]; [|done]. case_decide; [|done]. intros [= <-]. by subst. Qed.

(** [abort] is not reached: the node of the least key is the minimum. *)
Lemma delete_node_meets h n : meets N fuel (DeleteNode h n).
Proof.
  intros A w post HR Hb Hsp. cbn [spec] in Hsp. destruct (item_of A h n) as [kd|] eqn:Ei; [|done]. injection Hsp as <-.
  pose proof (item_of_items _ _ _ _ Ei) as Eit. assert (Hn0 : n <> 0) by (intros ->; by rewrite (Rel_zero HR) in Eit).
  destruct (Rel_item HR Ei) as (nd & En & -> & Hl). cbn [fst snd run_op] in *. unfold fibheap_delete_node. do 2 apply wp_bind.
  eapply wp_ld; [exact En|]. apply wp_bind.
  eapply wp_mono; [by apply (replace_key_wp A w h n FIBHEAPKEY_MIN (key nd, data nd))|].
  cbn [fst snd]. intros _ w1 (_ & r' & A1 & Hre & HR1). unfold rekeyed in Hre.
  assert (Hlow : FIBHEAPKEY_MIN <= key nd) by apply Hl. rewrite decide_False in Hre by lia. destruct Hre as (_ & t & Et & ->).
  rewrite decide_False in HR1 by (intros [E1 E2]; by rewrite <- E1 in E2).
  rewrite decide_True in HR1 by apply (Rel_key t HR).
  set (A1 := Queues _ _) in HR1. assert (Et1 : tops A1 !! h = Some n) by apply lookup_insert_eq.
  assert (Hb1 : bounded N A1) by (unfold bounded, A1; cbn [items]; by rewrite map_size_insert, Eit).
  destruct (Rel_top HR1 Et1) as (hp & Eh & Em). apply wp_bind. eapply wp_ldh'; [exact Eh|]. rewrite Em, Z.eqb_refl. cbn [negb].
  apply wp_bind. eapply wp_mono; [by apply (Rel_extract_min w1 A1 h n)|]. intros r w2 (_ & A2 & (t2 & -> & Hl2) & HR2).
  apply wp_ret. apply wp_ret. cbn [unless]. eexists. split; [|exact HR2]. split; [done|]. exists t2. cbn [items] in *. unfold A1 in *. cbn [tops items] in *.
  rewrite insert_insert_eq in *. rewrite delete_insert_eq in *. done.
Qed.

(** *** A whole heap *)

Lemma Rel_free_heap w A h :
  Rel w A -> tops A !! h = Some 0 -> wp (free_heap h) (fun _ w' => Rel w' (Queues (delete h (tops A)) (items A))) w.
Proof.
  destruct w as [H m]. intros (D & own & g & K & P & R & Hs & Hsd & Hsh) Et. cbn [hs ns] in *.
  destruct (shows_heap Hsh Et) as (hp & Eh & Em). pose proof (o_inv Hsd) as HI.
  unfold wp, free_heap. cbn [hs ns]. rewrite Eh.
  assert (Hno : forall c, c ∈ D -> own c <> h).
  { destruct (o_min Hsd h hp Eh) as [[_ ?]|[Hm _]]; [done|]. rewrite Em in Hm. by destruct (i_zero HI). }
  assert (Ht : touched h H (delete h H)) by (intros h' ?; by rewrite lookup_delete_ne).
  exists D, own, g, K, P, R. cbn [hs ns]. split; [done|]. split.
  - eapply (sound_change D D H (delete h H) own own g g K K P P R R h); [done| |apply (o_ord Hsd)|done|done| |done|done|apply (o_long Hsd)].
    + eapply (Inv_relink D [] H); [exact HI|by split|by intros ? ?%elem_of_nil|by intros ? ?%elem_of_empty..| |apply (i_ownP HI)| |apply (i_R HI)].
      * intros c Hc. rewrite lookup_delete_ne by (intros E; by apply (Hno c)). by apply (i_own HI).
      * intros h' hp' E. apply lookup_delete_Some in E as [_ E]. by apply (i_root HI).
    + intros hp'. by rewrite lookup_delete_eq.
  - split; cbn [tops items]; [|apply (sh_items Hsh)]. intros h'. destruct (decide (h' = h)) as [->|Hne].
    + by rewrite !lookup_delete_eq.
    + rewrite !lookup_delete_ne by done. apply (sh_tops Hsh).
Qed.

Abbreviation others h I := (filter (fun x : Z * (Z * Z * Z) => x.2.1.1 <> h) I).

Lemma delete_loop_wp f A w h t :
  Rel w A -> bounded N A -> tops A !! h = Some t -> (size (items A) < f)%nat ->
  wp (cloop f (delete_turn fuel h) tt) (fun _ w' => exists I, I = others h (items A) /\ Rel w' (Queues (<[h := 0]> (tops A)) I)) w.
Proof.
  revert A w t. induction f as [|f IH]; intros A w t HR Hb Et Hf; [lia|]. cbn [cloop]. unfold delete_turn at 1.
  destruct (Rel_top HR Et) as (hp & Eh & Em). do 2 apply wp_bind. eapply wp_ldh'; [exact Eh|]. rewrite Em.
  destruct (Rel_least HR Et) as [[-> Hn]|(k & d & Ei & _)].
  - cbn [Z.eqb]. do 2 apply wp_ret. exists (items A). split.
    + symmetry. apply map_filter_id. intros c [[h' k] d] E Eh'. cbn in Eh'. subst h'. by apply (Hn c k d).
    + rewrite insert_id by done. by destruct A.
  - assert (Ht : t <> 0) by (intros ->; by rewrite (Rel_zero HR) in Ei). rewrite (proj2 (Z.eqb_neq t 0)) by done.
    apply wp_bind. eapply wp_mono; [by apply Rel_extract|]. intros ? w' (-> & nd & A' & En & _ & (t' & -> & _) & HR').
    apply wp_bind. eapply wp_free_node; [exact En|]. apply wp_ret.
    assert (Hsz : size (items A) = S (size (delete t (items A)))) by (rewrite map_size_delete, Ei; pose proof (map_size_ne_0_lookup_2 (items A) t); rewrite Ei in *; assert (size (items A) <> 0%nat) by (apply H; by eexists); lia).
    eapply wp_mono.
    { apply (IH _ _ t' HR'); cbn [tops items]; [unfold bounded in *; cbn [items]; lia|apply lookup_insert_eq|lia]. }
    cbn [tops items]. intros _ w2 (I & -> & HR2). rewrite insert_insert_eq in HR2. eexists. split; [|exact HR2].
    rewrite map_filter_delete. apply delete_id. apply map_lookup_filter_None. right. intros x Ex. rewrite Ei in Ex. injection Ex as <-. cbn. tauto.
Qed.

Lemma delete_meets h : meets N fuel (Delete h).
Proof.
  intros A w post HR Hb Hsp. cbn [spec] in Hsp. destruct (tops A !! h) as [t|] eqn:Et; [|done]. injection Hsp as <-.
  cbn [run_op]. unfold fibheap_delete. do 2 apply wp_bind.
  eapply wp_mono; [eapply (delete_loop_wp fuel); [exact HR|exact Hb|exact Et|unfold bounded in Hb; lia]|].
  intros _ w1 (I & -> & HR1). eapply wp_mono; [eapply Rel_free_heap; [exact HR1|apply lookup_insert_eq]|].
  cbn [tops items]. intros _ w2 HR2. rewrite delete_insert_eq in HR2. apply wp_ret. eexists. split; [|exact HR2]. done.
Qed.
End calls4.

(** *** Union *)

(** The path ends at [e'] instead. *)
Lemma dpath_end g g' x l e e' :
  dpath g x l e -> NoDup (x :: l) ->
  (forall u, u ∈ x :: l -> right (g' u) = if decide (u = last0 (x :: l)) then e' else right (g u)) ->
  (forall u, u ∈ l -> left (g' u) = left (g u)) -> left (g' e') = last0 (x :: l) -> dpath g' x l e'.
Proof.
  revert x. induction l as [|c l IH]; intros x Hp Hnd Hr Hl He; cbn [dpath] in *.
  - rewrite Hr, decide_True by (done || by left). done.
  - destruct Hp as (E1 & E2 & Hp). apply NoDup_cons in Hnd as [Hx Hnd].
    assert (El : last0 (x :: c :: l) = last0 (c :: l)) by (by apply last0_cons). rewrite El in He.
    assert (Hxl : x <> last0 (c :: l)) by (intros ->; by apply Hx, last0_in).
    split; [rewrite Hr by (by left); rewrite decide_False by done; done|]. split; [rewrite Hl by (by left); done|].
    apply IH; [exact Hp|exact Hnd| | |exact He]; intros u Hu; [rewrite <- El; apply Hr; by right|apply Hl; by right].
Qed.

Lemma ring_splice g g' x la y lb :
  ring g (x :: la) -> ring g (y :: lb) -> NoDup ((x :: la) ++ y :: lb) ->
  (forall u, u ∈ (x :: la) ++ y :: lb -> right (g' u) =
     if decide (u = last0 (x :: la)) then y else if decide (u = last0 (y :: lb)) then x else right (g u)) ->
  (forall u, u ∈ (x :: la) ++ y :: lb -> left (g' u) =
     if decide (u = x) then last0 (y :: lb) else if decide (u = y) then last0 (x :: la) else left (g u)) ->
  ring g' ((x :: la) ++ y :: lb).
Proof.
  intros Ha Hb Hnd Hr Hl. pose proof Hnd as (Hna & Hdis & Hnb)%NoDup_app.
  assert (HyA : y ∉ x :: la) by (intros Hy; apply (Hdis y Hy); by left).
  assert (HlB : last0 (y :: lb) ∉ x :: la) by (intros Hy; apply (Hdis _ Hy); by apply last0_in).
  assert (HlA : last0 (x :: la) ∉ y :: lb) by (apply Hdis; by apply last0_in).
  assert (HxB : x ∉ y :: lb) by (apply Hdis; by left).
  cbn [app ring]. apply dpath_app. split.
  - eapply dpath_end; [exact Ha|exact Hna| | |].
    + intros u Hu. rewrite Hr by (apply elem_of_app; by left). case_decide; [done|]. rewrite decide_False; [done|]. by intros ->.
    + intros u Hu. rewrite Hl by (apply elem_of_app; left; by right). apply NoDup_cons in Hna as [Hx _].
      rewrite decide_False by (by intros ->). rewrite decide_False; [done|]. intros ->. apply HyA. by right.
    + rewrite Hl by (apply elem_of_app; right; by left). rewrite decide_False by (intros ->; apply HyA; by left). by rewrite decide_True.
  - eapply dpath_end; [exact Hb|exact Hnb| | |].
    + intros u Hu. rewrite Hr by (apply elem_of_app; by right). rewrite decide_False; [done|]. by intros ->.
    + intros u Hu. rewrite Hl by (apply elem_of_app; right; by right). apply NoDup_cons in Hnb as [Hy _].
      rewrite decide_False by (intros ->; apply HxB; by right). rewrite decide_False; [done|]. by intros ->.
    + rewrite Hl by (apply elem_of_app; left; by left). by rewrite decide_True.
Qed.

Lemma no_roots D H own g K P R h hp : sound D H own g K P R -> H !! h = Some hp -> root hp = 0 <-> min hp = 0.
Proof.
  intros Hsd Eh. pose proof (o_inv Hsd) as HI. destruct (i_root HI h hp Eh) as (Er & _). split.
  - intros E. destruct (decide (min hp = 0)) as [|Hm]; [done|]. pose proof (min_in_roots _ _ _ _ _ _ _ _ _ Hsd Eh Hm) as Hin.
    rewrite (head0_nil _ _ _ _ _ _ _ _ _ _ _ h HI) in Hin by (by rewrite <- Er). by apply elem_of_nil in Hin.
  - intros E. rewrite Er. destruct (R h) as [|c l] eqn:ER; [done|]. exfalso. assert (Hc : c ∈ R h) by (rewrite ER; by left).
    apply (i_R HI) in Hc as (Hc & _ & Ho & _). destruct (min_node Hsd Eh Hc Ho) as (_ & _ & _ & ? & _). done.
Qed.

(** The two root lists become one; [fibheap_union] up to the headers. *)
Definition splice_code (a_root b_root : Z) (k : St world Z) : St world Z :=
  x <- ld a_root ;;
  st (left x) (set_right b_root) ;;;
  y <- ld b_root ;;
  st (left y) (set_right a_root) ;;;
  x <- ld a_root ;;
  let temp := left x in
  y <- ld b_root ;;
  st a_root (set_left (left y)) ;;;
  st b_root (set_left temp) ;;;
  k.

Lemma splice_wp D g H m x la y lb k Q :
  store_is D g m -> ring g (x :: la) -> ring g (y :: lb) -> NoDup ((x :: la) ++ y :: lb) -> (forall u, u ∈ (x :: la) ++ y :: lb -> u ∈ D) ->
  (forall g' m', store_is D g' m' -> ring g' ((x :: la) ++ y :: lb) -> relinked ((x :: la) ++ y :: lb) g g' -> wp k Q (World H m')) ->
  wp (splice_code x y k) Q (World H m).
Proof.
  intros Hs Ha Hb Hnd HD HQ. pose proof Hnd as (Hna & Hdis & Hnb)%NoDup_app.
  assert (HyA : y ∉ x :: la) by (intros Hy; apply (Hdis y Hy); by left).
  assert (HlaIn : last0 (x :: la) ∈ x :: la) by (by apply last0_in). assert (HlbIn : last0 (y :: lb) ∈ y :: lb) by (by apply last0_in).
  assert (HlA : last0 (x :: la) ∉ y :: lb) by (by apply Hdis).
  assert (HxB : x ∉ y :: lb) by (apply Hdis; by left).
  assert (Hxy : x <> y) by (intros ->; apply HxB; by left).
  assert (HxD : x ∈ D) by (apply HD, elem_of_app; left; by left). assert (HyD : y ∈ D) by (apply HD, elem_of_app; right; by left).
  assert (HlaD : last0 (x :: la) ∈ D) by (apply HD, elem_of_app; by left). assert (HlbD : last0 (y :: lb) ∈ D) by (apply HD, elem_of_app; by right).
  pose proof (ring_left _ _ _ Ha) as Ela. pose proof (ring_left _ _ _ Hb) as Elb.
  remember (last0 (x :: la)) as pa eqn:Epa. remember (last0 (y :: lb)) as pb eqn:Epb.
  unfold splice_code. apply wp_bind. eapply wp_fld; [exact Hs|done|]. rewrite Ela.
  apply wp_bind. eapply wp_fst; [exact Hs|done|]. intros m1 Hs1. set (g1 := upd g pa _) in *.
  assert (E1 : forall u, left (g1 u) = left (g u)) by (intros u; unfold g1, upd; case_decide; by subst).
  apply wp_bind. eapply wp_fld; [exact Hs1|done|]. rewrite E1, Elb.
  apply wp_bind. eapply wp_fst; [exact Hs1|done|]. intros m2 Hs2. set (g2 := upd g1 pb _) in *.
  assert (E2 : forall u, left (g2 u) = left (g u)) by (intros u; rewrite <- E1; unfold g2, upd; case_decide; by subst).
  apply wp_bind. eapply wp_fld; [exact Hs2|done|]. rewrite E2, Ela. cbv zeta.
  apply wp_bind. eapply wp_fld; [exact Hs2|done|]. rewrite E2, Elb.
  apply wp_bind. eapply wp_fst; [exact Hs2|done|]. intros m3 Hs3. set (g3 := upd g2 x _) in *.
  apply wp_bind. eapply wp_fst; [exact Hs3|done|]. intros m4 Hs4. set (g4 := upd g3 y _) in *.
  assert (Hlab : pa <> pb) by (intros E; apply HlA; by rewrite E).
  assert (Hright : forall u, right (g4 u) = if decide (u = pa) then y else if decide (u = pb) then x else right (g u)).
  { intros u. unfold g4. rewrite (upd_same right) by done. unfold g3. rewrite (upd_same right) by done.
    unfold g2, g1, upd. repeat case_decide; subst; cbn; done. }
  assert (Hleft : forall u, left (g4 u) = if decide (u = x) then pb else if decide (u = y) then pa else left (g u)).
  { intros u. unfold g4, upd at 1. destruct (decide (u = y)) as [->|Hy]; [by rewrite decide_False|]. unfold g3, upd at 1.
    destruct (decide (u = x)); [done|]. apply E2. }
  apply (HQ g4 m4 Hs4).
  - apply (ring_splice g g4); [done..|intros u _; by rewrite Hright, <- Epa, <- Epb|intros u _; by rewrite Hleft, <- Epa, <- Epb].
  - split.
    + intros u Hu. rewrite elem_of_app in Hu. unfold g4, g3, g2, g1. rewrite !upd_ne; [done|..]; intros ->; apply Hu.
      * by left.
      * by right.
      * left. by left.
      * right. by left.
    + intros u. unfold g4, g3, g2, g1. by rewrite !unlinked_left, !unlinked_right.
Qed.

Definition owned_by (ha hb : Z) (own : Z -> Z) (c : Z) : Z := if decide (own c = hb) then ha else own c.

Lemma union_inv D H own g g' K P R ha hb hpa hpb t n :
  Inv D H own ∅ ∅ 0 0 g K P R -> H !! ha = Some hpa -> H !! hb = Some hpb -> ha <> hb -> R ha <> [] -> R hb <> [] ->
  ring g' (R ha ++ R hb) -> relinked (R ha ++ R hb) g g' ->
  Inv D (delete hb (<[ha := Fh n t (root hpa)]> H)) (owned_by ha hb own) ∅ ∅ 0 0 g' K P (upd (upd R hb []) ha (R ha ++ R hb)).
Proof.
  intros HI Ea Eb Hne HRa HRb Hring Hrl. unfold owned_by. eapply (Inv_relink D (R ha ++ R hb) H); [exact HI|exact Hrl| |by intros ? ?%elem_of_empty..| | | |].
  - intros c [(_ & ? & _)%(i_R HI)|(_ & ? & _)%(i_R HI)]%elem_of_app; done.
  - intros c Hc. case_decide as E; [rewrite lookup_delete_ne, lookup_insert_eq by done; by eexists|].
    rewrite lookup_delete_ne by done. destruct (decide (own c = ha)) as [->|]; [rewrite lookup_insert_eq; by eexists|].
    rewrite lookup_insert_ne by done. by apply (i_own HI).
  - intros c Hc HPc. by rewrite (i_ownP HI) by done.
  - intros h hp E. apply lookup_delete_Some in E as [Hh E]. destruct (decide (h = ha)) as [->|Hha].
    + rewrite lookup_insert_eq in E. injection E as <-. rewrite upd_eq. cbn [root]. destruct (i_root HI ha hpa Ea) as (-> & _ & Hnda).
      destruct (i_root HI hb hpb Eb) as (_ & _ & Hndb). split; [by destruct (R ha)|]. split; [done|]. apply NoDup_app. split_and!; [done| |done].
      intros c (_ & _ & Ho & _)%(i_R HI) (_ & _ & Ho' & _)%(i_R HI). congruence.
    + rewrite lookup_insert_ne in E by done. rewrite !upd_ne by done. destruct (i_root HI h hp E) as (? & ? & ?). split_and!; [done| |done].
      eapply relinked_ring; [exact Hrl| |done]. intros c (_ & _ & Ho & _)%(i_R HI) [(_ & _ & Ho' & _)%(i_R HI)|(_ & _ & Ho' & _)%(i_R HI)]%elem_of_app; congruence.
  - intros h c. unfold upd. destruct (decide (h = ha)) as [->|Hha].
    + rewrite elem_of_app, !(i_R HI). case_decide; [tauto|]. tauto.
    + destruct (decide (h = hb)) as [->|Hhb].
      * split; [by intros ?%elem_of_nil|]. intros (_ & _ & Ho & _). case_decide; congruence.
      * rewrite (i_R HI). case_decide as E; [|done]. split; intros (? & ? & ? & ?); congruence.
Qed.

Section calls5.
Context {al : Alloc} {laws : AllocLaws} (N fuel : nat).
Context (HN : Z.of_nat N < NODES_MAX).

Lemma union_sound D H own g g' K P R ha hb hpa hpb :
  sound D H own g K P R -> (size D <= N)%nat -> H !! ha = Some hpa -> H !! hb = Some hpb -> ha <> hb -> min hpa <> 0 -> min hpb <> 0 ->
  ring g' (R ha ++ R hb) -> relinked (R ha ++ R hb) g g' ->
  sound D (delete hb (<[ha := Fh (u64 (nodes hpa + nodes hpb)) (if decide (key (g (min hpb)) < key (g (min hpa))) then min hpb else min hpa) (root hpa)]> H))
    (owned_by ha hb own) g' K P (upd (upd R hb []) ha (R ha ++ R hb)).
Proof.
  intros Hsd Hsz Ea Eb Hne Hma Hmb Hring Hrl. pose proof (o_inv Hsd) as HI. pose proof (relinked_same Hrl) as Hkd.
  pose proof (min_in_roots _ _ _ _ _ _ _ _ _ Hsd Ea Hma) as HRa. pose proof (min_in_roots _ _ _ _ _ _ _ _ _ Hsd Eb Hmb) as HRb.
  assert (Hkey : forall c, key (g' c) = key (g c)) by (intros c; apply Hkd).
  assert (HRa0 : R ha <> []) by (intros E; rewrite E in HRa; by apply elem_of_nil in HRa).
  assert (HRb0 : R hb <> []) by (intros E; rewrite E in HRb; by apply elem_of_nil in HRb). split.
  - by eapply union_inv.
  - intros a c Hc. rewrite !Hkey. by apply (o_ord Hsd).
  - intros h hp E. apply lookup_delete_Some in E as [Hh E]. destruct (decide (h = ha)) as [->|Hha].
    + rewrite lookup_insert_eq in E. injection E as <-. cbn [nodes].
      assert (Em : members D (owned_by ha hb own) ha = members D own ha ∪ members D own hb).
      { apply set_eq. intros c. rewrite elem_of_union, !elem_of_members. unfold owned_by. case_decide; [tauto|]. tauto. }
      assert (Hdis : members D own ha ## members D own hb) by (intros c [_ ?]%elem_of_members [_ ?]%elem_of_members; congruence).
      assert (Hle : (size (members D own ha ∪ members D own hb) <= size D)%nat).
      { apply subseteq_size. intros c [Hc|Hc]%elem_of_union; by apply elem_of_members in Hc as []. }
      rewrite Em. rewrite size_union in * by done.
      rewrite (o_count Hsd ha hpa Ea), (o_count Hsd hb hpb Eb). unfold NODES_MAX in HN. rewrite u64_small; lia.
    + rewrite lookup_insert_ne in E by done. rewrite (o_count Hsd h hp E). do 2 f_equal. apply set_eq. intros c.
      rewrite !elem_of_members. unfold owned_by. case_decide as Eo; [|done]. split; intros [? ?]; congruence.
  - intros h hp E. apply lookup_delete_Some in E as [Hh E]. destruct (decide (h = ha)) as [->|Hha].
    + rewrite lookup_insert_eq in E. injection E as <-. cbn [min]. right.
      destruct (o_min Hsd ha hpa Ea) as [[? _]|(HaD & Hao & HaP & Hale)]; [done|].
      destruct (o_min Hsd hb hpb Eb) as [[? _]|(HbD & Hbo & HbP & Hble)]; [done|].
      assert (Hall : forall c, c ∈ D -> owned_by ha hb own c = ha -> key (g (min hpa)) <= key (g c) \/ key (g (min hpb)) <= key (g c)).
      { intros c Hc. unfold owned_by. case_decide; [right; by apply Hble|left; by apply Hale]. }
      case_decide as Ek; (split_and!; [done|unfold owned_by; rewrite ?Hao, ?Hbo; case_decide; congruence|done|]); intros c Hc Ho; rewrite !Hkey; destruct (Hall c Hc Ho); lia.
    + rewrite lookup_insert_ne in E by done. destruct (o_min Hsd h hp E) as [[-> Hn]|(Hm & Hmo & HmP & Hle)]; [left|right].
      * split; [done|]. intros c Hc. unfold owned_by. case_decide; [congruence|]. by apply Hn.
      * split_and!; [done|unfold owned_by; case_decide; congruence|done|]. intros c Hc Ho. rewrite !Hkey. apply Hle; [done|].
        unfold owned_by in Ho. case_decide; congruence.
  - intros c Hc. rewrite Hkey. by apply (o_long Hsd).
Qed.

Lemma union_meets ha hb : meets N fuel (Union ha hb).
Proof.
  intros A w post HR Hb Hsp. cbn [spec] in Hsp. destruct (tops A !! ha) as [ta|] eqn:Eta; [|done]. cbn [mbind option_bind] in Hsp.
  destruct (tops A !! hb) as [tb|] eqn:Etb; [|done]. cbn [mbind option_bind] in Hsp. case_decide as Hne; [done|]. injection Hsp as <-.
  cbn [run_op]. apply wp_num. unfold fibheap_union.
  pose proof HR as (D & own & g & K & P & R & Hs & Hsd & Hsh).
  destruct (shows_heap Hsh Eta) as (hpa & Ea & Ema). destruct (shows_heap Hsh Etb) as (hpb & Eb & Emb).
  apply wp_bind. eapply wp_ldh'; [exact Ea|]. cbv zeta.
  pose proof (no_roots _ _ _ _ _ _ _ _ _ Hsd Ea) as Hra. pose proof (no_roots _ _ _ _ _ _ _ _ _ Hsd Eb) as Hrb. rewrite Ema in Hra. rewrite Emb in Hrb.
  destruct (Z.eqb_spec (root hpa) 0) as [E|E].
  { assert (ta = 0) as -> by (by apply Hra). apply wp_bind. eapply wp_mono; [by eapply Rel_free_heap|]. intros [] w' HRw. apply wp_ret. eexists. split; [by rewrite decide_True|exact HRw]. }
  assert (Hta : ta <> 0) by tauto. apply wp_bind. eapply wp_ldh'; [exact Eb|].
  destruct (Z.eqb_spec (root hpb) 0) as [E'|E'].
  { assert (tb = 0) as -> by (by apply Hrb). apply wp_bind. eapply wp_mono; [by eapply Rel_free_heap|]. intros [] w' HRw. apply wp_ret.
    eexists. split; [by rewrite decide_False by done|exact HRw]. }
  assert (Htb : tb <> 0) by tauto. destruct w as [H m]. cbn [hs ns] in *.
  pose proof (o_inv Hsd) as HI. destruct (i_root HI ha hpa Ea) as (Era & Hringa & Hnda). destruct (i_root HI hb hpb Eb) as (Erb & Hringb & Hndb).
  destruct (R ha) as [|x la] eqn:ERa; [done|]. destruct (R hb) as [|y lb] eqn:ERb; [done|]. cbn [head0 head default] in Era, Erb. rewrite Era, Erb.
  match goal with |- wp ?p _ _ => change p with (splice_code x y
    (sth ha (fun h => set_nodes (u64 (nodes h + nodes hpb)) h) ;;;
     h <- ldh ha ;; c <- fibheap_compare (min hpb) (min h) ;;
     (if c <? 0 then sth ha (set_min (min hpb)) else ret tt) ;;; free_heap hb ;;; ret ha)) end.
  assert (Hin : forall u, u ∈ (x :: la) ++ y :: lb -> u ∈ D).
  { intros u. rewrite <- ERa, <- ERb. by intros [[? _]%(i_R HI)|[? _]%(i_R HI)]%elem_of_app. }
  eapply splice_wp; [exact Hs|done|done| |exact Hin|].
  { apply NoDup_app. split_and!; [done| |done]. rewrite <- ERa, <- ERb. intros u (_ & _ & Ho & _)%(i_R HI) (_ & _ & Ho' & _)%(i_R HI). congruence. }
  rewrite <- ERa, <- ERb. intros g' m' Hs' Hring Hrl. pose proof (relinked_same Hrl) as Hkd.
  rewrite <- Ema in Hta. rewrite <- Emb in Htb. assert (Hta' : ta <> 0) by (by rewrite <- Ema). assert (Htb' : tb <> 0) by (by rewrite <- Emb).
  unfold bounded in Hb. rewrite (shows_size Hsh) in Hb.
  pose proof (union_sound _ _ _ _ g' _ _ _ ha hb hpa hpb Hsd Hb Ea Eb Hne Hta Htb Hring Hrl) as Hsd'.
  assert (HaD : min hpa ∈ D) by (destruct (o_min Hsd ha hpa Ea) as [[? _]|[? _]]; done).
  assert (HbD : min hpb ∈ D) by (destruct (o_min Hsd hb hpb Eb) as [[? _]|[? _]]; done).
  assert (Hfin : forall H3, H3 = delete hb (<[ha := Fh (u64 (nodes hpa + nodes hpb)) (if decide (key (g (min hpb)) < key (g (min hpa))) then min hpb else min hpa) (root hpa)]> H) ->
    exists A', (ha = ha /\ A' = Queues (delete hb (<[ha := if decide (key_of (items A) tb < key_of (items A) ta) then tb else ta]> (tops A))) (moved ha hb <$> items A)) /\ Rel (World H3 m') A').
  { intros H3 ->. eexists. split; [done|]. exists D, (owned_by ha hb own), g', K, P, (upd (upd R hb []) ha (R ha ++ R hb)). split; [done|]. split; [exact Hsd'|].
    rewrite <- Ema, <- Emb. rewrite !(key_of_shows Hsh) by done. split; cbn [hs tops items].
    - intros h. destruct (decide (h = hb)) as [->|Hhb]; [by rewrite !lookup_delete_eq|]. rewrite !lookup_delete_ne by done.
      destruct (decide (h = ha)) as [->|Hha]; [by rewrite !lookup_insert_eq|]. rewrite !lookup_insert_ne by done. apply (sh_tops Hsh).
    - intros c. rewrite lookup_fmap, (sh_items Hsh). destruct (Hkd c) as [-> ->]. by destruct (decide (c ∈ D)). }
  assert (Hnb : min hpb <> min hpa).
  { intros Em. destruct (o_min Hsd ha hpa Ea) as [[? _]|(_ & Hao & _)]; [done|]. destruct (o_min Hsd hb hpb Eb) as [[? _]|(_ & Hbo & _)]; [done|]. congruence. }
  unfold fibheap_compare. run. rewrite compare_keys_neg. destruct (Hkd (min hpb)) as [-> _]. cbn [min set_nodes]. destruct (Hkd (min hpa)) as [-> _].
  eapply (wp_mono _ (fun _ w' => w' = World (<[ha := Fh (u64 (nodes hpa + nodes hpb)) (if decide (key (g (min hpb)) < key (g (min hpa))) then min hpb else min hpa) (root hpa)]> H) m')).
  { destruct (Z.ltb_spec (key (g (min hpb))) (key (g (min hpa)))).
    - eapply wp_sth; [apply lookup_insert_eq|]. rewrite insert_insert_eq. rewrite decide_True by done. done.
    - apply wp_ret. rewrite decide_False by lia. done. }
  intros [] w' ->. apply wp_bind. unfold wp at 1, free_heap. cbn [hs ns]. rewrite lookup_insert_ne by exact Hne. rewrite Eb. apply wp_ret.
  destruct (Hfin _ eq_refl) as (A' & HA & HRf). exists A'. split; [|exact HRf]. rewrite decide_False by exact Hta'. rewrite decide_False by exact Htb'. exact HA.
Qed.
End calls5.

(** *** A session *)

Section session.
Context {al : Alloc} {laws : AllocLaws} (N fuel : nat).
Context (HN : Z.of_nat N < NODES_MAX) (Hfuel : (N < fuel)%nat).

Lemma op_meets o : meets N fuel o.
Proof.
  destruct o.
  - by apply new_meets.
  - by apply insert_meets.
  - by apply min_meets.
  - by apply min_key_meets.
  - by apply empty_meets.
  - by apply extract_min_meets.
  - by apply replace_key_data_meets.
  - by apply replace_data_meets.
  - by apply replace_key_meets.
  - by apply delete_node_meets.
  - by apply delete_meets.
  - by apply union_meets.
Qed.

Lemma rekeyed_size A h n k0 d0 k d r A' :
  is_Some (items A !! n) -> rekeyed A h n k0 d0 k d r A' -> size (items A') = size (items A).
Proof.
  intros [x Ex]. unfold rekeyed. case_decide; [by intros [_ ->]|]. intros (_ & t & _ & ->). cbn [items]. by rewrite map_size_insert, Ex.
Qed.

Lemma spec_bounded A o post r A' : spec (Z.of_nat N) A o = Some post -> post r A' -> bounded N A -> bounded N A'.
Proof.
  unfold bounded. destruct o; cbn [spec].
  - intros [= <-] (_ & _ & ->). done.
  - destruct (tops A !! h); [|done]. cbn [mbind option_bind]. case_decide as Hc; [|done]. intros [= <-] (_ & E & ->). cbn [items].
    rewrite map_size_insert, E. lia.
  - destruct (tops A !! h); [|done]. intros [= <-] [-> _]. done.
  - destruct (tops A !! h); [|done]. intros [= <-] [-> _]. done.
  - destruct (tops A !! h); [|done]. intros [= <-] [-> _]. done.
  - destruct (tops A !! h); [|done]. intros [= <-]. case_decide; [by intros [-> _]|]. intros [_ (t & -> & _)]. cbn [items].
    rewrite map_size_delete. destruct (_ !! _); cbn; lia.
  - destruct (item_of A h n) as [kd|] eqn:E; [|done]. cbn [mbind option_bind]. case_decide; [|done]. intros [= <-] Hr.
    rewrite (rekeyed_size _ _ _ _ _ _ _ _ _ (ex_intro _ _ (item_of_items _ _ _ _ E)) Hr). done.
  - destruct (item_of A h n) as [kd|] eqn:E; [|done]. intros [= <-] Hr.
    rewrite (rekeyed_size _ _ _ _ _ _ _ _ _ (ex_intro _ _ (item_of_items _ _ _ _ E)) Hr). done.
  - destruct (item_of A h n) as [kd|] eqn:E; [|done]. cbn [mbind option_bind]. case_decide; [|done]. intros [= <-] [_ [r' Hr]].
    rewrite (rekeyed_size _ _ _ _ _ _ _ _ _ (ex_intro _ _ (item_of_items _ _ _ _ E)) Hr). done.
  - destruct (item_of A h n) as [kd|] eqn:E; [|done]. intros [= <-] [_ (t & -> & _)]. cbn [items].
    rewrite map_size_delete. destruct (_ !! _); cbn; lia.
  - destruct (tops A !! h); [|done]. intros [= <-] [_ ->]. cbn [items]. intros Hb.
    assert (size (filter (fun x : Z * (Z * Z * Z) => x.2.1.1 <> h) (items A)) <= size (items A))%nat; [|lia].
    apply map_size_filter.
  - destruct (tops A !! ha); [|done]. destruct (tops A !! hb); [|done]. cbn [mbind option_bind]. case_decide; [done|]. intros [= <-].
    case_decide; [by intros [_ ->]|]. case_decide; [by intros [_ ->]|]. intros [_ ->]. cbn [items]. by rewrite map_size_fmap.
Qed.

(** A session keeps the relation and the bound. *)
Lemma client_wp c A Q w : Rel w A -> bounded N A -> safe (spec (Z.of_nat N)) c A Q ->
  wpr (run_client (run_op fuel) c) (fun _ w' => exists A', (Rel w' A' /\ bounded N A') /\ Q A') w.
Proof.
  intros HR Hb. eapply (client_refines (run_op fuel) (spec (Z.of_nat N)) refused (fun w A => Rel w A /\ bounded N A)); [|done].
  clear c A Q w HR Hb. intros o w A post [HR Hb] Es. eapply wp_mono; [by apply (op_meets o A w post)|].
  intros [r|] w'; cbn [unless]; [|done]. intros (A' & Hp & HR'). exists A'. split; [done|]. split; [done|]. by eapply spec_bounded.
Qed.
End session.

Lemma Rel_empty : Rel (World ∅ ∅) (Queues ∅ ∅).
Proof.
  exists ∅, (fun _ => 0), (fun _ => Fn 0 0 0 0 0 0 0 0), (fun _ => []), (fun _ => 0), (fun _ => []). cbn [hs ns]. split_and!.
  - intros a. by rewrite lookup_empty.
  - assert (Hno : forall c : Z, c ∉ (∅ : gset Z)) by (intros c; apply not_elem_of_empty).
    assert (Hnil : forall c : Z, c ∉ []) by (by intros c ?%elem_of_nil).
    split; [split|..]; try (by intros a ?%Hno); try (by intros h hp E; rewrite lookup_empty in E); try done.
    + intros a c. split; [by intros ?%Hnil|]. by intros (?%Hno & _).
    + intros a. constructor.
    + intros h c. split; [by intros ?%Hnil|]. by intros (?%Hno & _).
  - split; intros; cbn [tops items]; by rewrite !lookup_empty.
Qed.

Section results.
Context {al : Alloc}.

(** C22: A client's session on Fibonacci heaps is the same session on priority
    queues: [fibheap_insert] adds a node, [fibheap_min] and [fibheap_min_key]
    return the data and the key of the node that is the minimum,
    [fibheap_extract_min] takes it out and leaves a minimum of the rest,
    [fibheap_replace_key_data] and its variants refuse a larger key and else
    replace key and data, with the node the new minimum when its key is not
    above the least, [fibheap_delete_node] takes out the node it is given and
    never reaches its [abort], [fibheap_union] merges two heaps,
    [fibheap_delete] frees a heap with its nodes; nodes keep their address,
    and what is not named in a call stays. With at most [N] nodes at a time,
    [N + 1] turns are enough for every loop, and every access is to memory
    that is allocated. *)
Theorem fibheap_refines {laws : AllocLaws} N fuel c Q :
  Z.of_nat N < NODES_MAX -> (N < fuel)%nat -> safe (spec (Z.of_nat N)) c (Queues ∅ ∅) Q ->
  wpr (run_client (run_op fuel) c) (fun _ w' => exists A', Rel w' A' /\ Q A') (World ∅ ∅).
Proof.
  intros HN Hf Hs. eapply wp_mono; [apply (client_wp N fuel HN Hf c (Queues ∅ ∅) Q); [apply Rel_empty| |done]|].
  - unfold bounded. cbn [items]. rewrite map_size_empty. lia.
  - intros [[]|] w'; cbn [unless]; [|done]. intros (A' & [? _] & ?). eauto.
Qed.

(** C23: The trees stay shallow: after a session, a node of degree [d] comes with
    [fib (d + 2)] live nodes at least, so that no degree reaches the length of
    the array of [fibheap_consolidate], 65, below 44,945,570,212,853 nodes; a
    mark is 0 or 1; a session that has freed its heaps leaves no node. *)
Theorem fibheap_degrees {laws : AllocLaws} N fuel c :
  Z.of_nat N < NODES_MAX -> (N < fuel)%nat -> safe (spec (Z.of_nat N)) c (Queues ∅ ∅) (fun _ => True) ->
  wpr (run_client (run_op fuel) c) (fun _ w' =>
    (forall n nd, ns w' !! n = Some nd -> 0 <= degree nd < D_ENTRIES /\
       fib (Z.to_nat (degree nd) + 2) <= Z.of_nat (size (ns w')) /\ (mark nd = 0 \/ mark nd = 1)) /\
    (size (ns w') <= N)%nat /\ (hs w' = ∅ -> ns w' = ∅)) (World ∅ ∅).
Proof.
  intros HN Hf Hs.
  assert (Hb0 : bounded N (Queues ∅ ∅)) by (unfold bounded; cbn [items]; rewrite map_size_empty; lia).
  eapply wp_mono; [apply (client_wp N fuel HN Hf c (Queues ∅ ∅) (fun _ => True)); [apply Rel_empty|done|done]|].
  intros [[]|] w'; cbn [unless]; [|done]. intros (A' & ((D & own & g & K & P & R & Hst & Hsd & Hsh) & Hb) & _).
  pose proof (o_inv Hsd) as HI. unfold bounded in Hb. rewrite (shows_size Hsh) in Hb.
  assert (Hsz : size (ns w') = size D).
  { rewrite <- (size_dom (D := gset Z)). f_equal. apply set_eq. intros n. rewrite elem_of_dom, Hst.
    destruct (decide (n ∈ D)); split; intros Hx; [done|by eexists|by destruct Hx|done]. }
  rewrite Hsz. split_and!; [|done|].
  - intros n nd En. rewrite Hst in En. case_decide as Hn; [|done]. injection En as <-.
    destruct (i_kids HI n Hn) as (_ & _ & ->); [intros ->; by apply (i_zero HI)|]. rewrite Nat2Z.id.
    split; [split; [lia|eapply degree_bound; [exact HI|lia|done]]|]. split; [by eapply degree_fib|by apply (i_mark HI)].
  - intros Eh. apply map_empty. intros n. rewrite Hst. case_decide as Hn; [|done]. exfalso.
    destruct (i_own HI n Hn) as [hp Ehp]. by rewrite Eh, lookup_empty in Ehp.
Qed.
End results.

(** *** Sessions *)

#[local] Instance bump_alloc : Alloc := {| place_heap w := Some (bump (hs w)); place_node w := Some (bump (ns w)) |}.

#[local] Instance bump_alloc_laws : AllocLaws.
Proof. split; intros w p [= <-]; apply bump_fresh. Defined.

(** The results of a list of calls. *)
Fixpoint outs (fuel : nat) (os : list op) : St world (option (list Z)) :=
  match os with
  | [] => ret (Some [])
  | o :: os => r <-? run_op fuel o ;; rs <-? outs fuel os ;; ret (Some (r :: rs))
  end.

Definition results (os : list op) : option (list Z) :=
  match outs 64 os (World ∅ ∅) with Done (rs, _) => rs | _ => None end.

(** Nodes 1 to 9 in heap 1, consolidated, cut, cut again, deleted, merged. *)
Example fibheap_demo :
  results ([New] ++ ((fun k => Insert 1 k (10 * k)) <$> [5; 3; 9; 7; 1; 8; 2; 6; 4]) ++
    [Min 1; ExtractMin 1; MinKey 1; ReplaceKey 1 3 0; ReplaceKey 1 4 100; ReplaceKeyData 1 6 0 88; Min 1;
     DeleteNode 1 8; ExtractMin 1; New; Insert 2 1 11; Insert 2 2 22; Union 1 2; ReplaceData 1 2 33;
     ExtractMin 1; ExtractMin 1; ExtractMin 1; ExtractMin 1; ExtractMin 1; ExtractMin 1; ExtractMin 1; ExtractMin 1; Empty 1; ExtractMin 1; Delete 1])
  = Some ([1; 1; 2; 3; 4; 5; 6; 7; 8; 9] ++ [10; 10; 2; 9; 7; 80; 88; 60; 88; 2; 10; 11; 1; 30] ++ [90; 11; 22; 20; 33; 40; 50; 70; 1; 0; 0]).
Proof. vm_compute. reflexivity. Qed.

(** The first node is made the minimum and extracted; were its data not what is
    returned, the client would use a heap that does not exist. *)
Definition demo_client : client op Z :=
  Do New (fun h => Do (Insert h 5 50) (fun a => Do (Insert h 3 30) (fun b => Do (ReplaceKey h a 1) (fun _ =>
  Do (ExtractMin h) (fun x => if x =? 50 then Do (Delete h) (fun _ => Stop) else Do (Empty 0) (fun _ => Stop)))))).

Lemma demo_safe : safe (spec 2) demo_client (Queues ∅ ∅) (fun A => A = Queues ∅ ∅).
Proof.
  cbn [safe spec demo_client]. intros h A (Hh & _ & ->). cbn [tops items].
  rewrite lookup_insert_eq. cbn [mbind option_bind]. rewrite decide_True by (split; [unfold is_long|rewrite map_size_empty]; lia).
  intros a A (Ha & _ & ->). cbn [tops items]. rewrite decide_True by (by left). rewrite insert_insert_eq, lookup_insert_eq. cbn [mbind option_bind].
  rewrite decide_True by (split; [unfold is_long|rewrite map_size_insert, lookup_empty, map_size_empty]; lia).
  intros b A (Hb & Hba & ->). cbn [tops items] in *. rewrite insert_insert_eq.
  assert (Hab : a <> b) by (intros ->; by rewrite lookup_insert_eq in Hba).
  assert (Eka : key_of (<[a := (h, 5, 50)]> ∅) a = 5) by (unfold key_of; by rewrite lookup_insert_eq).
  rewrite Eka, decide_True by (right; lia).
  unfold item_of at 1. cbn [items]. rewrite lookup_insert_ne, lookup_insert_eq, decide_True by done. cbn [mbind option_bind fst snd].
  rewrite decide_True by (unfold is_long; lia). intros r A (_ & r' & Hr). unfold rekeyed in Hr. rewrite decide_False in Hr by lia.
  destruct Hr as (_ & t & Et & ->). cbn [tops items] in *. rewrite lookup_insert_eq in Et. injection Et as <-.
  rewrite decide_False by lia. rewrite decide_True by (unfold key_of; rewrite lookup_insert_eq; lia). rewrite insert_insert_eq, lookup_insert_eq.
  cbn [mbind option_bind]. intros x A. rewrite decide_False by done. intros [-> (t & -> & _)]. unfold data_of. cbn [items tops].
  rewrite lookup_insert_eq, Z.eqb_refl. cbn [safe spec tops items]. rewrite insert_insert_eq, lookup_insert_eq. cbn [mbind option_bind].
  intros _ A [_ ->]. f_equal; [by rewrite delete_insert_eq, delete_empty|].
  apply map_empty. intros c. apply map_lookup_filter_None. right. intros [[h' k] d] Ec. cbn. intros Hne. apply Hne.
  apply lookup_delete_Some in Ec as [Hca Ec]. rewrite lookup_insert_ne in Ec by done. apply lookup_insert_Some in Ec as [[_ [= <- _ _]]|[_ Ec]]; [done|].
  apply lookup_insert_Some in Ec as [[_ [= <- _ _]]|[_ Ec]]; [done|by rewrite lookup_empty in Ec].
Qed.

Lemma fibheap_refines_witness :
  wpr (run_client (run_op 3) demo_client) (fun _ w' => exists A', Rel w' A' /\ A' = Queues ∅ ∅) (World ∅ ∅).
Proof. apply (fibheap_refines 2 3 demo_client (fun A => A = Queues ∅ ∅)); [reflexivity|lia|exact demo_safe]. Defined.

Lemma fibheap_degrees_witness :
  wpr (run_client (run_op 3) demo_client) (fun _ w' =>
    (forall n nd, ns w' !! n = Some nd -> 0 <= degree nd < D_ENTRIES /\
       fib (Z.to_nat (degree nd) + 2) <= Z.of_nat (size (ns w')) /\ (mark nd = 0 \/ mark nd = 1)) /\
    (size (ns w') <= 2)%nat /\ (hs w' = ∅ -> ns w' = ∅)) (World ∅ ∅).
Proof.
  apply (fibheap_degrees 2 3 demo_client); [reflexivity|lia|].
  apply (safe_mono (spec 2) demo_client (Queues ∅ ∅) (fun A => A = Queues ∅ ∅)); [done|exact demo_safe].
Defined.
