(* ===== verification/Obstack.v ===== *)
(** The obstacks of [libiberty/obstack.c] and the macros of [include/obstack.h]
    (those for GNU C): objects that grow in chunks and are freed in the order
    of a stack, over the memory that the chunk functions of the client give. *)
From S2P Require Import Prelude Bytes.

(** ** The source *)

(** [struct obstack]; [temp] is not used by the macros for GNU C. *)
Record obstack := Ob {
  chunk_size : Z; chunk : Z; object_base : Z; next_free : Z; chunk_limit : Z; alignment_mask : Z;
  chunkfun : Z; freefun : Z; extra_arg : Z; use_extra_arg : bool; maybe_empty_object : bool; alloc_failed : bool }.

(** A call of a chunk function: its address, its extra argument, its argument. *)
Inductive event := Plain (f v : Z) | Extra (f arg v : Z).

(** The memory: the size of each block that is allocated, the first two fields
    of those blocks that are [struct _obstack_chunk], once they are written,
    and the bytes; the calls of the chunk functions, latest first. *)
Record world := World {
  ob : obstack; blocks : gmap Z Z; limits : gmap Z Z; prevs : gmap Z Z; bytes : mem; calls : list event }.

(** Where the chunk function of a call places a block; [None]: NULL. *)
Class Chunks := place_chunk : event -> world -> option Z.

(** A block is in the lower half of the address space, apart from all others. *)
Class ChunksLaws `{Chunks} := place_chunk_fresh : forall f n w p,
  (place_chunk (Plain f n) w = Some p \/ exists arg, place_chunk (Extra f arg n) w = Some p) ->
  0 < p /\ p + n <= 9223372036854775808 /\ blocks w !! p = None /\
  forall b s, blocks w !! b = Some s -> p + n <= b \/ b + s <= p.

Definition set_chunk_size v o := Ob v (chunk o) (object_base o) (next_free o) (chunk_limit o) (alignment_mask o) (chunkfun o) (freefun o) (extra_arg o) (use_extra_arg o) (maybe_empty_object o) (alloc_failed o).
Definition set_chunk v o := Ob (chunk_size o) v (object_base o) (next_free o) (chunk_limit o) (alignment_mask o) (chunkfun o) (freefun o) (extra_arg o) (use_extra_arg o) (maybe_empty_object o) (alloc_failed o).
Definition set_object_base v o := Ob (chunk_size o) (chunk o) v (next_free o) (chunk_limit o) (alignment_mask o) (chunkfun o) (freefun o) (extra_arg o) (use_extra_arg o) (maybe_empty_object o) (alloc_failed o).
Definition set_next_free v o := Ob (chunk_size o) (chunk o) (object_base o) v (chunk_limit o) (alignment_mask o) (chunkfun o) (freefun o) (extra_arg o) (use_extra_arg o) (maybe_empty_object o) (alloc_failed o).
Definition set_chunk_limit v o := Ob (chunk_size o) (chunk o) (object_base o) (next_free o) v (alignment_mask o) (chunkfun o) (freefun o) (extra_arg o) (use_extra_arg o) (maybe_empty_object o) (alloc_failed o).
Definition set_alignment_mask v o := Ob (chunk_size o) (chunk o) (object_base o) (next_free o) (chunk_limit o) v (chunkfun o) (freefun o) (extra_arg o) (use_extra_arg o) (maybe_empty_object o) (alloc_failed o).
Definition set_chunkfun v o := Ob (chunk_size o) (chunk o) (object_base o) (next_free o) (chunk_limit o) (alignment_mask o) v (freefun o) (extra_arg o) (use_extra_arg o) (maybe_empty_object o) (alloc_failed o).
Definition set_freefun v o := Ob (chunk_size o) (chunk o) (object_base o) (next_free o) (chunk_limit o) (alignment_mask o) (chunkfun o) v (extra_arg o) (use_extra_arg o) (maybe_empty_object o) (alloc_failed o).
Definition set_extra_arg v o := Ob (chunk_size o) (chunk o) (object_base o) (next_free o) (chunk_limit o) (alignment_mask o) (chunkfun o) (freefun o) v (use_extra_arg o) (maybe_empty_object o) (alloc_failed o).
Definition set_use_extra_arg v o := Ob (chunk_size o) (chunk o) (object_base o) (next_free o) (chunk_limit o) (alignment_mask o) (chunkfun o) (freefun o) (extra_arg o) v (maybe_empty_object o) (alloc_failed o).
Definition set_maybe_empty_object v o := Ob (chunk_size o) (chunk o) (object_base o) (next_free o) (chunk_limit o) (alignment_mask o) (chunkfun o) (freefun o) (extra_arg o) (use_extra_arg o) v (alloc_failed o).
Definition set_alloc_failed v o := Ob (chunk_size o) (chunk o) (object_base o) (next_free o) (chunk_limit o) (alignment_mask o) (chunkfun o) (freefun o) (extra_arg o) (use_extra_arg o) (maybe_empty_object o) v.

(** [offsetof (struct _obstack_chunk, contents)]. *)
Definition CONTENTS : Z := 16.

Definition DEFAULT_ALIGNMENT : Z := Z.max 16 (Z.max 8 8).
Definition DEFAULT_ROUNDING : Z := Z.max 16 (Z.max 8 8).

(** [ptrdiff_t] is as wide as a pointer. *)
Definition PTR_ALIGN (p a : Z) : Z := Z.land (u64 (p + a)) (u64 (Z.lnot a)).

Section source.
Context `{Chunks}.

Definition oget : St world obstack := gets ob.
Definition oset (f : obstack -> obstack) : St world unit :=
  modify (fun w => World (f (ob w)) (blocks w) (limits w) (prevs w) (bytes w) (calls w)).

(** The fields of a chunk lie in an allocated block. *)
Definition ld_limit (p : Z) : St world Z := fun w => match limits w !! p with Some v => Done (v, w) | None => Undef end.
Definition ld_prev (p : Z) : St world Z := fun w => match prevs w !! p with Some v => Done (v, w) | None => Undef end.

Definition st_limit (p v : Z) : St world unit := fun w =>
  match blocks w !! p with
  | Some n => if 8 <=? n then Done (tt, World (ob w) (blocks w) (<[p := v]> (limits w)) (prevs w) (bytes w) (calls w)) else Undef
  | None => Undef
  end.

Definition st_prev (p v : Z) : St world unit := fun w =>
  match blocks w !! p with
  | Some n => if 16 <=? n then Done (tt, World (ob w) (blocks w) (limits w) (<[p := v]> (prevs w)) (bytes w) (calls w)) else Undef
  | None => Undef
  end.

(** The [n] bytes at [a] are in one block, behind the fields of the chunk. *)
Definition span (B : gmap Z Z) (a n : Z) : bool :=
  (n =? 0) || existsb (fun x => (x.1 + CONTENTS <=? a) && (a + n <=? x.1 + x.2)) (map_to_list B).

(** [memcpy] from outside the memory here, or of a single byte. *)
Definition store (a : Z) (bs : list Z) : St world unit := fun w =>
  if span (blocks w) a (Z.of_nat (length bs))
  then Done (tt, World (ob w) (blocks w) (limits w) (prevs w) (mputs (bytes w) a bs) (calls w)) else Undef.

(** [memcpy] of areas that do not overlap. *)
Definition memcpy (d s n : Z) : St world unit := fun w =>
  if span (blocks w) s n && ((n =? 0) || (d + n <=? s) || (s + n <=? d))
  then store d (mgets (bytes w) s (Z.to_nat n)) w else Undef.

Definition call_chunkfun (size : Z) : St world Z := fun w =>
  let h := ob w in
  let e := if use_extra_arg h then Extra (chunkfun h) (extra_arg h) size else Plain (chunkfun h) size in
  match place_chunk e w with
  | Some p => Done (p, World h (<[p := size]> (blocks w)) (limits w) (prevs w) (bytes w) (e :: calls w))
  | None => Done (0, World h (blocks w) (limits w) (prevs w) (bytes w) (e :: calls w))
  end.

(** Whatever function it is, it is given a block that the chunk function gave. *)
Definition call_freefun (p : Z) : St world unit := fun w =>
  let h := ob w in
  let e := if use_extra_arg h then Extra (freefun h) (extra_arg h) p else Plain (freefun h) p in
  match blocks w !! p with
  | Some _ => Done (tt, World h (delete p (blocks w)) (delete p (limits w)) (delete p (prevs w)) (bytes w) (e :: calls w))
  | None => Undef
  end.

(** [obstack_alloc_failed_handler] does not return. *)
Definition alloc_failed_handler {A} : St world (option A) := ret None.

Definition _obstack_begin_worker (size alignment : Z) : St world (option Z) :=
  let alignment := if alignment =? 0 then DEFAULT_ALIGNMENT else alignment in
  let size :=
    if size =? 0 then
      let extra := Z.land (Z.land (12 + DEFAULT_ROUNDING - 1) (Z.lnot (DEFAULT_ROUNDING - 1)) + 4 + DEFAULT_ROUNDING - 1)
                          (Z.lnot (DEFAULT_ROUNDING - 1)) in
      4096 - extra
    else size in
  oset (set_chunk_size size) ;;;
  oset (set_alignment_mask (u64 (alignment - 1))) ;;;
  h <- oget ;;
  c <- call_chunkfun (chunk_size h) ;;
  if c =? 0 then alloc_failed_handler else
  oset (set_chunk c) ;;;
  oset (set_object_base (PTR_ALIGN (c + CONTENTS) (u64 (alignment - 1)))) ;;;
  h <- oget ;;
  oset (set_next_free (object_base h)) ;;;
  st_limit c (c + chunk_size h) ;;;
  oset (set_chunk_limit (c + chunk_size h)) ;;;
  st_prev c 0 ;;;
  oset (set_maybe_empty_object false) ;;;
  oset (set_alloc_failed false) ;;;
  ret (Some 1).

Definition _obstack_begin (size alignment cf ff : Z) : St world (option Z) :=
  oset (set_chunkfun cf) ;;;
  oset (set_freefun ff) ;;;
  oset (set_use_extra_arg false) ;;;
  _obstack_begin_worker size alignment.

Definition _obstack_begin_1 (size alignment cf ff arg : Z) : St world (option Z) :=
  oset (set_chunkfun cf) ;;;
  oset (set_freefun ff) ;;;
  oset (set_extra_arg arg) ;;;
  oset (set_use_extra_arg true) ;;;
  _obstack_begin_worker size alignment.

(** The size that [_obstack_newchunk] asks for. *)
Definition new_size (h : obstack) (obj_size sum2 : Z) : Z :=
  let n := u64 (sum2 + Z.shiftr obj_size 3 + 100) in
  let n := if n <? sum2 then sum2 else n in
  if n <? chunk_size h then chunk_size h else n.

Definition _obstack_newchunk (length : Z) : St world (option unit) :=
  h <- oget ;;
  let old_chunk := chunk h in
  let obj_size := u64 (next_free h - object_base h) in
  let sum1 := u64 (obj_size + length) in
  let sum2 := u64 (sum1 + alignment_mask h) in
  let new_size := new_size h obj_size sum2 in
  new_chunk <- (if (obj_size <=? sum1) && (sum1 <=? sum2) then call_chunkfun new_size else ret 0) ;;
  if new_chunk =? 0 then alloc_failed_handler else
  oset (set_chunk new_chunk) ;;;
  st_prev new_chunk old_chunk ;;;
  st_limit new_chunk (new_chunk + new_size) ;;;
  oset (set_chunk_limit (new_chunk + new_size)) ;;;
  let base := PTR_ALIGN (new_chunk + CONTENTS) (alignment_mask h) in
  memcpy base (object_base h) obj_size ;;;
  (if negb (maybe_empty_object h) && (object_base h =? PTR_ALIGN (old_chunk + CONTENTS) (alignment_mask h)) then
     p <- ld_prev old_chunk ;;
     st_prev new_chunk p ;;;
     call_freefun old_chunk
   else ret tt) ;;;
  oset (set_object_base base) ;;;
  oset (set_next_free (base + obj_size)) ;;;
  oset (set_maybe_empty_object false) ;;;
  ret (Some tt).

(** The condition of the loops: [lp != 0 && (lp >= obj || lp->limit < obj)]. *)
Definition elsewhere (lp obj : Z) : St world bool :=
  if lp =? 0 then ret false
  else if obj <=? lp then ret true
  else l <- ld_limit lp ;; ret (l <? obj).

Definition allocated_turn (obj lp : Z) : St world (ctl Z Z) :=
  go <- elsewhere lp obj ;;
  if go : bool then plp <- ld_prev lp ;; ret (Next plp) else ret (Exit lp).

Definition _obstack_allocated_p (fuel : nat) (obj : Z) : St world Z :=
  h <- oget ;;
  lp <- cloop fuel (allocated_turn obj) (chunk h) ;;
  ret (if lp =? 0 then 0 else 1).

Definition free_turn (obj lp : Z) : St world (ctl Z Z) :=
  go <- elsewhere lp obj ;;
  if go : bool then
    plp <- ld_prev lp ;;
    call_freefun lp ;;;
    oset (set_maybe_empty_object true) ;;;
    ret (Next plp)
  else ret (Exit lp).

(** [None]: the process aborts. *)
Definition _obstack_free (fuel : nat) (obj : Z) : St world (option unit) :=
  h <- oget ;;
  lp <- cloop fuel (free_turn obj) (chunk h) ;;
  if negb (lp =? 0) then
    oset (set_next_free obj) ;;;
    oset (set_object_base obj) ;;;
    l <- ld_limit lp ;;
    oset (set_chunk_limit l) ;;;
    oset (set_chunk lp) ;;;
    ret (Some tt)
  else if negb (obj =? 0) then ret None
  else ret (Some tt).

Definition used_turn (s : Z * Z) : St world (ctl (Z * Z) Z) :=
  let '(lp, nbytes) := s in
  if lp =? 0 then ret (Exit nbytes) else
  l <- ld_limit lp ;;
  p <- ld_prev lp ;;
  ret (Next (p, u64 (nbytes + (l - lp)))).

Definition _obstack_memory_used (fuel : nat) : St world Z :=
  h <- oget ;; cloop fuel used_turn (chunk h, 0).

(** *** The macros *)

Definition obstack_specify_allocation (size alignment cf ff : Z) : St world (option Z) :=
  _obstack_begin size alignment cf ff.
Definition obstack_specify_allocation_with_arg (size alignment cf ff arg : Z) : St world (option Z) :=
  _obstack_begin_1 size alignment cf ff arg.

(** The two functions are [obstack_chunk_alloc] and [obstack_chunk_free] of the client. *)
Definition obstack_begin (size alloc free : Z) : St world (option Z) := _obstack_begin size 0 alloc free.
Definition obstack_init (alloc free : Z) : St world (option Z) := _obstack_begin 0 0 alloc free.

Definition obstack_chunkfun (f : Z) : St world unit := oset (set_chunkfun f).
Definition obstack_freefun (f : Z) : St world unit := oset (set_freefun f).

Definition obstack_chunk_size : St world Z := h <- oget ;; ret (chunk_size h).
Definition obstack_next_free : St world Z := h <- oget ;; ret (next_free h).
Definition obstack_alignment_mask : St world Z := h <- oget ;; ret (alignment_mask h).
Definition obstack_base : St world Z := h <- oget ;; ret (object_base h).
Definition obstack_object_size : St world Z := h <- oget ;; ret (u64 (next_free h - object_base h)).
Definition obstack_room : St world Z := h <- oget ;; ret (u64 (chunk_limit h - next_free h)).

Definition obstack_make_room (len : Z) : St world (option unit) :=
  r <- obstack_room ;; if r <? len then _obstack_newchunk len else ret (Some tt).

Definition obstack_empty_p : St world Z :=
  h <- oget ;;
  p <- ld_prev (chunk h) ;;
  ret (if (p =? 0) && (next_free h =? PTR_ALIGN (chunk h + CONTENTS) (alignment_mask h)) then 1 else 0).

Definition obstack_blank_fast (n : Z) : St world unit := oset (fun h => set_next_free (next_free h + n) h).

(** What a macro stores at [next_free], which it then moves. *)
Definition append (bs : list Z) : St world unit :=
  h <- oget ;;
  store (next_free h) bs ;;;
  obstack_blank_fast (Z.of_nat (length bs)).

(** A pointer or an [int] may be stored at any address on x86. *)
Definition obstack_1grow_fast (c : Z) : St world unit := append [u8 c].
Definition obstack_ptr_grow_fast (p : Z) : St world unit := append (le_enc 8 p).
Definition obstack_int_grow_fast (i : Z) : St world unit := append (le_enc 4 i).

Definition after_room (len : Z) (k : St world unit) : St world (option unit) :=
  _ <-? obstack_make_room len ;; k ;;; ret (Some tt).

Definition obstack_grow (bs : list Z) : St world (option unit) :=
  after_room (Z.of_nat (length bs)) (append bs).

Definition obstack_grow0 (bs : list Z) : St world (option unit) :=
  after_room (u64 (Z.of_nat (length bs) + 1)) (append bs ;;; append [0]).

Definition obstack_1grow (c : Z) : St world (option unit) := after_room 1 (obstack_1grow_fast c).
Definition obstack_ptr_grow (p : Z) : St world (option unit) := after_room 8 (obstack_ptr_grow_fast p).
Definition obstack_int_grow (i : Z) : St world (option unit) := after_room 4 (obstack_int_grow_fast i).
Definition obstack_blank (len : Z) : St world (option unit) := after_room len (obstack_blank_fast len).

Definition obstack_finish : St world Z :=
  h <- oget ;;
  let value := object_base h in
  (if next_free h =? value then oset (set_maybe_empty_object true) else ret tt) ;;;
  oset (set_next_free (PTR_ALIGN (next_free h) (alignment_mask h))) ;;;
  h <- oget ;;
  (if u64 (chunk_limit h - chunk h) <? u64 (next_free h - chunk h) then oset (set_next_free (chunk_limit h)) else ret tt) ;;;
  h <- oget ;;
  oset (set_object_base (next_free h)) ;;;
  ret value.

Definition finished (m : St world (option unit)) : St world (option Z) := _ <-? m ;; v <- obstack_finish ;; ret (Some v).

Definition obstack_alloc (len : Z) : St world (option Z) := finished (obstack_blank len).
Definition obstack_copy (bs : list Z) : St world (option Z) := finished (obstack_grow bs).
Definition obstack_copy0 (bs : list Z) : St world (option Z) := finished (obstack_grow0 bs).

Definition obstack_free (fuel : nat) (obj : Z) : St world (option unit) :=
  h <- oget ;;
  if (chunk h <? obj) && (obj <? chunk_limit h) then
    oset (set_object_base obj) ;;;
    oset (set_next_free obj) ;;;
    ret (Some tt)
  else _obstack_free fuel obj.
End source.

(** ** A client's calls *)

(** The client also reads and writes bytes of the objects. [Free 0] is a call
    of its own, [FreeAll]. *)
Inductive op :=
| Begin (size alignment cf ff : Z) | Begin1 (size alignment cf ff arg : Z)
| Grow (bs : list Z) | Grow0 (bs : list Z) | Grow1 (c : Z) | PtrGrow (p : Z) | IntGrow (i : Z)
| Blank (n : Z) | MakeRoom (n : Z)
| Grow1Fast (c : Z) | PtrGrowFast (p : Z) | IntGrowFast (i : Z) | BlankFast (n : Z)
| Finish | Alloc (n : Z) | Copy (bs : list Z) | Copy0 (bs : list Z)
| Free (p : Z) | FreeAll | Chunkfun (f : Z) | Freefun (f : Z)
| ObjectSize | Room | Base | NextFree | AlignmentMask | EmptyP | AllocatedP (p : Z) | MemoryUsed
| Peek (x : Z) | Poke (x v : Z).

Section run.
Context `{Chunks}.

Definition peek (x : Z) : St world Z := fun w =>
  if span (blocks w) x 1 then Done (mget (bytes w) x, w) else Undef.

(** A chain of chunks is not longer than there are blocks. *)
Definition turns : St world nat := gets (fun w => S (size (blocks w))).

Definition some {A} (m : St world A) : St world (option A) := a <- m ;; ret (Some a).
Definition zero {A} (m : St world (option A)) : St world (option Z) := _ <-? m ;; ret (Some 0).

(** The client does not catch the [abort] of [_obstack_free]. *)
Definition no_abort (m : St world (option unit)) : St world (option Z) :=
  r <- m ;; match r with Some _ => ret (Some 0) | None => undef end.

Definition run_op (o : op) : St world (option Z) :=
  match o with
  | Begin size alignment cf ff => obstack_specify_allocation size alignment cf ff
  | Begin1 size alignment cf ff arg => obstack_specify_allocation_with_arg size alignment cf ff arg
  | Grow bs => zero (obstack_grow bs)
  | Grow0 bs => zero (obstack_grow0 bs)
  | Grow1 c => zero (obstack_1grow c)
  | PtrGrow p => zero (obstack_ptr_grow p)
  | IntGrow i => zero (obstack_int_grow i)
  | Blank n => zero (obstack_blank n)
  | MakeRoom n => zero (obstack_make_room n)
  | Grow1Fast c => zero (some (obstack_1grow_fast c))
  | PtrGrowFast p => zero (some (obstack_ptr_grow_fast p))
  | IntGrowFast i => zero (some (obstack_int_grow_fast i))
  | BlankFast n => zero (some (obstack_blank_fast n))
  | Finish => some obstack_finish
  | Alloc n => obstack_alloc n
  | Copy bs => obstack_copy bs
  | Copy0 bs => obstack_copy0 bs
  | Free p => fuel <- turns ;; no_abort (obstack_free fuel p)
  | FreeAll => fuel <- turns ;; no_abort (obstack_free fuel 0)
  | Chunkfun f => zero (some (obstack_chunkfun f))
  | Freefun f => zero (some (obstack_freefun f))
  | ObjectSize => some obstack_object_size
  | Room => some obstack_room
  | Base => some obstack_base
  | NextFree => some obstack_next_free
  | AlignmentMask => some obstack_alignment_mask
  | EmptyP => some obstack_empty_p
  | AllocatedP p => fuel <- turns ;; some (_obstack_allocated_p fuel p)
  | MemoryUsed => fuel <- turns ;; some (_obstack_memory_used fuel)
  | Peek x => some (peek x)
  | Poke x v => zero (some (store x [u8 v]))
  end.
End run.

(** ** The abstract stack *)

(** An object: its address and its bytes, [None] where nothing was written. *)
Abbreviation object := (Z * list (option Z))%type.

(** The finished objects, latest first; the growing one and the room behind it;
    the number of calls of [obstack_free] for an object so far. *)
Record stack := Stack {
  align : Z; objs : list object; base : Z; cur : list (option Z); room : Z; freed : nat }.

Definition live (s : stack) : list object := (base s, cur s) :: objs s.

Definition in_object (x : Z) (o : object) : bool := (o.1 <=? x) && (x <? o.1 + Z.of_nat (length o.2)).

Definition poke_object (x v : Z) (o : object) : object :=
  (o.1, if in_object x o then <[Z.to_nat (x - o.1) := Some (u8 v)]> o.2 else o.2).

(** What is left below the latest object at an address. *)
Fixpoint below (p : Z) (l : list object) : list object :=
  match l with
  | [] => []
  | o :: l => if o.1 =? p then l else below p l
  end.

Definition apart_from (o : object) (l : list object) : Prop :=
  Forall (fun o' => o'.1 + Z.of_nat (length o'.2) <= o.1 \/ o.1 + Z.of_nat (length o.2) <= o'.1) l.

(** Room for [n] bytes, where the object is or elsewhere. *)
Definition roomy (n : Z) (s s' : stack) : Prop := exists b r,
  s' = Stack (align s) (objs s) b (cur s) r (freed s) /\ n <= r /\ (n <= room s -> b = base s /\ r = room s).

Definition extend (bs : list (option Z)) (s : stack) : stack :=
  Stack (align s) (objs s) (base s) (cur s ++ bs) (room s - Z.of_nat (length bs)) (freed s).

Definition grown (bs : list (option Z)) (s s' : stack) : Prop :=
  exists s1, roomy (Z.of_nat (length bs)) s s1 /\ s' = extend bs s1.

(** A finished object keeps its address; it is aligned unless it is empty, and
    apart from all others. *)
Definition finishes (s : stack) (p : Z) (s' : stack) : Prop := exists b r,
  p = base s /\ s' = Stack (align s) ((base s, cur s) :: objs s) b [] r (freed s) /\ 0 <= r <= room s /\
  0 < p /\ (cur s <> [] -> (align s | p)) /\ apart_from (base s, cur s) (objs s).

Definition total (l : list object) : Z := foldr (fun o n => Z.of_nat (length o.2) + n) 0 l.

Definition alignment_of (a : Z) : Z := if a =? 0 then 16 else a.
Definition chunk_size_of (n : Z) : Z := if n =? 0 then 4064 else n.

Section spec.
(** The functions the client passes, with their extra argument. *)
Context (funs : list (Z * option Z)).

(** A chunk has room for its fields and for an aligned address, and the
    alignment is a power of two. *)
Definition begin_ok (size alignment cf ff : Z) (arg : option Z) : bool :=
  let a := alignment_of alignment in
  (0 <? a) && (a <=? 4611686018427387904) && (a =? 2 ^ Z.log2 a) &&
  (16 + (a - 1) <=? chunk_size_of size) && (chunk_size_of size <? 18446744073709551616) &&
  bool_decide ((cf, arg) ∈ funs) && bool_decide ((ff, arg) ∈ funs).

(** A function that is one of the client's with every extra argument. *)
Definition fits_all (f : Z) : bool := forallb (fun x => bool_decide ((f, x.2) ∈ funs)) funs.

Definition begins (size alignment : Z) (r : Z) (t : option stack) : Prop := exists b n,
  r = 1 /\ t = Some (Stack (alignment_of alignment) [] b [] n 0) /\ 0 <= n.

Definition guard_post (g : bool) (P : Z -> option stack -> Prop) : option (Z -> option stack -> Prop) :=
  if g then Some P else None.

(** A call that changes the stack to one in [P], and returns 0. *)
Definition change (P : stack -> Prop) (r : Z) (t : option stack) : Prop := r = 0 /\ exists s, t = Some s /\ P s.

(** A call that changes nothing. *)
Definition query (s : stack) (P : Z -> Prop) (r : Z) (t : option stack) : Prop := t = Some s /\ P r.

Definition size_ok (n : Z) : bool := (0 <=? n) && (n <? 18446744073709551616).

(** [None]: there are no chunks. *)
Definition spec (t : option stack) (o : op) : option (Z -> option stack -> Prop) :=
  match t, o with
  | None, Begin size alignment cf ff => guard_post (begin_ok size alignment cf ff None) (begins size alignment)
  | None, Begin1 size alignment cf ff arg => guard_post (begin_ok size alignment cf ff (Some arg)) (begins size alignment)
  | None, _ => None
  | Some s, Begin _ _ _ _ | Some s, Begin1 _ _ _ _ _ => None
  | Some s, Grow bs => guard_post (size_ok (Z.of_nat (length bs))) (change (grown (Some <$> bs) s))
  | Some s, Grow0 bs => guard_post (size_ok (Z.of_nat (length bs) + 1)) (change (grown (Some <$> (bs ++ [0])) s))
  | Some s, Grow1 c => Some (change (grown [Some (u8 c)] s))
  | Some s, PtrGrow p => Some (change (grown (Some <$> le_enc 8 p) s))
  | Some s, IntGrow i => Some (change (grown (Some <$> le_enc 4 i) s))
  | Some s, Blank n => guard_post (size_ok n) (change (grown (replicate (Z.to_nat n) None) s))
  | Some s, MakeRoom n => guard_post (size_ok n) (change (roomy n s))
  | Some s, Grow1Fast c => guard_post (1 <=? room s) (change (eq (extend [Some (u8 c)] s)))
  | Some s, PtrGrowFast p => guard_post (8 <=? room s) (change (eq (extend (Some <$> le_enc 8 p) s)))
  | Some s, IntGrowFast i => guard_post (4 <=? room s) (change (eq (extend (Some <$> le_enc 4 i) s)))
  | Some s, BlankFast n =>
      guard_post ((0 <=? n) && (n <=? room s)) (change (eq (extend (replicate (Z.to_nat n) None) s)))
  | Some s, Finish => Some (fun r t => exists s', t = Some s' /\ finishes s r s')
  | Some s, Alloc n => guard_post (size_ok n) (fun r t => exists s1 s',
      t = Some s' /\ grown (replicate (Z.to_nat n) None) s s1 /\ finishes s1 r s')
  | Some s, Copy bs => guard_post (size_ok (Z.of_nat (length bs))) (fun r t => exists s1 s',
      t = Some s' /\ grown (Some <$> bs) s s1 /\ finishes s1 r s')
  | Some s, Copy0 bs => guard_post (size_ok (Z.of_nat (length bs) + 1)) (fun r t => exists s1 s',
      t = Some s' /\ grown (Some <$> (bs ++ [0])) s s1 /\ finishes s1 r s')
  | Some s, Free p => guard_post (bool_decide (p ∈ (objs s).*1)) (change (fun s' => exists r,
      s' = Stack (align s) (below p (objs s)) p [] r (S (freed s)) /\ 0 <= r))
  | Some s, FreeAll => Some (fun r t => r = 0 /\ t = None)
  | Some s, Chunkfun f | Some s, Freefun f => guard_post (fits_all f) (change (eq s))
  | Some s, ObjectSize => Some (query s (eq (Z.of_nat (length (cur s)))))
  | Some s, Room => Some (query s (eq (room s)))
  | Some s, Base => Some (query s (eq (base s)))
  | Some s, NextFree => Some (query s (eq (base s + Z.of_nat (length (cur s)))))
  | Some s, AlignmentMask => Some (query s (eq (align s - 1)))
  | Some s, EmptyP => Some (query s (fun r => r <> 0 -> total (live s) = 0))
  | Some s, AllocatedP p => Some (query s (fun r => p ∈ (live s).*1 -> r = 1))
  | Some s, MemoryUsed => Some (query s (fun r => total (live s) + room s <= r))
  | Some s, Peek x => guard_post (existsb (in_object x) (live s)) (query s (fun r =>
      forall o v, o ∈ live s -> o.1 <= x -> o.2 !! Z.to_nat (x - o.1) = Some (Some v) -> r = v))
  | Some s, Poke x v => guard_post (existsb (in_object x) (live s)) (change (eq (
      Stack (align s) (poke_object x v <$> objs s) (base s) (poke_object x v (base s, cur s)).2 (room s) (freed s))))
  end.
End spec.

(** ** Alignment *)

Lemma PTR_ALIGN_spec p k :
  0 <= k <= 62 -> 0 <= p <= 9223372036854775808 ->
  p <= PTR_ALIGN p (2 ^ k - 1) <= p + (2 ^ k - 1) /\ (2 ^ k | PTR_ALIGN p (2 ^ k - 1)).
Proof.
  intros Hk Hp. assert (H2 : 0 < 2 ^ k <= 2 ^ 62) by (split; [lia|apply Z.pow_le_mono_r; lia]).
  change (2 ^ 62) with 4611686018427387904 in H2. unfold PTR_ALIGN. rewrite (u64_small (p + _)) by lia.
  set (x := p + (2 ^ k - 1)). assert (Hx : 0 <= x < 2 ^ 64) by (unfold x; change (2 ^ 64) with 18446744073709551616; lia).
  assert (E : Z.land x (u64 (Z.lnot (2 ^ k - 1))) = 2 ^ k * (x / 2 ^ k)).
  { transitivity (Z.ldiff x (2 ^ k - 1)).
    - apply Z.bits_inj'. intros i Hi. rewrite Z.land_spec, Z.ldiff_spec. unfold wrap. destruct (decide (i < 64)).
      + by rewrite Z.mod_pow2_bits_low, Z.lnot_spec by lia.
      + by rewrite (testbit_high x 64) by lia.
    - replace (2 ^ k - 1) with (Z.ones k) by (rewrite Z.ones_equiv; lia).
      rewrite Z.ldiff_ones_r by lia. rewrite Z.shiftl_mul_pow2, Z.shiftr_div_pow2 by lia. lia. }
  rewrite E. pose proof (Z.div_mod x (2 ^ k) ltac:(lia)). pose proof (Z.mod_pos_bound x (2 ^ k) ltac:(lia)).
  split; [unfold x in *; lia|]. by exists (x / 2 ^ k); lia.
Qed.

(** ** Blocks *)

(** The blocks are in the lower half of the address space and disjoint. *)
Definition heap_ok (B : gmap Z Z) : Prop :=
  (forall b n, B !! b = Some n -> 0 < b /\ 0 <= n /\ b + n <= 9223372036854775808) /\
  (forall b n b' n', B !! b = Some n -> B !! b' = Some n' -> b <> b' -> b + n <= b' \/ b' + n' <= b).

Lemma heap_ok_insert B p n :
  heap_ok B -> 0 < p -> 0 <= n -> p + n <= 9223372036854775808 ->
  (forall b s, B !! b = Some s -> p + n <= b \/ b + s <= p) -> heap_ok (<[p := n]> B).
Proof.
  intros [H1 H2] Hp Hn Hpn Hd. split.
  - intros b s [[<- <-]|[_ Hb]]%lookup_insert_Some; [done|by apply H1].
  - intros b s b' s' [[<- <-]|[? Hb]]%lookup_insert_Some [[<- <-]|[? Hb']]%lookup_insert_Some Hne;
      [done|by apply Hd| |by eapply H2]. destruct (Hd b s Hb); lia.
Qed.

Lemma heap_ok_delete B p : heap_ok B -> heap_ok (delete p B).
Proof.
  intros [H1 H2]. split.
  - intros b n [_ Hb]%lookup_delete_Some. by apply H1.
  - intros b n b' n' [_ Hb]%lookup_delete_Some [_ Hb']%lookup_delete_Some. by apply H2.
Qed.

Lemma span_ok B b n x k :
  B !! b = Some n -> b + CONTENTS <= x -> x + k <= b + n -> span B x k = true.
Proof.
  intros Hb H1 H2. unfold span. apply orb_true_iff. right. apply existsb_exists. exists (b, n). split.
  - by apply list_elem_of_In, elem_of_map_to_list.
  - cbn. apply andb_true_iff. lia.
Qed.

Lemma span_nil B x : span B x 0 = true.
Proof. done. Qed.

(** The chunks of a list, latest first, linked from [p] on. *)
Fixpoint chained (B L P : gmap Z Z) (p : Z) (cs : list (Z * Z)) : Prop :=
  match cs with
  | [] => p = 0
  | (b, n) :: cs => p = b /\ 0 < b /\ B !! b = Some n /\ L !! b = Some (b + n) /\ exists q, P !! b = Some q /\ chained B L P q cs
  end.

Lemma chained_ext B L P B' L' P' p cs :
  (forall b, b ∈ cs.*1 -> B' !! b = B !! b /\ L' !! b = L !! b /\ P' !! b = P !! b) ->
  chained B L P p cs -> chained B' L' P' p cs.
Proof.
  revert p. induction cs as [|[b n] cs IH]; intros p H; [done|]. cbn [chained].
  destruct (H b) as (-> & -> & ->); [by left|]. intros (-> & H0 & H1 & H2 & q & H3 & H4). split_and!; [done..|].
  exists q. split; [done|]. apply IH; [|done]. intros b' Hb'. apply H. by right.
Qed.

Lemma chained_blocks B L P p cs b n : chained B L P p cs -> (b, n) ∈ cs -> B !! b = Some n /\ L !! b = Some (b + n).
Proof.
  revert p. induction cs as [|[b' n'] cs IH]; intros p; [by intros _ ?%elem_of_nil|].
  intros (-> & _ & H1 & H2 & q & _ & H4) [[= -> ->]|Hin]%elem_of_cons; [done|by eapply IH].
Qed.

(** An address is in the area of one chunk only. *)
Definition inside (p : Z) (c : Z * Z) : Prop := c.1 < p <= c.1 + c.2.

Lemma inside_unique B p b n b' n' :
  heap_ok B -> B !! b = Some n -> B !! b' = Some n' -> inside p (b, n) -> inside p (b', n') -> b = b'.
Proof.
  intros [_ H] Hb Hb' Hi Hi'. destruct (decide (b = b')) as [|Hne]; [done|]. unfold inside in *. cbn in *.
  destruct (H _ _ _ _ Hb Hb' Hne); lia.
Qed.

#[export] Instance inside_dec p c : Decision (inside p c).
Proof. unfold inside. apply _. Defined.

(** No object is in a chunk, and the number of chunks with none. *)
Definition vacant (l : list object) (c : Z * Z) : Prop := Forall (fun o => ~ inside o.1 c) l.

#[export] Instance vacant_dec l c : Decision (vacant l c).
Proof. unfold vacant. apply _. Defined.

Definition vacancies (l : list object) (cs : list (Z * Z)) : nat := length (filter (vacant l) cs).

Lemma vacancies_mono l l' cs :
  (forall c, c ∈ cs -> vacant l' c -> vacant l c) -> (vacancies l' cs <= vacancies l cs)%nat.
Proof.
  unfold vacancies. induction cs as [|c cs IH]; intros Hc; [done|]. rewrite !filter_cons.
  specialize (IH ltac:(intros c' Hin; apply Hc; by right)). pose proof (Hc c ltac:(by left)).
  destruct (decide (vacant l' c)), (decide (vacant l c)); cbn [length]; tauto || lia.
Qed.

Lemma vacancies_app l cs1 cs2 : vacancies l (cs1 ++ cs2) = (vacancies l cs1 + vacancies l cs2)%nat.
Proof. unfold vacancies. by rewrite filter_app, length_app. Qed.

Lemma vacancies_cons l c cs :
  vacancies l (c :: cs) = ((if decide (vacant l c) then 1 else 0) + vacancies l cs)%nat.
Proof. unfold vacancies. rewrite filter_cons. by destruct (decide (vacant l c)). Qed.

Lemma vacant_poke l x v c : vacant (poke_object x v <$> l) c <-> vacant l c.
Proof. unfold vacant. by rewrite Forall_fmap. Qed.

(** *** The size of all *)

Definition sum (cs : list (Z * Z)) : Z := foldr (fun c n => c.2 + n) 0 cs.

Lemma sum_nonneg cs : (forall c, c ∈ cs -> 0 <= c.2) -> 0 <= sum cs.
Proof.
  induction cs as [|c cs IH]; intros Hn; [done|]. cbn. pose proof (Hn c ltac:(by left)).
  assert (0 <= sum cs) by (apply IH; intros c' Hc; apply Hn; by right). unfold sum in *. lia.
Qed.

Lemma sum_split b cs : sum cs = sum (filter (fun c => c.1 < b) cs) + sum (filter (fun c => ~ c.1 < b) cs).
Proof.
  induction cs as [|c cs IH]; [done|]. rewrite !filter_cons. cbn [sum foldr]. fold (sum cs). rewrite IH.
  destruct (decide (c.1 < b)); [rewrite decide_False by lia|rewrite decide_True by lia]; cbn [sum foldr]; unfold sum; lia.
Qed.

Lemma sum_disjoint B k cs lo hi :
  heap_ok B -> (length cs <= k)%nat -> lo <= hi -> NoDup cs ->
  (forall b n, (b, n) ∈ cs -> B !! b = Some n /\ lo <= b /\ b + n <= hi) -> sum cs <= hi - lo.
Proof.
  intros [HB1 HB2]. revert cs lo hi. induction k as [|k IH]; intros [|[b n] cs] lo hi Hk Hlo Hnd H; cbn [length] in *;
    try (cbn; lia). apply NoDup_cons in Hnd as [Hni Hnd].
  destruct (H b n) as (Hb & ? & ?); [by left|]. destruct (HB1 _ _ Hb) as (_ & ? & _).
  assert (Hl : forall Q `{!forall x : Z * Z, Decision (Q x)}, (length (filter Q cs) <= k)%nat)
    by (intros Q ?; pose proof (length_filter Q cs); lia).
  cbn [sum foldr fst snd]. fold (sum cs). rewrite (sum_split b cs).
  assert (sum (filter (fun c => c.1 < b) cs) <= b - lo).
  { apply IH; [apply Hl|lia|by apply NoDup_filter|]. intros b' n' [Hlt Hin]%list_elem_of_filter. cbn in Hlt.
    destruct (H b' n') as (Hb' & ? & ?); [by right|]. destruct (HB2 _ _ _ _ Hb Hb' ltac:(lia)); [lia|done]. }
  assert (sum (filter (fun c => ~ c.1 < b) cs) <= hi - (b + n)).
  { apply IH; [apply Hl|lia|by apply NoDup_filter|]. intros b' n' [Hge Hin]%list_elem_of_filter. cbn in Hge.
    destruct (H b' n') as (Hb' & ? & ?); [by right|].
    destruct (decide (b = b')) as [<-|Hne]; [by replace n' with n in Hin by congruence|].
    destruct (HB1 _ _ Hb') as (_ & ? & _). destruct (HB2 _ _ _ _ Hb Hb' Hne); [done|lia]. }
  lia.
Qed.

(** ** Objects in chunks *)

(** Where the objects of a chunk start, with [m] the alignment mask. *)
Definition first (m b : Z) : Z := PTR_ALIGN (b + CONTENTS) m.

Section placed.
Context (m : Z).

(** An address for an object: aligned, or the end of its chunk. *)
Definition seat (a : Z) (c : Z * Z) : Prop := (m + 1 | a) \/ a = c.1 + c.2.

(** The objects of a chain, from the latest down, below the address [top] of
    its first chunk, which is the chunk's start as long as it has no object. *)
Inductive placed : Z -> list (Z * Z) -> list object -> Prop :=
| placed_start top b n : b + CONTENTS <= first m b -> top = first m b -> top <= b + n -> placed top [(b, n)] []
| placed_chunk top b n top' cs l :
    b + CONTENTS <= first m b -> top = first m b -> top <= b + n -> placed top' cs l -> placed top ((b, n) :: cs) l
| placed_object top b n cs a bs l :
    placed a ((b, n) :: cs) l -> seat a (b, n) -> a + Z.of_nat (length bs) <= top <= b + n ->
    placed top ((b, n) :: cs) ((a, bs) :: l).

Lemma placed_top top b n cs l : placed top ((b, n) :: cs) l -> b + CONTENTS <= first m b <= top /\ top <= b + n.
Proof.
  remember ((b, n) :: cs) as cs0 eqn:E. intros H. revert b n cs E.
  induction H as [top b n ? ?|top b n top' cs l ? ?|top b n cs a bs l _ IH]; intros b0 n0 cs0 [= -> -> ?]; [lia|lia|].
  specialize (IH _ _ _ eq_refl). lia.
Qed.

Lemma placed_nonempty top cs l : placed top cs l -> exists b n cs', cs = (b, n) :: cs'.
Proof. destruct 1; eauto. Qed.

(** Every object is in the contents of a chunk. *)
Lemma placed_in top cs l a bs :
  placed top cs l -> (a, bs) ∈ l ->
  exists b n, (b, n) ∈ cs /\ b + CONTENTS <= a /\ a + Z.of_nat (length bs) <= b + n /\ seat a (b, n).
Proof.
  intros H. induction H as [top b n|top b n top' cs l Ht Et Ht' _ IH|top b n cs a' bs' l H IH Hs Ht].
  - by intros ?%elem_of_nil.
  - intros Hin. destruct (IH Hin) as (b' & n' & ? & ?). exists b', n'. split; [by right|done].
  - intros [[= -> ->]|Hin]%elem_of_cons; [|by apply IH]. apply placed_top in H.
    exists b, n. split; [by left|]. split_and!; [lia..|done].
Qed.

(** A chunk without an object is free from its start. *)
Lemma placed_vacant top b n cs l :
  placed top ((b, n) :: cs) l -> vacant l (b, n) -> top = first m b.
Proof.
  intros H Hv. inversion H as [| |? ? ? ? a bs l' H' Hs Ht]; subst; [done..|].
  apply Forall_cons_1 in Hv as [Hv _]. destruct Hv. pose proof (placed_top _ _ _ _ _ H').
  unfold inside, CONTENTS in *. cbn. lia.
Qed.

(** The chunk an object is in, and what is below; what is above is in that
    chunk or in later ones. *)
Lemma placed_below top cs l p :
  placed top cs l -> p ∈ l.*1 ->
  exists cs1 b n cs2, cs = cs1 ++ (b, n) :: cs2 /\ placed p ((b, n) :: cs2) (below p l) /\ seat p (b, n) /\
    forall o, o ∈ l -> o ∈ below p l \/ exists c, c ∈ cs1 ++ [(b, n)] /\ inside o.1 c.
Proof.
  intros H. induction H as [top b n|top b n top' cs l Ht Et Ht' _ IH|top b n cs a bs l H IH Hs Ht].
  - by intros ?%elem_of_nil.
  - intros Hin. destruct (IH Hin) as (cs1 & b' & n' & cs2 & -> & H1 & H2 & H3). exists ((b, n) :: cs1), b', n', cs2.
    split; [done|]. split; [done|]. split; [done|]. intros o Ho. destruct (H3 o Ho) as [?|(c & Hc & ?)]; [by left|].
    right. exists c. split; [by right|done].
  - pose proof (placed_top _ _ _ _ _ H) as [Hlo _].
    assert (Hi : inside a (b, n)) by (unfold inside, CONTENTS in *; cbn; lia).
    cbn [below fmap list_fmap fst]. destruct (Z.eqb_spec a p) as [<-|Hne].
    + intros _. exists [], b, n, cs. split; [done|]. split; [done|]. split; [done|].
      intros o [->|Ho]%elem_of_cons; [|by left]. right. exists (b, n). split; [by left|done].
    + intros [?|Hin]%elem_of_cons; [congruence|]. destruct (IH Hin) as (cs1 & b' & n' & cs2 & Ecs & H1 & H2 & H3).
      exists cs1, b', n', cs2. split; [done|]. split; [done|]. split; [done|].
      intros o [->|Ho]%elem_of_cons; [|by apply H3]. right. exists (b, n). split; [|done].
      destruct cs1 as [|c cs1]; [injection Ecs as <- <- _|injection Ecs as <- _]; by left.
Qed.

Lemma below_in p l o : o ∈ below p l -> o ∈ l.
Proof.
  induction l as [|o' l IH]; [done|]. cbn [below]. destruct (o'.1 =? p); intros H; right; [done|by apply IH].
Qed.

(** A chunk at whose start the free area begins has empty objects only. *)
Lemma placed_fresh top b n cs l :
  placed top ((b, n) :: cs) l -> top = first m b ->
  (forall a, (a, []) ∈ l -> ~ inside a (b, n)) ->
  (cs = [] /\ l = []) \/ exists top', placed top' cs l.
Proof.
  intros H -> He. inversion H as [|? ? ? top' ? ? ? ? ?|? ? ? ? a bs l' H' Hs Ht]; subst; [by left|right; by exists top'|].
  pose proof (placed_top _ _ _ _ _ H'). assert (bs = []) by (destruct bs; [done|cbn in *; lia]). subst bs.
  destruct (He a); [by left|]. unfold inside, CONTENTS in *. cbn in *. lia.
Qed.

Lemma placed_poke top cs l x v : placed top cs l -> placed top cs (poke_object x v <$> l).
Proof.
  induction 1 as [| |top b n cs a bs l H IH Hs Ht]; [by constructor|by econstructor|].
  cbn [fmap list_fmap]. unfold poke_object at 1. cbn [fst snd]. constructor; [done|done|].
  destruct (in_object x (a, bs)); [by rewrite length_insert|done].
Qed.

(** The bytes of all objects, in terms of the chunks. *)
Lemma placed_total top b n cs l :
  (forall c, c ∈ cs -> 0 <= c.2) ->
  placed top ((b, n) :: cs) l -> total l <= top - b + sum cs.
Proof.
  intros Hn H. remember ((b, n) :: cs) as cs0 eqn:E. revert b n cs E Hn.
  induction H as [top b n Ht Et Ht'|top b n top' cs l Ht Et Ht' H IH|top b n cs a bs l H IH Hs Ht]; intros b0 n0 cs0 [= <- <- <-] Hn.
  - unfold CONTENTS in *. cbn. lia.
  - destruct (placed_nonempty _ _ _ H) as (b' & n' & cs' & ->). specialize (IH _ _ _ eq_refl).
    assert (H0 : forall c, c ∈ cs' -> 0 <= c.2) by (intros c Hc; apply Hn; by right). specialize (IH H0).
    pose proof (placed_top _ _ _ _ _ H). unfold CONTENTS in *. cbn. unfold sum in *. lia.
  - specialize (IH _ _ _ eq_refl Hn). cbn [total foldr snd]. fold (total l). lia.
Qed.

(** Objects do not overlap what is above them. *)
Lemma placed_apart B top b n cs l :
  heap_ok B ->
  (forall b' n', (b', n') ∈ (b, n) :: cs -> B !! b' = Some n') -> NoDup ((b, n) :: cs).*1 ->
  placed top ((b, n) :: cs) l ->
  Forall (fun o => o.1 + Z.of_nat (length o.2) <= top \/ b + n <= o.1 \/ o.1 + Z.of_nat (length o.2) <= b) l.
Proof.
  intros HB Hin Hnd H. remember ((b, n) :: cs) as cs0 eqn:E. revert b n cs E Hin Hnd.
  induction H as [top b n Ht Et Ht'|top b n top' cs l Ht Et Ht' H IH|top b n cs a bs l H IH Hs Ht]; intros b0 n0 cs0 [= <- <- <-] Hin Hnd.
  - constructor.
  - apply Forall_forall. intros [a bs] Ho. right. cbn. destruct (placed_in _ _ _ _ _ H Ho) as (b' & n' & Hb' & H1 & H2 & _).
    apply NoDup_cons in Hnd as [Hni _]. destruct HB as [HB1 HB2]. unfold CONTENTS in *.
    assert (b <> b') by (intros <-; apply Hni; apply list_elem_of_fmap; by exists (b, n')).
    destruct (HB2 b n b' n') as [?|?]; [apply Hin; by left|apply Hin; by right|done|lia..].
  - specialize (IH _ _ _ eq_refl Hin Hnd). constructor; [cbn; lia|].
    eapply Forall_impl; [exact IH|]. cbn. intros o Ho. lia.
Qed.
End placed.

(** ** The relation to the abstract stack *)

Definition target (e : event) : Z * option Z :=
  match e with Plain f _ => (f, None) | Extra f arg _ => (f, Some arg) end.

(** The bytes of an object that were written. *)
Definition shown (m : mem) (o : object) : Prop :=
  forall i v, o.2 !! i = Some (Some v) -> mget m (o.1 + Z.of_nat i) = v.

Definition arg_of (h : obstack) : option Z := if use_extra_arg h then Some (extra_arg h) else None.

(** [w] with other values in the obstack. *)
Definition upd (f : obstack -> obstack) (w : world) : world :=
  World (f (ob w)) (blocks w) (limits w) (prevs w) (bytes w) (calls w).

Section relation.
Context (funs : list (Z * option Z)) (w0 : world).

(** The blocks there were at first are as they were, and only functions of the
    client were called. *)
Record frame (w : world) : Prop := Frame {
  fr_heap : heap_ok (blocks w);
  fr_blocks : forall b n, blocks w0 !! b = Some n -> blocks w !! b = Some n;
  fr_bytes : forall b n x, blocks w0 !! b = Some n -> b <= x < b + n -> mget (bytes w) x = mget (bytes w0) x;
  fr_calls : exists log, calls w = log ++ calls w0 /\ Forall (fun e => target e ∈ funs) log }.

(** The chunks [(b, n) :: cs] hold the objects of [s]. Every chunk but the
    current one, [(b, n)], holds an object, save at most one for each call of
    [obstack_free] ([o_vacant]; while [maybe_empty_object] is set the current
    one counts too, since it may be left behind empty). *)
Record owns (w : world) (s : stack) (b n : Z) (cs : list (Z * Z)) : Prop := Owns {
  o_base : object_base (ob w) = base s;
  o_next : next_free (ob w) = base s + Z.of_nat (length (cur s));
  o_limit : chunk_limit (ob w) = b + n;
  o_room : b + n = base s + Z.of_nat (length (cur s)) + room s;
  o_room0 : 0 <= room s;
  o_align : exists k, 0 <= k <= 62 /\ align s = 2 ^ k /\ alignment_mask (ob w) = 2 ^ k - 1;
  o_chain : chained (blocks w) (limits w) (prevs w) (chunk (ob w)) ((b, n) :: cs);
  o_nodup : NoDup ((b, n) :: cs).*1;
  o_rest : forall b', b' ∉ ((b, n) :: cs).*1 -> blocks w !! b' = blocks w0 !! b';
  o_own : forall b', b' ∈ ((b, n) :: cs).*1 -> blocks w0 !! b' = None;
  o_placed : placed (align s - 1) (base s) ((b, n) :: cs) (objs s);
  o_seat : seat (align s - 1) (base s) (b, n);
  o_empty : maybe_empty_object (ob w) = false -> forall a, (a, []) ∈ objs s -> ~ inside a (b, n);
  o_vacant : (vacancies (objs s) cs +
    (if maybe_empty_object (ob w) && bool_decide (vacant (objs s) (b, n)) then 1 else 0) <= freed s)%nat;
  o_shown : Forall (shown (bytes w)) (live s);
  o_funs : (chunkfun (ob w), arg_of (ob w)) ∈ funs /\ (freefun (ob w), arg_of (ob w)) ∈ funs }.

(** Without chunks no memory is held. *)
Definition Rel (w : world) (t : option stack) : Prop :=
  frame w /\
  match t with
  | None => blocks w = blocks w0
  | Some s => exists b n cs, owns w s b n cs
  end.

Lemma frame_upd f w : frame w -> frame (upd f w).
Proof. intros []. by constructor. Qed.

Lemma shown_ext m m' o :
  (forall x, o.1 <= x < o.1 + Z.of_nat (length o.2) -> mget m' x = mget m x) -> shown m o -> shown m' o.
Proof.
  intros Hx Hs i v Hi. rewrite Hx; [by apply Hs|]. apply lookup_lt_Some in Hi. lia.
Qed.

Lemma shown_written m a vs : shown (mputs m a vs) (a, Some <$> vs).
Proof.
  intros i v. cbn. rewrite list_lookup_fmap. destruct (vs !! i) as [v'|] eqn:E; [|done]. cbn. intros [= <-].
  apply lookup_lt_Some in E as Hlt. apply (mget_mputs_in _ _ _ _ v'); [lia|]. by replace (Z.to_nat _) with i by lia.
Qed.

Lemma shown_app m a l1 l2 :
  shown m (a, l1) -> shown m (a + Z.of_nat (length l1), l2) -> shown m (a, l1 ++ l2).
Proof.
  intros H1 H2 i v [Hi|[Hl Hi]]%lookup_app_Some; [by apply H1|]. cbn [fst snd] in *.
  replace (a + Z.of_nat i) with (a + Z.of_nat (length l1) + Z.of_nat (i - length l1)) by lia. by apply H2.
Qed.

Lemma shown_unknown m a k : shown m (a, replicate k None).
Proof. by intros i v [[=] _]%lookup_replicate. Qed.

(** *** Consequences *)

Context (w : world) (s : stack) (b n : Z) (cs : list (Z * Z)) (HF : frame w) (HO : owns w s b n cs).

Lemma owns_block b' n' : (b', n') ∈ (b, n) :: cs -> blocks w !! b' = Some n' /\ limits w !! b' = Some (b' + n').
Proof. intros Hin. exact (chained_blocks _ _ _ _ _ _ _ (o_chain _ _ _ _ _ HO) Hin). Qed.

Lemma owns_head : blocks w !! b = Some n /\ 0 < b /\ 0 <= n /\ b + n <= 9223372036854775808.
Proof.
  destruct (owns_block b n) as [Hb _]; [by left|]. split; [done|]. by apply (proj1 (fr_heap _ HF)).
Qed.

Lemma owns_first b' : 0 <= b' <= 9223372036854775792 ->
  b' + CONTENTS <= first (align s - 1) b' <= b' + CONTENTS + (align s - 1) /\ (align s | first (align s - 1) b').
Proof.
  intros Hb. destruct (o_align _ _ _ _ _ HO) as (k & Hk & -> & _). unfold first, CONTENTS. apply PTR_ALIGN_spec; lia.
Qed.

Lemma align_pos : 0 < align s <= 4611686018427387904.
Proof.
  destruct (o_align _ _ _ _ _ HO) as (k & Hk & -> & _). split; [lia|].
  change 4611686018427387904 with (2 ^ 62). apply Z.pow_le_mono_r; lia.
Qed.

Lemma owns_mask : alignment_mask (ob w) = align s - 1.
Proof. destruct (o_align _ _ _ _ _ HO) as (k & _ & -> & ->). done. Qed.

Lemma owns_chunk : chunk (ob w) = b.
Proof. by destruct (o_chain _ _ _ _ _ HO). Qed.
End relation.

Arguments o_base {funs w0 w s b n cs} _.
Arguments o_next {funs w0 w s b n cs} _.
Arguments o_limit {funs w0 w s b n cs} _.
Arguments o_room {funs w0 w s b n cs} _.
Arguments o_room0 {funs w0 w s b n cs} _.
Arguments o_align {funs w0 w s b n cs} _.
Arguments o_chain {funs w0 w s b n cs} _.
Arguments o_nodup {funs w0 w s b n cs} _.
Arguments o_rest {funs w0 w s b n cs} _.
Arguments o_own {funs w0 w s b n cs} _.
Arguments o_placed {funs w0 w s b n cs} _.
Arguments o_seat {funs w0 w s b n cs} _.
Arguments o_empty {funs w0 w s b n cs} _.
Arguments o_vacant {funs w0 w s b n cs} _.
Arguments o_shown {funs w0 w s b n cs} _.
Arguments o_funs {funs w0 w s b n cs} _.
Arguments fr_heap {funs w0 w} _.
Arguments fr_blocks {funs w0 w} _.
Arguments fr_bytes {funs w0 w} _.
Arguments fr_calls {funs w0 w} _.
Arguments align_pos {funs w0 w s b n cs} _.
Arguments owns_chunk {funs w0 w s b n cs} _.
Arguments owns_mask {funs w0 w s b n cs} _.
Arguments owns_block {funs w0 w s b n cs} _.
Arguments owns_first {funs w0 w s b n cs} _.
Arguments owns_head {funs w0 w s b n cs} _ _.

Section ops.
Context {place : Chunks} (funs : list (Z * option Z)) (w0 : world).
Abbreviation frame := (frame funs w0).
Abbreviation owns := (owns funs w0).

(** Bytes written in a chunk. *)
Definition written (w : world) (a : Z) (vs : list Z) : world :=
  World (ob w) (blocks w) (limits w) (prevs w) (mputs (bytes w) a vs) (calls w).

Lemma frame_written w b n a vs :
  frame w -> blocks w !! b = Some n -> blocks w0 !! b = None ->
  b <= a -> a + Z.of_nat (length vs) <= b + n -> frame (written w a vs).
Proof.
  intros [HB Hb Hm Hc] Hn Hn0 H1 H2. constructor; [done|done| |done].
  intros b' n' x Hb' Hx. cbn. rewrite mget_mputs_out; [by apply (Hm b' n')|].
  pose proof (Hb _ _ Hb') as Hw. assert (b <> b') by congruence.
  destruct (proj2 HB _ _ _ _ Hn Hw); [done|lia..].
Qed.

Lemma store_done w b n a vs :
  blocks w !! b = Some n -> b + CONTENTS <= a -> a + Z.of_nat (length vs) <= b + n ->
  store a vs w = Done (tt, written w a vs).
Proof. intros Hb H1 H2. unfold store. by rewrite (span_ok _ b n). Qed.

Context (w : world) (s : stack) (b n : Z) (cs : list (Z * Z)) (HF : frame w) (HO : owns w s b n cs).

(** The current object is in its chunk. *)
Lemma owns_base :
  b + CONTENTS <= first (align s - 1) b <= base s /\ base s + Z.of_nat (length (cur s)) + room s = b + n /\ 0 <= room s.
Proof.
  pose proof (placed_top _ _ _ _ _ _ (o_placed HO)). pose proof (o_room HO).
  pose proof (o_room0 HO). lia.
Qed.

Lemma owns_new : blocks w0 !! b = None.
Proof. apply (o_own HO). by left. Qed.

(** All others are elsewhere than the growing one and the room behind it. *)
Lemma owns_apart :
  Forall (fun o => o.1 + Z.of_nat (length o.2) <= base s \/ b + n <= o.1 \/ o.1 + Z.of_nat (length o.2) <= b) (objs s).
Proof.
  apply (placed_apart (align s - 1) (blocks w) _ _ _ cs); [apply HF| |apply (o_nodup HO)|apply HO].
  intros b' n' Hin. by eapply owns_block.
Qed.

(** What is written behind the growing object shows in no other. *)
Lemma shown_behind a vs :
  base s <= a -> a + Z.of_nat (length vs) <= b + n -> Forall (shown (mputs (bytes w) a vs)) (objs s).
Proof.
  intros Ha Hl. pose proof owns_base as (Hc & _ & _). unfold CONTENTS in Hc.
  pose proof (o_shown HO) as [_ Hs]%Forall_cons_1. pose proof owns_apart as Hp.
  rewrite Forall_forall in Hs, Hp. apply Forall_forall. intros o Ho. apply (shown_ext (bytes w)); [|by apply Hs].
  intros x Hx. apply mget_mputs_out. specialize (Hp _ Ho). lia.
Qed.

Lemma blank_fast_wp k :
  0 <= k <= room s ->
  wp (obstack_blank_fast k) (fun _ w' => frame w' /\ owns w' (extend (replicate (Z.to_nat k) None) s) b n cs) w.
Proof.
  intros Hk. apply wp_modify. split; [by apply (frame_upd funs w0)|]. pose proof (o_shown HO) as [H1 H2]%Forall_cons_1.
  destruct HO. constructor; cbn; rewrite ?length_app, ?length_replicate; try done; try lia.
  constructor; [|done]. apply shown_app; [done|apply shown_unknown].
Qed.

Lemma append_bytes_wp vs :
  Z.of_nat (length vs) <= room s ->
  wp (append vs) (fun _ w' => frame w' /\ owns w' (extend (Some <$> vs) s) b n cs) w.
Proof.
  intros Hk. pose proof owns_base as (Hc & Hr & _). pose proof owns_head HF HO as (Hb & _). pose proof owns_new as Hn.
  pose proof (o_next HO) as Hx. unfold append. apply wp_bind, wp_gets.
  rewrite Hx. apply wp_bind. eapply wp_eq; [apply (store_done w b n); [done|unfold CONTENTS in *; lia..]|].
  apply wp_modify. split; [apply (frame_upd funs w0), (frame_written w b n); [done..|unfold CONTENTS in *; lia|lia]|].
  pose proof (shown_behind (base s + Z.of_nat (length (cur s))) vs ltac:(lia) ltac:(lia)) as Hs.
  pose proof (o_shown HO) as [H1 _]%Forall_cons_1. destruct HO. constructor; cbn; rewrite ?length_app, ?length_fmap; try done; try lia.
  constructor; [|done]. apply shown_app; [|apply shown_written].
  apply (shown_ext (bytes w)); [|done]. cbn. intros x Hx'. apply mget_mputs_out. lia.
Qed.

(** Where the next object starts. *)
Definition object_end : Z := base s + Z.of_nat (length (cur s)).
Definition next_base : Z := Z.min (PTR_ALIGN object_end (align s - 1)) (b + n).

Lemma object_end_aligned :
  object_end <= PTR_ALIGN object_end (align s - 1) <= object_end + (align s - 1) /\ (align s | PTR_ALIGN object_end (align s - 1)).
Proof.
  pose proof owns_base as (Hc & Hr & Hr0). pose proof owns_head HF HO as (Hb & Hb0 & Hn0 & Hbn). unfold object_end.
  destruct (o_align HO) as (k & Hk & -> & _). apply PTR_ALIGN_spec; [done|]. unfold CONTENTS in *. lia.
Qed.

Definition finished_ob (me : bool) (h : obstack) : obstack :=
  set_object_base next_base (set_next_free next_base (set_maybe_empty_object me h)).

Lemma finish_run :
  exists me, obstack_finish w = Done (base s, upd (finished_ob me) w) /\
  (me = false -> maybe_empty_object (ob w) = false /\ cur s <> []).
Proof.
  pose proof owns_base as (Hc & Hr & Hr0). pose proof owns_head HF HO as (Hb & Hb0 & Hn0 & Hbn). pose proof object_end_aligned as [He _].
  pose proof (align_pos HO) as Ha. assert (Hbe : base s <= object_end /\ object_end + room s = b + n) by (unfold object_end; lia). unfold CONTENTS in *.
  assert (E : exists me, (if object_end =? base s then oset (set_maybe_empty_object true) else ret tt) w =
      Done (tt, upd (set_maybe_empty_object me) w) /\ (me = false -> maybe_empty_object (ob w) = false /\ cur s <> [])).
  { destruct (Z.eqb_spec object_end (base s)) as [E|E]; [by exists true|].
    exists (maybe_empty_object (ob w)). split; [by destruct w as [[]]|]. intros ->. split; [done|].
    intros E0. unfold object_end in E. rewrite E0 in E. cbn in E. lia. }
  destruct E as (me & E & Hme). exists me. split; [|done]. unfold obstack_finish, oget, gets. unfold bind at 1. cbv beta iota zeta.
  rewrite (o_base HO), (o_next HO). fold object_end. rewrite (bind_done _ _ _ _ _ E).
  unfold bind, oset, modify. cbv beta iota. cbn [ob upd set_next_free set_maybe_empty_object chunk_limit chunk next_free].
  rewrite (o_limit HO), (owns_chunk HO), (owns_mask HO).
  rewrite (u64_small (PTR_ALIGN _ _ - b)), (u64_small (b + n - b)) by lia.
  unfold upd, finished_ob, next_base, set_object_base, set_next_free, ret. cbn.
  destruct (Z.ltb_spec (b + n - b) (PTR_ALIGN object_end (align s - 1) - b)); [rewrite Z.min_r by lia|rewrite Z.min_l by lia]; cbn;
    by rewrite ?(o_limit HO), ?(owns_mask HO).
Qed.

Lemma finish_wp :
  wp obstack_finish (fun p w' => exists s', frame w' /\ owns w' s' b n cs /\ finishes s p s') w.
Proof.
  pose proof owns_base as (Hc & Hr & Hr0). pose proof owns_head HF HO as (_ & Hb0 & _). pose proof object_end_aligned as [He Hd].
  pose proof owns_apart as Hap. unfold CONTENTS in Hc. destruct finish_run as (me & E & Hme). eapply wp_eq; [exact E|].
  assert (Hnb : object_end <= next_base <= b + n) by (unfold next_base, object_end in *; lia). unfold object_end in *.
  assert (Hseat : forall a, seat (align s - 1) a (b, n) -> (align s | a) \/ a = b + n) by (intros a; unfold seat; by replace (align s - 1 + 1) with (align s) by lia).
  exists (Stack (align s) ((base s, cur s) :: objs s) next_base [] (b + n - next_base) (freed s)).
  split; [by apply (frame_upd funs w0)|]. split.
  - pose proof (o_empty HO) as Hemp. destruct HO. constructor; cbn; try done; try lia.
    + by constructor; [| |lia].
    + unfold next_base, seat. cbn. replace (align s - 1 + 1) with (align s) by lia.
      destruct (Z.min_spec (PTR_ALIGN object_end (align s - 1)) (b + n)) as [[_ ->]|[_ ->]]; [by left|by right].
    + intros Em a [[= -> E0]|Hin]%elem_of_cons; [destruct (Hme Em); congruence|]. destruct (Hme Em). by apply Hemp.
    + rewrite bool_decide_false, andb_false_r by (intros [Hi _]%Forall_cons_1; apply Hi; unfold inside; cbn; lia).
      pose proof (vacancies_mono (objs s) ((base s, cur s) :: objs s) cs) as Hm.
      specialize (Hm ltac:(by intros c _ [_ ?]%Forall_cons_1)). lia.
    + constructor; [apply (shown_unknown _ _ 0)|done].
  - exists next_base, (b + n - next_base). split_and!; [done|done|lia|lia|lia| |].
    + intros Hcur. destruct (Hseat _ (o_seat HO)) as [?|Hx]; [done|]. destruct (cur s); [done|cbn in *; lia].
    + eapply Forall_impl; [exact Hap|]. cbn. intros o Ho. lia.
Qed.
End ops.
Arguments owns_base {funs w0 w s b n cs} _.
Arguments owns_new {funs w0 w s b n cs} _.

Section newchunk.
Context {place : Chunks} {laws : ChunksLaws} (funs : list (Z * option Z)) (w0 : world).
Abbreviation frame := (frame funs w0).
Abbreviation owns := (owns funs w0).

(** *** Calls of the client's functions *)

(** A new block, if there is one. *)
Lemma call_chunkfun_wp w size :
  frame w -> 0 <= size -> (chunkfun (ob w), arg_of (ob w)) ∈ funs ->
  wp (call_chunkfun size) (fun p w' => frame w' /\ (p <> 0 ->
    0 < p /\ p + size <= 9223372036854775808 /\ blocks w !! p = None /\
    exists cl, w' = World (ob w) (<[p := size]> (blocks w)) (limits w) (prevs w) (bytes w) cl)) w.
Proof.
  intros [HB Hb Hm (log & Hl & Hlog)] Hs Hf. unfold wp, call_chunkfun. cbv zeta.
  set (e := if use_extra_arg (ob w) then Extra (chunkfun (ob w)) (extra_arg (ob w)) size else Plain (chunkfun (ob w)) size).
  assert (Hlog' : exists log, e :: calls w = log ++ calls w0 /\ Forall (fun e => target e ∈ funs) log).
  { exists (e :: log). split; [by rewrite Hl|]. constructor; [|done]. unfold e, arg_of in *. by destruct (use_extra_arg (ob w)). }
  destruct (place_chunk e w) as [p|] eqn:Ep; [|split; [by constructor|done]].
  destruct (place_chunk_fresh (chunkfun (ob w)) size w p) as (H0 & H1 & H2 & H3).
  { revert Ep. unfold e. destruct (use_extra_arg (ob w)); intros Ep; [right; by eexists|by left]. }
  split; [|intros _; split_and!; [done..|by eexists]]. constructor; cbn; [by apply heap_ok_insert| |done|done].
  intros b n Hb0. rewrite lookup_insert_ne; [by apply Hb|]. intros <-. specialize (Hb _ _ Hb0). congruence.
Qed.

(** A block of the obstack is given back. *)
Lemma call_freefun_done w p n :
  frame w -> blocks w !! p = Some n -> blocks w0 !! p = None -> (freefun (ob w), arg_of (ob w)) ∈ funs ->
  exists cl, call_freefun p w = Done (tt,
    World (ob w) (delete p (blocks w)) (delete p (limits w)) (delete p (prevs w)) (bytes w) cl) /\
  frame (World (ob w) (delete p (blocks w)) (delete p (limits w)) (delete p (prevs w)) (bytes w) cl).
Proof.
  intros [HB Hb Hm (log & Hl & Hlog)] Hp Hp0 Hf. unfold call_freefun. rewrite Hp. eexists. split; [done|].
  constructor; cbn; [by apply heap_ok_delete| |done|].
  - intros b s Hb0. rewrite lookup_delete_ne; [by apply Hb|congruence].
  - eexists (_ :: log). split; [by rewrite Hl|]. constructor; [|done]. unfold arg_of in *. by destruct (use_extra_arg (ob w)).
Qed.

(** *** A new chunk *)

Lemma new_size_enough h obj len m :
  0 <= obj <= 9223372036854775808 -> 0 <= len < 18446744073709551616 -> 0 <= m < 4611686018427387904 ->
  obj <= u64 (obj + len) -> u64 (obj + len) <= u64 (u64 (obj + len) + m) ->
  0 <= new_size h obj (u64 (u64 (obj + len) + m)) /\
  (new_size h obj (u64 (u64 (obj + len) + m)) <= 9223372036854775808 ->
   obj + len + m + 100 <= new_size h obj (u64 (u64 (obj + len) + m))).
Proof.
  intros Ho Hl Hm H1 H2.
  assert (E : forall x, 0 <= x -> u64 x = x \/ u64 x <= x - 18446744073709551616).
  { intros x Hx. unfold wrap. change (2 ^ 64) with 18446744073709551616. pose proof (Z.div_mod x 18446744073709551616 ltac:(lia)).
    pose proof (Z.div_pos x 18446744073709551616 ltac:(lia) ltac:(lia)).
    destruct (decide (x / 18446744073709551616 = 0)); [left; lia|right; lia]. }
  destruct (E (obj + len)) as [E1|E1]; [lia| |lia]. rewrite E1 in *.
  destruct (E (obj + len + m)) as [E2|E2]; [lia| |lia]. rewrite E2 in *.
  pose proof (wrap_range 64 (obj + len + m) ltac:(lia)) as Hr. change (2 ^ 64) with 18446744073709551616 in Hr. rewrite E2 in Hr.
  unfold new_size. rewrite Z.shiftr_div_pow2 by lia. change (2 ^ 3) with 8.
  pose proof (Z.div_pos obj 8 ltac:(lia) ltac:(lia)). pose proof (Z.div_le_upper_bound obj 8 1152921504606846976 ltac:(lia) ltac:(lia)).
  pose proof (wrap_range 64 (obj + len + m + obj / 8 + 100) ltac:(lia)) as [Hr' _].
  destruct (E (obj + len + m + obj / 8 + 100)) as [E3|E3]; [lia| |]; [rewrite E3|];
    match goal with |- context [?a <? obj + len + m] => destruct (Z.ltb_spec a (obj + len + m)) end;
    match goal with |- context [?a <? chunk_size h] => destruct (Z.ltb_spec a (chunk_size h)) end; lia.
Qed.

Context (w : world) (s : stack) (b n : Z) (cs : list (Z * Z)) (HF : frame w) (HO : owns w s b n cs).

(** The growing object at [p'] in the chunk of [size] bytes at [p]. *)
Definition settle (p' : Z) (h : obstack) : obstack :=
  set_maybe_empty_object false (set_next_free (p' + Z.of_nat (length (cur s))) (set_object_base p' h)).

Definition moved_ob (p size p' : Z) (h : obstack) : obstack :=
  settle p' (set_chunk_limit (p + size) (set_chunk p h)).

Definition moved_bytes (p' : Z) : mem := mputs (bytes w) p' (mgets (bytes w) (base s) (length (cur s))).

Lemma moved_owns p size p' w' cs' :
  p' = first (align s - 1) p ->
  0 < p -> p + size <= 9223372036854775808 -> blocks w !! p = None ->
  heap_ok (<[p := size]> (blocks w)) ->
  p' + Z.of_nat (length (cur s)) <= p + size ->
  ob w' = moved_ob p size p' (ob w) -> bytes w' = moved_bytes p' ->
  chained (blocks w') (limits w') (prevs w') p ((p, size) :: cs') ->
  sublist cs' ((b, n) :: cs) ->
  (forall b', b' ∉ ((p, size) :: cs').*1 -> blocks w' !! b' = blocks w0 !! b') ->
  placed (align s - 1) p' ((p, size) :: cs') (objs s) ->
  (vacancies (objs s) cs' <= freed s)%nat ->
  owns w' (Stack (align s) (objs s) p' (cur s) (p + size - p' - Z.of_nat (length (cur s))) (freed s)) p size cs'.
Proof.
  intros Ep' H0 Hp Hn HB Hfit Eo Ey Hc Hsub Hr Hpl Hvac.
  assert (Hblk : forall b' n', (b', n') ∈ (b, n) :: cs -> blocks w !! b' = Some n' /\ b' <> p).
  { intros b' n' Hin. destruct (owns_block HO b' n' Hin) as [E _]. split; [done|congruence]. }
  assert (Hcs : forall c, c ∈ cs' -> c ∈ (b, n) :: cs) by (intros c Hc1; by eapply elem_of_sublist).
  pose proof (align_pos HO) as Ha.
  pose proof (placed_top _ _ _ _ _ _ Hpl) as [Htop _].
  assert (Hin : forall a bs, (a, bs) ∈ objs s -> exists b' n', b' <> p /\ blocks w !! b' = Some n' /\ b' + CONTENTS <= a /\ a + Z.of_nat (length bs) <= b' + n').
  { intros a bs Hin. destruct (placed_in _ _ _ _ _ _ (o_placed HO) Hin) as (b' & n' & Hb' & ? & ? & _).
    destruct (Hblk _ _ Hb'). by exists b', n'. }
  constructor; rewrite ?Eo, ?Ey; cbn [moved_ob settle set_maybe_empty_object set_next_free set_object_base set_chunk_limit set_chunk
    object_base next_free chunk_limit alignment_mask chunk maybe_empty_object chunkfun freefun base cur room align objs]; try done; try lia.
  - apply HO.
  - cbn [fmap list_fmap fst]. constructor.
    + intros (c & Ec & Hc1)%list_elem_of_fmap. destruct c as [b' n']. cbn in Ec. subst b'. by destruct (Hblk _ _ (Hcs _ Hc1)).
    + eapply sublist_NoDup; [apply (o_nodup HO)|by apply fmap_sublist].
  - intros b' [->|(c & -> & Hc1)%list_elem_of_fmap]%elem_of_cons.
    + cbn. destruct (blocks w0 !! p) as [k|] eqn:E; [|done]. apply (fr_blocks HF) in E. congruence.
    + apply (o_own HO). apply list_elem_of_fmap. exists c. auto.
  - left. rewrite Ep'. replace (align s - 1 + 1) with (align s) by lia. eapply owns_first; [exact HO|]. unfold CONTENTS in *. lia.
  - intros _ a Hina Hi. destruct (Hin _ _ Hina) as (b' & n' & Hne & Hb' & Hlo & Hhi). cbn in Hhi.
    apply Hne. apply (inside_unique (<[p := size]> (blocks w)) a b' n' p size); [done|by rewrite lookup_insert_ne|by rewrite lookup_insert_eq| |done].
    unfold inside, CONTENTS in *. cbn. lia.
  - cbn. lia.
  - pose proof (o_shown HO) as [Hs1 Hs2]%Forall_cons_1. constructor.
    + intros i v Hi. specialize (Hs1 i v Hi). cbn [fst snd] in *. rewrite <- Hs1. unfold moved_bytes.
      apply lookup_lt_Some in Hi. rewrite (mget_mputs_in _ _ _ _ (mget (bytes w) (base s + Z.of_nat i))); [done|cbn; lia|].
      cbn [base]. replace (Z.to_nat _) with i by lia. by rewrite mgets_lookup.
    + rewrite Forall_forall in Hs2. apply Forall_forall. intros [a bs] Hina. apply (shown_ext (bytes w)); [|by apply Hs2].
      intros x Hx. cbn in Hx. apply mget_mputs_out. rewrite length_mgets. destruct (Hin _ _ Hina) as (b' & n' & Hne & Hb' & Hlo & Hhi).
      destruct (proj2 HB b' n' p size) as [?|?]; [by rewrite lookup_insert_ne|by rewrite lookup_insert_eq|done|..]; unfold CONTENTS in *; lia.
  - apply HO.
Qed.

Lemma st_prev_done w1 p v k : blocks w1 !! p = Some k -> 16 <= k ->
  st_prev p v w1 = Done (tt, World (ob w1) (blocks w1) (limits w1) (<[p := v]> (prevs w1)) (bytes w1) (calls w1)).
Proof. intros Hp Hk. unfold st_prev. rewrite Hp. by rewrite (proj2 (Z.leb_le _ _) Hk). Qed.

Lemma st_limit_done w1 p v k : blocks w1 !! p = Some k -> 8 <= k ->
  st_limit p v w1 = Done (tt, World (ob w1) (blocks w1) (<[p := v]> (limits w1)) (prevs w1) (bytes w1) (calls w1)).
Proof. intros Hp Hk. unfold st_limit. rewrite Hp. by rewrite (proj2 (Z.leb_le _ _) Hk). Qed.

(** The first turn of [_obstack_newchunk]'s work: the object is copied. *)
Definition copied (p size p' : Z) (cl : list event) : world :=
  World (set_chunk_limit (p + size) (set_chunk p (ob w))) (<[p := size]> (blocks w)) (<[p := p + size]> (limits w))
    (<[p := b]> (prevs w)) (moved_bytes p') cl.

Section chunk.
Context (p size p' : Z) (cl : list event).
Context (Ep' : p' = first (align s - 1) p) (H0 : 0 < p) (Hp : p + size <= 9223372036854775808) (Hn : blocks w !! p = None).
Context (HFp : frame (World (ob w) (<[p := size]> (blocks w)) (limits w) (prevs w) (bytes w) cl)).
Context (Hfit : p' + Z.of_nat (length (cur s)) <= p + size) (Hsz : 16 <= size).

Lemma new_start : p + CONTENTS <= p'.
Proof. rewrite Ep'. eapply owns_first; [exact HO|]. unfold CONTENTS. lia. Qed.

Lemma copied_frame : frame (copied p size p' cl).
Proof.
  pose proof new_start as Hs. unfold CONTENTS in Hs.
  set (w1 := World (ob w) (<[p := size]> (blocks w)) (<[p := p + size]> (limits w)) (<[p := b]> (prevs w)) (bytes w) cl).
  change (copied p size p' cl) with (upd (fun h => set_chunk_limit (p + size) (set_chunk p h))
    (written w1 p' (mgets (bytes w) (base s) (length (cur s))))). apply (frame_upd funs w0).
  apply (frame_written funs w0 _ p size); [by destruct HFp; constructor|cbn; by rewrite lookup_insert_eq| |lia|rewrite length_mgets; lia].
  destruct (blocks w0 !! p) as [k|] eqn:E; [|done]. apply (fr_blocks HF) in E. congruence.
Qed.

(** The former chunk is kept, when it may hold an empty object or when the
    growing object was not alone in it. *)
Lemma keep_owns :
  maybe_empty_object (ob w) = true \/ base s <> first (align s - 1) b ->
  owns (upd (settle p') (copied p size p' cl))
    (Stack (align s) (objs s) p' (cur s) (p + size - p' - Z.of_nat (length (cur s))) (freed s)) p size ((b, n) :: cs).
Proof.
  intros Hk. pose proof new_start as Hs. apply moved_owns; [done..|apply HFp|done|done|done| | | | |].
  - cbn. split_and!; [done..|by rewrite lookup_insert_eq|by rewrite lookup_insert_eq|]. exists b. split; [by rewrite lookup_insert_eq|].
    eapply (chained_ext (blocks w) (limits w) (prevs w) _ _ _ b ((b, n) :: cs)).
    + intros b' (c & -> & Hc)%list_elem_of_fmap. destruct c as [b' n']. destruct (owns_block HO b' n' Hc).
      assert (p <> b') by congruence. cbn. by rewrite !lookup_insert_ne.
    + pose proof (o_chain HO) as Hc. by rewrite (owns_chunk HO) in Hc.
  - done.
  - intros b' [Hb1 Hb2]%not_elem_of_cons. cbn [fst] in Hb1. cbn [blocks upd copied]. rewrite lookup_insert_ne by congruence.
    by apply (o_rest HO).
  - econstructor; [lia|done| |apply HO]. lia.
  - pose proof (o_vacant HO) as Hv. rewrite vacancies_cons.
    destruct (decide (vacant (objs s) (b, n))) as [Hh|Hh]; [|lia].
    destruct Hk as [Em|Hne]; [|by destruct (Hne (placed_vacant _ _ _ _ _ _ (o_placed HO) Hh))].
    rewrite Em, bool_decide_true in Hv by done. cbn [andb] in Hv. lia.
Qed.

(** The former chunk, whose only object has moved, is given back. *)

Lemma drop_owns q cl' :
  chained (blocks w) (limits w) (prevs w) q cs ->
  base s = first (align s - 1) b -> maybe_empty_object (ob w) = false ->
  owns (upd (settle p') (World (ob (copied p size p' cl)) (delete b (<[p := size]> (blocks w)))
      (delete b (<[p := p + size]> (limits w))) (delete b (<[p := q]> (<[p := b]> (prevs w)))) (moved_bytes p') cl'))
    (Stack (align s) (objs s) p' (cur s) (p + size - p' - Z.of_nat (length (cur s))) (freed s)) p size cs.
Proof.
  intros Hq Eb Em. pose proof new_start as Hs.
  pose proof (o_nodup HO) as [Hbn _]%NoDup_cons.
  destruct (owns_head HF HO) as (Hb & _).
  assert (Hbp : b <> p) by congruence.
  apply moved_owns; [done..|apply HFp|done|done|done| | | | |].
  - cbn. split_and!; [done..| | |exists q; split]; rewrite ?lookup_delete_ne, ?lookup_insert_eq by done; [done..|].
    eapply (chained_ext (blocks w) (limits w) (prevs w)); [|exact Hq].
    intros b' (c & -> & Hc)%list_elem_of_fmap. destruct c as [b' n']. destruct (owns_block HO b' n'); [by right|].
    assert (p <> b') by congruence. assert (b <> b') by (intros ->; apply Hbn, list_elem_of_fmap; by exists (b', n')).
    cbn. by rewrite !lookup_delete_ne, !lookup_insert_ne.
  - by apply sublist_cons.
  - intros b' [Hb1 Hb2]%not_elem_of_cons. cbn [fst] in Hb1. cbn [blocks upd]. destruct (decide (b' = b)) as [->|Hne].
    + rewrite lookup_delete_eq. symmetry. apply (o_own HO). by left.
    + rewrite lookup_delete_ne, lookup_insert_ne by done. apply (o_rest HO). by apply not_elem_of_cons.
  - destruct (placed_fresh _ _ _ _ _ _ (o_placed HO) Eb) as [[-> ->]|(top & Ht)].
    + by apply (o_empty HO).
    + constructor; [rewrite <- Ep'| |]; done || lia.
    + econstructor; [rewrite <- Ep'| | |exact Ht]; done || lia.
  - pose proof (o_vacant HO). lia.
Qed.
End chunk.

(** All that follows the allocation. *)
Definition move_object (p size : Z) : St world (option unit) :=
  oset (set_chunk p) ;;;
  st_prev p b ;;;
  st_limit p (p + size) ;;;
  oset (set_chunk_limit (p + size)) ;;;
  let p' := first (align s - 1) p in
  memcpy p' (base s) (Z.of_nat (length (cur s))) ;;;
  (if negb (maybe_empty_object (ob w)) && (base s =? first (align s - 1) b) then
     q <- ld_prev b ;;
     st_prev p q ;;;
     call_freefun b
   else ret tt) ;;;
  oset (set_object_base p') ;;;
  oset (set_next_free (p' + Z.of_nat (length (cur s)))) ;;;
  oset (set_maybe_empty_object false) ;;;
  ret (Some tt).

Lemma settle_wp (Q : option unit -> world -> Prop) p' w1 :
  Q (Some tt) (upd (settle p') w1) ->
  wp (oset (set_object_base p') ;;; oset (set_next_free (p' + Z.of_nat (length (cur s)))) ;;;
      oset (set_maybe_empty_object false) ;;; ret (Some tt)) Q w1.
Proof. done. Qed.

Lemma move_object_wp p size cl :
  0 < p -> p + size <= 9223372036854775808 -> blocks w !! p = None ->
  frame (World (ob w) (<[p := size]> (blocks w)) (limits w) (prevs w) (bytes w) cl) ->
  Z.of_nat (length (cur s)) + (align s - 1) + 100 <= size ->
  wp (move_object p size) (unless frame (fun _ w' => exists cs', frame w' /\
    owns w' (Stack (align s) (objs s) (first (align s - 1) p) (cur s)
      (p + size - first (align s - 1) p - Z.of_nat (length (cur s))) (freed s)) p size cs'))
    (World (ob w) (<[p := size]> (blocks w)) (limits w) (prevs w) (bytes w) cl).
Proof.
  intros H0 Hp Hn HFp Hsz. pose proof (align_pos HO). pose proof (owns_base HO) as (Hc & Hr & Hr0).
  destruct (owns_head HF HO) as (Hb & Hb0 & Hn0 & Hbn). unfold CONTENTS in Hc.
  destruct (owns_first HO p ltac:(lia)) as [[Hp1 Hp2] _]. unfold CONTENTS in Hp1, Hp2.
  set (p' := first (align s - 1) p) in *. assert (Hfit : p' + Z.of_nat (length (cur s)) <= p + size) by lia. assert (Hsz16 : 16 <= size) by lia.
  pose proof (copied_frame p size p' cl eq_refl H0 Hp Hn HFp Hfit ltac:(lia)) as HFc.
  unfold move_object. fold p'. apply wp_bind, wp_modify, wp_bind.
  eapply wp_eq; [eapply st_prev_done; [cbn; by rewrite lookup_insert_eq|lia]|]. cbn [ob blocks limits prevs bytes calls]. apply wp_bind.
  eapply wp_eq; [eapply st_limit_done; [cbn; by rewrite lookup_insert_eq|lia]|]. cbn [ob blocks limits prevs bytes calls].
  apply wp_bind, wp_modify. cbn [ob blocks limits prevs bytes calls]. apply wp_bind.
  eapply wp_eq with (a := tt) (w' := copied p size p' cl).
  { unfold memcpy. cbn [blocks]. rewrite (span_ok _ b n) by (unfold CONTENTS; rewrite ?lookup_insert_ne by congruence; done || lia).
    destruct (proj2 (fr_heap HFp) b n p size) as [Hd|Hd]; cbn; [by rewrite lookup_insert_ne by congruence|by rewrite lookup_insert_eq|congruence| |].
    all: replace ((Z.of_nat (length (cur s)) =? 0) || (p' + Z.of_nat (length (cur s)) <=? base s) || (base s + Z.of_nat (length (cur s)) <=? p')) with true by lia.
    all: cbn [andb]; rewrite Nat2Z.id; etrans; [apply (store_done _ p size); rewrite ?length_mgets; unfold CONTENTS; cbn; [by rewrite lookup_insert_eq|lia..]|done]. }
  apply wp_bind. destruct (maybe_empty_object (ob w)) eqn:Em, (Z.eqb_spec (base s) (first (align s - 1) b)) as [Eb|Eb]; cbn [negb andb].
  1,2,4: apply wp_ret, settle_wp; exists ((b, n) :: cs); (split; [by apply (frame_upd funs w0)|]);
    apply keep_owns; auto.
  destruct (o_chain HO) as (_ & _ & _ & _ & q & Hq & Hcq).
  apply wp_bind. eapply wp_eq with (a := q) (w' := copied p size p' cl); [unfold ld_prev; cbn; by rewrite lookup_insert_ne, Hq by congruence|].
  apply wp_bind. eapply wp_eq; [eapply st_prev_done; [cbn; by rewrite lookup_insert_eq|lia]|].
  set (w2 := World _ _ _ _ _ _).
  assert (HF2 : frame w2) by (by destruct HFc; constructor).
  destruct (call_freefun_done w2 b n HF2) as (cl2 & E2 & HF3); [cbn; by rewrite lookup_insert_ne by congruence| |apply HO|].
  { by apply (owns_new HO). }
  eapply wp_eq; [exact E2|]. apply settle_wp. exists cs. split; [exact (frame_upd funs w0 _ _ HF3)|]. by apply drop_owns.
Qed.

(** An object may move to a chunk with room for [len] bytes more. *)
Definition roomy_after (len : Z) (w' : world) : Prop := exists s' b' n' cs',
  frame w' /\ owns w' s' b' n' cs' /\ roomy len s s'.

Lemma newchunk_wp len :
  0 <= len < 18446744073709551616 -> room s < len ->
  wp (_obstack_newchunk len) (unless frame (fun _ => roomy_after len)) w.
Proof.
  intros Hl Hroom. pose proof (align_pos HO) as Ha. pose proof (owns_base HO) as (Hc & Hr & Hr0).
  destruct (owns_head HF HO) as (Hb & Hb0 & Hn0 & Hbn). unfold CONTENTS in Hc.
  unfold _obstack_newchunk. apply wp_bind, wp_gets. cbv zeta.
  rewrite (o_base HO), (o_next HO), (owns_mask HO), (owns_chunk HO).
  replace (base s + Z.of_nat (length (cur s)) - base s) with (Z.of_nat (length (cur s))) by lia.
  rewrite (u64_small (Z.of_nat (length (cur s)))) by lia. set (L := Z.of_nat (length (cur s))) in *.
  set (size := new_size _ _ _). apply wp_bind.
  destruct ((L <=? u64 (L + len)) && (u64 (L + len) <=? u64 (u64 (L + len) + (align s - 1)))) eqn:Eg; [|by apply wp_ret].
  apply andb_true_iff in Eg as [Eg1%Z.leb_le Eg2%Z.leb_le].
  destruct (new_size_enough (ob w) L len (align s - 1) ltac:(unfold L; lia) Hl ltac:(lia) Eg1 Eg2) as [Hs0 Hs1]. fold size in Hs0, Hs1.
  eapply wp_mono; [apply call_chunkfun_wp; [done|done|apply HO]|]. intros p w' [HF' Hp].
  destruct (Z.eqb_spec p 0) as [->|Hp0]; [by apply wp_ret|]. destruct (Hp Hp0) as (Hp1 & Hp2 & Hp3 & cl & ->). clear Hp.
  eapply wp_mono; [apply (move_object_wp p size cl); [done..|fold L; lia]|].
  intros [[]|] w'; [|done]. intros (cs' & HFn & HOn). destruct (owns_first HO p ltac:(lia)) as [[_ Hp4] _]. unfold CONTENTS in Hp4.
  eexists _, p, size, cs'. split; [exact HFn|]. split; [exact HOn|]. eexists _, _. split; [done|]. fold L. split; [lia|]. lia.
Qed.
End newchunk.

Section calls.
Context {place : Chunks} {laws : ChunksLaws} (funs : list (Z * option Z)) (w0 : world).
Abbreviation frame := (frame funs w0).
Abbreviation owns := (owns funs w0).

(** *** Growing *)

(** The stack is in a state [P]. *)
Definition stands (P : stack -> Prop) (w : world) : Prop := exists s b n cs, frame w /\ owns w s b n cs /\ P s.

Lemma stands_mono (P Q : stack -> Prop) w : (forall s, P s -> Q s) -> stands P w -> stands Q w.
Proof. intros HPQ (s & b & n & cs & ? & ? & ?). exists s, b, n, cs. auto. Qed.

Lemma room_done w s b n cs : frame w -> owns w s b n cs -> obstack_room w = Done (room s, w).
Proof.
  intros HF HO. destruct (owns_head HF HO) as (_ & Hb0 & _ & Hbn). pose proof (owns_base HO).
  unfold obstack_room, oget, gets, bind. rewrite (o_limit HO), (o_next HO), u64_small by (unfold CONTENTS in *; lia).
  unfold ret. f_equal. f_equal. lia.
Qed.

Lemma room_made_wp w s b n cs len :
  frame w -> owns w s b n cs -> 0 <= len < 18446744073709551616 ->
  wp (obstack_make_room len) (unless frame (fun _ => stands (roomy len s))) w.
Proof.
  intros HF HO Hl. unfold obstack_make_room. apply wp_bind. eapply wp_eq; [by eapply room_done|].
  destruct (Z.ltb_spec (room s) len) as [Hr|Hr].
  - eapply wp_mono; [by apply (newchunk_wp funs w0 w s b n cs)|]. intros [[]|] w'; done.
  - apply wp_ret. exists s, b, n, cs. split; [done|]. split; [done|]. exists (base s), (room s). by destruct s.
Qed.

Lemma after_room_wp w s b n cs len k bs :
  frame w -> owns w s b n cs -> len < 18446744073709551616 -> Z.of_nat (length bs) = len ->
  (forall w s b n cs, frame w -> owns w s b n cs -> len <= room s -> wp k (fun _ w' => frame w' /\ owns w' (extend bs s) b n cs) w) ->
  wp (after_room len k) (unless frame (fun _ => stands (grown bs s))) w.
Proof.
  intros HF HO Hl Hbs Hk. apply wp_bind. eapply wp_mono; [eapply (room_made_wp w s b n cs len); [done..|lia]|].
  intros [[]|] w'; [|intros Hf; by apply wp_ret]. intros (s1 & b1 & n1 & cs1 & HF1 & HO1 & Hr).
  apply wp_bind. eapply wp_mono; [apply (Hk w' s1 b1 n1 cs1); [done..|]|].
  { by destruct Hr as (? & ? & -> & ? & _). }
  intros [] w2 [HF2 HO2]. apply wp_ret. exists (extend bs s1), b1, n1, cs1. split_and!; [done..|]. exists s1. by rewrite Hbs.
Qed.

(** What grows the object, with the bytes it grows by. *)
Inductive grows : St world (option unit) -> list (option Z) -> Prop :=
| grows_grow bs : grows (obstack_grow bs) (Some <$> bs)
| grows_grow0 bs : grows (obstack_grow0 bs) (Some <$> (bs ++ [0]))
| grows_1grow c : grows (obstack_1grow c) [Some (u8 c)]
| grows_ptr p : grows (obstack_ptr_grow p) (Some <$> le_enc 8 p)
| grows_int i : grows (obstack_int_grow i) (Some <$> le_enc 4 i)
| grows_blank n : 0 <= n -> grows (obstack_blank n) (replicate (Z.to_nat n) None).

Lemma extend_app bs1 bs2 s : extend bs2 (extend bs1 s) = extend (bs1 ++ bs2) s.
Proof. unfold extend. cbn. rewrite app_assoc, length_app. f_equal. lia. Qed.

Lemma grow_wp m bs w s b n cs :
  grows m bs -> frame w -> owns w s b n cs -> Z.of_nat (length bs) < 18446744073709551616 ->
  wp m (unless frame (fun _ => stands (grown bs s))) w.
Proof.
  intros Hg HF HO. destruct Hg as [bs|bs|c|p|i|k Hk]; rewrite ?length_fmap, ?length_app, ?length_replicate, ?length_le_enc; intros Hl.
  - eapply after_room_wp; rewrite ?length_fmap; try done. intros. by apply append_bytes_wp.
  - cbn [length] in Hl. unfold obstack_grow0. rewrite u64_small by lia.
    eapply after_room_wp; rewrite ?length_fmap, ?length_app; cbn [length]; [done..|lia|lia|]. intros w1 s1 b1 n1 cs1 HF1 HO1 Hr.
    apply wp_bind. eapply wp_mono; [eapply (append_bytes_wp funs w0); [done|done|lia]|]. intros [] w2 [HF2 HO2].
    eapply wp_mono; [eapply (append_bytes_wp funs w0); [done|done|cbn; rewrite length_fmap; lia]|]. intros [] w3. by rewrite extend_app, <- fmap_app.
  - eapply after_room_wp; try done. intros. by apply (append_bytes_wp funs w0 _ _ _ _ _ ltac:(eassumption) ltac:(eassumption) [u8 c]).
  - eapply after_room_wp; rewrite ?length_fmap, ?length_le_enc; try done. intros. apply append_bytes_wp; rewrite ?length_le_enc; done.
  - eapply after_room_wp; rewrite ?length_fmap, ?length_le_enc; try done. intros. apply append_bytes_wp; rewrite ?length_le_enc; done.
  - rewrite Z2Nat.id in Hl by done. eapply after_room_wp; rewrite ?length_replicate; try done; [lia|]. intros. apply blank_fast_wp; [done..|lia].
Qed.

Lemma finished_wp m bs w s b n cs :
  grows m bs -> frame w -> owns w s b n cs -> Z.of_nat (length bs) < 18446744073709551616 ->
  wp (finished m) (unless frame (fun p => stands (fun s' => exists s1, grown bs s s1 /\ finishes s1 p s'))) w.
Proof.
  intros Hg HF HO Hl. unfold finished. apply wp_bind. eapply wp_mono; [by eapply grow_wp|].
  intros [[]|] w'; [|intros Hf; by apply wp_ret]. intros (s1 & b1 & n1 & cs1 & HF1 & HO1 & Hr).
  apply wp_bind. eapply wp_mono; [by apply (finish_wp funs w0 w' s1 b1 n1 cs1)|].
  intros p w2 (s' & HF2 & HO2 & Hfin). apply wp_ret. exists s', b1, n1, cs1. split_and!; [done..|]. by exists s1.
Qed.

(** *** The start *)

Section begin.
Context (A sz : Z) (Ha : 0 < A <= 4611686018427387904) (Hpow : A = 2 ^ Z.log2 A) (Hsz : 16 + (A - 1) <= sz).

Definition begun_ob (p : Z) (h : obstack) : obstack :=
  Ob sz p (PTR_ALIGN (p + CONTENTS) (A - 1)) (PTR_ALIGN (p + CONTENTS) (A - 1)) (p + sz) (A - 1)
    (chunkfun h) (freefun h) (extra_arg h) (use_extra_arg h) false false.

Lemma begun_owns w p cl :
  let w' := World (begun_ob p (ob w)) (<[p := sz]> (blocks w)) (<[p := p + sz]> (limits w)) (<[p := 0]> (prevs w)) (bytes w) cl in
  blocks w = blocks w0 -> (chunkfun (ob w), arg_of (ob w)) ∈ funs -> (freefun (ob w), arg_of (ob w)) ∈ funs ->
  0 < p -> p + sz <= 9223372036854775808 -> blocks w !! p = None ->
  exists n, 0 <= n /\ owns w' (Stack A [] (PTR_ALIGN (p + CONTENTS) (A - 1)) [] n 0) p sz [].
Proof.
  intros w' Hw Hcf Hff H0 Hp Hn.
  assert (Hk : 0 <= Z.log2 A <= 62).
  { split; [apply Z.log2_nonneg|]. change 62 with (Z.log2 4611686018427387904). apply Z.log2_le_mono. lia. }
  destruct (PTR_ALIGN_spec (p + CONTENTS) (Z.log2 A)) as [Hal Hdv]; [done|unfold CONTENTS; lia|]. rewrite <- Hpow in Hal, Hdv. unfold CONTENTS in Hal.
  exists (p + sz - PTR_ALIGN (p + CONTENTS) (A - 1)). split; [unfold CONTENTS; lia|].
  constructor; cbn; try done; try (unfold CONTENTS; lia).
  - exists (Z.log2 A). split; [done|]. by rewrite <- Hpow.
  - split_and!; [done..|by rewrite lookup_insert_eq|by rewrite lookup_insert_eq|]. exists 0. split; [by rewrite lookup_insert_eq|done].
  - constructor; [by apply not_elem_of_nil|constructor].
  - intros b' Hb'. rewrite lookup_insert_ne by (intros ->; apply Hb'; by left). by rewrite Hw.
  - intros b' ->%list_elem_of_singleton. by rewrite <- Hw.
  - constructor; unfold first, CONTENTS in *; lia.
  - left. cbn. by replace (A - 1 + 1) with A by lia.
  - by intros _ a ?%elem_of_nil.
  - constructor; [apply (shown_unknown _ _ 0)|constructor].
Qed.
End begin.

Lemma begin_worker_wp w size alignment :
  let A := alignment_of alignment in
  frame w -> blocks w = blocks w0 ->
  0 < A <= 4611686018427387904 -> A = 2 ^ Z.log2 A -> 16 + (A - 1) <= chunk_size_of size ->
  (chunkfun (ob w), arg_of (ob w)) ∈ funs -> (freefun (ob w), arg_of (ob w)) ∈ funs ->
  wp (_obstack_begin_worker size alignment) (unless frame (fun r w' => exists t, begins size alignment r t /\ Rel funs w0 w' t)) w.
Proof.
  intros A HF Hw Ha Hpow Hsz Hcf Hff. unfold _obstack_begin_worker.
  change (if alignment =? 0 then DEFAULT_ALIGNMENT else alignment) with A.
  set (sz := if size =? 0 then _ else size).
  assert (Esz : sz = chunk_size_of size) by (unfold sz, chunk_size_of; by destruct (size =? 0)). rewrite Esz. clear Esz sz.
  unfold begins. fold A. generalize dependent A. generalize (chunk_size_of size). clear size alignment.
  intros sz A Ha Hpow Hsz. cbv zeta. rewrite u64_small by lia.
  apply wp_bind, wp_modify, wp_bind, wp_modify, wp_bind, wp_gets. cbn [chunk_size set_chunk_size set_alignment_mask ob]. apply wp_bind.
  eapply wp_mono; [apply (call_chunkfun_wp funs w0); [by destruct HF; constructor|lia|done]|]. intros p w2 [HF2 Hp].
  destruct (Z.eqb_spec p 0) as [->|Hp0]; [by apply wp_ret|]. destruct (Hp Hp0) as (Hp1 & Hp2 & Hp3 & cl & ->). clear Hp.
  cbn [ob blocks limits prevs bytes calls] in *.
  apply wp_bind, wp_modify, wp_bind, wp_modify, wp_bind, wp_gets, wp_bind, wp_modify, wp_bind.
  cbn [ob blocks limits prevs bytes calls].
  eapply wp_eq; [eapply st_limit_done; [cbn; by rewrite lookup_insert_eq|lia]|]. apply wp_bind, wp_modify, wp_bind.
  cbn [ob blocks limits prevs bytes calls].
  eapply wp_eq; [eapply st_prev_done; [cbn; by rewrite lookup_insert_eq|lia]|].
  cbn [ob blocks limits prevs bytes calls].
  apply wp_bind, wp_modify, wp_bind, wp_modify, wp_ret. cbn [unless ob blocks limits prevs bytes calls].
  destruct (begun_owns A sz Ha Hpow Hsz w p cl Hw Hcf Hff Hp1 Hp2 Hp3) as (n & Hn & HO).
  eexists. split; [eexists _, n; split; [done|]; split; [done|done]|].
  split; [by destruct HF2; constructor|]. exists p, sz, []. exact HO.
Qed.
End calls.

Section free.
Context {place : Chunks} {laws : ChunksLaws} (funs : list (Z * option Z)) (w0 : world).
Abbreviation frame := (frame funs w0).
Abbreviation owns := (owns funs w0).

(** *** The loops over the chunks *)

Lemma ld_prev_done w p q : prevs w !! p = Some q -> ld_prev p w = Done (q, w).
Proof. unfold ld_prev. by intros ->. Qed.

Lemma elsewhere_done w b n p :
  0 < b -> limits w !! b = Some (b + n) ->
  elsewhere b p w = Done (if decide (inside p (b, n)) then false else true, w).
Proof.
  intros Hb Hl. unfold elsewhere, inside. cbn [fst snd]. rewrite (proj2 (Z.eqb_neq b 0)) by lia.
  destruct (Z.leb_spec p b); [by rewrite decide_False by lia|].
  unfold ld_limit, bind. rewrite Hl. unfold ret. f_equal. f_equal. destruct (Z.ltb_spec (b + n) p), (decide (b < p <= b + n)); lia || done.
Qed.

Lemma free_loop_wp p cs1 rest : forall q w fuel,
  frame w -> (forall b, b ∈ (cs1 ++ rest).*1 -> blocks w0 !! b = None) ->
  chained (blocks w) (limits w) (prevs w) q (cs1 ++ rest) -> NoDup (cs1 ++ rest).*1 ->
  (forall c, c ∈ cs1 -> ~ inside p c) -> (forall c, head rest = Some c -> inside p c) ->
  (freefun (ob w), arg_of (ob w)) ∈ funs -> (length cs1 < fuel)%nat ->
  wp (cloop fuel (free_turn p) q) (fun r w' => frame w' /\ chained (blocks w') (limits w') (prevs w') r rest /\
    (forall b, blocks w' !! b = if decide (b ∈ cs1.*1) then None else blocks w !! b) /\ bytes w' = bytes w /\
    ob w' = match cs1 with [] => ob w | _ => set_maybe_empty_object true (ob w) end) w.
Proof.
  induction cs1 as [|[b n] cs1 IH]; intros q w [|fuel] HF Hnew Hc Hnd Hout Hin Hf Hfuel; cbn [length] in Hfuel; try lia;
    cbn [cloop]; apply wp_bind; unfold free_turn at 1; apply wp_bind.
  - assert (E : elsewhere q p w = Done (false, w)).
    { destruct rest as [|[b n] rest]; cbn in Hc; [by rewrite Hc|]. destruct Hc as (-> & Hb & _ & Hl & _).
      rewrite (elsewhere_done w b n p) by done. by rewrite decide_True by (by apply Hin). }
    eapply wp_eq; [exact E|]. apply wp_ret, wp_ret. split_and!; try done.
  - destruct Hc as (-> & Hb & HB & HL & q' & HP & Hc). cbn [app fmap list_fmap fst] in *.
    apply NoDup_cons in Hnd as [Hb1 Hnd].
    eapply wp_eq; [by apply (elsewhere_done w b n p)|]. rewrite decide_False by (apply Hout; by left).
    apply wp_bind. eapply wp_eq; [by apply ld_prev_done|]. apply wp_bind.
    destruct (call_freefun_done funs w0 w b n HF HB) as (cl & E & HF'); [apply Hnew; by left|done|].
    eapply wp_eq; [exact E|]. apply wp_bind, wp_modify, wp_ret.
    set (w' := World _ _ _ _ _ _). assert (HFw : frame w') by exact (frame_upd funs w0 (set_maybe_empty_object true) _ HF').
    eapply wp_mono; [apply (IH q' w' fuel)|].
    + done.
    + intros b' Hb'. apply Hnew. by right.
    + eapply chained_ext; [|exact Hc]. intros b' Hb'. cbn. by rewrite !lookup_delete_ne by (intros ->; done).
    + done.
    + intros c Hc'. apply Hout. by right.
    + done.
    + done.
    + lia.
    + intros r w2 (HF2 & Hc2 & Hb2 & Hy2 & Ho2). split_and!; [done..| |done|].
      * intros b'. rewrite Hb2. cbn [blocks w']. destruct (decide (b' ∈ cs1.*1)); [by rewrite decide_True by (by right)|].
        destruct (decide (b' = b)) as [->|]; [rewrite decide_True by (by left); by rewrite lookup_delete_eq|].
        rewrite decide_False by (rewrite elem_of_cons; tauto). by rewrite lookup_delete_ne.
      * rewrite Ho2. by destruct cs1.
Qed.

Lemma allocated_loop_wp p cs w : forall q fuel,
  chained (blocks w) (limits w) (prevs w) q cs -> (length cs < fuel)%nat ->
  wp (cloop fuel (allocated_turn p) q) (fun r w' => w' = w /\ ((exists c, c ∈ cs /\ inside p c) -> r <> 0)) w.
Proof.
  induction cs as [|[b n] cs IH]; intros q [|fuel] Hc Hfuel; cbn [length] in Hfuel; try lia;
    cbn [cloop]; apply wp_bind; unfold allocated_turn at 1; apply wp_bind.
  - cbn in Hc. subst q. eapply wp_eq; [done|]. apply wp_ret, wp_ret. split; [done|]. by intros (c & ?%elem_of_nil & _).
  - destruct Hc as (-> & Hb & HB & HL & q' & HP & Hc). eapply wp_eq; [by apply (elsewhere_done w b n p)|].
    destruct (decide (inside p (b, n))) as [Hi|Hi]; [apply wp_ret, wp_ret; split; [done|lia]|].
    apply wp_bind. eapply wp_eq; [by apply ld_prev_done|]. apply wp_ret. eapply wp_mono; [by apply IH; [|lia]|].
    intros r w' [-> Hr]. split; [done|]. intros (c & [->|Hin]%elem_of_cons & Hic); [done|]. apply Hr. by exists c.
Qed.

Lemma used_loop_wp cs w : forall q acc fuel,
  chained (blocks w) (limits w) (prevs w) q cs -> (forall c, c ∈ cs -> 0 <= c.2) ->
  0 <= acc -> acc + sum cs < 18446744073709551616 -> (length cs < fuel)%nat ->
  wp (cloop fuel used_turn (q, acc)) (fun r w' => w' = w /\ r = acc + sum cs) w.
Proof.
  induction cs as [|[b n] cs IH]; intros q acc [|fuel] Hc Hn Hacc Hs Hfuel; cbn [length] in Hfuel; try lia;
    cbn [cloop]; apply wp_bind; unfold used_turn at 1.
  - cbn in Hc. subst q. apply wp_ret, wp_ret. cbn. split; [done|lia].
  - destruct Hc as (-> & Hb & HB & HL & q' & HP & Hc). rewrite (proj2 (Z.eqb_neq b 0)) by lia.
    apply wp_bind. eapply wp_eq; [unfold ld_limit; by rewrite HL|]. apply wp_bind. eapply wp_eq; [by apply ld_prev_done|]. apply wp_ret.
    assert (Hn0 : 0 <= n) by (apply (Hn (b, n)); by left).
    assert (Hs0 : 0 <= sum cs) by (apply sum_nonneg; intros c Hin; apply Hn; by right).
    cbn [sum foldr snd] in Hs. fold (sum cs) in Hs. rewrite u64_small by lia.
    eapply wp_mono; [apply IH; [done|intros c Hin; apply Hn; by right|lia|lia|lia]|].
    intros r w' [-> ->]. split; [done|]. cbn. fold (sum cs). lia.
Qed.

Context (w : world) (s : stack) (b n : Z) (cs : list (Z * Z)) (HF : frame w) (HO : owns w s b n cs).

(** *** Freeing *)

Lemma freed_owns p cs1 b' n' cs2 w' l :
  (b, n) :: cs = cs1 ++ (b', n') :: cs2 -> (forall o, o ∈ l -> o ∈ objs s) ->
  placed (align s - 1) p ((b', n') :: cs2) l -> seat (align s - 1) p (b', n') ->
  chained (blocks w') (limits w') (prevs w') b' ((b', n') :: cs2) ->
  (forall x, blocks w' !! x = if decide (x ∈ cs1.*1) then None else blocks w !! x) -> bytes w' = bytes w ->
  ob w' = set_chunk b' (set_chunk_limit (b' + n') (set_object_base p (set_next_free p
    match cs1 with [] => ob w | _ => set_maybe_empty_object true (ob w) end))) ->
  (vacancies l cs2 <= freed s)%nat ->
  owns w' (Stack (align s) l p [] (b' + n' - p) (S (freed s))) b' n' cs2.
Proof.
  intros Ecs Hl Hp Hs Hc HB HY Eo Hvac. pose proof (placed_top _ _ _ _ _ _ Hp) as [Ht1 Ht2].
  pose proof (o_nodup HO) as Hnd. pose proof (o_own HO) as Hown. pose proof (o_rest HO) as Hrest.
  rewrite Ecs in Hnd, Hown, Hrest. rewrite fmap_app in Hnd, Hown, Hrest. apply NoDup_app in Hnd as (_ & _ & Hnd2).
  constructor; rewrite ?Eo; cbn [object_base next_free chunk_limit alignment_mask chunk maybe_empty_object chunkfun freefun
    set_chunk set_chunk_limit set_object_base set_next_free base cur room align objs length]; try done; try lia.
  - destruct (o_align HO) as (k & Hk & E1 & E2). exists k. split_and!; [lia..|done|]. by destruct cs1.
  - intros x Hx. rewrite HB. destruct (decide (x ∈ cs1.*1)) as [Hi|Hi]; [symmetry; apply Hown, elem_of_app; by left|].
    apply Hrest. rewrite elem_of_app. tauto.
  - intros x Hx. apply Hown, elem_of_app. by right.
  - destruct cs1 as [|c cs1]; [|done]. injection Ecs as <- <- <-. intros Em a Ha. apply (o_empty HO Em). by apply Hl.
  - destruct (_ && _); cbn [freed]; lia.
  - rewrite HY. constructor; [apply (shown_unknown _ _ 0)|].
    pose proof (o_shown HO) as [_ Hsh]%Forall_cons_1. rewrite Forall_forall in Hsh. apply Forall_forall. auto.
  - pose proof (o_funs HO). by destruct cs1.
Qed.

Lemma owns_own x k : (x, k) ∈ (b, n) :: cs -> blocks w !! x = Some k /\ 0 < x /\ 0 <= k /\ x + k <= 9223372036854775808.
Proof.
  intros Hin. destruct (owns_block HO _ _ Hin) as [E _]. split; [done|]. by apply (proj1 (fr_heap HF)).
Qed.

Lemma chain_length : (length ((b, n) :: cs) <= size (blocks w))%nat.
Proof.
  rewrite <- size_dom, <- (length_fmap fst), <- (size_list_to_set (C := gset Z)) by apply HO.
  apply subseteq_size. intros x. rewrite elem_of_list_to_set, elem_of_dom. intros (c & -> & Hc)%list_elem_of_fmap.
  destruct c as [x k]. exists k. by apply owns_own.
Qed.

Lemma chain_own x : x ∈ ((b, n) :: cs).*1 -> blocks w0 !! x = None.
Proof. apply HO. Qed.

Lemma free_wp p fuel :
  p ∈ (objs s).*1 -> (length ((b, n) :: cs) < fuel)%nat ->
  wp (obstack_free fuel p) (fun r w' => r = Some tt /\ stands funs w0 (fun s' => exists r,
    s' = Stack (align s) (below p (objs s)) p [] r (S (freed s)) /\ 0 <= r) w') w.
Proof.
  intros Hp Hfuel. destruct (placed_below _ _ _ _ _ (o_placed HO) Hp) as (cs1 & b' & n' & cs2 & Ecs & Hpl & Hseat & Habove).
  pose proof (placed_top _ _ _ _ _ _ Hpl) as [Ht1 Ht2].
  assert (Hin' : (b', n') ∈ (b, n) :: cs) by (rewrite Ecs; apply elem_of_app; right; by left).
  destruct (owns_own _ _ Hin') as (Hb' & Hb'0 & Hn'0 & Hbn').
  assert (Hi : inside p (b', n')) by (unfold inside, CONTENTS in *; cbn; lia).
  pose proof (o_nodup HO) as Hnd. pose proof (o_chain HO) as Hc. rewrite (owns_chunk HO) in Hc.
  assert (Hout : forall c, c ∈ cs1 -> ~ inside p c).
  { intros [x k] Hx Hxi. assert (Hx' : (x, k) ∈ (b, n) :: cs) by (rewrite Ecs; apply elem_of_app; by left).
    destruct (owns_own _ _ Hx') as (Hbx & _). pose proof (inside_unique _ _ _ _ _ _ (fr_heap HF) Hbx Hb' Hxi Hi) as ->.
    rewrite Ecs, fmap_app in Hnd. apply NoDup_app in Hnd as (_ & Hnd & _). apply (Hnd b'); [|by left].
    apply list_elem_of_fmap. by exists (b', k). }
  assert (Hvac : (vacancies (below p (objs s)) cs2 <= freed s)%nat).
  { etrans; [apply (vacancies_mono (objs s))|].
    - intros [x k] Hx Hv. apply Forall_forall. intros o Ho Hox. destruct (Habove o Ho) as [Hb|([y h] & Hc' & Hy)].
      { unfold vacant in Hv. rewrite Forall_forall in Hv. by apply (Hv o). }
      assert (Hx' : (x, k) ∈ (b, n) :: cs) by (rewrite Ecs; apply elem_of_app; right; by right).
      assert (Hy' : (y, h) ∈ (b, n) :: cs).
      { rewrite Ecs. replace (cs1 ++ (b', n') :: cs2) with ((cs1 ++ [(b', n')]) ++ cs2) by by rewrite <- app_assoc.
        apply elem_of_app. by left. }
      destruct (owns_own _ _ Hx') as (Hbx & _), (owns_own _ _ Hy') as (Hby & _).
      pose proof (inside_unique _ _ _ _ _ _ (fr_heap HF) Hbx Hby Hox Hy) as <-.
      rewrite Ecs in Hnd. replace (cs1 ++ (b', n') :: cs2) with ((cs1 ++ [(b', n')]) ++ cs2) in Hnd by by rewrite <- app_assoc.
      rewrite fmap_app in Hnd. apply NoDup_app in Hnd as (_ & Hnd & _). apply (Hnd x); apply list_elem_of_fmap.
      + by exists (x, h).
      + by exists (x, k).
    - pose proof (o_vacant HO) as Hv. assert (Hle : (vacancies (objs s) cs2 <= vacancies (objs s) cs)%nat); [|lia].
      destruct cs1 as [|c cs1]; [by injection Ecs as _ _ ->|injection Ecs as _ ->].
      rewrite vacancies_app, vacancies_cons. lia. }
  unfold obstack_free. apply wp_bind, wp_gets. rewrite (owns_chunk HO), (o_limit HO).
  eapply wp_mono with (P := fun r w' => r = Some tt /\ frame w' /\ owns w' (Stack (align s) (below p (objs s)) p [] (b' + n' - p) (S (freed s))) b' n' cs2).
  2: { intros r w' (-> & HF' & HO'). split; [done|]. eexists _, _, _, _. split; [done|]. split; [exact HO'|]. eexists. split; [done|lia]. }
  destruct ((b <? p) && (p <? b + n)) eqn:Eg.
  - apply andb_true_iff in Eg as [?%Z.ltb_lt ?%Z.ltb_lt]. apply wp_bind, wp_modify, wp_bind, wp_modify, wp_ret.
    assert (cs1 = []) as -> by (destruct cs1 as [|c cs1]; [done|injection Ecs as <- _; destruct (Hout (b, n)); [by left|unfold inside; cbn; lia]]).
    injection Ecs as <- <- <-. split; [done|]. split; [by destruct HF; constructor|].
    eapply (freed_owns p [] b n cs); try done; [intros o; apply below_in|].
    cbn. unfold set_chunk, set_chunk_limit, set_object_base, set_next_free. cbn.
    by rewrite (owns_chunk HO), (o_limit HO).
  - clear Eg. unfold _obstack_free. apply wp_bind, wp_gets. rewrite (owns_chunk HO). rewrite Ecs in Hc, Hnd, Hfuel.
    apply wp_bind. eapply wp_mono; [apply (free_loop_wp p cs1 ((b', n') :: cs2)); [done| |done|done|done| | |]|].
    + intros x Hx. apply chain_own. by rewrite Ecs.
    + by intros c [= <-].
    + apply HO.
    + rewrite length_app in Hfuel. cbn in Hfuel. lia.
    + intros r w1 (HF1 & Hc1 & HB1 & HY1 & Ho1). pose proof Hc1 as (-> & _ & _ & HL & _).
      rewrite (proj2 (Z.eqb_neq b' 0)) by lia. cbn [negb]. apply wp_bind, wp_modify, wp_bind, wp_modify, wp_bind.
      eapply wp_eq; [unfold ld_limit; cbn; by rewrite HL|]. apply wp_bind, wp_modify, wp_bind, wp_modify, wp_ret.
      split; [done|]. split; [by destruct HF1; constructor|].
      eapply (freed_owns p cs1 b' n' cs2); try done; [intros o; apply below_in|]. cbn. rewrite Ho1. by destruct cs1.
Qed.

Lemma free_all_wp fuel :
  (length ((b, n) :: cs) < fuel)%nat ->
  wp (obstack_free fuel 0) (fun r w' => r = Some tt /\ Rel funs w0 w' None) w.
Proof.
  intros Hfuel. destruct (owns_own b n ltac:(by left)) as (_ & Hb & _). unfold obstack_free. apply wp_bind, wp_gets.
  rewrite (owns_chunk HO). rewrite (proj2 (Z.ltb_ge b 0)) by lia. cbn [andb].
  unfold _obstack_free. apply wp_bind, wp_gets. rewrite (owns_chunk HO). apply wp_bind.
  eapply wp_mono; [apply (free_loop_wp 0 ((b, n) :: cs) []); rewrite ?app_nil_r; try done|].
  - apply HO.
  - pose proof (o_chain HO) as Hc. by rewrite (owns_chunk HO) in Hc.
  - apply HO.
  - intros [x k] Hx [? _]. cbn in *. destruct (owns_own _ _ Hx) as (_ & ? & _). lia.
  - apply HO.
  - intros r w' (HF' & -> & HB & _). apply wp_ret. split; [done|]. split; [done|]. apply map_eq. intros x. rewrite HB.
    destruct (decide (x ∈ ((b, n) :: cs).*1)) as [Hx|Hx]; [symmetry; by apply chain_own|by apply (o_rest HO)].
Qed.
End free.
Arguments owns_own {funs w0 w s b n cs} _ _.
Arguments chain_length {funs w0 w s b n cs} _ _.

Section all.
Context {place : Chunks} {laws : ChunksLaws} (funs : list (Z * option Z)) (w0 : world).
Abbreviation frame := (frame funs w0).
Abbreviation owns := (owns funs w0).
Abbreviation Rel := (Rel funs w0).
Abbreviation stands := (stands funs w0).

(** *** Queries and accesses of the client *)

Section query.
Context (w : world) (s : stack) (b n : Z) (cs : list (Z * Z)) (HF : frame w) (HO : owns w s b n cs).

Lemma live_in o : o ∈ live s -> exists b' n', (b', n') ∈ (b, n) :: cs /\ b' + CONTENTS <= o.1 /\ o.1 + Z.of_nat (length o.2) <= b' + n'.
Proof.
  intros [->|Ho]%elem_of_cons.
  - exists b, n. split; [by left|]. pose proof (owns_base HO). cbn. lia.
  - destruct o as [a bs]. destruct (placed_in _ _ _ _ _ _ (o_placed HO) Ho) as (b' & n' & ? & ? & ? & _). by exists b', n'.
Qed.

Lemma live_span x : existsb (in_object x) (live s) = true ->
  exists b' n', (b', n') ∈ (b, n) :: cs /\ b' + CONTENTS <= x /\ x + 1 <= b' + n'.
Proof.
  intros (o & Ho%list_elem_of_In & Hx)%existsb_exists. unfold in_object in Hx. apply andb_true_iff in Hx as [?%Z.leb_le ?%Z.ltb_lt].
  destruct (live_in o Ho) as (b' & n' & Hin & ? & ?). exists b', n'. split; [done|]. lia.
Qed.

Lemma allocated_wp p fuel :
  (length ((b, n) :: cs) < fuel)%nat ->
  wp (_obstack_allocated_p fuel p) (fun r w' => w' = w /\ (p ∈ (live s).*1 -> r = 1)) w.
Proof.
  intros Hf. unfold _obstack_allocated_p. apply wp_bind, wp_gets, wp_bind.
  eapply wp_mono; [apply (allocated_loop_wp p ((b, n) :: cs) w); [apply HO|done]|].
  intros r w' [-> Hr]. apply wp_ret. split; [done|]. intros (o & -> & Ho)%list_elem_of_fmap.
  destruct (live_in o Ho) as (b' & n' & Hin & ? & ?). rewrite (proj2 (Z.eqb_neq r 0)); [done|].
  apply Hr. exists (b', n'). split; [done|]. unfold inside, CONTENTS in *. cbn. lia.
Qed.

Lemma chain_sum : 0 <= sum ((b, n) :: cs) <= 9223372036854775808.
Proof.
  split.
  - apply sum_nonneg. intros [x k] Hin. by destruct (owns_own HF HO _ _ Hin) as (_ & _ & ? & _).
  - rewrite <- (Z.sub_0_r 9223372036854775808). apply (sum_disjoint (blocks w) (length ((b, n) :: cs))); [apply HF|done|lia| |].
    + pose proof (o_nodup HO) as Hnd. by apply NoDup_fmap_1 in Hnd.
    + intros x k Hin. destruct (owns_own HF HO _ _ Hin) as (? & ? & ? & ?). split_and!; [done|lia..].
Qed.

Lemma memory_used_wp fuel :
  (length ((b, n) :: cs) < fuel)%nat ->
  wp (_obstack_memory_used fuel) (fun r w' => w' = w /\ total (live s) + room s <= r) w.
Proof.
  intros Hf. unfold _obstack_memory_used. apply wp_bind, wp_gets. pose proof chain_sum as Hs.
  assert (Hn : forall c, c ∈ (b, n) :: cs -> 0 <= c.2).
  { intros [x k] Hin. by destruct (owns_own HF HO _ _ Hin) as (_ & _ & ? & _). }
  eapply wp_mono; [apply (used_loop_wp ((b, n) :: cs) w); [apply HO|done|lia|lia|done]|].
  intros r w' [-> ->]. split; [done|].
  pose proof (placed_total _ _ _ _ _ _ ltac:(intros c Hc; apply Hn; by right) (o_placed HO)) as Ht.
  pose proof (o_room HO). unfold total, live, sum in *. cbn. lia.
Qed.

Lemma empty_wp : wp obstack_empty_p (fun r w' => w' = w /\ (r <> 0 -> total (live s) = 0)) w.
Proof.
  unfold obstack_empty_p. apply wp_bind, wp_gets. pose proof (o_chain HO) as (_ & Hb & _ & _ & q & Hq & Hc).
  rewrite (owns_chunk HO). apply wp_bind. eapply wp_eq; [by apply ld_prev_done|]. apply wp_ret. split; [done|].
  rewrite (owns_mask HO), (o_next HO). pose proof (owns_base HO) as [Hf _]. unfold first in Hf.
  destruct (Z.eqb_spec q 0) as [->|]; [|done]. destruct (Z.eqb_spec (base s + Z.of_nat (length (cur s))) (PTR_ALIGN (b + CONTENTS) (align s - 1))) as [E|]; [|done].
  intros _. assert (cs = []) as -> by (destruct cs as [|[b' n'] cs']; [done|cbn in Hc; lia]).
  unfold live. cbn [total foldr snd]. fold (total (objs s)). assert (cur s = []) as -> by (destruct (cur s); [done|cbn in E; lia]). cbn [length] in *.
  assert (Hbase : base s <= first (align s - 1) b) by (unfold first; lia).
  assert (total (objs s) = 0); [|lia]. pose proof (o_placed HO) as Hp. clear -Hp Hbase.
  remember [(b, n)] as cs0. induction Hp as [| |top b0 n0 cs a bs l Hp IH Hs Ht]; [done|by inversion Heqcs0; subst; inversion Hp|].
  injection Heqcs0 as -> -> ->. pose proof (placed_top _ _ _ _ _ _ Hp) as [? _]. cbn. fold (total l). rewrite IH by (done || lia).
  assert (length bs = 0%nat) by lia. lia.
Qed.

Lemma peek_wp x :
  existsb (in_object x) (live s) = true ->
  wp (peek x) (fun r w' => w' = w /\
    forall o v, o ∈ live s -> o.1 <= x -> o.2 !! Z.to_nat (x - o.1) = Some (Some v) -> r = v) w.
Proof.
  intros (b' & n' & Hin & H1 & H2)%live_span. destruct (owns_own HF HO _ _ Hin) as (Hb & _).
  unfold wp, peek. rewrite (span_ok _ b' n') by done. split; [done|]. intros o v Ho Hx Hv.
  pose proof (o_shown HO) as Hs. rewrite Forall_forall in Hs. rewrite <- (Hs o Ho _ _ Hv). f_equal. lia.
Qed.

Lemma shown_poke m x v o : shown m o -> shown (mputs m x [u8 v]) (poke_object x v o).
Proof.
  intros Hs i c Hi. unfold poke_object in *. cbn [fst snd mputs] in *. fold (mput m x (u8 v)). rewrite mget_mput.
  destruct (in_object x o) eqn:Ein; unfold in_object in Ein.
  - apply andb_true_iff in Ein as [?%Z.leb_le ?%Z.ltb_lt]. destruct (decide (i = Z.to_nat (x - o.1))) as [->|Hne].
    + rewrite list_lookup_insert_eq in Hi by lia. injection Hi as <-. by rewrite decide_True by lia.
    + rewrite list_lookup_insert_ne in Hi by done. rewrite decide_False by lia. by apply Hs.
  - rewrite decide_False; [by apply Hs|]. apply lookup_lt_Some in Hi. intros <-.
    apply andb_false_iff in Ein as [?%Z.leb_gt|?%Z.ltb_ge]; lia.
Qed.

Lemma poke_wp x v :
  existsb (in_object x) (live s) = true ->
  wp (store x [u8 v]) (fun _ w' => frame w' /\
    owns w' (Stack (align s) (poke_object x v <$> objs s) (base s) (poke_object x v (base s, cur s)).2 (room s) (freed s)) b n cs) w.
Proof.
  intros (b' & n' & Hin & H1 & H2)%live_span. destruct (owns_own HF HO _ _ Hin) as (Hb & _).
  eapply wp_eq; [by apply (store_done w b' n' x)|]. split.
  { apply (frame_written funs w0 w b' n'); [done..| |unfold CONTENTS in *; lia|cbn; lia]. apply HO. apply list_elem_of_fmap. by exists (b', n'). }
  assert (El : length (poke_object x v (base s, cur s)).2 = length (cur s)).
  { unfold poke_object. cbn. destruct (in_object _ _); [by rewrite length_insert|done]. }
  pose proof (o_shown HO) as [Hs1 Hs2]%Forall_cons_1. pose proof (o_empty HO) as Hemp. destruct HO. constructor; cbn [ob blocks limits prevs bytes written base cur objs room align]; rewrite ?El; try done.
  - by apply placed_poke.
  - intros Em a ([a' bs] & [= -> Ebs] & Ho)%list_elem_of_fmap. apply Hemp; [done|].
    destruct (in_object x (a', bs)); [|congruence]. assert (bs = []) as -> by (apply nil_length_inv; by rewrite <- (length_insert bs (Z.to_nat (x - a')) (Some (u8 v))), <- Ebs).
    done.
  - rewrite (bool_decide_ext _ _ (vacant_poke (objs s) x v (b, n))).
    pose proof (vacancies_mono (objs s) (poke_object x v <$> objs s) cs) as Hm.
    specialize (Hm ltac:(intros c _; apply vacant_poke)). cbn [freed]. lia.
  - constructor; [by apply (shown_poke _ x v (base s, cur s))|].
    apply Forall_fmap. eapply Forall_impl; [exact Hs2|]. intros o. apply shown_poke.
Qed.
End query.
End all.

Section main.
Context {place : Chunks} {laws : ChunksLaws} (funs : list (Z * option Z)) (w0 : world).
Abbreviation frame := (frame funs w0).
Abbreviation owns := (owns funs w0).
Abbreviation Rel := (Rel funs w0).
Abbreviation stands := (stands funs w0).

(** *** Every call *)

Abbreviation meets m post := (wp m (unless frame (fun r w' => exists t, post r t /\ Rel w' t))).

Lemma stands_rel P w : stands P w -> exists s, P s /\ Rel w (Some s).
Proof. intros (s & b & n & cs & HF & HO & HP). exists s. split; [done|]. split; [done|]. by exists b, n, cs. Qed.

Lemma zero_meets (m : St world (option unit)) P w :
  wp m (unless frame (fun _ => stands P)) w -> meets (zero m) (change P) w.
Proof.
  intros Hm. apply wp_bind. eapply wp_mono; [exact Hm|]. intros [[]|] w'; [|intros Hf; by apply wp_ret].
  intros (s & HP & HR)%stands_rel. apply wp_ret. exists (Some s). split; [|done]. split; [done|]. by exists s.
Qed.

Lemma some_zero_meets (m : St world unit) s w b n cs :
  wp m (fun _ w' => frame w' /\ owns w' s b n cs) w -> meets (zero (some m)) (change (eq s)) w.
Proof.
  intros Hm. apply zero_meets, wp_bind. eapply wp_mono; [exact Hm|]. intros [] w' [HF HO]. apply wp_ret. by exists s, b, n, cs.
Qed.

Lemma query_meets m s P w :
  Rel w (Some s) -> wp m (fun r w' => w' = w /\ P r) w -> meets (some m) (query s P) w.
Proof.
  intros HR Hm. apply wp_bind. eapply wp_mono; [exact Hm|]. intros r w' [-> HP]. apply wp_ret. exists (Some s). done.
Qed.

Lemma finished_meets m bs w s b n cs post :
  frame w -> owns w s b n cs -> Z.of_nat (length bs) < 18446744073709551616 -> grows m bs ->
  (forall r t, (exists s1 s', t = Some s' /\ grown bs s s1 /\ finishes s1 r s') -> post r t) ->
  meets (finished m) post w.
Proof.
  intros HF HO Hl Hg Hp. eapply wp_mono; [by eapply finished_wp|]. intros [r|] w'; [|done].
  intros (s' & (s1 & H1 & H2) & HR)%stands_rel. exists (Some s'). split; [|done]. apply Hp. by exists s1, s'.
Qed.

Lemma guard_post_inv g P post : guard_post g P = Some post -> g = true /\ post = P.
Proof. unfold guard_post. destruct g; [|done]. by intros [= <-]. Qed.

Lemma size_ok_inv n : size_ok n = true -> 0 <= n < 18446744073709551616.
Proof. unfold size_ok. lia. Qed.

Lemma begin_meets o w post :
  Rel w None -> spec funs None o = Some post -> meets (run_op o) post w.
Proof.
  intros [HF Hw] Hs. destruct o; try done; cbn [spec] in Hs; apply guard_post_inv in Hs as [Hg ->]; unfold begin_ok in Hg;
    rewrite !andb_true_iff in Hg; destruct Hg as ((((((H1 & H2) & H3) & H4) & H5) & H6%bool_decide_eq_true) & H7%bool_decide_eq_true);
    cbn [run_op]; [unfold obstack_specify_allocation, _obstack_begin|unfold obstack_specify_allocation_with_arg, _obstack_begin_1];
    do 3 apply wp_bind, wp_modify; try apply wp_bind, wp_modify; apply begin_worker_wp; try done; try lia; by destruct HF.
Qed.

Lemma fits_all_in f g arg : fits_all funs f = true -> (g, arg) ∈ funs -> (f, arg) ∈ funs.
Proof.
  unfold fits_all. rewrite forallb_forall. intros Hf Hg%list_elem_of_In. by apply (Hf _), bool_decide_eq_true in Hg.
Qed.

Lemma chunkfun_meets f w s :
  Rel w (Some s) -> fits_all funs f = true ->
  meets (zero (some (obstack_chunkfun f))) (change (eq s)) w /\ meets (zero (some (obstack_freefun f))) (change (eq s)) w.
Proof.
  intros [HF (b & n & cs & HO)] Hf. pose proof (o_funs HO) as [H1 H2].
  split; apply (some_zero_meets _ s w b n cs), wp_modify; (split; [by apply (frame_upd funs w0)|]); destruct HO; constructor; try done;
    split; cbn; eauto using fits_all_in.
Qed.

Lemma call_meets o w s post :
  Rel w (Some s) -> spec funs (Some s) o = Some post -> meets (run_op o) post w.
Proof.
  intros HR Hs. pose proof HR as [HF (b & n & cs & HO)].
  assert (Hfuel : (length ((b, n) :: cs) < S (size (blocks w)))%nat) by (pose proof (chain_length HF HO); lia).
  destruct o; cbn [spec] in Hs; try done; try (injection Hs as <-);
    try (apply guard_post_inv in Hs as [Hg ->]; try apply size_ok_inv in Hg); cbn [run_op].
  1-6: apply zero_meets; eapply grow_wp; [constructor; lia|done|exact HO|];
    rewrite ?length_fmap, ?length_app, ?length_replicate, ?length_le_enc; cbn [length]; lia.
  - apply zero_meets. by eapply room_made_wp.
  - eapply some_zero_meets. by apply (append_bytes_wp funs w0 w s b n cs HF HO [u8 c]); cbn; lia.
  - eapply some_zero_meets, (append_bytes_wp funs w0 w s b n cs HF HO). rewrite length_le_enc. lia.
  - eapply some_zero_meets, (append_bytes_wp funs w0 w s b n cs HF HO). rewrite length_le_enc. lia.
  - eapply some_zero_meets, (blank_fast_wp funs w0 w s b n cs HF HO). lia.
  - apply wp_bind. eapply wp_mono; [by apply (finish_wp funs w0 w s b n cs)|]. intros p w' (s' & HF' & HO' & Hfin).
    apply wp_ret. exists (Some s'). split; [by exists s'|]. split; [done|]. by exists b, n, cs.
  - eapply (finished_meets _ _ w s b n cs); [done..| |constructor; lia|done]. rewrite length_replicate. lia.
  - eapply (finished_meets _ _ w s b n cs); [done..| |by constructor|done]. rewrite length_fmap. lia.
  - eapply (finished_meets _ _ w s b n cs); [done..| |by constructor|done]. rewrite length_fmap, length_app. cbn. lia.
  - apply bool_decide_eq_true in Hg. apply wp_bind, wp_gets, wp_bind.
    eapply wp_mono; [by apply (free_wp funs w0 w s b n cs)|]. intros r w' [-> (s' & HP & HR')%stands_rel]. apply wp_ret.
    exists (Some s'). split; [|done]. split; [done|]. by exists s'.
  - apply wp_bind, wp_gets, wp_bind. eapply wp_mono; [by apply (free_all_wp funs w0 w s b n cs)|]. intros r w' [-> HR'].
    apply wp_ret. by exists None.
  - by apply chunkfun_meets.
  - by apply chunkfun_meets.
  - apply query_meets; [done|]. apply wp_bind, wp_gets, wp_ret. split; [done|].
    destruct (owns_head HF HO) as (_ & Hb0 & _ & Hbn). pose proof (owns_base HO).
    rewrite (o_base HO), (o_next HO), u64_small by (unfold CONTENTS in *; lia). lia.
  - apply query_meets; [done|]. eapply wp_eq; [by eapply room_done|]. done.
  - apply query_meets; [done|]. apply wp_bind, wp_gets, wp_ret. by rewrite (o_base HO).
  - apply query_meets; [done|]. apply wp_bind, wp_gets, wp_ret. by rewrite (o_next HO).
  - apply query_meets; [done|]. apply wp_bind, wp_gets, wp_ret. by rewrite (owns_mask HO).
  - apply query_meets; [done|]. by eapply empty_wp.
  - apply wp_bind, wp_gets, query_meets; [done|]. by eapply allocated_wp.
  - apply wp_bind, wp_gets, query_meets; [done|]. by eapply memory_used_wp.
  - apply query_meets; [done|]. by eapply peek_wp.
  - eapply some_zero_meets. by eapply poke_wp.
Qed.

Lemma every_op_meets o w t post :
  Rel w t -> spec funs t o = Some post -> meets (run_op o) post w.
Proof. destruct t as [s|]; [apply call_meets|apply begin_meets]. Qed.

Lemma Rel_start : heap_ok (blocks w0) -> Rel w0 None.
Proof. intros HB. split; [|done]. constructor; [done..|]. exists []. by split. Qed.
End main.

(** C24: An obstack is a stack of objects. Whatever allowed calls a client
    makes, each chosen by what the former returned, every object keeps its
    address and the bytes written to it until it or an older object is freed:
    the macros and functions grow the object by their bytes, moving it to a new
    chunk when it must; [obstack_finish] returns the address of the grown
    object, which is aligned unless it is empty and apart from all others;
    [obstack_free] drops an object with all later ones and never aborts; for
    NULL it gives back every chunk. A chunk is given back when its last object
    moves on: as long as nothing was freed every chunk but the current one
    holds an object, and each call of [obstack_free] accounts for at most one
    chunk without ([o_vacant] of [owns]). The client's
    functions are called by their convention, no byte outside the chunks is
    read or written, and every loop ends. Only a refused chunk, for which the
    handler does not return, ends the session early. *)
Theorem obstack_refines {place : Chunks} {laws : ChunksLaws} funs w0 c Q :
  heap_ok (blocks w0) -> safe (spec funs) c None Q ->
  wp (run_client run_op c) (unless (frame funs w0) (fun _ w' => exists t, Rel funs w0 w' t /\ Q t)) w0.
Proof.
  intros HB Hs. eapply (client_refines run_op (spec funs)); [|by apply Rel_start|done].
  intros o w t post. by apply every_op_meets.
Qed.

(** *** A session *)

(** Chunks one behind the other, a byte apart. *)
Definition top (B : gmap Z Z) : Z := foldr (fun x n => Z.max n (Z.max x.1 (x.1 + x.2))) 0 (map_to_list B).

#[export] Instance next_chunk : Chunks := fun e w =>
  let n := match e with Plain _ n => n | Extra _ _ n => n end in
  let p := 1 + top (blocks w) in
  if p + n <=? 9223372036854775808 then Some p else None.

Lemma top_above B b n : B !! b = Some n -> b <= top B /\ b + n <= top B.
Proof.
  intros Hb%elem_of_map_to_list. unfold top. induction (map_to_list B) as [|x l IH]; [by apply elem_of_nil in Hb|].
  cbn. apply elem_of_cons in Hb as [<-|Hb]; [cbn; lia|]. specialize (IH Hb). lia.
Qed.

Lemma top_nonneg B : 0 <= top B.
Proof. unfold top. induction (map_to_list B); cbn; lia. Qed.

#[export] Instance next_chunk_laws : ChunksLaws.
Proof.
  intros f n w p Hp. assert (E : (if 1 + top (blocks w) + n <=? 9223372036854775808 then Some (1 + top (blocks w)) else None) = Some p)
    by (destruct Hp as [Hp|[arg Hp]]; exact Hp).
  destruct (Z.leb_spec (1 + top (blocks w) + n) 9223372036854775808); [|done]. injection E as <-. pose proof (top_nonneg (blocks w)).
  split_and!; [lia|lia| |].
  - apply eq_None_not_Some. intros [s Hs]. pose proof (top_above _ _ _ Hs). lia.
  - intros b s Hs. pose proof (top_above _ _ _ Hs). lia.
Qed.

Definition demo_start : world :=
  World (Ob 0 0 0 0 0 0 0 0 0 false false false) ∅ ∅ ∅ ∅ [].

Definition demo_calls : list op :=
  [Begin1 64 8 1 2 3; Copy0 [97; 98]; Grow1 99; Room; Grow (replicate 40 100); Finish; Peek 26; Alloc 0; MemoryUsed;
   AllocatedP 26; ObjectSize; Free 88; Base; EmptyP; Free 24; EmptyP; FreeAll].

Fixpoint run_ops `{Chunks} (os : list op) : St world (option (list Z)) :=
  match os with
  | [] => ret (Some [])
  | o :: os => r <-? run_op o ;; rs <-? run_ops os ;; ret (Some (r :: rs))
  end.

Example obstack_demo :
  match run_ops demo_calls demo_start with
  | Done (r, w) => Some (r, map_to_list (blocks w), calls w)
  | _ => None
  end = Some (Some [1; 24; 0; 32; 0; 88; 0; 136; 212; 1; 0; 0; 88; 0; 0; 1; 0],
          [], [Extra 2 3 1; Extra 2 3 66; Extra 1 3 148; Extra 1 3 64]).
Proof. vm_compute. reflexivity. Qed.

(** A chunk too small for its fields and the alignment: the room wraps around
    and the first byte is written behind the chunk. *)
Example obstack_small_chunk :
  (if run_ops [Begin 20 16 1 2; Room] demo_start is Done (r, _) then r else None) = Some [1; 18446744073709551605] /\
  run_ops [Begin 20 16 1 2; Grow1 0] demo_start = Undef.
Proof. split; vm_compute; reflexivity. Qed.

(** An empty object at the end of a chunk is not aligned. *)
Example obstack_unaligned :
  (if run_ops [Begin 64 16 1 2; Alloc 30; Alloc 1; Alloc 0] demo_start is Done (r, _) then r else None) =
  Some [1; 32; 64; 65].
Proof. vm_compute. reflexivity. Qed.

(** A client that reads back what it wrote before the next chunk; it makes a
    call that is not allowed if it reads anything else. *)
Definition demo_client : client op Z :=
  Do (Begin1 64 8 1 2 3) (fun _ => Do (Copy0 [97; 98]) (fun p => Do (Blank 200) (fun _ => Do Finish (fun q =>
  Do (Peek (p + 1)) (fun v => if v =? 98 then Do (Free p) (fun _ => Do FreeAll (fun _ => Stop)) else Do (Begin1 64 8 1 2 3) (fun _ => Stop)))))).

Lemma demo_client_safe : safe (spec [(1, Some 3); (2, Some 3)]) demo_client None (fun t => t = None).
Proof.
  cbn [safe demo_client spec guard_post]. change (begin_ok _ _ _ _ _ _) with true. intros r1 t1 (b & n & -> & -> & Hn).
  intros p t2 (s1 & s2 & -> & (s1' & (b1 & n1 & -> & _) & ->) & (b2 & n2 & Ep & -> & _)). cbn in Ep. subst p.
  intros r3 t3 (-> & s3 & -> & s3' & (b3 & n3 & -> & _) & ->).
  intros q t4 (s4 & -> & (b4 & n4 & -> & -> & _)). cbn [extend base cur objs align room live app].
  change (Some <$> [97; 98] ++ [0]) with [Some 97; Some 98; Some 0]. cbn [spec].
  set (s5 := Stack _ _ _ _ _ _). assert (H1 : (b1, [Some 97; Some 98; Some 0]) ∈ live s5) by (right; right; by left).
  replace (existsb (in_object (b1 + 1)) (live s5)) with true.
  2: { symmetry. apply existsb_exists. eexists. split; [apply list_elem_of_In, H1|]. unfold in_object. cbn [fst snd length]. apply andb_true_iff. split; [apply Z.leb_le|apply Z.ltb_lt]; lia. }
  intros v t5 (-> & Hv). rewrite (Hv _ 98 H1); [|cbn; lia|cbn [fst snd]; by replace (Z.to_nat (b1 + 1 - b1)) with 1%nat by lia].
  cbn [Z.eqb Pos.eqb safe spec]. rewrite bool_decide_true by (right; by left).
  intros r6 t6 (-> & s6 & -> & r & -> & _). by intros r7 t7 [_ ->].
Qed.

Lemma obstack_refines_witness :
  heap_ok (blocks demo_start) /\
  wp (run_client run_op demo_client) (unless (frame [(1, Some 3); (2, Some 3)] demo_start) (fun _ w' => exists t,
    Rel [(1, Some 3); (2, Some 3)] demo_start w' t /\ t = None)) demo_start.
Proof.
  assert (H : heap_ok (blocks demo_start)) by done. split; [exact H|].
  exact (obstack_refines [(1, Some 3); (2, Some 3)] demo_start demo_client (fun t => t = None) H demo_client_safe).
Defined.
